(** * KTRIE: a shallow embedding of the trie engine and its properties

    The development follows the C++ sources of the repository:

    - [ktrie_defines.h]            flag bits, byte-order helpers, [alloc_size]
    - [ktrie_num_cvt.h]            numeric key encoding ([cvt_numeric])
    - [ktrie_dirty_high_pointer.h] tagged pointers
    - [ktrie_hop.h], [ktrie_skip.h] compressed runs
    - [ktrie_node.h]               the 8-byte node, POP helpers, allocation
    - [ktrie_flags_loc.h]          flag carriers
    - [ktrie_insert_help.h]        the insert engine
    - [ktrie_remove_help.h]        the remove engine
    - [ktrie_nav.h]                ordered navigation
    - [ktrie_base.h]               the container ([ktrie_base])

    Machine words are modelled as [Z] with the wrap-around written out,
    node arrays live in a flat word-addressed memory ([gmap Z Z]), and the
    stateful code is written in a small state-and-error monad.  The host is
    taken to be little-endian (the only place where this is visible is the
    in-memory image of SKIP bodies and of [std::bit_cast]). *)

From Stdlib Require Import ZArith List Lia Bool String Ascii Sorted.
From stdpp Require Import gmap.
Import ListNotations.

Local Open Scope Z_scope.

(* ===================================================================== *)
(** * Bytes and byte strings *)
(* ===================================================================== *)

(** Keys are byte strings; a byte is a [Z] in [0, 256). *)
Definition is_byte (b : Z) : Prop := 0 <= b < 256.

Definition key_of_string (s : string) : list Z :=
  List.map (fun a => Z.of_N (N_of_ascii a)) (list_ascii_of_string s).

(** Byte-lexicographic strict order: the order of [memcmp] followed by the
    length, i.e. that of [std::string::compare] on unsigned bytes. *)
Fixpoint bytes_lt (a b : list Z) : bool :=
  match a, b with
  | _, [] => false
  | [], _ :: _ => true
  | x :: a', y :: b' => (x <? y) || ((x =? y) && bytes_lt a' b')
  end.

Definition bytes_le (a b : list Z) : bool := negb (bytes_lt b a).

Fixpoint bytes_eqb (a b : list Z) : bool :=
  match a, b with
  | [], [] => true
  | x :: a', y :: b' => (x =? y) && bytes_eqb a' b'
  | _, _ => false
  end.

(** The in-memory image of a [w]-byte unsigned integer on the little-endian
    host, and its inverse: this is what [std::bit_cast] to and from
    [std::array<char, w>] does. *)
Fixpoint le_bytes (w : nat) (x : Z) : list Z :=
  match w with
  | O => []
  | S w' => (x mod 256) :: le_bytes w' (x / 256)
  end.

Fixpoint of_le_bytes (l : list Z) : Z :=
  match l with
  | [] => 0
  | b :: r => b + 256 * of_le_bytes r
  end.

(** The big-endian representation, most significant byte first (this
    definition follows the words of the specification and is compared with
    the code's encoding below). *)
Fixpoint be_bytes (w : nat) (x : Z) : list Z :=
  match w with
  | O => []
  | S w' => ((x / 256 ^ Z.of_nat w') mod 256) :: be_bytes w' x
  end.

(* ===================================================================== *)
(** * ktrie_num_cvt.h : numeric keys *)
(* ===================================================================== *)

Module detail.
(** [detail::do_byteswap]: on the little-endian host the bytes of the
    value are reversed ([std::byteswap], [__builtin_bswapN]). *)
Definition do_byteswap (w : nat) (inp : Z) : Z :=
  of_le_bytes (rev (le_bytes w inp)).
End detail.

(** [cvt_numeric<T>] for an unsigned [T] of [w] bytes. *)
Module cvt_unsigned.
Definition bitcvt (w : nat) (inp : Z) : list Z :=
  let inp := detail.do_byteswap w inp in
  le_bytes w inp.

Definition uncvt (w : nat) (val : list Z) : Z :=
  let ret := of_le_bytes val in
  detail.do_byteswap w ret.
End cvt_unsigned.

(** [cvt_numeric<T>] for a signed [T] of [w] bytes; [unsign] is the
    unsigned type of the same width, whose arithmetic wraps modulo
    [256 ^ w]. *)
Module cvt_signed.
Definition modulus (w : nat) : Z := 256 ^ Z.of_nat w.
Definition numeric_max (w : nat) : Z := modulus w / 2 - 1.
Definition numeric_min (w : nat) : Z := - (modulus w / 2).
Definition to_unsign (w : nat) (x : Z) : Z := x mod modulus w.
Definition to_T (w : nat) (x : Z) : Z :=
  let u := x mod modulus w in
  if u <? modulus w / 2 then u else u - modulus w.

Definition make_sortable (w : nat) (inp : Z) : Z :=
  let uns := to_unsign w (numeric_max w) in
  let uns := to_unsign w (uns + 1) in
  let uns := to_unsign w (uns + to_unsign w inp) in
  uns.

Definition unmake_sortable (w : nat) (inp : Z) : Z :=
  let sign := to_unsign w (numeric_max w) in
  let sign := to_unsign w (sign + 1) in
  let ret := to_T w (to_unsign w (inp - sign)) in
  ret.

Definition bitcvt (w : nat) (inp : Z) : list Z :=
  let s := make_sortable w inp in
  let s := detail.do_byteswap w s in
  le_bytes w s.

Definition uncvt (w : nat) (val : list Z) : Z :=
  let ret := of_le_bytes val in
  let ret := detail.do_byteswap w ret in
  let ret := to_unsign w (unmake_sortable w ret) in
  to_T w ret.
End cvt_signed.

(* ===================================================================== *)
(** * ktrie_defines.h *)
(* ===================================================================== *)

(** Unsigned 64-bit and 8-bit wrap-around. *)
Definition wrap64 (x : Z) : Z := x mod 2 ^ 64.
Definition wrap8 (x : Z) : Z := x mod 256.

(** [enum flags : t_flag] *)
Definition eos_bit : Z := 1.
Definition skip_bit : Z := 2.
Definition hop_bit : Z := 4.
Definition list_bit : Z := 8.
Definition pop_bit : Z := 16.

(** [enum flag_count { num_bits = 5 }] *)
Definition num_bits : Z := 5.

Definition has_bit (u c : Z) : bool := negb (Z.land u c =? 0).

(** [u & ~c] on a [t_flag]. *)
Definition clear_bits (u c : Z) : Z := wrap8 (Z.land u (Z.lnot c)).

(** [alloc_size]: [(n + x) & ~x] with [x = 3] up to 24 nodes, else 15. *)
Definition alloc_size (n : Z) : Z :=
  let x := if n <=? 24 then 3 else 15 in
  Z.land (n + x) (Z.lnot x).

(** [byteswap_if_le] on the little-endian host. *)
Definition byteswap_if_le (x : Z) : Z := of_le_bytes (rev (le_bytes 8 x)).

(** [to_char_static]: the eight bytes of the word, most significant first. *)
Definition to_char_static (x : Z) : list Z := le_bytes 8 (byteswap_if_le x).

(** [from_char_static(std::array<char, 8>)]. *)
Definition from_char_static (from : list Z) : Z :=
  byteswap_if_le (of_le_bytes (firstn 8 from)).

(** [from_char_static(const char*, size_t len)]: [len] bytes are copied
    into a zeroed word.  The source asserts [len > 0 && len < 8]; the
    assertion is checked by the callers in the monad below
    ([assert_from_char_len]). *)
Definition from_char_static_n (from : list Z) (len : Z) : Z :=
  byteswap_if_le (of_le_bytes (firstn (Z.to_nat len) from)).

Definition from_char_len_ok (len : Z) : bool := (0 <? len) && (len <? 8).

(** [arr[i]] and [arr[i] = v] on a [std::array<char, 8>]. *)
Definition arr_get (arr : list Z) (i : Z) : Z := nth (Z.to_nat i) arr 0.

Fixpoint arr_set (arr : list Z) (i : nat) (v : Z) : list Z :=
  match arr, i with
  | [], _ => []
  | _ :: r, O => v :: r
  | a :: r, S i' => a :: arr_set r i' v
  end.

(** [std::popcount] and [std::countr_zero] on 64-bit words. *)
Fixpoint popcount_pos (p : positive) : Z :=
  match p with
  | xH => 1
  | xO q => popcount_pos q
  | xI q => 1 + popcount_pos q
  end.

Definition popcount (x : Z) : Z :=
  match x with
  | Zpos p => popcount_pos p
  | _ => 0
  end.

Fixpoint countr_zero_pos (p : positive) : Z :=
  match p with
  | xO q => 1 + countr_zero_pos q
  | _ => 0
  end.

Definition countr_zero (x : Z) : Z :=
  match x with
  | Zpos p => countr_zero_pos p
  | _ => 64
  end.

(* ===================================================================== *)
(** * ktrie_dirty_high_pointer.h *)
(* ===================================================================== *)

Module dirty_high_pointer.
Definition ptr_mask : Z := Z.shiftl 1 (64 - num_bits) - 1.
Definition flag_shift : Z := 64 - num_bits.

Definition make (p x : Z) : Z :=
  Z.lor (wrap64 (Z.shiftl x flag_shift)) (Z.land p ptr_mask).

Definition get_byte (raw : Z) : Z := wrap8 (Z.shiftr raw flag_shift).

Definition set_byte (raw x : Z) : Z :=
  Z.lor (Z.land raw ptr_mask) (wrap64 (Z.shiftl x flag_shift)).

Definition get_ptr (raw : Z) : Z := Z.land raw ptr_mask.

Definition set_ptr (raw p : Z) : Z :=
  Z.lor (wrap64 (Z.land raw (Z.lnot ptr_mask))) (Z.land p ptr_mask).

Definition get_both (raw : Z) : Z * Z :=
  (Z.land raw ptr_mask, wrap8 (Z.shiftr raw flag_shift)).
End dirty_high_pointer.

(* ===================================================================== *)
(** * ktrie_hop.h *)
(* ===================================================================== *)

Module t_hop.
Definition max_hop : Z := 6.
Definition sz_offset : Z := 7.
Definition new_flags_offset : Z := max_hop.

(** [t_hop(const char* c, size_t len, uint8_t flags)]; the constructor
    asserts [len > 0 && len <= max_hop]. *)
Definition make (c : list Z) (len : Z) (flags : Z) : Z :=
  let data := from_char_static_n c len in
  let data := wrap64 (Z.lor (Z.land data (Z.lnot 255)) len) in
  let data := Z.lor (Z.land data (Z.lnot 65280)) (Z.shiftl flags 8) in
  data.

Definition make_ok (len : Z) : bool := (0 <? len) && (len <=? max_hop).

Definition get_char_at (data pos : Z) : Z := arr_get (to_char_static data) pos.
Definition get_new_flags (data : Z) : Z := get_char_at data new_flags_offset.
Definition get_hop_sz (data : Z) : Z := get_char_at data sz_offset.

Definition to_string (data : Z) : list Z :=
  firstn (Z.to_nat (get_hop_sz data)) (to_char_static data).

(** [matches]: the length check, then one masked 64-bit comparison.  The
    call of [from_char_static] asserts [0 < my_sz < 8]. *)
Definition matches_ok (data : Z) (remaining : Z) : bool :=
  (get_hop_sz data >? remaining) || from_char_len_ok (get_hop_sz data).

Definition matches (data : Z) (c : list Z) (remaining : Z) : bool :=
  let my_sz := get_hop_sz data in
  if my_sz >? remaining then false
  else Z.land data (Z.lnot 65535)
       =? Z.land (from_char_static_n c my_sz) (Z.lnot 65535).

Fixpoint find_mismatch_from (my_data c : list Z) (n : nat) (i : Z) : Z :=
  match n with
  | O => i
  | S n' =>
      match my_data, c with
      | x :: my_data', y :: c' =>
          if x =? y then find_mismatch_from my_data' c' n' (i + 1) else i
      | _, _ => i
      end
  end.

Definition find_mismatch (data : Z) (c : list Z) (remaining : Z) : Z :=
  let my_sz := get_hop_sz data in
  let check_len := Z.min my_sz remaining in
  find_mismatch_from (to_char_static data) c (Z.to_nat check_len) 0.

(** Writing the [new_flags] byte the way the engines do it:
    [arr[new_flags_offset] = f; from_u64(from_char_static(arr))]. *)
Definition with_new_flags (data f : Z) : Z :=
  from_char_static
    (arr_set (to_char_static data) (Z.to_nat new_flags_offset) (wrap8 f)).

(** [get_suffix]: the characters from [start] on as a HOP of their own,
    with a zero flags byte.  The source asserts [start < my_sz]. *)
Definition get_suffix_ok (data start : Z) : bool := start <? get_hop_sz data.

Definition get_suffix (data start : Z) : Z :=
  let my_sz := get_hop_sz data in
  let arr := to_char_static data in
  let h := from_char_static_n (skipn (Z.to_nat start) arr) (my_sz - start) in
  wrap64 (Z.lor (Z.land h (Z.lnot 255)) (my_sz - start)).
End t_hop.

(* ===================================================================== *)
(** * ktrie_skip.h *)
(* ===================================================================== *)

Module t_skip.
Definition flag_shift : Z := 64 - num_bits.
Definition len_mask : Z := Z.shiftl 1 (64 - num_bits) - 1.

Definition make (len flags : Z) : Z :=
  Z.lor (wrap64 (Z.shiftl flags flag_shift)) (Z.land len len_mask).

Definition get_new_flags (data : Z) : Z := wrap8 (Z.shiftr data flag_shift).
Definition get_skip_len (data : Z) : Z := Z.land data len_mask.
Definition num_skip_nodes (n : Z) : Z := (n + 7) / 8.
End t_skip.

(* ===================================================================== *)
(** * ktrie_small_list.h *)
(* ===================================================================== *)

(** Modelled from the spec: [ktrie_small_list.h] (class [t_small_list]) is
    not among the sources.  Section 3.5 of the specification fixes the
    layout: up to 7 characters sorted ascending in bytes 0-6 and a count
    (1...7) in byte 7, the bytes being those of [to_char_static] (the remove
    engine edits the word through [to_char_static] with the count at
    [arr[7]]).  Section 4.D fixes the lookup: a linear scan of the sorted
    bytes; [offset] returns the 1-based position, 0 when absent. *)
Module t_small_list.
Definition max_list : Z := 7.

Definition get_list_sz (data : Z) : Z := arr_get (to_char_static data) 7.
Definition get_list_at (data i : Z) : Z := arr_get (to_char_static data) i.

Definition chars (data : Z) : list Z :=
  firstn (Z.to_nat (get_list_sz data)) (firstn 7 (to_char_static data)).

Fixpoint offset_from (cs : list Z) (c : Z) (i : Z) : Z :=
  match cs with
  | [] => 0
  | x :: cs' => if x =? c then i else offset_from cs' c (i + 1)
  end.

Definition offset (data c : Z) : Z := offset_from (chars data) c 1.

Definition of_chars (cs : list Z) : Z :=
  from_char_static
    (arr_set (firstn 7 cs ++ repeat 0 (8 - Nat.min 7 (List.length cs)))
             7 (Z.of_nat (List.length cs))).

(** [t_small_list{c1, c2}]: the two characters in ascending order. *)
Definition make2 (c1 c2 : Z) : Z :=
  if c1 <? c2 then of_chars [c1; c2] else of_chars [c2; c1].

Fixpoint insert_sorted (cs : list Z) (c : Z) : list Z :=
  match cs with
  | [] => [c]
  | x :: cs' => if c <? x then c :: x :: cs' else x :: insert_sorted cs' c
  end.

Fixpoint insert_pos (cs : list Z) (c : Z) (i : Z) : Z :=
  match cs with
  | [] => i
  | x :: cs' => if c <? x then i else insert_pos cs' c (i + 1)
  end.

(** [int insert(int lsz, char c)]: the list gains [c] at its sorted
    position, which is returned. *)
Definition insert (data lsz c : Z) : Z * Z :=
  let cs := firstn (Z.to_nat lsz) (firstn 7 (to_char_static data)) in
  (insert_pos cs c 0, of_chars (insert_sorted cs c)).
End t_small_list.

(* ===================================================================== *)
(** * Memory, allocation and the state-and-error monad *)
(* ===================================================================== *)

(** Node arrays live in a flat memory of 64-bit words, addressed by byte
    address (a node pointer advances by 8).  The allocator is a bump
    allocator; [budget] is the number of node-array allocations that will
    still succeed ([None]: unbounded), so that [std::bad_alloc] can be
    injected at any allocation. *)
Record heap : Type := mk_heap {
  mem : gmap Z Z;
  brk : Z;
  budget : option nat
}.

(** Ways in which a run leaves the defined behaviour of the program (or
    the model's step bound). *)
Inductive fault : Type :=
| OutOfFuel
| BadAccess (addr : Z)
| AssertionFailed
| NegativeSize.

(** The outcome of a computation: a value and the new memory, an
    exception [std::bad_alloc] propagating out (with the memory at the
    point of the throw), or a fault. *)
Inductive result (A : Type) : Type :=
| Ok (a : A) (h : heap)
| BadAlloc (h : heap)
| Crash (f : fault).

Arguments Ok {A} a h.
Arguments BadAlloc {A} h.
Arguments Crash {A} f.

Definition M (A : Type) : Type := heap -> result A.

Definition mret {A} (a : A) : M A := fun h => Ok a h.

Definition mbind {A B} (c : M A) (k : A -> M B) : M B :=
  fun h =>
    match c h with
    | Ok a h' => k a h'
    | BadAlloc h' => BadAlloc h'
    | Crash f => Crash f
    end.

Definition crash {A} (f : fault) : M A := fun _ => Crash f.

Declare Scope ktrie_scope.
Delimit Scope ktrie_scope with ktrie.
Notation "x <- c ;; k" := (mbind c (fun x => k))
  (at level 100, c at next level, right associativity) : ktrie_scope.
Notation "c ;;; k" := (mbind c (fun _ => k))
  (at level 100, right associativity) : ktrie_scope.
Local Open Scope ktrie_scope.

(** [KTRIE_DEBUG_ASSERT] *)
Definition assert (b : bool) : M unit :=
  if b then mret tt else crash AssertionFailed.

(** [p + i] and [p - q] on node pointers. *)
Definition idx (p i : Z) : Z := p + 8 * i.
Definition ptr_diff (p q : Z) : Z := (p - q) / 8.

Definition load (p : Z) : M Z :=
  fun h =>
    match mem h !! p with
    | Some v => Ok v h
    | None => Crash (BadAccess p)
    end.

Definition store (p v : Z) : M unit :=
  fun h =>
    match mem h !! p with
    | Some _ => Ok tt (mk_heap (<[p := v]> (mem h)) (brk h) (budget h))
    | None => Crash (BadAccess p)
    end.

Fixpoint load_n (p : Z) (n : nat) : M (list Z) :=
  match n with
  | O => mret []
  | S n' => v <- load p ;; r <- load_n (idx p 1) n' ;; mret (v :: r)
  end.

Fixpoint store_n (p : Z) (vs : list Z) : M unit :=
  match vs with
  | [] => mret tt
  | v :: r => store p v ;;; store_n (idx p 1) r
  end.

(** [memcpy(dst, src, n * sizeof(node_type))]; sizes are mathematical
    integers here, and a negative one (a wrapped [size_t] in the source,
    larger than any allocation) is a fault. *)
Definition memcpy (dst src n : Z) : M unit :=
  if n <? 0 then crash NegativeSize
  else vs <- load_n src (Z.to_nat n) ;; store_n dst vs.

(** The bytes at a [const char*] pointing into node memory. *)
Definition read_bytes (p n : Z) : M (list Z) :=
  if n <? 0 then crash NegativeSize
  else
    ws <- load_n p (Z.to_nat ((n + 7) / 8)) ;;
    mret (firstn (Z.to_nat n) (concat (List.map (le_bytes 8) ws))).

Fixpoint chunks8 (fuel : nat) (l : list Z) : list Z :=
  match fuel with
  | O => []
  | S fuel' =>
      match l with
      | [] => []
      | _ => of_le_bytes (firstn 8 l) :: chunks8 fuel' (skipn 8 l)
      end
  end.

Module node.
Fixpoint fill (p : Z) (n : nat) (m : gmap Z Z) : gmap Z Z :=
  match n with
  | O => m
  | S n' => <[p := 0]> (fill (idx p 1) n' m)
  end.

Fixpoint unmap (p : Z) (n : nat) (m : gmap Z Z) : gmap Z Z :=
  match n with
  | O => m
  | S n' => delete p (unmap (idx p 1) n' m)
  end.

(** [node::allocate]: [len] nodes, each constructed with [data_ = 0].
    One unmapped word is left after every array. *)
Definition allocate (len : Z) : M Z :=
  fun h =>
    match budget h with
    | Some O => BadAlloc h
    | b =>
        let p := brk h in
        Ok p (mk_heap (fill p (Z.to_nat len) (mem h))
                      (idx p (len + 1))
                      (match b with Some (S k) => Some k | _ => b end))
    end.

(** [node::deallocate] *)
Definition deallocate (array len : Z) : M unit :=
  fun h =>
    if array =? 0 then Ok tt h
    else Ok tt (mk_heap (unmap array (Z.to_nat len) (mem h)) (brk h) (budget h)).

(** [node::skip_copy]: 8 characters per node, zero padded. *)
Definition skip_copy (ptr : Z) (src : list Z) (sz : Z) : M unit :=
  let bytes := firstn (Z.to_nat sz) src in
  store_n ptr (chunks8 (List.length bytes) bytes).

(** For a value type that is [small_class] and integral (here
    [T = std::uint64_t]) the value is stored in the node itself:
    [set_data] and [update_data] write [make_val(c)], [get_data_ptr] is
    the address of the node, and [t_data::destroy] does nothing.  The
    other branch of these functions ([big_class]: the value lives in
    storage of its own, which [set_data] allocates and [update_data] frees
    and allocates again) is not embedded; what is proved below about
    storing, replacing or destroying a value is about values stored in the
    node. *)
Definition set_data (p : Z) (c : Z) : M unit := store p (wrap64 c).
Definition update_data (p : Z) (c : Z) : M unit := store p (wrap64 c).
Definition get_data_ptr (p : Z) : Z := p.
End node.

(** [get_pop_chars]: the characters of a POP bitmap in ascending order,
    clearing the lowest set bit of each word in turn.  The
    [std::vector<char>] it returns is a list here: the memory the source
    takes for it is no part of the node memory of the embedding. *)
Fixpoint pop_word_chars (fuel : nat) (word : Z) (bits : Z) : list Z :=
  match fuel with
  | O => []
  | S fuel' =>
      if bits =? 0 then []
      else
        let bit := countr_zero bits in
        (wrap8 (word * 64 + bit)) :: pop_word_chars fuel' word (Z.land bits (bits - 1))
  end.

Definition get_pop_chars_of (pop : list Z) : list Z :=
  pop_word_chars 64 0 (nth 0 pop 0) ++ pop_word_chars 64 1 (nth 1 pop 0) ++
  pop_word_chars 64 2 (nth 2 pop 0) ++ pop_word_chars 64 3 (nth 3 pop 0).

Definition get_pop_chars (pop : Z) : M (list Z) :=
  ws <- load_n pop 4 ;; mret (get_pop_chars_of ws).

(** [do_find_skip]: [memcmp(search, in, len) == 0]. *)
Definition do_find_skip (search : Z) (inp : list Z) (len : Z) : M bool :=
  sd <- read_bytes search len ;;
  mret (bytes_eqb sd (firstn (Z.to_nat len) inp)).

(** [do_find_pop] on the four bitmap words: [None] when the bit of [c] is
    clear, otherwise the offset [*run_add] of the child pointer. *)
Definition do_find_pop_of (search : list Z) (c : Z) : option Z :=
  let v := wrap8 c in
  let word := Z.shiftr v 6 in
  let bit := Z.land v 63 in
  let mask := Z.shiftl 1 bit in
  let sw := nth (Z.to_nat word) search 0 in
  if Z.land sw mask =? 0 then None
  else
    let w0 := 4 + popcount (Z.land sw (mask - 1)) in
    let w1 := w0 + popcount (nth 0 search 0) in
    let w2 := w1 + popcount (nth 1 search 0) in
    let w3 := w2 + popcount (nth 2 search 0) in
    Some (nth (Z.to_nat word) [w0; w1; w2; w3] 0).

Definition do_find_pop (search : Z) (c : Z) : M (option Z) :=
  ws <- load_n search 4 ;; mret (do_find_pop_of ws c).

(* ===================================================================== *)
(** * ktrie_flags_loc.h *)
(* ===================================================================== *)

Module flags_location.
Inductive type : Type := in_ptr | in_hop | in_skip.

Definition type_eqb (a b : type) : bool :=
  match a, b with
  | in_ptr, in_ptr | in_hop, in_hop | in_skip, in_skip => true
  | _, _ => false
  end.

Record t : Type := mk { loc_ : type; node_ : Z }.

Definition get (fl : t) : M Z :=
  if node_ fl =? 0 then mret 0
  else
    w <- load (node_ fl) ;;
    mret (match loc_ fl with
          | in_ptr => dirty_high_pointer.get_byte w
          | in_hop => t_hop.get_new_flags w
          | in_skip => t_skip.get_new_flags w
          end).

Definition set (fl : t) (f : Z) : M unit :=
  if node_ fl =? 0 then mret tt
  else
    w <- load (node_ fl) ;;
    match loc_ fl with
    | in_ptr => store (node_ fl) (dirty_high_pointer.set_byte w f)
    | in_hop => store (node_ fl) (t_hop.with_new_flags w f)
    | in_skip => store (node_ fl) (t_skip.make (t_skip.get_skip_len w) (wrap8 f))
    end.

(** [add_flags]: [set(get() | f)], and [remove_flags]: [set(get() & ~f)],
    on a [t_flag]. *)
Definition add_flags (fl : t) (f : Z) : M unit :=
  g <- get fl ;; set fl (wrap8 (Z.lor g f)).

Definition remove_flags (fl : t) (f : Z) : M unit :=
  g <- get fl ;; set fl (clear_bits g f).

(** [set_child_ptr]: the pointer of the reference node is replaced. *)
Definition set_child_ptr (fl : t) (ref child : Z) : M unit :=
  p <- load ref ;;
  store ref (dirty_high_pointer.set_ptr p child).

(** [set_flags_and_ptr]: the flags go to the carrier, the pointer to the
    reference node, which also takes the flags when the carrier is a
    pointer. *)
Definition set_flags_and_ptr (fl : t) (ref f child : Z) : M unit :=
  set fl f ;;;
  p <- load ref ;;
  let p := dirty_high_pointer.set_ptr p child in
  let p := if type_eqb (loc_ fl) in_ptr then dirty_high_pointer.set_byte p f else p in
  store ref p.
End flags_location.

(** The result of one pass through a loop body: go on with a new loop
    state, or leave the enclosing function with a value. *)
Inductive loop_exit (S R : Type) : Type :=
| Next (s : S)
| Done (r : R).

Arguments Next {S R} s.
Arguments Done {S R} r.

(** Length of the common prefix of the key and a compressed run, scanned
    as [while (i < cl && key[i] == sd[i]) i++]. *)
Fixpoint common_prefix (key sd : list Z) (cl : nat) (i : Z) : Z :=
  match cl with
  | O => i
  | S cl' =>
      match key, sd with
      | x :: key', y :: sd' =>
          if x =? y then common_prefix key' sd' cl' (i + 1) else i
      | _, _ => i
      end
  end.

(** Guarded array reads: the last word is probed first, so that a run
    length read from a word that is not a run header faults at once. *)
Definition load_words (p n : Z) : M (list Z) :=
  if n <=? 0 then mret []
  else load (idx p (n - 1)) ;;; load_n p (Z.to_nat n).

Definition copy_nodes (dst src n : Z) : M unit :=
  if n <? 0 then crash NegativeSize
  else vs <- load_words src n ;; store_n dst vs.

Definition skip_bytes (p n : Z) : M (list Z) :=
  ws <- load_words p (t_skip.num_skip_nodes n) ;;
  mret (firstn (Z.to_nat n) (concat (List.map (le_bytes 8) ws))).

Definition path_bits : Z := Z.lor (Z.lor hop_bit skip_bit) (Z.lor list_bit pop_bit).
Definition run_bits : Z := Z.lor hop_bit skip_bit.
Definition branch_bits : Z := Z.lor list_bit pop_bit.
Definition prefix_bits : Z := Z.lor eos_bit (Z.lor hop_bit skip_bit).

Definition b2z (b : bool) : Z := if b then 1 else 0.
Definition zlen (l : list Z) : Z := Z.of_nat (List.length l).

(* ===================================================================== *)
(** * ktrie_insert_help.h *)
(* ===================================================================== *)

Module insert_helper.
Import flags_location.

(** [struct insert_update_ret]; the pair [add_val], [add_last] is the
    remaining key, [add_ptr] the value to store. *)
Record insert_update_ret : Type := mk_ret {
  add_val : list Z;
  add_ptr : Z;
  tail_ptr : Z;
  ret : Z;
  cnt : Z
}.

Definition init_ret (key : list Z) (a t : Z) : insert_update_ret :=
  mk_ret key a t 0 1.

Definition get_size (t : insert_update_ret) : Z := zlen (add_val t).

(** [struct modify_data] *)
Record modify_data : Type := mk_md {
  ref : Z;
  node_start : Z;
  run : Z;
  flags : Z;
  initial_flags : Z;
  flags_writer : flags_location.t
}.

Definition init_md (r s rp f : Z) : modify_data :=
  mk_md r s rp f f (flags_location.mk in_ptr r).

(** [pop[v >> 6] |= 1ULL << (v & 63)] on the four bitmap words. *)
Definition set_pop_for (c : Z) (pop : list Z) : list Z :=
  let v := wrap8 c in
  let w := Z.to_nat (Z.shiftr v 6) in
  arr_set pop w (Z.lor (nth w pop 0) (Z.shiftl 1 (Z.land v 63))).

Definition pop_total (pop : list Z) : Z :=
  popcount (nth 0 pop 0) + popcount (nth 1 pop 0) +
  popcount (nth 2 pop 0) + popcount (nth 3 pop 0).

(** The [while] loop of [node_array_sz]. *)
Fixpoint node_array_sz_scan (fuel : nat) (run flags : Z) : M (Z * Z) :=
  match fuel with
  | O => crash OutOfFuel
  | S fuel' =>
      if has_bit flags prefix_bits then
        let run := idx run (b2z (has_bit flags eos_bit)) in
        if has_bit flags run_bits then
          if has_bit flags hop_bit then
            w <- load run ;;
            node_array_sz_scan fuel' (idx run 1) (t_hop.get_new_flags w)
          else
            w <- load run ;;
            let len := t_skip.get_skip_len w in
            node_array_sz_scan fuel' (idx run (1 + t_skip.num_skip_nodes len))
                               (t_skip.get_new_flags w)
        else mret (run, flags)
      else mret (run, flags)
  end.

Definition node_array_sz (fuel : nat) (start flags : Z) : M Z :=
  rf <- node_array_sz_scan fuel start flags ;;
  let '(run, flags) := rf in
  if has_bit flags branch_bits then
    if has_bit flags pop_bit then
      pop <- load_n run 4 ;;
      mret (ptr_diff (idx run (4 + pop_total pop)) start)
    else
      w <- load run ;;
      mret (ptr_diff (idx run (1 + t_small_list.get_list_sz w)) start)
  else mret (ptr_diff run start).

Definition make_new (ref flags len : Z) : M Z :=
  nn <- node.allocate (alloc_size len) ;;
  w <- load ref ;;
  let ptr := dirty_high_pointer.set_ptr w nn in
  let ptr := dirty_high_pointer.set_byte ptr flags in
  store ref ptr ;;;
  mret nn.

(** [ref->set_ptr(p)] after [p.set_byte(nf); p.set_ptr(nn)]. *)
Definition set_ref (ref nf nn : Z) : M unit :=
  w <- load ref ;;
  let p := dirty_high_pointer.set_byte w nf in
  let p := dirty_high_pointer.set_ptr p nn in
  store ref p.

(** [ref->set_ptr(p)] after [p.set_ptr(nn)] alone. *)
Definition set_ref_ptr (ref nn : Z) : M unit :=
  w <- load ref ;;
  store ref (dirty_high_pointer.set_ptr w nn).

Definition set_hop (p : Z) (c : list Z) (len flags : Z) : M unit :=
  assert (t_hop.make_ok len) ;;;
  assert (from_char_len_ok len) ;;;
  store p (t_hop.make c len flags).

Definition make_tail (t : insert_update_ret) : M insert_update_ret :=
  let sz := get_size t in
  let '(flags, len) :=
    if sz =? 0 then (eos_bit, 1)
    else if sz <=? t_hop.max_hop then (hop_bit, 2)
    else (skip_bit, 2 + t_skip.num_skip_nodes sz) in
  ptr <- make_new (tail_ptr t) flags len ;;
  (if sz =? 0 then
     node.set_data ptr (add_ptr t)
   else if sz <=? t_hop.max_hop then
     set_hop ptr (add_val t) sz eos_bit ;;;
     node.set_data (idx ptr 1) (add_ptr t)
   else
     store ptr (t_skip.make sz eos_bit) ;;;
     node.skip_copy (idx ptr 1) (add_val t) sz ;;;
     node.set_data (idx ptr (1 + t_skip.num_skip_nodes sz)) (add_ptr t)) ;;;
  mret (mk_ret (add_val t) (add_ptr t) (tail_ptr t)
               (node.get_data_ptr (idx ptr (len - 1))) (cnt t)).

(** Rewriting the structural bits of the flag carrier inside the new
    array to [list_bit] (shared by [break_hop_at] and [break_skip_at]). *)
Definition carrier_to_list (m : modify_data) (nn : Z) : M unit :=
  let flags_pos := ptr_diff (node_ (flags_writer m)) (node_start m) in
  w <- load (idx nn flags_pos) ;;
  if type_eqb (loc_ (flags_writer m)) in_hop then
    let old_flags := t_hop.get_new_flags w in
    let new_hop_flags := Z.lor (clear_bits old_flags path_bits) list_bit in
    store (idx nn flags_pos) (t_hop.with_new_flags w new_hop_flags)
  else
    let new_skip_flags :=
      Z.lor (clear_bits (t_skip.get_new_flags w) path_bits) list_bit in
    store (idx nn flags_pos) (t_skip.make (t_skip.get_skip_len w) (wrap8 new_skip_flags)).

Definition break_hop_at (fuel : nat) (m : modify_data) (t : insert_update_ret)
           (cur : Z) (break_pos : Z) : M insert_update_ret :=
  let hop_sz := t_hop.get_hop_sz cur in
  let remaining := zlen (add_val t) in
  let old_cont := t_hop.get_new_flags cur in
  let hop_chars := to_char_static cur in
  orig_len <- node_array_sz fuel (node_start m) (initial_flags m) ;;
  let hop_off := ptr_diff (run m) (node_start m) in
  let nodes_after := orig_len - hop_off - 1 in
  if break_pos >=? remaining then
    (* CASE 1: the key ends in the middle of the HOP *)
    let plen := break_pos in
    let slen := hop_sz - break_pos in
    let nodes_before := hop_off in
    let nf := initial_flags m in
    let nsz := nodes_before in
    let nsz := if plen >? 0 then nsz + 1 else nsz in
    let nsz := nsz + 1 in
    let nsz := if slen >? 0 then nsz + 1 else nsz in
    let nsz := nsz + nodes_after in
    nn <- node.allocate (alloc_size nsz) ;;
    let w := nn in
    (if nodes_before >? 0 then copy_nodes w (node_start m) nodes_before
     else mret tt) ;;;
    let w := if nodes_before >? 0 then idx w nodes_before else w in
    let after_prefix_or_eos :=
      if slen >? 0 then Z.lor eos_bit hop_bit
      else Z.lor eos_bit (Z.land old_cont path_bits) in
    (if plen >? 0 then set_hop w hop_chars plen after_prefix_or_eos
     else mret tt) ;;;
    let nf :=
      if plen >? 0 then nf
      else if nodes_before >? 0 then
        let nf := Z.lor (clear_bits nf hop_bit) eos_bit in
        if slen >? 0 then Z.lor nf hop_bit
        else Z.lor nf (Z.land old_cont path_bits)
      else nf in
    let w := if plen >? 0 then idx w 1 else w in
    let eos := w in
    let w := idx w 1 in
    (if slen >? 0 then set_hop w (skipn (Z.to_nat break_pos) hop_chars) slen old_cont
     else mret tt) ;;;
    let w := if slen >? 0 then idx w 1 else w in
    copy_nodes w (idx (run m) 1) nodes_after ;;;
    w0 <- load (ref m) ;;
    (let ptr := dirty_high_pointer.set_byte w0 nf in
     let ptr := dirty_high_pointer.set_ptr ptr nn in
     store (ref m) ptr) ;;;
    node.set_data eos (add_ptr t) ;;;
    node.deallocate (node_start m) (alloc_size orig_len) ;;;
    mret (mk_ret (add_val t) (add_ptr t) 0 (node.get_data_ptr eos) 1)
  else
    (* CASE 2: the keys diverge: a branch is created *)
    let ac := arr_get (add_val t) break_pos in
    let hc := arr_get hop_chars break_pos in
    let af := ac <? hc in
    let plen := break_pos in
    let slen := hop_sz - break_pos - 1 in
    let nodes_before := hop_off in
    let in_array_carrier :=
      (nodes_before >? 0) && negb (type_eqb (loc_ (flags_writer m)) in_ptr) in
    let nf :=
      if plen >? 0 then
        Z.lor (Z.lor (clear_bits (initial_flags m) path_bits) hop_bit) list_bit
      else if in_array_carrier then initial_flags m
      else Z.lor (clear_bits (initial_flags m) path_bits) list_bit in
    let nsz := nodes_before + 3 in
    let nsz := if plen >? 0 then nsz + 1 else nsz in
    nn <- node.allocate (alloc_size nsz) ;;
    let w := nn in
    (if nodes_before >? 0 then copy_nodes w (node_start m) nodes_before
     else mret tt) ;;;
    let w := if nodes_before >? 0 then idx w nodes_before else w in
    (if plen >? 0 then set_hop w hop_chars plen list_bit
     else if in_array_carrier then carrier_to_list m nn
     else mret tt) ;;;
    let w := if plen >? 0 then idx w 1 else w in
    store w (t_small_list.make2 ac hc) ;;;
    let br := idx w 1 in
    ofot <-
      (if slen >? 0 then
         ot <- node.allocate (alloc_size (1 + nodes_after)) ;;
         set_hop ot (skipn (Z.to_nat (break_pos + 1)) hop_chars) slen old_cont ;;;
         copy_nodes (idx ot 1) (idx (run m) 1) nodes_after ;;;
         mret (hop_bit, ot)
       else if nodes_after >? 0 then
         ot <- node.allocate (alloc_size nodes_after) ;;
         copy_nodes ot (idx (run m) 1) nodes_after ;;;
         mret (old_cont, ot)
       else mret (old_cont, 0)) ;;
    let '(o_f, o_t) := ofot in
    let oi := if af then 1 else 0 in
    let ni := if af then 0 else 1 in
    set_ref (idx br oi) o_f o_t ;;;
    set_ref (ref m) nf nn ;;;
    node.deallocate (node_start m) (alloc_size orig_len) ;;;
    mret (mk_ret (skipn (Z.to_nat (break_pos + 1)) (add_val t)) (add_ptr t)
                 (idx br ni) (ret t) (cnt t)).

(** Writing a compressed run of [len] characters ([HOP] up to
    [max_hop], [SKIP] beyond) at [w]; returns the number of nodes
    written. *)
Definition set_run (w : Z) (c : list Z) (len flags : Z) : M Z :=
  if len <=? t_hop.max_hop then
    set_hop w c len flags ;;; mret 1
  else
    store w (t_skip.make len flags) ;;;
    node.skip_copy (idx w 1) c len ;;;
    mret (1 + t_skip.num_skip_nodes len).

Definition run_nodes (len : Z) : Z :=
  if len <=? t_hop.max_hop then 1 else 1 + t_skip.num_skip_nodes len.

Definition run_bit (len : Z) : Z :=
  if len <=? t_hop.max_hop then hop_bit else skip_bit.

(** [break_skip_at]; [sd] are the characters of the run, [m.run] points
    at its body and [skip_hdr] at its header. *)
Definition break_skip_at (fuel : nat) (m : modify_data) (t : insert_update_ret)
           (break_at skip_len cur_char : Z) (sd : list Z) (skip_hdr : Z)
  : M insert_update_ret :=
  let remaining := zlen (add_val t) in
  hdr <- load skip_hdr ;;
  let old_cont := t_skip.get_new_flags hdr in
  let sn := t_skip.num_skip_nodes skip_len in
  orig_len <- node_array_sz fuel (node_start m) (initial_flags m) ;;
  let sho := ptr_diff skip_hdr (node_start m) in
  let nodes_after := orig_len - sho - 1 - sn in
  if break_at >=? remaining then
    (* the key ends in the middle of the SKIP *)
    let plen := break_at in
    let slen := skip_len - break_at in
    let after_prefix :=
      if slen >? 0 then Z.lor eos_bit (run_bit slen)
      else Z.lor eos_bit (Z.land old_cont path_bits) in
    let nf :=
      if plen >? 0 then run_bit plen
      else if slen >? 0 then Z.lor eos_bit (run_bit slen)
      else Z.lor eos_bit (Z.land old_cont path_bits) in
    let nsz := if plen >? 0 then run_nodes plen else 0 in
    let nsz := nsz + 1 in
    let nsz := if slen >? 0 then nsz + run_nodes slen else nsz in
    let nsz := nsz + nodes_after in
    nn <- node.allocate (alloc_size nsz) ;;
    let w := nn in
    k <- (if plen >? 0 then set_run w sd plen after_prefix else mret 0) ;;
    let w := idx w k in
    let eos := w in
    let w := idx w 1 in
    k <- (if slen >? 0 then set_run w (skipn (Z.to_nat break_at) sd) slen old_cont
          else mret 0) ;;
    let w := idx w k in
    copy_nodes w (idx (run m) sn) nodes_after ;;;
    set_ref (ref m) nf nn ;;;
    node.set_data eos (add_ptr t) ;;;
    node.deallocate (node_start m) (alloc_size orig_len) ;;;
    mret (mk_ret (add_val t) (add_ptr t) 0 (node.get_data_ptr eos) 1)
  else
    (* the keys diverge: a branch is created *)
    let ac := arr_get (add_val t) break_at in
    let af := ac <? cur_char in
    let plen := break_at in
    let slen := skip_len - break_at - 1 in
    let nodes_before := sho in
    let in_array_carrier :=
      (nodes_before >? 0) && negb (type_eqb (loc_ (flags_writer m)) in_ptr) in
    let nsz := nodes_before + 3 in
    let nf :=
      if plen >? 0 then
        Z.lor (Z.lor (clear_bits (initial_flags m) path_bits) (run_bit plen)) list_bit
      else if in_array_carrier then initial_flags m
      else Z.lor (clear_bits (initial_flags m) path_bits) list_bit in
    let nsz := if plen >? 0 then nsz + run_nodes plen else nsz in
    nn <- node.allocate (alloc_size nsz) ;;
    let w := nn in
    (if nodes_before >? 0 then copy_nodes w (node_start m) nodes_before
     else mret tt) ;;;
    let w := if nodes_before >? 0 then idx w nodes_before else w in
    k <- (if plen >? 0 then set_run w sd plen list_bit
          else if in_array_carrier then carrier_to_list m nn ;;; mret 0
          else mret 0) ;;
    let w := idx w k in
    store w (t_small_list.make2 ac cur_char) ;;;
    let br := idx w 1 in
    ofot <-
      (if slen >? 0 then
         let suff_n := run_nodes slen in
         ot <- node.allocate (alloc_size (suff_n + nodes_after)) ;;
         set_run ot (skipn (Z.to_nat (break_at + 1)) sd) slen old_cont ;;;
         copy_nodes (idx ot suff_n) (idx (run m) sn) nodes_after ;;;
         mret (run_bit slen, ot)
       else if nodes_after >? 0 then
         ot <- node.allocate (alloc_size nodes_after) ;;
         copy_nodes ot (idx (run m) sn) nodes_after ;;;
         mret (old_cont, ot)
       else mret (old_cont, 0)) ;;
    let '(o_f, o_t) := ofot in
    let oi := if af then 1 else 0 in
    let ni := if af then 0 else 1 in
    set_ref (idx br oi) o_f o_t ;;;
    set_ref (ref m) nf nn ;;;
    node.deallocate (node_start m) (alloc_size orig_len) ;;;
    mret (mk_ret (skipn (Z.to_nat (break_at + 1)) (add_val t)) (add_ptr t)
                 (idx br ni) (ret t) (cnt t)).

(** The child-copy loop of [list2pop] and [add_pop]: slot [i] of the new
    child array is the tail slot when [i = skip], otherwise it receives
    the next old child ([src[obi++]]). *)
Fixpoint splice_children (dst src : Z) (n : nat) (i obi skip : Z) : M unit :=
  match n with
  | O => mret tt
  | S n' =>
      if i =? skip then splice_children dst src n' (i + 1) obi skip
      else
        v <- load (idx src obi) ;;
        store (idx dst i) v ;;;
        splice_children dst src n' (i + 1) (obi + 1) skip
  end.

(** [for (i = from; i < to; ++i) dst[i] = src[i]] *)
Fixpoint copy_range (dst src : Z) (n : nat) (i : Z) : M unit :=
  match n with
  | O => mret tt
  | S n' =>
      v <- load (idx src i) ;;
      store (idx dst i) v ;;;
      copy_range dst src n' (i + 1)
  end.

Definition list2pop (fuel : nat) (m : modify_data) (t : insert_update_ret)
  : M insert_update_ret :=
  let c := arr_get (add_val t) 0 in
  list <- load (run m) ;;
  let np := fold_left (fun np ch => set_pop_for ch np)
                      (t_small_list.chars list) [0; 0; 0; 0] in
  let np := set_pop_for c np in
  orig_len <- node_array_sz fuel (node_start m) (initial_flags m) ;;
  let lo := ptr_diff (run m) (node_start m) in
  let nlen := orig_len + 3 + 1 in
  let nf := Z.lor (clear_bits (initial_flags m) list_bit) pop_bit in
  nn <- node.allocate (alloc_size nlen) ;;
  copy_nodes nn (node_start m) lo ;;;
  store_n (idx nn lo) np ;;;
  let no := match do_find_pop_of np c with Some o => o | None => 0 end in
  let pchars := get_pop_chars_of np in
  splice_children (idx nn (lo + 4)) (idx (node_start m) (lo + 1))
                  (List.length pchars) 0 0 (no - 4) ;;;
  let tail := if (0 <=? no - 4) && (no - 4 <? zlen pchars)
              then idx nn (lo + 4 + (no - 4)) else tail_ptr t in
  (if negb (type_eqb (loc_ (flags_writer m)) in_ptr) then
     let flags_pos := ptr_diff (node_ (flags_writer m)) (node_start m) in
     let new_floc := flags_location.mk (loc_ (flags_writer m)) (idx nn flags_pos) in
     f <- flags_location.get new_floc ;;
     flags_location.set new_floc (Z.lor (clear_bits f list_bit) pop_bit)
   else mret tt) ;;;
  set_ref (ref m) nf nn ;;;
  node.deallocate (node_start m) (alloc_size orig_len) ;;;
  mret (mk_ret (skipn 1 (add_val t)) (add_ptr t) tail (ret t) (cnt t)).

Definition add_list (fuel : nat) (m : modify_data) (t : insert_update_ret)
           (lsz : Z) : M insert_update_ret :=
  orig_len <- node_array_sz fuel (node_start m) (initial_flags m) ;;
  let lo := ptr_diff (run m) (node_start m) in
  let nlen := orig_len + 1 in
  nn <- node.allocate (alloc_size nlen) ;;
  copy_nodes nn (node_start m) (lo + 1) ;;;
  list <- load (idx nn lo) ;;
  let '(pos, list') := t_small_list.insert list lsz (arr_get (add_val t) 0) in
  store (idx nn lo) list' ;;;
  copy_range (idx nn (lo + 1)) (idx (node_start m) (lo + 1)) (Z.to_nat pos) 0 ;;;
  copy_range (idx nn (lo + 2)) (idx (node_start m) (lo + 1)) (Z.to_nat (lsz - pos)) pos ;;;
  set_ref_ptr (ref m) nn ;;;
  node.deallocate (node_start m) (alloc_size orig_len) ;;;
  mret (mk_ret (skipn 1 (add_val t)) (add_ptr t) (idx nn (lo + 1 + pos))
               (ret t) (cnt t)).

Definition add_pop (fuel : nat) (m : modify_data) (t : insert_update_ret)
  : M insert_update_ret :=
  let c := arr_get (add_val t) 0 in
  orig_len <- node_array_sz fuel (node_start m) (initial_flags m) ;;
  let po := ptr_diff (run m) (node_start m) in
  let nlen := orig_len + 1 in
  nn <- node.allocate (alloc_size nlen) ;;
  copy_nodes nn (node_start m) po ;;;
  pop <- load_n (idx (node_start m) po) 4 ;;
  let pop := set_pop_for c pop in
  store_n (idx nn po) pop ;;;
  let no := match do_find_pop_of pop c with Some o => o | None => 0 end in
  let pchars := get_pop_chars_of pop in
  splice_children (idx nn (po + 4)) (idx (node_start m) (po + 4))
                  (List.length pchars) 0 0 (no - 4) ;;;
  let tail := if (0 <=? no - 4) && (no - 4 <? zlen pchars)
              then idx nn (po + 4 + (no - 4)) else tail_ptr t in
  set_ref_ptr (ref m) nn ;;;
  node.deallocate (node_start m) (alloc_size orig_len) ;;;
  mret (mk_ret (skipn 1 (add_val t)) (add_ptr t) tail (ret t) (cnt t)).

(** Or-ing [bits] into the flag carrier of the new array when the
    carrier is a HOP or SKIP inside it (shared by [add_eos_at] and
    [add_branch_at_end]). *)
Definition carrier_or (m : modify_data) (nn bits : Z) : M unit :=
  let flags_node_pos := ptr_diff (node_ (flags_writer m)) (node_start m) in
  w <- load (idx nn flags_node_pos) ;;
  if type_eqb (loc_ (flags_writer m)) in_hop then
    store (idx nn flags_node_pos)
          (t_hop.with_new_flags w (Z.lor (t_hop.get_new_flags w) bits))
  else
    store (idx nn flags_node_pos)
          (t_skip.make (t_skip.get_skip_len w)
                       (wrap8 (Z.lor (t_skip.get_new_flags w) bits))).

Definition add_eos_at (fuel : nat) (m : modify_data) (t : insert_update_ret)
  : M insert_update_ret :=
  orig_len <- node_array_sz fuel (node_start m) (initial_flags m) ;;
  let pos := ptr_diff (run m) (node_start m) in
  let nlen := orig_len + 1 in
  let nif := initial_flags m in
  nn <- node.allocate (alloc_size nlen) ;;
  copy_nodes nn (node_start m) pos ;;;
  copy_nodes (idx nn (pos + 1)) (idx (node_start m) pos) (orig_len - pos) ;;;
  nif <- (if type_eqb (loc_ (flags_writer m)) in_ptr then mret (Z.lor nif eos_bit)
          else carrier_or m nn eos_bit ;;; mret nif) ;;
  node.set_data (idx nn pos) (add_ptr t) ;;;
  set_ref (ref m) nif nn ;;;
  node.deallocate (node_start m) (alloc_size orig_len) ;;;
  mret (mk_ret (add_val t) (add_ptr t) 0 (node.get_data_ptr (idx nn pos)) 1).

Definition add_branch_at_end (fuel : nat) (m : modify_data)
           (t : insert_update_ret) : M insert_update_ret :=
  let remaining := zlen (add_val t) in
  orig_len <- node_array_sz fuel (node_start m) (initial_flags m) ;;
  let pos := ptr_diff (run m) (node_start m) in
  let use_skip := remaining >? t_hop.max_hop in
  let add_n := if use_skip then 1 + t_skip.num_skip_nodes remaining + 1 else 2 in
  let nlen := orig_len + add_n in
  let nif := initial_flags m in
  nn <- node.allocate (alloc_size nlen) ;;
  copy_nodes nn (node_start m) pos ;;;
  copy_nodes (idx nn (pos + add_n)) (idx (node_start m) pos) (orig_len - pos) ;;;
  let hsb := if use_skip then skip_bit else hop_bit in
  nif <- (if type_eqb (loc_ (flags_writer m)) in_ptr then mret (Z.lor nif hsb)
          else carrier_or m nn hsb ;;; mret nif) ;;
  let w := idx nn pos in
  w <- (if use_skip then
          store w (t_skip.make remaining eos_bit) ;;;
          node.skip_copy (idx w 1) (add_val t) remaining ;;;
          let w := idx w (1 + t_skip.num_skip_nodes remaining) in
          node.set_data w (add_ptr t) ;;; mret w
        else
          set_hop w (add_val t) remaining eos_bit ;;;
          node.set_data (idx w 1) (add_ptr t) ;;; mret (idx w 1)) ;;
  set_ref (ref m) nif nn ;;;
  node.deallocate (node_start m) (alloc_size orig_len) ;;;
  mret (mk_ret (add_val t) (add_ptr t) 0 (node.get_data_ptr w) 1).

Definition with_run (m : modify_data) (r : Z) : modify_data :=
  mk_md (ref m) (node_start m) r (flags m) (initial_flags m) (flags_writer m).

Definition after_run (m : modify_data) (r f : Z) (fw : flags_location.t)
  : modify_data :=
  mk_md (ref m) (node_start m) r f (initial_flags m) fw.

Definition with_add_val (t : insert_update_ret) (k : list Z) : insert_update_ret :=
  mk_ret k (add_ptr t) (tail_ptr t) (ret t) (cnt t).

Definition exhausted (t : insert_update_ret) : bool :=
  match add_val t with [] => true | _ => false end.

(** The key ends at an existing [EOS]: update the value when asked to,
    report [cnt = 0] and the address of the value. *)
Definition found_at (m : modify_data) (t : insert_update_ret)
           (do_update : bool) : M insert_update_ret :=
  (if do_update then node.update_data (run m) (add_ptr t) else mret tt) ;;;
  mret (mk_ret (add_val t) (add_ptr t) (tail_ptr t)
               (node.get_data_ptr (run m)) 0).

(** Matching one HOP or SKIP (the caller has checked that one of the
    two bits is set). *)
Definition run_step (fuel : nat) (m : modify_data) (t : insert_update_ret)
  : M (loop_exit (modify_data * insert_update_ret) insert_update_ret) :=
  if has_bit (flags m) hop_bit then
    let hn := run m in
    hop <- load (run m) ;;
    let rem := zlen (add_val t) in
    let mm := t_hop.find_mismatch hop (add_val t) rem in
    if mm <? t_hop.get_hop_sz hop then
      t' <- break_hop_at fuel m t hop mm ;; mret (Done t')
    else
      mret (Next (after_run m (idx (run m) 1) (t_hop.get_new_flags hop)
                            (flags_location.mk in_hop hn),
                  with_add_val t (skipn (Z.to_nat (t_hop.get_hop_sz hop)) (add_val t))))
  else
    let sn := run m in
    sk <- load (run m) ;;
    let slen := t_skip.get_skip_len sk in
    let m := with_run m (idx (run m) 1) in
    sd <- skip_bytes (run m) slen ;;
    let rem := zlen (add_val t) in
    let cl := Z.min slen rem in
    let i := common_prefix (add_val t) sd (Z.to_nat cl) 0 in
    if i <? slen then
      t' <- break_skip_at fuel m t i slen (arr_get sd i) sd sn ;; mret (Done t')
    else
      mret (Next (after_run m (idx (run m) (t_skip.num_skip_nodes slen))
                            (t_skip.get_new_flags sk)
                            (flags_location.mk in_skip sn),
                  with_add_val t (skipn (Z.to_nat slen) (add_val t)))).

(** The [while (has_bit(m.flags, eos_bit | hop_bit | skip_bit))] loop of
    the variable-length path. *)
Fixpoint prefix_loop (fuel : nat) (m : modify_data) (t : insert_update_ret)
         (do_update : bool)
  : M (loop_exit (modify_data * insert_update_ret) insert_update_ret) :=
  match fuel with
  | O => crash OutOfFuel
  | S fuel' =>
      if has_bit (flags m) prefix_bits then
        if has_bit (flags m) eos_bit && exhausted t then
          t' <- found_at m t do_update ;; mret (Done t')
        else
          let m := if has_bit (flags m) eos_bit then with_run m (idx (run m) 1)
                   else m in
          if has_bit (flags m) run_bits then
            r <- run_step fuel' m t ;;
            match r with
            | Done t' => mret (Done t')
            | Next (m', t') => prefix_loop fuel' m' t' do_update
            end
          else mret (Next (m, t))
      else mret (Next (m, t))
  end.

(** The head of the loop body of the fixed-length path: at most one HOP
    or SKIP, then the [EOS] check. *)
Definition fixed_prefix (fuel : nat) (m : modify_data) (t : insert_update_ret)
           (do_update : bool)
  : M (loop_exit (modify_data * insert_update_ret) insert_update_ret) :=
  r <- (if has_bit (flags m) run_bits then run_step fuel m t
        else mret (Next (m, t))) ;;
  match r with
  | Done t' => mret (Done t')
  | Next (m, t) =>
      if has_bit (flags m) eos_bit then
        if exhausted t then
          t' <- found_at m t do_update ;; mret (Done t')
        else mret (Next (with_run m (idx (run m) 1), t))
      else mret (Next (m, t))
  end.

(** The branch part of the loop body, the same text in both paths:
    look the character up in the LIST or POP, grow the branch when it is
    absent, otherwise follow the child pointer. *)
Definition branch_step (fuel : nat) (m : modify_data) (t : insert_update_ret)
           (do_update : bool)
  : M (loop_exit (modify_data * insert_update_ret) insert_update_ret) :=
  let c := arr_get (add_val t) 0 in
  r <- (if has_bit (flags m) pop_bit then
          o <- do_find_pop (run m) c ;;
          match o with
          | None => t' <- add_pop fuel m t ;; mret (Done t')
          | Some off => mret (Next (idx (run m) off))
          end
        else
          list <- load (run m) ;;
          let lsz := t_small_list.get_list_sz list in
          let mt := t_small_list.offset list c in
          if mt =? 0 then
            if lsz >=? t_small_list.max_list then
              t' <- list2pop fuel m t ;; mret (Done t')
            else
              t' <- add_list fuel m t lsz ;; mret (Done t')
          else mret (Next (idx (run m) mt))) ;;
  match r with
  | Done t' => mret (Done t')
  | Next slot =>
      let t := with_add_val t (skipn 1 (add_val t)) in
      w <- load slot ;;
      let '(child, cflags) := dirty_high_pointer.get_both w in
      let m := mk_md slot child child cflags cflags (flags_location.mk in_ptr slot) in
      if exhausted t then
        if has_bit (flags m) eos_bit then
          t' <- found_at m t do_update ;; mret (Done t')
        else
          t' <- add_eos_at fuel m t ;; mret (Done t')
      else mret (Next (m, t))
  end.

(** [insert_update_loop]; [fixed_len] is the template parameter (0 for
    variable-length keys). *)
Fixpoint insert_update_loop (fuel : nat) (fixed_len : Z) (m : modify_data)
         (t : insert_update_ret) (do_update : bool) : M insert_update_ret :=
  match fuel with
  | O => crash OutOfFuel
  | S fuel' =>
      r <- (if fixed_len >? 0 then fixed_prefix fuel' m t do_update
            else prefix_loop fuel' m t do_update) ;;
      match r with
      | Done t' => mret t'
      | Next (m, t) =>
          if exhausted t then add_eos_at fuel' m t
          else if has_bit (flags m) branch_bits then
            r <- branch_step fuel' m t do_update ;;
            match r with
            | Done t' => mret t'
            | Next (m', t') => insert_update_loop fuel' fixed_len m' t' do_update
            end
          else add_branch_at_end fuel' m t
      end
  end.
End insert_helper.

(* ===================================================================== *)
(** * ktrie_remove_help.h *)
(* ===================================================================== *)

Module remove_helper.
Import insert_helper.

(** [struct remove_path_entry].  The [std::vector] of these that
    [remove_loop] fills on its way down is a list here, with the entry
    pushed last at its head; the memory the source takes for it is no part
    of the node memory of the embedding. *)
Record remove_path_entry : Type := mk_entry {
  e_ref : Z;
  e_node_start : Z;
  e_initial_flags : Z;
  e_child_index : Z;
  e_branch_node : Z
}.

(** [p.set_ptr(nullptr); p.set_byte(0); ref->set_ptr(p)] *)
Definition null_ref (ref : Z) : M unit :=
  w <- load ref ;;
  let p := dirty_high_pointer.set_ptr w 0 in
  let p := dirty_high_pointer.set_byte p 0 in
  store ref p.

Definition decrement (counter : Z) : M unit :=
  c <- load counter ;; store counter (wrap64 (c - 1)).

(** Clearing [bits] in the [new_flags] of the HOP or SKIP at [p]. *)
Definition clear_run_flags (p : Z) (is_hop : bool) (bits : Z) : M unit :=
  w <- load p ;;
  if is_hop then
    let old_flags := arr_get (to_char_static w) t_hop.new_flags_offset in
    store p (t_hop.with_new_flags w (clear_bits old_flags bits))
  else
    store p (t_skip.make (t_skip.get_skip_len w)
                         (clear_bits (t_skip.get_new_flags w) bits)).

(** The scan of [rebuild_without_eos] that looks for a HOP or SKIP
    leading directly to the removed [EOS]; the state is
    [(pos, scan_flags)], the result the truncation point if any. *)
Fixpoint truncate_scan (fuel : nat) (node_start before pos scan_flags : Z)
         (found : option Z) : M (option Z) :=
  match fuel with
  | O => crash OutOfFuel
  | S fuel' =>
      if pos <? before then
        let '(pos, scan_flags) :=
          if has_bit scan_flags eos_bit
          then (pos + 1, clear_bits scan_flags eos_bit)
          else (pos, scan_flags) in
        if has_bit scan_flags hop_bit then
          let last_hop_skip_start := pos in
          hop <- load (idx node_start pos) ;;
          let scan_flags := t_hop.get_new_flags hop in
          let pos := pos + 1 in
          let found := if (pos =? before) && has_bit scan_flags eos_bit
                       then Some last_hop_skip_start else found in
          truncate_scan fuel' node_start before pos scan_flags found
        else if has_bit scan_flags skip_bit then
          let last_hop_skip_start := pos in
          sk <- load (idx node_start pos) ;;
          let slen := t_skip.get_skip_len sk in
          let scan_flags := t_skip.get_new_flags sk in
          let pos := pos + (1 + t_skip.num_skip_nodes slen) in
          let found := if (pos =? before) && has_bit scan_flags eos_bit
                       then Some last_hop_skip_start else found in
          truncate_scan fuel' node_start before pos scan_flags found
        else mret found
      else mret found
  end.

(** The scan of the truncation path that clears the run bits of the
    carriers whose continuation is cut off. *)
Fixpoint truncate_fix (fuel : nat) (nn truncate_at pos scan_flags : Z) : M unit :=
  match fuel with
  | O => crash OutOfFuel
  | S fuel' =>
      if pos <? truncate_at then
        let '(pos, scan_flags) :=
          if has_bit scan_flags eos_bit
          then (pos + 1, clear_bits scan_flags eos_bit)
          else (pos, scan_flags) in
        if has_bit scan_flags hop_bit then
          hop <- load (idx nn pos) ;;
          let next_flags := t_hop.get_new_flags hop in
          let next_pos := pos + 1 in
          let next_pos := if has_bit next_flags eos_bit then next_pos + 1 else next_pos in
          (if next_pos >=? truncate_at then
             store (idx nn pos) (t_hop.with_new_flags hop (clear_bits next_flags run_bits))
           else mret tt) ;;;
          truncate_fix fuel' nn truncate_at (pos + 1) next_flags
        else if has_bit scan_flags skip_bit then
          sk <- load (idx nn pos) ;;
          let slen := t_skip.get_skip_len sk in
          let next_flags := t_skip.get_new_flags sk in
          let next_pos := pos + 1 + t_skip.num_skip_nodes slen in
          let next_pos := if has_bit next_flags eos_bit then next_pos + 1 else next_pos in
          (if next_pos >=? truncate_at then
             store (idx nn pos) (t_skip.make slen (clear_bits next_flags run_bits))
           else mret tt) ;;;
          truncate_fix fuel' nn truncate_at (pos + (1 + t_skip.num_skip_nodes slen)) next_flags
        else mret tt
      else mret tt
  end.

(** The scan that finds the last HOP or SKIP before position [stop];
    the result is [(pos, scan_flags, last_hop_skip_pos, found, is_hop)]. *)
Fixpoint carrier_scan (fuel : nat) (node_start stop pos scan_flags last : Z)
         (found is_hop : bool) : M (Z * Z * Z * bool * bool) :=
  match fuel with
  | O => crash OutOfFuel
  | S fuel' =>
      if pos <? stop then
        let '(pos, scan_flags) :=
          if has_bit scan_flags eos_bit
          then (pos + 1, clear_bits scan_flags eos_bit)
          else (pos, scan_flags) in
        if has_bit scan_flags hop_bit then
          hop <- load (idx node_start pos) ;;
          carrier_scan fuel' node_start stop (pos + 1) (t_hop.get_new_flags hop)
                       pos true true
        else if has_bit scan_flags skip_bit then
          sk <- load (idx node_start pos) ;;
          let slen := t_skip.get_skip_len sk in
          carrier_scan fuel' node_start stop (pos + (1 + t_skip.num_skip_nodes slen))
                       (t_skip.get_new_flags sk) pos true false
        else mret (pos, scan_flags, last, found, is_hop)
      else mret (pos, scan_flags, last, found, is_hop)
  end.

(** [remove_last_branch]; [more] is [path.size() > 1] and [cascade] the
    call [remove_child_from_branch(path, ...)] after [path.pop_back()]. *)
Definition remove_last_branch (fuel : nat) (parent : remove_path_entry)
           (more : bool) (cascade : M bool) (branch_pos : Z) : M bool :=
  let node_start := e_node_start parent in
  let initial_flags := e_initial_flags parent in
  let ref := e_ref parent in
  orig_len <- node_array_sz fuel node_start initial_flags ;;
  let has_content_before := branch_pos >? 0 in
  if negb has_content_before then
    node.deallocate node_start (alloc_size orig_len) ;;;
    null_ref ref ;;;
    if more then cascade else mret true
  else
    let remaining_flags := clear_bits initial_flags branch_bits in
    let has_eos := has_bit remaining_flags eos_bit in
    has_eos <-
      (if negb has_eos then
         (fix scan (fuel : nat) (run scan_flags : Z) : M bool :=
            match fuel with
            | O => crash OutOfFuel
            | S fuel' =>
                if has_bit scan_flags run_bits then
                  w <- load run ;;
                  let '(scan_flags, run) :=
                    if has_bit scan_flags hop_bit
                    then (t_hop.get_new_flags w, idx run 1)
                    else (t_skip.get_new_flags w,
                          idx run (1 + t_skip.num_skip_nodes (t_skip.get_skip_len w))) in
                  if has_bit scan_flags eos_bit then mret true
                  else scan fuel' run scan_flags
                else mret false
            end) fuel node_start remaining_flags
       else mret true) ;;
    if negb has_eos then
      node.deallocate node_start (alloc_size orig_len) ;;;
      null_ref ref ;;;
      if more then cascade else mret true
    else
      let new_flags := remaining_flags in
      let new_len := branch_pos in
      nn <- node.allocate (alloc_size new_len) ;;
      copy_nodes nn node_start new_len ;;;
      r <- carrier_scan fuel node_start branch_pos 0 initial_flags 0 false false ;;
      let '(_, _, last_hop_skip_pos, found_hop_skip, is_hop) := r in
      (if found_hop_skip
       then clear_run_flags (idx nn last_hop_skip_pos) is_hop branch_bits
       else mret tt) ;;;
      set_ref ref new_flags nn ;;;
      node.deallocate node_start (alloc_size orig_len) ;;;
      mret true.

(** The loop [if (i != child_index) nn[dst++] = node_start[src]; src++]. *)
Fixpoint copy_children_except (nn node_start : Z) (n : nat) (i src dst child_index : Z)
  : M unit :=
  match n with
  | O => mret tt
  | S n' =>
      if negb (i =? child_index) then
        v <- load (idx node_start src) ;;
        store (idx nn dst) v ;;;
        copy_children_except nn node_start n' (i + 1) (src + 1) (dst + 1) child_index
      else copy_children_except nn node_start n' (i + 1) (src + 1) dst child_index
  end.

(** [for (i = child_index; i < lsz - 1; ++i) arr[i] = arr[i + 1]] *)
Fixpoint shift_left (arr : list Z) (n : nat) (i : Z) : list Z :=
  match n with
  | O => arr
  | S n' => shift_left (arr_set arr (Z.to_nat i) (arr_get arr (i + 1))) n' (i + 1)
  end.

Definition remove_from_list (fuel : nat) (parent : remove_path_entry)
           (more : bool) (cascade : M bool) (child_index : Z) : M bool :=
  let node_start := e_node_start parent in
  let initial_flags := e_initial_flags parent in
  let ref := e_ref parent in
  let branch_node := e_branch_node parent in
  list <- load branch_node ;;
  let lsz := t_small_list.get_list_sz list in
  let list_pos := ptr_diff branch_node node_start in
  if lsz =? 1 then remove_last_branch fuel parent more cascade list_pos
  else
    orig_len <- node_array_sz fuel node_start initial_flags ;;
    let new_len := orig_len - 1 in
    nn <- node.allocate (alloc_size new_len) ;;
    copy_nodes nn node_start (list_pos + 1) ;;;
    let arr := to_char_static list in
    let arr := shift_left arr (Z.to_nat (lsz - 1 - child_index)) child_index in
    let arr := arr_set arr 7 (wrap8 (lsz - 1)) in
    store (idx nn list_pos) (from_char_static arr) ;;;
    copy_children_except nn node_start (Z.to_nat lsz) 0 (list_pos + 1) (list_pos + 1)
                         child_index ;;;
    set_ref_ptr ref nn ;;;
    node.deallocate node_start (alloc_size orig_len) ;;;
    mret true.

(** [for (i ...) if (i != child_index) list_arr[list_idx++] = chars[i]] *)
Fixpoint chars_except (chars : list Z) (i child_index : Z) : list Z :=
  match chars with
  | [] => []
  | c :: r =>
      if negb (i =? child_index) then c :: chars_except r (i + 1) child_index
      else chars_except r (i + 1) child_index
  end.

Fixpoint write_chars (arr : list Z) (cs : list Z) (i : nat) : list Z :=
  match cs with
  | [] => arr
  | c :: r => write_chars (arr_set arr i c) r (S i)
  end.

Definition pop_to_list_on_remove (fuel : nat) (parent : remove_path_entry)
           (child_index : Z) (chars : list Z) : M bool :=
  let node_start := e_node_start parent in
  let initial_flags := e_initial_flags parent in
  let ref := e_ref parent in
  let branch_node := e_branch_node parent in
  let pop_pos := ptr_diff branch_node node_start in
  let new_children := zlen chars - 1 in
  let new_len := pop_pos + 1 + new_children in
  let new_flags := Z.lor (clear_bits initial_flags pop_bit) list_bit in
  nn <- node.allocate (alloc_size new_len) ;;
  copy_nodes nn node_start pop_pos ;;;
  (if has_bit initial_flags hop_bit then
     hop <- load (idx nn 0) ;;
     let hop_flags := arr_get (to_char_static hop) t_hop.new_flags_offset in
     store (idx nn 0)
           (t_hop.with_new_flags hop (Z.lor (clear_bits hop_flags pop_bit) list_bit))
   else if has_bit initial_flags skip_bit then
     sk <- load (idx nn 0) ;;
     store (idx nn 0)
           (t_skip.make (t_skip.get_skip_len sk)
                        (wrap8 (Z.lor (clear_bits (t_skip.get_new_flags sk) pop_bit) list_bit)))
   else mret tt) ;;;
  let list_arr := to_char_static 0 in
  let list_arr := write_chars list_arr (chars_except chars 0 child_index) 0 in
  let list_arr := arr_set list_arr 7 (wrap8 new_children) in
  store (idx nn pop_pos) (from_char_static list_arr) ;;;
  copy_children_except nn node_start (List.length chars) 0 (pop_pos + 4) (pop_pos + 1)
                       child_index ;;;
  orig_len <- node_array_sz fuel node_start initial_flags ;;
  set_ref ref new_flags nn ;;;
  node.deallocate node_start (alloc_size orig_len) ;;;
  mret true.

Definition remove_from_pop (fuel : nat) (parent : remove_path_entry)
           (more : bool) (cascade : M bool) (child_index : Z) : M bool :=
  let node_start := e_node_start parent in
  let initial_flags := e_initial_flags parent in
  let ref := e_ref parent in
  let branch_node := e_branch_node parent in
  pop <- load_n branch_node 4 ;;
  let chars := get_pop_chars_of pop in
  let pop_pos := ptr_diff branch_node node_start in
  let removed_char := arr_get chars child_index in
  if zlen chars =? 1 then remove_last_branch fuel parent more cascade pop_pos
  else if zlen chars - 1 <=? t_small_list.max_list then
    pop_to_list_on_remove fuel parent child_index chars
  else
    orig_len <- node_array_sz fuel node_start initial_flags ;;
    let new_len := orig_len - 1 in
    nn <- node.allocate (alloc_size new_len) ;;
    copy_nodes nn node_start pop_pos ;;;
    let v := wrap8 removed_char in
    let w := Z.to_nat (Z.shiftr v 6) in
    let new_pop :=
      arr_set pop w (Z.land (nth w pop 0)
                            (wrap64 (Z.lnot (Z.shiftl 1 (Z.land v 63))))) in
    store_n (idx nn pop_pos) new_pop ;;;
    copy_children_except nn node_start (List.length chars) 0 (pop_pos + 4) (pop_pos + 4)
                         child_index ;;;
    set_ref_ptr ref nn ;;;
    node.deallocate node_start (alloc_size orig_len) ;;;
    mret true.

(** The scan of [remove_child_from_branch] for the flags in force at the
    branch. *)
Fixpoint branch_flags_scan (fuel : nat) (run branch_flags : Z) : M Z :=
  match fuel with
  | O => crash OutOfFuel
  | S fuel' =>
      if has_bit branch_flags prefix_bits then
        let '(run, branch_flags) :=
          if has_bit branch_flags eos_bit
          then (idx run 1, clear_bits branch_flags eos_bit)
          else (run, branch_flags) in
        if has_bit branch_flags hop_bit then
          w <- load run ;;
          branch_flags_scan fuel' (idx run 1) (t_hop.get_new_flags w)
        else if has_bit branch_flags skip_bit then
          sk <- load run ;;
          branch_flags_scan fuel'
            (idx run (1 + t_skip.num_skip_nodes (t_skip.get_skip_len sk)))
            (t_skip.get_new_flags sk)
        else mret branch_flags
      else mret branch_flags
  end.

(** [remove_child_from_branch]; the path is kept with its back first. *)
Fixpoint remove_child_from_branch (fuel : nat) (path : list remove_path_entry)
  : M bool :=
  match path with
  | [] => crash AssertionFailed
  | parent :: rest =>
      let more := match rest with [] => false | _ => true end in
      let cascade := remove_child_from_branch fuel rest in
      branch_flags <- branch_flags_scan fuel (e_node_start parent)
                                        (e_initial_flags parent) ;;
      if has_bit branch_flags list_bit then
        remove_from_list fuel parent more cascade (e_child_index parent)
      else
        remove_from_pop fuel parent more cascade (e_child_index parent)
  end.

(** After the array of the removed [EOS] has been freed: decrement the
    counter and clean the parent branch up. *)
Definition after_free (fuel : nat) (counter : Z) (path : list remove_path_entry)
  : M bool :=
  decrement counter ;;;
  match path with
  | parent :: _ =>
      if negb (e_branch_node parent =? 0) then remove_child_from_branch fuel path
      else mret true
  | [] => mret true
  end.

Definition rebuild_without_eos (fuel : nat) (ref node_start initial_flags : Z)
           (eos_position : Z) (counter : Z) (path : list remove_path_entry)
  : M bool :=
  orig_len <- node_array_sz fuel node_start initial_flags ;;
  (* t_data::destroy: nothing to do for an inline value *)
  if orig_len =? 1 then
    node.deallocate node_start (alloc_size orig_len) ;;;
    null_ref ref ;;;
    after_free fuel counter path
  else
    let before := eos_position in
    let after := orig_len - eos_position - 1 in
    found <- (if (after =? 0) && (before >? 0)
              then truncate_scan fuel node_start before 0 initial_flags None
              else mret None) ;;
    let need_truncate := match found with Some _ => true | None => false end in
    let truncate_at := match found with Some p => p | None => before end in
    let new_len := if need_truncate then truncate_at + after else before + after in
    if new_len =? 0 then
      node.deallocate node_start (alloc_size orig_len) ;;;
      null_ref ref ;;;
      after_free fuel counter path
    else
      nn <- node.allocate (alloc_size new_len) ;;
      (if need_truncate then
         (if truncate_at >? 0 then copy_nodes nn node_start truncate_at else mret tt) ;;;
         (if after >? 0
          then copy_nodes (idx nn truncate_at) (idx node_start (eos_position + 1)) after
          else mret tt) ;;;
         (if truncate_at >? 0 then truncate_fix fuel nn truncate_at 0 initial_flags
          else mret tt) ;;;
         let new_initial_flags :=
           if truncate_at =? 0 then clear_bits initial_flags run_bits
           else initial_flags in
         set_ref ref new_initial_flags nn
       else
         (if before >? 0 then copy_nodes nn node_start before else mret tt) ;;;
         (if after >? 0
          then copy_nodes (idx nn before) (idx node_start (eos_position + 1)) after
          else mret tt) ;;;
         new_initial_flags <-
           (if eos_position =? 0 then mret (clear_bits initial_flags eos_bit)
            else
              r <- carrier_scan fuel node_start eos_position 0 initial_flags 0 false false ;;
              let '(pos, scan_flags, last_hop_skip_pos, _, is_hop) := r in
              if (pos =? eos_position) && has_bit scan_flags eos_bit then
                clear_run_flags (idx nn last_hop_skip_pos) is_hop eos_bit ;;;
                mret initial_flags
              else if has_bit initial_flags eos_bit && (eos_position =? 1) then
                mret (clear_bits initial_flags eos_bit)
              else mret initial_flags) ;;
         set_ref ref new_initial_flags nn) ;;;
      node.deallocate node_start (alloc_size orig_len) ;;;
      decrement counter ;;;
      mret true.

(** The local state of [remove_loop]. *)
Record cursor : Type := mk_cursor {
  c_ref : Z;
  c_node_start : Z;
  c_initial_flags : Z;
  c_run : Z;
  c_flags_now : Z;
  c_key : list Z
}.

Definition move (c : cursor) (run flags_now : Z) (key : list Z) : cursor :=
  mk_cursor (c_ref c) (c_node_start c) (c_initial_flags c) run flags_now key.

Definition eos_position (c : cursor) : Z := ptr_diff (c_run c) (c_node_start c).

(** Matching one HOP or SKIP; [None] when [remove_loop] returns [false]. *)
Definition remove_run (c : cursor) : M (option cursor) :=
  if has_bit (c_flags_now c) hop_bit then
    hop <- load (c_run c) ;;
    let hop_sz := t_hop.get_hop_sz hop in
    let remaining := zlen (c_key c) in
    if remaining <? hop_sz then mret None
    else
      assert (t_hop.matches_ok hop remaining) ;;;
      if negb (t_hop.matches hop (c_key c) remaining) then mret None
      else mret (Some (move c (idx (c_run c) 1) (t_hop.get_new_flags hop)
                            (skipn (Z.to_nat hop_sz) (c_key c))))
  else
    sk <- load (c_run c) ;;
    let slen := t_skip.get_skip_len sk in
    let remaining := zlen (c_key c) in
    if remaining <? slen then mret None
    else
      let run := idx (c_run c) 1 in
      ok <- do_find_skip run (c_key c) slen ;;
      if negb ok then mret None
      else mret (Some (move c (idx run (t_skip.num_skip_nodes slen))
                            (t_skip.get_new_flags sk)
                            (skipn (Z.to_nat slen) (c_key c)))).

Definition at_end (c : cursor) : bool :=
  match c_key c with [] => true | _ => false end.

(** The [while] loop of the variable-length path. *)
Fixpoint remove_prefix_loop (fuel : nat) (c : cursor) (counter : Z)
         (path : list remove_path_entry) : M (loop_exit cursor bool) :=
  match fuel with
  | O => crash OutOfFuel
  | S fuel' =>
      if has_bit (c_flags_now c) prefix_bits then
        if has_bit (c_flags_now c) eos_bit && at_end c then
          b <- rebuild_without_eos fuel' (c_ref c) (c_node_start c) (c_initial_flags c)
                                   (eos_position c) counter path ;;
          mret (Done b)
        else
          let c := if has_bit (c_flags_now c) eos_bit
                   then move c (idx (c_run c) 1) (clear_bits (c_flags_now c) eos_bit)
                             (c_key c)
                   else c in
          if has_bit (c_flags_now c) run_bits then
            r <- remove_run c ;;
            match r with
            | None => mret (Done false)
            | Some c' => remove_prefix_loop fuel' c' counter path
            end
          else mret (Next c)
      else mret (Next c)
  end.

Definition remove_var_prefix (fuel : nat) (c : cursor) (counter : Z)
           (path : list remove_path_entry) : M (loop_exit cursor bool) :=
  r <- remove_prefix_loop fuel c counter path ;;
  match r with
  | Done b => mret (Done b)
  | Next c =>
      if has_bit (c_flags_now c) eos_bit then
        if at_end c then
          b <- rebuild_without_eos fuel (c_ref c) (c_node_start c) (c_initial_flags c)
                                   (eos_position c) counter path ;;
          mret (Done b)
        else mret (Next (move c (idx (c_run c) 1)
                              (clear_bits (c_flags_now c) eos_bit) (c_key c)))
      else mret (Next c)
  end.

Definition remove_fixed_prefix (fuel : nat) (c : cursor) (counter : Z)
           (path : list remove_path_entry) : M (loop_exit cursor bool) :=
  r <- (if has_bit (c_flags_now c) run_bits then remove_run c
        else mret (Some c)) ;;
  match r with
  | None => mret (Done false)
  | Some c =>
      if has_bit (c_flags_now c) eos_bit then
        if at_end c then
          b <- rebuild_without_eos fuel (c_ref c) (c_node_start c) (c_initial_flags c)
                                   (eos_position c) counter path ;;
          mret (Done b)
        else mret (Done false)
      else mret (Next c)
  end.

Fixpoint remove_descend (fuel : nat) (fixed_len : Z) (c : cursor) (counter : Z)
         (path : list remove_path_entry) : M bool :=
  match fuel with
  | O => crash OutOfFuel
  | S fuel' =>
      r <- (if fixed_len >? 0 then remove_fixed_prefix fuel' c counter path
            else remove_var_prefix fuel' c counter path) ;;
      match r with
      | Done b => mret b
      | Next c =>
          if negb (has_bit (c_flags_now c) branch_bits) then mret false
          else
            match c_key c with
            | [] => mret false
            | ch :: key' =>
                let branch_node := c_run c in
                o <- (if has_bit (c_flags_now c) list_bit then
                        list <- load (c_run c) ;;
                        let off := t_small_list.offset list ch in
                        if off =? 0 then mret None
                        else mret (Some (off - 1, idx (c_run c) off))
                      else
                        o <- do_find_pop (c_run c) ch ;;
                        match o with
                        | None => mret None
                        | Some off => mret (Some (off - 4, idx (c_run c) off))
                        end) ;;
                match o with
                | None => mret false
                | Some (child_index, slot) =>
                    let path :=
                      mk_entry (c_ref c) (c_node_start c) (c_initial_flags c)
                               child_index branch_node :: path in
                    w <- load slot ;;
                    let '(run, flags_now) := dirty_high_pointer.get_both w in
                    if run =? 0 then mret false
                    else
                      remove_descend fuel' fixed_len
                        (mk_cursor slot run flags_now run flags_now key')
                        counter path
                end
            end
      end
  end.

(** [remove_loop] *)
Definition remove_loop (fuel : nat) (fixed_len : Z) (key : list Z)
           (counter head_ptr : Z) : M bool :=
  w <- load head_ptr ;;
  let '(ptr, flags) := dirty_high_pointer.get_both w in
  if ptr =? 0 then mret false
  else
    remove_descend fuel fixed_len
                   (mk_cursor head_ptr ptr flags ptr flags key) counter [].
End remove_helper.

(* ===================================================================== *)
(** * ktrie_nav.h *)
(* ===================================================================== *)

Module nav_helper.
(** [struct ktrie_result]: [None] is a result with [exists = false],
    [Some (key, value)] carries the key bytes and the value address.  The
    [std::string] prefix and the [std::vector]s of frames and children
    that the searches build are values here: the memory the source takes
    for them is no part of the node memory of the embedding, and that it
    may run out is not embedded. *)
Definition ktrie_result : Type := option (list Z * Z).

(** [struct nav_frame] *)
Record nav_frame : Type := mk_frame {
  f_node_start : Z;
  f_flags : Z;
  f_prefix : list Z;
  f_child_index : Z;
  f_children : list (Z * Z)
}.

(** Appending the characters of the HOP or SKIP at [run] to the prefix:
    the characters, the flags after the run and the position after it. *)
Definition read_run (run flags : Z) : M (list Z * Z * Z) :=
  if has_bit flags hop_bit then
    hop <- load run ;;
    mret (t_hop.to_string hop, t_hop.get_new_flags hop, idx run 1)
  else
    sk <- load run ;;
    let slen := t_skip.get_skip_len sk in
    sd <- skip_bytes (idx run 1) slen ;;
    mret (sd, t_skip.get_new_flags sk, idx run (1 + t_skip.num_skip_nodes slen)).

(** The [children] vector of a branch: characters with the addresses of
    their child pointers. *)
Definition branch_children (run flags : Z) : M (list (Z * Z)) :=
  if has_bit flags list_bit then
    list <- load run ;;
    let lsz := t_small_list.get_list_sz list in
    mret (List.map (fun i => (t_small_list.get_list_at list (Z.of_nat i),
                              idx run (1 + Z.of_nat i)))
                   (seq 0 (Z.to_nat lsz)))
  else
    chars <- get_pop_chars run ;;
    mret (List.map (fun ic => (snd ic, idx run (4 + Z.of_nat (fst ic))))
                   (combine (seq 0 (List.length chars)) chars)).

(** The first child of a branch ([get_list_at(0)] or [chars[0]]). *)
Definition first_child (run flags : Z) : M (Z * Z) :=
  if has_bit flags list_bit then
    list <- load run ;;
    mret (t_small_list.get_list_at list 0, idx run 1)
  else
    chars <- get_pop_chars run ;;
    match chars with
    | [] => crash AssertionFailed
    | c :: _ => mret (c, idx run 4)
    end.

Fixpoint get_min_loop (fuel : nat) (run flags : Z) (prefix : list Z)
  : M ktrie_result :=
  match fuel with
  | O => crash OutOfFuel
  | S fuel' =>
      if has_bit flags eos_bit then mret (Some (prefix, node.get_data_ptr run))
      else if has_bit flags run_bits then
        r <- read_run run flags ;;
        let '(s, flags, run) := r in
        get_min_loop fuel' run flags (prefix ++ s)
      else if negb (has_bit flags branch_bits) then mret None
      else
        fc <- first_child run flags ;;
        let '(first_char, child_node) := fc in
        let prefix := prefix ++ [first_char] in
        w <- load child_node ;;
        let '(next_run, next_flags) := dirty_high_pointer.get_both w in
        if next_run =? 0 then mret None
        else get_min_loop fuel' next_run next_flags prefix
  end.

Definition get_min_from (fuel : nat) (run flags : Z) (prefix : list Z)
  : M ktrie_result :=
  if run =? 0 then mret None else get_min_loop fuel run flags prefix.

(** The [while] loop of [get_max_recursive]: the position and flags at
    the branch, the prefix there, and the last [EOS] passed. *)
Fixpoint max_prefix_loop (fuel : nat) (run flags : Z) (prefix : list Z)
         (eos : ktrie_result) : M (Z * Z * list Z * ktrie_result) :=
  match fuel with
  | O => crash OutOfFuel
  | S fuel' =>
      if has_bit flags prefix_bits then
        let '(eos, run) :=
          if has_bit flags eos_bit
          then (Some (prefix, node.get_data_ptr run), idx run 1)
          else (eos, run) in
        if has_bit flags run_bits then
          r <- read_run run flags ;;
          let '(s, flags, run) := r in
          max_prefix_loop fuel' run flags (prefix ++ s) eos
        else mret (run, flags, prefix, eos)
      else mret (run, flags, prefix, eos)
  end.

Fixpoint get_max_recursive (fuel : nat) (start flags : Z) (prefix : list Z)
  : M ktrie_result :=
  match fuel with
  | O => crash OutOfFuel
  | S fuel' =>
      if start =? 0 then mret None
      else
        r <- max_prefix_loop fuel' start flags prefix None ;;
        let '(run, flags, prefix, eos) := r in
        if negb (has_bit flags branch_bits) then mret eos
        else
          children <- branch_children run flags ;;
          (fix try_children (cs : list (Z * Z)) : M ktrie_result :=
             match cs with
             | [] => mret eos
             | (c, child_ptr) :: cs' =>
                 w <- load child_ptr ;;
                 let '(child_run, child_flags) := dirty_high_pointer.get_both w in
                 if negb (child_run =? 0) then
                   result <- get_max_recursive fuel' child_run child_flags
                                               (prefix ++ [c]) ;;
                   match result with
                   | Some _ => mret result
                   | None => try_children cs'
                   end
                 else try_children cs'
             end) (rev children)
  end.

Fixpoint min_current_loop (fuel : nat) (run flags : Z) (prefix : list Z)
  : M (loop_exit (Z * Z * list Z) ktrie_result) :=
  match fuel with
  | O => crash OutOfFuel
  | S fuel' =>
      if has_bit flags eos_bit then
        mret (Done (Some (prefix, node.get_data_ptr run)))
      else if has_bit flags run_bits then
        r <- read_run run flags ;;
        let '(s, flags, run) := r in
        min_current_loop fuel' run flags (prefix ++ s)
      else mret (Next (run, flags, prefix))
  end.

Definition get_min_from_current (fuel : nat) (run flags : Z) (prefix : list Z)
  : M ktrie_result :=
  r <- min_current_loop fuel run flags prefix ;;
  match r with
  | Done res => mret res
  | Next (run, flags, prefix) =>
      if has_bit flags branch_bits then
        fc <- first_child run flags ;;
        let '(first_char, child_node) := fc in
        w <- load child_node ;;
        let '(child_run, child_flags) := dirty_high_pointer.get_both w in
        if negb (child_run =? 0)
        then get_min_from fuel child_run child_flags (prefix ++ [first_char])
        else mret None
      else mret None
  end.

(** The byte-by-byte comparison of the key with a compressed run. *)
Inductive run_cmp : Type :=
| KeyShort      (* the key ends inside the run: [i >= rem] *)
| KeyLess       (* [kc < hc] at the first difference *)
| KeyGreater    (* [kc > hc] at the first difference *)
| KeyMatches.   (* the whole run is matched *)

Fixpoint cmp_run (key str : list Z) : run_cmp :=
  match str with
  | [] => KeyMatches
  | hc :: str' =>
      match key with
      | [] => KeyShort
      | kc :: key' =>
          if kc <? hc then KeyLess
          else if kc >? hc then KeyGreater
          else cmp_run key' str'
      end
  end.

(** The search of the child set for the character [uc] in
    [find_next_impl_static]: [(found_idx, next_greater_idx)], -1 for
    none. *)
Fixpoint scan_next (cs : list (Z * Z)) (uc : Z) (i : Z) : Z * Z :=
  match cs with
  | [] => (-1, -1)
  | (cc, _) :: cs' =>
      if cc =? uc then (i, -1)
      else if cc >? uc then (-1, i)
      else scan_next cs' uc (i + 1)
  end.

(** The same for [find_prev_impl_static]: [(found_idx, last_less_idx)]. *)
Fixpoint scan_prev (cs : list (Z * Z)) (uc : Z) (i : Z) (last_less_idx : Z)
  : Z * Z :=
  match cs with
  | [] => (-1, last_less_idx)
  | (cc, _) :: cs' =>
      if cc =? uc then (i, last_less_idx)
      else if cc <? uc then scan_prev cs' uc (i + 1) i
      else (-1, last_less_idx)
  end.

Definition child_at (cs : list (Z * Z)) (i : Z) : Z * Z :=
  nth (Z.to_nat i) cs (0, 0).

(** [backtrack:] pop the stack and descend to the minimum of the next
    sibling with a non-null child. *)
Fixpoint backtrack (fuel : nat) (stack : list nav_frame) : M ktrie_result :=
  match stack with
  | [] => mret None
  | f :: stack' =>
      (fix siblings (cs : list (Z * Z)) : M ktrie_result :=
         match cs with
         | [] => backtrack fuel stack'
         | (c, child_ptr) :: cs' =>
             w <- load child_ptr ;;
             let '(child_run, child_flags) := dirty_high_pointer.get_both w in
             if negb (child_run =? 0)
             then get_min_from fuel child_run child_flags (f_prefix f ++ [c])
             else siblings cs'
         end) (skipn (Z.to_nat (f_child_index f + 1)) (f_children f))
  end.

(** The state of the outer loop of the two searches. *)
Record search : Type := mk_search {
  s_key : list Z;
  s_prefix : list Z;
  s_run : Z;
  s_flags : Z
}.

(** What the [while] loop of a search decides. *)
Inductive verdict : Type :=
| Return (r : ktrie_result)
| Backtrack
| AtBranch (s : search).

Fixpoint next_prefix_loop (fuel : nat) (or_equal : bool) (s : search) : M verdict :=
  match fuel with
  | O => crash OutOfFuel
  | S fuel' =>
      let '(mk_search key prefix run flags) := s in
      if has_bit flags prefix_bits then
        if has_bit flags eos_bit && (zlen key =? 0) then
          if or_equal then mret (Return (Some (prefix, node.get_data_ptr run)))
          else
            let run := idx run 1 in
            let flags := clear_bits flags eos_bit in
            if has_bit flags run_bits then
              r <- read_run run flags ;;
              let '(str, flags, run) := r in
              res <- get_min_from_current fuel' run flags (prefix ++ str) ;;
              mret (Return res)
            else if has_bit flags branch_bits then
              res <- get_min_from_current fuel' run flags prefix ;;
              mret (Return res)
            else mret Backtrack
        else
          let run := if has_bit flags eos_bit then idx run 1 else run in
          if has_bit flags run_bits then
            r <- read_run run flags ;;
            let '(str, new_flags, run) := r in
            match cmp_run key str with
            | KeyShort | KeyLess =>
                res <- get_min_from_current fuel' run new_flags (prefix ++ str) ;;
                mret (Return res)
            | KeyGreater => mret Backtrack
            | KeyMatches =>
                next_prefix_loop fuel' or_equal
                  (mk_search (skipn (List.length str) key) (prefix ++ str) run new_flags)
            end
          else mret (AtBranch (mk_search key prefix run flags))
      else mret (AtBranch s)
  end.

Fixpoint find_next_loop (fuel : nat) (or_equal : bool) (s : search)
         (stack : list nav_frame) : M ktrie_result :=
  match fuel with
  | O => crash OutOfFuel
  | S fuel' =>
      let frame_node_start := s_run s in
      let frame_flags := s_flags s in
      v <- next_prefix_loop fuel' or_equal s ;;
      match v with
      | Return r => mret r
      | Backtrack => backtrack fuel' stack
      | AtBranch (mk_search key prefix run flags) =>
          match key with
          | [] =>
              if has_bit flags branch_bits
              then get_min_from_current fuel' run flags prefix
              else backtrack fuel' stack
          | c :: key' =>
              if negb (has_bit flags branch_bits) then backtrack fuel' stack
              else
                let uc := wrap8 c in
                children <- branch_children run flags ;;
                let '(found_idx, next_greater_idx) := scan_next children uc 0 in
                if found_idx >=? 0 then
                  let frame := mk_frame frame_node_start frame_flags prefix
                                        found_idx children in
                  let stack := frame :: stack in
                  w <- load (snd (child_at children found_idx)) ;;
                  let '(child_run, child_flags) := dirty_high_pointer.get_both w in
                  if child_run =? 0 then backtrack fuel' stack
                  else
                    find_next_loop fuel' or_equal
                      (mk_search key' (prefix ++ [c]) child_run child_flags) stack
                else if next_greater_idx >=? 0 then
                  let gc := fst (child_at children next_greater_idx) in
                  w <- load (snd (child_at children next_greater_idx)) ;;
                  let '(child_run, child_flags) := dirty_high_pointer.get_both w in
                  if negb (child_run =? 0)
                  then get_min_from fuel' child_run child_flags (prefix ++ [gc])
                  else backtrack fuel' stack
                else backtrack fuel' stack
          end
      end
  end.

Definition find_next_impl_static (fuel : nat) (inp : list Z) (or_equal : bool)
           (run flags : Z) : M ktrie_result :=
  find_next_loop fuel or_equal (mk_search inp [] run flags) [].

(** [backtrack_prev:] *)
Fixpoint backtrack_prev (fuel : nat) (stack : list nav_frame)
         (last_less : ktrie_result) : M ktrie_result :=
  match stack with
  | [] => mret last_less
  | f :: stack' =>
      (fix siblings (cs : list (Z * Z)) : M ktrie_result :=
         match cs with
         | [] =>
             if has_bit (f_flags f) eos_bit
             then mret (Some (f_prefix f, node.get_data_ptr (f_node_start f)))
             else backtrack_prev fuel stack' last_less
         | (c, child_ptr) :: cs' =>
             w <- load child_ptr ;;
             let '(child_run, child_flags) := dirty_high_pointer.get_both w in
             if negb (child_run =? 0)
             then get_max_recursive fuel child_run child_flags (f_prefix f ++ [c])
             else siblings cs'
         end) (rev (firstn (Z.to_nat (f_child_index f)) (f_children f)))
  end.

(** The [while] loop of [find_prev_impl_static]; the verdict [AtBranch]
    comes with the best [EOS] passed so far. *)
Fixpoint prev_prefix_loop (fuel : nat) (or_equal : bool) (s : search)
         (last_less : ktrie_result) : M (verdict * ktrie_result) :=
  match fuel with
  | O => crash OutOfFuel
  | S fuel' =>
      let '(mk_search key prefix run flags) := s in
      if has_bit flags prefix_bits then
        if has_bit flags eos_bit && (zlen key =? 0) then
          if or_equal
          then mret (Return (Some (prefix, node.get_data_ptr run)), last_less)
          else mret (Return last_less, last_less)
        else
          let '(last_less, run) :=
            if has_bit flags eos_bit
            then (Some (prefix, node.get_data_ptr run), idx run 1)
            else (last_less, run) in
          if has_bit flags run_bits then
            r <- read_run run flags ;;
            let '(str, new_flags, run) := r in
            match cmp_run key str with
            | KeyShort | KeyLess => mret (Return last_less, last_less)
            | KeyGreater =>
                res <- get_max_recursive fuel' run new_flags (prefix ++ str) ;;
                mret (Return res, last_less)
            | KeyMatches =>
                prev_prefix_loop fuel' or_equal
                  (mk_search (skipn (List.length str) key) (prefix ++ str) run new_flags)
                  last_less
            end
          else mret (AtBranch (mk_search key prefix run flags), last_less)
      else mret (AtBranch s, last_less)
  end.

Fixpoint find_prev_loop (fuel : nat) (or_equal : bool) (s : search)
         (stack : list nav_frame) (last_less : ktrie_result) : M ktrie_result :=
  match fuel with
  | O => crash OutOfFuel
  | S fuel' =>
      let frame_node_start := s_run s in
      let frame_flags := s_flags s in
      vl <- prev_prefix_loop fuel' or_equal s last_less ;;
      let '(v, last_less) := vl in
      match v with
      | Return r => mret r
      | Backtrack => backtrack_prev fuel' stack last_less
      | AtBranch (mk_search key prefix run flags) =>
          match key with
          | [] => mret last_less
          | c :: key' =>
              if negb (has_bit flags branch_bits) then mret last_less
              else
                let uc := wrap8 c in
                children <- branch_children run flags ;;
                let '(found_idx, last_less_idx) := scan_prev children uc 0 (-1) in
                if found_idx >=? 0 then
                  let frame := mk_frame frame_node_start frame_flags prefix
                                        found_idx children in
                  let stack := frame :: stack in
                  w <- load (snd (child_at children found_idx)) ;;
                  let '(child_run, child_flags) := dirty_high_pointer.get_both w in
                  if child_run =? 0 then backtrack_prev fuel' stack last_less
                  else
                    find_prev_loop fuel' or_equal
                      (mk_search key' (prefix ++ [c]) child_run child_flags)
                      stack last_less
                else if last_less_idx >=? 0 then
                  let lc := fst (child_at children last_less_idx) in
                  w <- load (snd (child_at children last_less_idx)) ;;
                  let '(child_run, child_flags) := dirty_high_pointer.get_both w in
                  if negb (child_run =? 0)
                  then get_max_recursive fuel' child_run child_flags (prefix ++ [lc])
                  else mret last_less
                else mret last_less
          end
      end
  end.

Definition find_prev_impl_static (fuel : nat) (inp : list Z) (or_equal : bool)
           (run flags : Z) : M ktrie_result :=
  find_prev_loop fuel or_equal (mk_search inp [] run flags) [] None.
End nav_helper.

(* ===================================================================== *)
(** * ktrie_base.h : the container *)
(* ===================================================================== *)

(** A [ktrie_base<T, fixed_len, A>] object lives in memory: [head_] at the
    address of the object, [cnt_] in the next word.  [T] is
    [std::uint64_t] (a [small_class], stored inline) and [A] the default
    allocator. *)
Module ktrie_base.
Import insert_helper nav_helper.

Definition head_ (this : Z) : Z := this.
Definition cnt_ (this : Z) : Z := idx this 1.

(** A default-constructed trie: null [head_], [cnt_ = 0].  The object
    itself is not a node array and is not charged to the allocation
    budget. *)
Definition construct : M Z :=
  fun h =>
    let p := brk h in
    Ok p (mk_heap (<[p := 0]> (<[idx p 1 := 0]> (mem h))) (idx p 3) (budget h)).

Definition empty (this : Z) : M bool :=
  c <- load (cnt_ this) ;; mret (c =? 0).

Definition size (this : Z) : M Z := load (cnt_ this).

(** One step of matching a HOP or SKIP during lookup: [None] when the
    key does not match, otherwise the new position, flags and remaining
    key. *)
Definition find_run (run flags : Z) (inp : list Z) : M (option (Z * Z * list Z)) :=
  if has_bit flags hop_bit then
    hop <- load run ;;
    assert (t_hop.matches_ok hop (zlen inp)) ;;;
    if negb (t_hop.matches hop inp (zlen inp)) then mret None
    else mret (Some (idx run 1, t_hop.get_new_flags hop,
                     skipn (Z.to_nat (t_hop.get_hop_sz hop)) inp))
  else
    sk <- load run ;;
    let slen := t_skip.get_skip_len sk in
    let flags := t_skip.get_new_flags sk in
    if zlen inp <? slen then mret None
    else
      let run := idx run 1 in
      ok <- do_find_skip run inp slen ;;
      if negb ok then mret None
      else mret (Some (idx run (t_skip.num_skip_nodes slen), flags,
                       skipn (Z.to_nat slen) inp)).

(** The branch lookup shared by both lookup paths: [None] when the
    character is absent, else the address of the child pointer. *)
Definition find_child (run flags c : Z) : M (option Z) :=
  if has_bit flags list_bit then
    list <- load run ;;
    let off := t_small_list.offset list c in
    if off =? 0 then mret None else mret (Some (idx run off))
  else
    o <- do_find_pop run c ;;
    match o with
    | None => mret None
    | Some off => mret (Some (idx run off))
    end.

(** The [while] loop of the variable-length lookup: [Done p] returns
    [p] from [find_internal]. *)
Fixpoint find_prefix_loop (fuel : nat) (run flags : Z) (inp : list Z)
  : M (loop_exit (Z * Z * list Z) Z) :=
  match fuel with
  | O => crash OutOfFuel
  | S fuel' =>
      if has_bit flags prefix_bits then
        if has_bit flags eos_bit && (zlen inp =? 0) then
          mret (Done (node.get_data_ptr run))
        else
          let run := if has_bit flags eos_bit then idx run 1 else run in
          if has_bit flags run_bits then
            r <- find_run run flags inp ;;
            match r with
            | None => mret (Done 0)
            | Some (run, flags, inp) => find_prefix_loop fuel' run flags inp
            end
          else mret (Next (run, flags, inp))
      else mret (Next (run, flags, inp))
  end.

Definition find_fixed_prefix (run flags : Z) (inp : list Z)
  : M (loop_exit (Z * Z * list Z) Z) :=
  r <- (if has_bit flags run_bits then find_run run flags inp
        else mret (Some (run, flags, inp))) ;;
  match r with
  | None => mret (Done 0)
  | Some (run, flags, inp) =>
      if has_bit flags eos_bit then
        if zlen inp =? 0 then mret (Done (node.get_data_ptr run))
        else mret (Done 0)
      else mret (Next (run, flags, inp))
  end.

Fixpoint find_loop (fuel : nat) (fixed_len : Z) (run flags : Z) (inp : list Z)
  : M Z :=
  match fuel with
  | O => crash OutOfFuel
  | S fuel' =>
      r <- (if fixed_len >? 0 then find_fixed_prefix run flags inp
            else find_prefix_loop fuel' run flags inp) ;;
      match r with
      | Done p => mret p
      | Next (run, flags, inp) =>
          if negb (has_bit flags branch_bits) then mret 0
          else
            match inp with
            | [] => mret 0
            | c :: inp' =>
                o <- find_child run flags c ;;
                match o with
                | None => mret 0
                | Some slot =>
                    w <- load slot ;;
                    let '(run, flags) := dirty_high_pointer.get_both w in
                    if run =? 0 then mret 0
                    else find_loop fuel' fixed_len run flags inp'
                end
            end
      end
  end.

(** [find_internal]: the address of the value, 0 for [nullptr]. *)
Definition find_internal (fuel : nat) (fixed_len : Z) (this : Z) (inp : list Z)
  : M Z :=
  c <- load (cnt_ this) ;;
  if c =? 0 then mret 0
  else
    w <- load (head_ this) ;;
    let '(run, flags) := dirty_high_pointer.get_both w in
    find_loop fuel fixed_len run flags inp.

Definition contains_internal (fuel : nat) (fixed_len : Z) (this : Z)
           (key : list Z) : M bool :=
  p <- find_internal fuel fixed_len this key ;; mret (negb (p =? 0)).

Definition count_internal (fuel : nat) (fixed_len : Z) (this : Z)
           (key : list Z) : M Z :=
  p <- find_internal fuel fixed_len this key ;; mret (if p =? 0 then 0 else 1).

(** The common body of [insert_internal] ([do_update = false]) and
    [insert_or_assign_internal] ([do_update = true]): the pair of the
    value address and the [inserted] flag. *)
Definition insert_with (fuel : nat) (fixed_len : Z) (do_update : bool)
           (this : Z) (key : list Z) (value : Z) : M (Z * bool) :=
  let tail := init_ret key value (head_ this) in
  c <- load (cnt_ this) ;;
  r <- (if negb (c =? 0) then
          w <- load (head_ this) ;;
          let '(ptr, flags) := dirty_high_pointer.get_both w in
          let m := init_md (head_ this) ptr ptr flags in
          tail <- insert_update_loop fuel fixed_len m tail do_update ;;
          if cnt tail =? 0 then mret (Done (ret tail, false))
          else if tail_ptr tail =? 0 then
            c <- load (cnt_ this) ;;
            store (cnt_ this) (wrap64 (c + cnt tail)) ;;;
            mret (Done (ret tail, true))
          else mret (Next tail)
        else mret (Next tail)) ;;
  match r with
  | Done res => mret res
  | Next tail =>
      tail <- make_tail tail ;;
      c <- load (cnt_ this) ;;
      store (cnt_ this) (wrap64 (c + cnt tail)) ;;;
      mret (ret tail, true)
  end.

Definition insert_internal (fuel : nat) (fixed_len : Z) :=
  insert_with fuel fixed_len false.

Definition insert_or_assign_internal (fuel : nat) (fixed_len : Z) :=
  insert_with fuel fixed_len true.

(** [erase_internal]: the number of elements removed. *)
Definition erase_internal (fuel : nat) (fixed_len : Z) (this : Z) (key : list Z)
  : M Z :=
  c <- load (cnt_ this) ;;
  if c =? 0 then mret 0
  else
    removed <- remove_helper.remove_loop fuel fixed_len key (cnt_ this) (head_ this) ;;
    mret (if removed : bool then 1 else 0).

(** The navigation entry points all start the same way. *)
Definition with_root (this : Z) (k : Z -> Z -> M ktrie_result) : M ktrie_result :=
  c <- load (cnt_ this) ;;
  if c =? 0 then mret None
  else
    w <- load (head_ this) ;;
    let '(run, flags) := dirty_high_pointer.get_both w in
    if run =? 0 then mret None else k run flags.

Definition first_internal (fuel : nat) (this : Z) : M ktrie_result :=
  with_root this (find_next_impl_static fuel [] true).

(** [std::string max_key(256, '\xFF')], as a value (see [nav_helper]). *)
Definition max_key : list Z := repeat 255 256.

Definition last_internal (fuel : nat) (this : Z) : M ktrie_result :=
  with_root this (find_prev_impl_static fuel max_key true).

Definition next_item_internal (fuel : nat) (this : Z) (key : list Z)
  : M ktrie_result :=
  with_root this (find_next_impl_static fuel key false).

Definition prev_item_internal (fuel : nat) (this : Z) (key : list Z)
  : M ktrie_result :=
  with_root this (find_prev_impl_static fuel key false).

Definition lower_bound_internal (fuel : nat) (this : Z) (key : list Z)
  : M ktrie_result :=
  with_root this (find_next_impl_static fuel key true).

Definition upper_bound_internal (fuel : nat) (this : Z) (key : list Z)
  : M ktrie_result :=
  with_root this (find_next_impl_static fuel key false).

(** The prefix part of [destroy_node_array]: the position and flags at
    the branch ([t_data::destroy] does nothing for an inline value). *)
Fixpoint destroy_prefix (fuel : nat) (run flags : Z) : M (Z * Z) :=
  match fuel with
  | O => crash OutOfFuel
  | S fuel' =>
      if has_bit flags prefix_bits then
        let run := if has_bit flags eos_bit then idx run 1 else run in
        if has_bit flags run_bits then
          w <- load run ;;
          if has_bit flags hop_bit then
            destroy_prefix fuel' (idx run 1) (t_hop.get_new_flags w)
          else
            destroy_prefix fuel' (idx run (1 + t_skip.num_skip_nodes (t_skip.get_skip_len w)))
                           (t_skip.get_new_flags w)
        else mret (run, flags)
      else mret (run, flags)
  end.

Definition destroy_fixed_prefix (run flags : Z) : M (Z * Z) :=
  rf <- (if has_bit flags hop_bit then
           w <- load run ;; mret (idx run 1, t_hop.get_new_flags w)
         else if has_bit flags skip_bit then
           w <- load run ;;
           mret (idx run (1 + t_skip.num_skip_nodes (t_skip.get_skip_len w)),
                 t_skip.get_new_flags w)
         else mret (run, flags)) ;;
  let '(run, flags) := rf in
  mret (if has_bit flags eos_bit then idx run 1 else run, flags).

Fixpoint destroy_node_array (fuel : nat) (fixed_len : Z) (start flags : Z) : M unit :=
  match fuel with
  | O => crash OutOfFuel
  | S fuel' =>
      if start =? 0 then mret tt
      else
        rf <- (if fixed_len >? 0 then destroy_fixed_prefix start flags
               else destroy_prefix fuel' start flags) ;;
        let '(run, flags) := rf in
        n <- (if has_bit flags list_bit then
                list <- load run ;;
                mret (Some (1, t_small_list.get_list_sz list))
              else if has_bit flags pop_bit then
                pop <- load_n run 4 ;;
                mret (Some (4, insert_helper.pop_total pop))
              else mret None) ;;
        run <- match n with
               | None => mret run
               | Some (hdr, num_children) =>
                   let run := idx run hdr in
                   (fix children (k : nat) (run : Z) : M Z :=
                      match k with
                      | O => mret run
                      | S k' =>
                          w <- load run ;;
                          let '(child_ptr, child_flags) := dirty_high_pointer.get_both w in
                          destroy_node_array fuel' fixed_len child_ptr child_flags ;;;
                          children k' (idx run 1)
                      end) (Z.to_nat num_children) run
               end ;;
        let array_len := ptr_diff run start in
        node.deallocate start (alloc_size array_len)
  end.

Definition clear (fuel : nat) (fixed_len : Z) (this : Z) : M unit :=
  c <- load (cnt_ this) ;;
  if c =? 0 then mret tt
  else
    w <- load (head_ this) ;;
    let '(ptr, flags) := dirty_high_pointer.get_both w in
    destroy_node_array fuel fixed_len ptr flags ;;;
    store (head_ this) 0 ;;;
    store (cnt_ this) 0.

(** The first loop of [merge(ktrie_base&)]: every element of [other] is
    offered to [insert_internal]; the keys that were inserted are
    collected. *)
Fixpoint merge_collect (fuel : nat) (fixed_len : Z) (this other : Z)
         (item : ktrie_result) (merged_keys : list (list Z)) : M (list (list Z)) :=
  match fuel with
  | O => crash OutOfFuel
  | S fuel' =>
      match item with
      | None => mret merged_keys
      | Some (key, value) =>
          v <- load value ;;
          r <- insert_internal fuel' fixed_len this key v ;;
          let merged_keys := if snd r then merged_keys ++ [key] else merged_keys in
          item <- next_item_internal fuel' other key ;;
          merge_collect fuel' fixed_len this other item merged_keys
      end
  end.

Fixpoint erase_all (fuel : nat) (fixed_len : Z) (other : Z) (keys : list (list Z))
  : M unit :=
  match keys with
  | [] => mret tt
  | key :: keys' =>
      erase_internal fuel fixed_len other key ;;;
      erase_all fuel fixed_len other keys'
  end.

(** [merge(ktrie_base& other)] *)
Definition merge (fuel : nat) (fixed_len : Z) (this other : Z) : M unit :=
  if this =? other then mret tt
  else
    item <- first_internal fuel other ;;
    merged_keys <- merge_collect fuel fixed_len this other item [] ;;
    erase_all fuel fixed_len other merged_keys.
End ktrie_base.

(* ===================================================================== *)
(** * Running the container *)
(* ===================================================================== *)

(** What the caller of an operation sees: a returned value, the
    allocator's exception, or a fault of the model (an access outside the
    mapped words, a failed debug assertion, exhausted fuel). *)
Inductive outcome (A : Type) : Type :=
  | Returns (a : A)
  | Throws
  | Faults (f : fault).
Arguments Returns {A} a.
Arguments Throws {A}.
Arguments Faults {A} f.

Definition observe {A} (r : result A) : outcome A :=
  match r with
  | Ok a _ => Returns a
  | BadAlloc _ => Throws
  | Crash f => Faults f
  end.

(** The memory an operation leaves behind, also when it throws. *)
Definition heap_after {A} (r : result A) (h : heap) : heap :=
  match r with
  | Ok _ h' => h'
  | BadAlloc h' => h'
  | Crash _ => h
  end.

Definition empty_heap : heap := mk_heap ∅ 4096 None.


(** A [ktrie<std::string, std::uint64_t>] driven through [ktrie_base]. *)
Module client.
Import nav_helper.

Definition fuel : nat := 64.

Definition deref (p : Z) : M (option Z) :=
  if p =? 0 then mret None else v <- load p ;; mret (Some v).

Definition insert (this : Z) (k : string) (v : Z) : M bool :=
  r <- ktrie_base.insert_internal fuel 0 this (key_of_string k) v ;;
  mret (snd r).

Definition insert_or_assign (this : Z) (k : string) (v : Z) : M bool :=
  r <- ktrie_base.insert_or_assign_internal fuel 0 this (key_of_string k) v ;;
  mret (snd r).

Definition erase (this : Z) (k : string) : M Z :=
  ktrie_base.erase_internal fuel 0 this (key_of_string k).

Definition find (this : Z) (k : string) : M (option Z) :=
  p <- ktrie_base.find_internal fuel 0 this (key_of_string k) ;; deref p.

Definition item (r : ktrie_result) : M (option (list Z * Z)) :=
  match r with
  | None => mret None
  | Some (k, p) => v <- load p ;; mret (Some (k, v))
  end.

Definition first (this : Z) : M (option (list Z * Z)) :=
  r <- ktrie_base.first_internal fuel this ;; item r.

Definition last (this : Z) : M (option (list Z * Z)) :=
  r <- ktrie_base.last_internal fuel this ;; item r.

Definition prev (this : Z) (k : string) : M (option (list Z * Z)) :=
  r <- ktrie_base.prev_item_internal fuel this (key_of_string k) ;; item r.

Definition lower_bound (this : Z) (k : string) : M (option (list Z * Z)) :=
  r <- ktrie_base.lower_bound_internal fuel this (key_of_string k) ;; item r.

Definition upper_bound (this : Z) (k : string) : M (option (list Z * Z)) :=
  r <- ktrie_base.upper_bound_internal fuel this (key_of_string k) ;; item r.

(** [for (it = begin(); it != end(); ++it)], at most [n] steps. *)
Fixpoint ascend (n : nat) (this : Z) (r : ktrie_result) : M (list (list Z * Z)) :=
  match n, r with
  | S n', Some (k, p) =>
      v <- load p ;;
      nx <- ktrie_base.next_item_internal fuel this k ;;
      rest <- ascend n' this nx ;;
      mret ((k, v) :: rest)
  | _, _ => mret []
  end.

Definition ascending (this : Z) : M (list (list Z * Z)) :=
  r <- ktrie_base.first_internal fuel this ;; ascend 64 this r.

(** Repeated [prev] from [last], at most [n] steps. *)
Fixpoint descend (n : nat) (this : Z) (r : ktrie_result) : M (list (list Z * Z)) :=
  match n, r with
  | S n', Some (k, p) =>
      v <- load p ;;
      nx <- ktrie_base.prev_item_internal fuel this k ;;
      rest <- descend n' this nx ;;
      mret ((k, v) :: rest)
  | _, _ => mret []
  end.

Definition descending (this : Z) : M (list (list Z * Z)) :=
  r <- ktrie_base.last_internal fuel this ;; descend 64 this r.

(** The flags in force at the branch of the root array, as
    [remove_child_from_branch] scans for them. *)
Definition root_branch_flags (this : Z) : M Z :=
  w <- load (ktrie_base.head_ this) ;;
  let '(p, f) := dirty_high_pointer.get_both w in
  remove_helper.branch_flags_scan fuel p f.

(** The first word of the branch of the root array, as [node_array_sz]
    scans for it. *)
Definition root_branch_word (this : Z) : M Z :=
  w <- load (ktrie_base.head_ this) ;;
  let '(p, f) := dirty_high_pointer.get_both w in
  rf <- insert_helper.node_array_sz_scan fuel p f ;;
  load (fst rf).

Fixpoint insert_all (this : Z) (kvs : list (string * Z)) : M unit :=
  match kvs with
  | [] => mret tt
  | (k, v) :: rest => insert this k v ;;; insert_all this rest
  end.
End client.

(** The operation sequences examined below; every trie is the first
    object of an empty heap, at address 4096. *)
Module scenarios.
Import client.

(** A root array with an [EOS], a HOP and a POP of eight children, and
    the erase that takes the POP down to seven: the values of [""] and
    ["b2"] and the size before, the result of the erase, and the same
    three observations after. *)
Definition erase_from_pop_of_eight
  : M (option Z * option Z * Z * Z * Z * option Z * option Z) :=
  t <- ktrie_base.construct ;;
  insert_all t [(""%string, 1); ("b0"%string, 10); ("b1"%string, 11);
                ("b2"%string, 12); ("b3"%string, 13); ("b4"%string, 14);
                ("b5"%string, 15); ("b6"%string, 16); ("b7"%string, 17)] ;;;
  e0 <- find t "" ;; v0 <- find t "b2" ;; s0 <- ktrie_base.size t ;;
  r <- erase t "b0" ;;
  s1 <- ktrie_base.size t ;; e1 <- find t "" ;; v1 <- find t "b2" ;;
  mret (e0, v0, s0, r, s1, e1, v1).

(** Both keys below ["x"] are erased again, ["x"] and ["y"] stay. *)
Definition bounds_after_erasing_a_subtree
  : M (Z * Z * option Z * option Z * Z
       * option (list Z * Z) * list (list Z * Z)) :=
  t <- ktrie_base.construct ;;
  insert_all t [("xab"%string, 1); ("xac"%string, 2); ("x"%string, 3);
                ("y"%string, 4)] ;;;
  r1 <- erase t "xab" ;; r2 <- erase t "xac" ;;
  fx <- find t "x" ;; fy <- find t "y" ;; s <- ktrie_base.size t ;;
  u <- upper_bound t "x" ;; asc <- ascending t ;;
  mret (r1, r2, fx, fy, s, u, asc).

(** Two sibling keys: the ascending traversal, [last], [prev] of the
    last key and the whole descending traversal. *)
Definition reverse_over_two_siblings
  : M (list (list Z * Z) * option (list Z * Z) * option (list Z * Z)
       * list (list Z * Z)) :=
  t <- ktrie_base.construct ;;
  insert_all t [("a"%string, 1); ("b"%string, 2)] ;;;
  asc <- ascending t ;; l <- last t ;; p <- prev t "b" ;; d <- descending t ;;
  mret (asc, l, p, d).






(** A key is inserted a second time right after its insertion: the
    three [inserted] flags, the size and the lookup of the key, then the
    flag of the repeated insert, the size and the lookup after it. *)
Definition insert_twice
  : M (bool * bool * bool * Z * option Z * bool * Z * option Z) :=
  t <- ktrie_base.construct ;;
  i1 <- insert t "xabcdefgh" 1 ;; i2 <- insert t "x" 2 ;;
  i3 <- insert t "xabc" 3 ;;
  s0 <- ktrie_base.size t ;; v0 <- find t "xabc" ;;
  i4 <- insert t "xabc" 9 ;;
  s1 <- ktrie_base.size t ;; v1 <- find t "xabc" ;;
  mret (i1, i2, i3, s0, v0, i4, s1, v1).

(** A POP of eight children below a HOP that follows an [EOS] and
    another HOP, and the erase that takes it down to seven: the flags in
    force at the branch before, the result of the erase, the flags
    after, the child count in the first word of the branch read as a LIST
    header, the lookup of a remaining child, and the size. *)
Definition demote_pop_behind_two_hops : M (Z * Z * Z * Z * option Z * Z) :=
  t <- ktrie_base.construct ;;
  insert_all t [("a"%string, 1); ("ab0"%string, 10); ("ab1"%string, 11);
                ("ab2"%string, 12); ("ab3"%string, 13); ("ab4"%string, 14);
                ("ab5"%string, 15); ("ab6"%string, 16); ("ab7"%string, 17)] ;;;
  f0 <- root_branch_flags t ;;
  r <- erase t "ab0" ;;
  f1 <- root_branch_flags t ;;
  w <- root_branch_word t ;;
  v <- find t "ab2" ;; s <- ktrie_base.size t ;;
  mret (f0, r, f1, t_small_list.get_list_sz w, v, s).

(** Two distinct keys, one of them inserted twice, then erased: the
    size after each step, the result of the erase, and [empty]. *)
Definition count_two_keys : M (Z * Z * Z * Z * Z * bool) :=
  t <- ktrie_base.construct ;;
  insert t "he" 1 ;;; s1 <- ktrie_base.size t ;;
  insert t "" 5 ;;; s2 <- ktrie_base.size t ;;
  insert t "" 6 ;;; s3 <- ktrie_base.size t ;;
  r <- erase t "" ;; s4 <- ktrie_base.size t ;;
  e <- ktrie_base.empty t ;;
  mret (s1, s2, s3, r, s4, e).

(** The empty key inserted into a trie that holds ["he"]: the
    [inserted] flag, both lookups, the first item, the ascending
    traversal and the result of erasing the empty key. *)
Definition empty_key_after_hop
  : M (bool * option Z * option Z * option (list Z * Z)
       * list (list Z * Z) * Z) :=
  t <- ktrie_base.construct ;;
  insert t "he" 1 ;;;
  i <- insert t "" 5 ;;
  f <- find t "" ;; g <- find t "he" ;;
  fi <- first t ;; asc <- ascending t ;;
  r <- erase t "" ;;
  mret (i, f, g, fi, asc, r).

(** [this = {"he"}], [other = {""}], then [this.merge(other)]: both
    sizes and the lookups of both keys in [this] and of [""] in
    [other]. *)
Definition merge_disjoint : M (Z * Z * option Z * option Z * option Z) :=
  this <- ktrie_base.construct ;;
  other <- ktrie_base.construct ;;
  insert this "he" 1 ;;; insert other "" 5 ;;;
  ktrie_base.merge fuel 0 this other ;;;
  s <- ktrie_base.size this ;; s' <- ktrie_base.size other ;;
  f <- find this "" ;; g <- find this "he" ;; f' <- find other "" ;;
  mret (s, s', f, g, f').

(** A trie holding the single key ["ab"] with the value 7. *)
Definition one_key : heap :=
  heap_after ((t <- ktrie_base.construct ;; insert t "ab" 7) empty_heap) empty_heap.
End scenarios.

(** The test data of [ktrie.cpp] and what its string tests do with them. *)
Module repository_tests.
Import client.

Definition tests : list string := [
  "hello";    "world";       "hell";     "help";
  "h";        "he";          "hel";      "hello!";
  "helper";   "world!";      "bworld!";  "cworld!";
  "dworld!";  "eworld!";     "fworld!";  "gworld!";
  "hworld!";  "iworld!";     "jworld!";  "kworld!";
  "lworld!";  "mworld!";     "nworld!";  "oworld!";
  "pworld!";  "qworld!";     "rworld!";  "sworld!";
  "";         "abcdefghij";  "abcdefg";  "abcdefghijk";
  "apple";    "application"; "apply";    "banana";
  "band";     "bandana";     "bank";     "banking";
  "car";      "card";        "care";     "careful";
  "carpet";   "carpool";     "category"; "dog";
  "door";     "double";      "down";     "download";
  "dragon";   "dream";       "drive";    "driver";
  "elephant"; "eleven";      "email";    "empty";
  "end";      "engine";      "enter";    "equal";
  "error";    "escape";      "event";    "example";
  "exist";    "exit";        "expect";   "experiment";
  "explain";  "express";     "extra";    "face";
  "fact";     "factory";     "fail";     "fair";
  "fall";     "false";       "family";   "famous";
  "fan";      "far";         "farm";     "fast";
  "father";   "favorite";    "fear";     "feature";
  "federal";  "fee";         "feed";     "feel";
  "feeling";  "feet";        "fellow";   "female"]%string.

(** [K.insert(t, i)] for the [i]-th word. *)
Fixpoint insert_words (this : Z) (l : list string) (i : Z) : M unit :=
  match l with
  | [] => mret tt
  | k :: rest => insert this k i ;;; insert_words this rest (i + 1)
  end.

(** The words that are missing or have the wrong value. *)
Fixpoint missing_words (this : Z) (l : list string) (i : Z) : M (list string) :=
  match l with
  | [] => mret []
  | k :: rest =>
      f <- find this k ;;
      bad <- missing_words this rest (i + 1) ;;
      mret (if match f with Some v => v =? i | None => false end
            then bad else k :: bad)
  end.

(** [erased += K.erase(t)] over the words. *)
Fixpoint erase_words (this : Z) (l : list string) : M Z :=
  match l with
  | [] => mret 0
  | k :: rest =>
      e <- erase this k ;; n <- erase_words this rest ;; mret (e + n)
  end.

(** [test_string]: size after the inserts, the missing words, the lookup
    of a word that was never inserted, the number of erased words, and
    [empty()] at the end. *)
Definition test_string : M (Z * list string * option Z * Z * bool) :=
  t <- ktrie_base.construct ;;
  insert_words t tests 0 ;;;
  s <- ktrie_base.size t ;;
  bad <- missing_words t tests 0 ;;
  nf <- find t "notexist" ;;
  erased <- erase_words t tests ;;
  e <- ktrie_base.empty t ;;
  mret (s, bad, nf, erased, e).

(** [test_edge_cases], "Insert same key twice": the size and the value
    after the second insert, and the value after [insert_or_assign]. *)
Definition test_duplicate : M (Z * option Z * option Z) :=
  t <- ktrie_base.construct ;;
  insert t "key" 1 ;;; insert t "key" 2 ;;;
  s <- ktrie_base.size t ;; v <- find t "key" ;;
  insert_or_assign t "key" 3 ;;;
  v' <- find t "key" ;;
  mret (s, v, v').

(** A [ktrie<int, V>]: keys are the four bytes of [cvt_numeric<int>]. *)
Definition int_key (x : Z) : list Z := cvt_signed.bitcvt 4 x.

Definition insert_int (this : Z) (x v : Z) : M bool :=
  r <- ktrie_base.insert_internal fuel 4 this (int_key x) v ;; mret (snd r).

Definition decoded (r : option (list Z * Z)) : option Z :=
  option_map (fun kv => cvt_signed.uncvt 4 (fst kv)) r.

(** [test_int_key], "Negative number handling" and "Sorted order for int
    keys": whether all five keys are contained, and the keys in iteration
    order. *)
Definition test_int_order : M (bool * list Z) :=
  t <- ktrie_base.construct ;;
  insert_int t (-100) 1 ;;; insert_int t (-50) 2 ;;; insert_int t 0 3 ;;;
  insert_int t 50 4 ;;; insert_int t 100 5 ;;;
  a <- ktrie_base.contains_internal fuel 4 t (int_key (-100)) ;;
  b <- ktrie_base.contains_internal fuel 4 t (int_key (-50)) ;;
  c <- ktrie_base.contains_internal fuel 4 t (int_key 0) ;;
  d <- ktrie_base.contains_internal fuel 4 t (int_key 50) ;;
  e <- ktrie_base.contains_internal fuel 4 t (int_key 100) ;;
  asc <- ascending t ;;
  mret (a && b && c && d && e,
        List.map (fun kv => cvt_signed.uncvt 4 (fst kv)) asc).

(** [test_edge_cases], "Lower/upper bound": [lower_bound(15)],
    [upper_bound(20)] and [lower_bound(20)] on the keys 10, 20, 30. *)
Definition test_bounds : M (option Z * option Z * option Z) :=
  t <- ktrie_base.construct ;;
  insert_int t 10 1 ;;; insert_int t 20 2 ;;; insert_int t 30 3 ;;;
  l <- ktrie_base.lower_bound_internal fuel t (int_key 15) ;; l <- item l ;;
  u <- ktrie_base.upper_bound_internal fuel t (int_key 20) ;; u <- item u ;;
  l' <- ktrie_base.lower_bound_internal fuel t (int_key 20) ;; l' <- item l' ;;
  mret (decoded l, decoded u, decoded l').

(** [K.insert(i, i * mul)] for [n] keys from [i] on. *)
Fixpoint insert_range (this : Z) (n : nat) (i mul : Z) : M unit :=
  match n with
  | O => mret tt
  | S n' => insert_int this i (i * mul) ;;; insert_range this n' (i + 1) mul
  end.

(** [test_edge_cases], "Clear and reuse": [empty()] after [clear()], then
    the size and the value under 50 after the second round of inserts. *)
Definition test_clear : M (bool * Z * option Z) :=
  t <- ktrie_base.construct ;;
  insert_range t 100 0 1 ;;;
  ktrie_base.clear fuel 4 t ;;;
  e <- ktrie_base.empty t ;;
  insert_range t 100 0 2 ;;;
  s <- ktrie_base.size t ;;
  p <- ktrie_base.find_internal fuel 4 t (int_key 50) ;; v <- deref p ;;
  mret (e, s, v).
End repository_tests.

(* ===================================================================== *)
(** * Allocation failure: what a computation does before it allocates *)
(* ===================================================================== *)

(** A computation is [read_only] when it neither writes nor allocates. *)
Definition read_only {A} (c : M A) : Prop :=
  forall h, match c h with
            | Ok _ h1 => h1 = h
            | BadAlloc _ => False
            | Crash _ => True
            end.

(** [agree b h h']: every word below address [b] is in [h'] what it is in
    [h]. *)
Definition agree (b : Z) (h h' : heap) : Prop :=
  forall a, a < b -> mem h' !! a = mem h !! a.

(** A computation that writes only at or above [b], whatever it returns;
    [Q] is what is known about the value it returns. *)
Definition frames {A} (b : Z) (c : M A) (Q : A -> Prop) : Prop :=
  forall h, b <= brk h ->
            match c h with
            | Ok a h1 => agree b h h1 /\ b <= brk h1 /\ Q a
            | BadAlloc h' => agree b h h'
            | Crash _ => True
            end.

(** A computation without allocation. *)
Definition never_throws {A} (c : M A) : Prop :=
  forall h, match c h with BadAlloc _ => False | _ => True end.











(* ===================================================================== *)
(** * Notions used by the further properties *)
(* ===================================================================== *)

(** The array image of a HOP word: the characters, zero padding, the
    flags byte at [new_flags_offset] and the length at [sz_offset]. *)
Definition hop_image (c : list Z) (len flags : Z) : list Z :=
  firstn (Z.to_nat len) c ++ repeat 0 (6 - Z.to_nat len) ++ [flags; len].

(** What a carrier word makes of a flag byte, and what a rewrite of the
    flags leaves alone. *)
Definition carried (loc : flags_location.type) (w : Z) : Z :=
  match loc with
  | flags_location.in_ptr => dirty_high_pointer.get_byte w
  | flags_location.in_hop => t_hop.get_new_flags w
  | flags_location.in_skip => t_skip.get_new_flags w
  end.

Definition rewritten (loc : flags_location.type) (w f : Z) : Z :=
  match loc with
  | flags_location.in_ptr => dirty_high_pointer.set_byte w f
  | flags_location.in_hop => t_hop.with_new_flags w f
  | flags_location.in_skip => t_skip.make (t_skip.get_skip_len w) (wrap8 f)
  end.

Definition same_payload (loc : flags_location.type) (w w' : Z) : Prop :=
  match loc with
  | flags_location.in_ptr => dirty_high_pointer.get_ptr w' = dirty_high_pointer.get_ptr w
  | flags_location.in_hop =>
      forall pos, pos <> t_hop.new_flags_offset ->
                  t_hop.get_char_at w' pos = t_hop.get_char_at w pos
  | flags_location.in_skip => t_skip.get_skip_len w' = t_skip.get_skip_len w
  end.

(** The width of the flag byte a carrier can hold: a full byte in a HOP,
    [num_bits] bits in a pointer or a SKIP header. *)
Definition flag_width (loc : flags_location.type) : Z :=
  match loc with flags_location.in_hop => 8 | _ => 5 end.

(** A computation that returns [true] whenever it returns. *)
Definition returns_true (c : M bool) : Prop :=
  forall h, match c h with Ok b _ => b = true | _ => True end.

(** A computation that has written nothing when it returns a value
    outside [changed]. *)
Definition quiet_unless {A} (changed : A -> Prop) (c : M A) : Prop :=
  forall h, match c h with Ok a h1 => changed a \/ h1 = h | _ => True end.

(** The remove loop ended having removed the key. *)
Definition removed (r : loop_exit remove_helper.cursor bool) : Prop := r = Done true.

(** The memory after [*p = value] for an inline value, or the memory as
    it was. *)
Definition touched (do_update : bool) (p value : Z) (h : heap) : heap :=
  if do_update then mk_heap (<[p := wrap64 value]> (mem h)) (brk h) (budget h)
  else h.

(** An operation of the insert engine that reports one new element. *)
Definition counts_one (c : M insert_helper.insert_update_ret) : Prop :=
  forall h, match c h with Ok t _ => insert_helper.cnt t = 1 | _ => True end.

(** The outcome of the insert engine: one new element, or the key was
    present and at most its value has been written. *)
Definition present_or_new (do_update : bool) (value : Z)
           (t : insert_helper.insert_update_ret) (h h1 : heap) : Prop :=
  insert_helper.cnt t = 1
  \/ (insert_helper.cnt t = 0
      /\ h1 = touched do_update (insert_helper.ret t) value h).

(** A step of the insert loop: it goes on without having written, or it
    ends as above. *)
Definition insert_step (do_update : bool) (value : Z)
           (c : M (loop_exit (insert_helper.modify_data * insert_helper.insert_update_ret)
                             insert_helper.insert_update_ret)) : Prop :=
  forall h, match c h with
            | Ok (Next (_, t)) h1 =>
                h1 = h /\ insert_helper.cnt t = 1 /\ insert_helper.add_ptr t = value
            | Ok (Done t) h1 => present_or_new do_update value t h h1
            | _ => True
            end.

(** The positions of the set bits of [x] among [lo, lo + n), ascending. *)
Fixpoint bits_from (x lo : Z) (n : nat) : list Z :=
  match n with
  | O => []
  | S n' =>
      if Z.testbit x lo then lo :: bits_from x (lo + 1) n'
      else bits_from x (lo + 1) n'
  end.

(** The character of bit [b] of bitmap word [word]:
    [static_cast<char>(word * 64 + bit)]. *)
Definition pop_char (word b : Z) : Z := wrap8 (word * 64 + b).

(** The memory after the words [vs] have been written from [p] on. *)
Fixpoint write_words (p : Z) (vs : list Z) (m : gmap Z Z) : gmap Z Z :=
  match vs with
  | [] => m
  | v :: r => write_words (idx p 1) r (<[p := v]> m)
  end.

(** The node array [make_tail] builds for a whole key: an [EOS] alone
    for the empty key, a HOP for up to six characters, a SKIP header with
    its body otherwise, each followed by the value. *)
Definition tail_array (key : list Z) (value : Z) : list Z :=
  let sz := zlen key in
  if sz =? 0 then [wrap64 value]
  else if sz <=? t_hop.max_hop then [t_hop.make key sz eos_bit; wrap64 value]
  else t_skip.make sz eos_bit :: chunks8 (List.length key) key ++ [wrap64 value].

Definition tail_flags (key : list Z) : Z :=
  let sz := zlen key in
  if sz =? 0 then eos_bit else if sz <=? t_hop.max_hop then hop_bit else skip_bit.

(** What [make_new] followed by the writes of [make_tail] leaves. *)
Definition first_key_heap (this : Z) (key : list Z) (value w : Z) (h : heap) : heap :=
  let nn := brk h in
  let arr := tail_array key value in
  let hw := dirty_high_pointer.set_byte (dirty_high_pointer.set_ptr w nn)
                                        (tail_flags key) in
  mk_heap (<[ktrie_base.cnt_ this := 1]>
             (write_words nn arr
                (<[ktrie_base.head_ this := hw]>
                   (node.fill nn (Z.to_nat (alloc_size (zlen arr))) (mem h)))))
          (idx nn (alloc_size (zlen arr) + 1))
          (match budget h with Some (S k) => Some k | b => b end).

(** The three outcomes of the lookup loop on the array of a single key. *)
Inductive first_key_outcome (key key' : list Z) (p : Z)
  : loop_exit (Z * Z * list Z) Z -> Prop :=
| FoundIt : key' = key -> first_key_outcome key key' p (Done p)
| Mismatch : key' <> key -> first_key_outcome key key' p (Done 0)
| Overrun run rest :
    key' <> key -> first_key_outcome key key' p (Next (run, eos_bit, rest)).

(** The memory after the only key of a trie has been erased: the array
    is unmapped, the root reference is null and the count is 0. *)
Definition erased_heap (this nn n : Z) (hw : Z) (h : heap) : heap :=
  mk_heap (<[ktrie_base.cnt_ this := 0]>
             (<[ktrie_base.head_ this :=
                  dirty_high_pointer.set_byte (dirty_high_pointer.set_ptr hw 0) 0]>
                (node.unmap nn (Z.to_nat n) (mem h))))
          (brk h) (budget h).

(* ===================================================================== *)
(** * Numeric key encoding *)
(* ===================================================================== *)

Section ByteLemmas.

Lemma pow256_pos (w : nat) : 0 < 256 ^ Z.of_nat w.
Proof. apply Z.pow_pos_nonneg; lia. Qed.

Lemma pow256_succ (w : nat) : 256 ^ Z.of_nat (S w) = 256 * 256 ^ Z.of_nat w.
Proof. rewrite Nat2Z.inj_succ, Z.pow_succ_r by lia. reflexivity. Qed.

Lemma length_le_bytes (w : nat) (x : Z) : List.length (le_bytes w x) = w.
Proof. revert x; induction w as [|w IH]; intros x; simpl; [|rewrite IH]; reflexivity. Qed.

Lemma length_be_bytes (w : nat) (x : Z) : List.length (be_bytes w x) = w.
Proof. induction w as [|w IH]; simpl; [|rewrite IH]; reflexivity. Qed.

Lemma be_bytes_is_byte (w : nat) (x : Z) : Forall is_byte (be_bytes w x).
Proof.
  induction w as [|w IH]; simpl; constructor; [|exact IH].
  unfold is_byte. apply Z.mod_pos_bound. lia.
Qed.

Lemma of_le_bytes_app (l : list Z) (b : Z) :
  of_le_bytes (l ++ [b]) = of_le_bytes l + 256 ^ Z.of_nat (List.length l) * b.
Proof.
  induction l as [|a l IH].
  - simpl. lia.
  - cbn [app of_le_bytes List.length]. rewrite IH, pow256_succ. ring.
Qed.

(** The big-endian bytes drop the least significant byte last. *)
Lemma be_bytes_snoc (w : nat) (x : Z) :
  be_bytes (S w) x = be_bytes w (x / 256) ++ [x mod 256].
Proof.
  revert x; induction w as [|w IH]; intros x.
  - simpl. rewrite Z.div_1_r. reflexivity.
  - change (be_bytes (S (S w)) x)
      with (((x / 256 ^ Z.of_nat (S w)) mod 256) :: be_bytes (S w) x).
    rewrite IH. cbn [be_bytes app]. f_equal.
    rewrite pow256_succ, Z.div_div by (try lia; apply pow256_pos).
    reflexivity.
Qed.

Lemma rev_le_bytes (w : nat) (x : Z) : rev (le_bytes w x) = be_bytes w x.
Proof.
  revert x; induction w as [|w IH]; intros x; [reflexivity|].
  cbn [le_bytes rev]. rewrite IH, be_bytes_snoc. reflexivity.
Qed.

Lemma of_le_bytes_le_bytes (w : nat) (x : Z) :
  of_le_bytes (le_bytes w x) = x mod 256 ^ Z.of_nat w.
Proof.
  revert x; induction w as [|w IH]; intros x.
  - simpl. rewrite Z.mod_1_r. reflexivity.
  - cbn [le_bytes of_le_bytes]. rewrite IH, pow256_succ.
    rewrite Z.rem_mul_r by (try lia; pose proof (pow256_pos w); lia).
    reflexivity.
Qed.

Lemma le_bytes_of_le_bytes (l : list Z) :
  Forall is_byte l -> le_bytes (List.length l) (of_le_bytes l) = l.
Proof.
  induction 1 as [|b l Hb _ IH]; [reflexivity|].
  unfold is_byte in Hb. cbn [List.length le_bytes of_le_bytes].
  replace (b + 256 * of_le_bytes l) with (b + of_le_bytes l * 256) by ring.
  rewrite Z.mod_add, Z.div_add by lia.
  rewrite (Z.mod_small b), (Z.div_small b) by lia.
  rewrite Z.add_0_l. f_equal. exact IH.
Qed.

Lemma be_bytes_mod (w : nat) (x : Z) :
  be_bytes w (x mod 256 ^ Z.of_nat w) = be_bytes w x.
Proof.
  rewrite <- !rev_le_bytes. f_equal.
  revert x; induction w as [|w IH]; intros x; [reflexivity|].
  cbn [le_bytes]. rewrite pow256_succ.
  pose proof (pow256_pos w) as Hp.
  f_equal.
  - rewrite Z.rem_mul_r by lia.
    rewrite (Z.mul_comm 256), Z.mod_add by lia.
    apply Z.mod_mod; lia.
  - rewrite <- (IH (x / 256)). f_equal.
    rewrite Z.rem_mul_r by lia.
    rewrite (Z.mul_comm 256), Z.div_add by lia.
    rewrite (Z.div_small (x mod 256)) by (apply Z.mod_pos_bound; lia).
    lia.
Qed.

(** Big-endian bytes order numbers of the same width as the numbers are
    ordered. *)
Lemma be_bytes_lt (w : nat) (a b : Z) :
  0 <= a -> a < b -> b < 256 ^ Z.of_nat w ->
  bytes_lt (be_bytes w a) (be_bytes w b) = true.
Proof.
  revert a b; induction w as [|w IH]; intros a b Ha Hab Hb.
  - simpl in Hb. lia.
  - pose proof (pow256_pos w) as Hp.
    rewrite pow256_succ in Hb.
    cbn [be_bytes bytes_lt].
    assert (Hda : 0 <= a / 256 ^ Z.of_nat w < 256).
    { split; [apply Z.div_pos; lia|apply Z.div_lt_upper_bound; lia]. }
    assert (Hdb : 0 <= b / 256 ^ Z.of_nat w < 256).
    { split; [apply Z.div_pos; lia|apply Z.div_lt_upper_bound; lia]. }
    rewrite !(Z.mod_small _ 256) by assumption.
    destruct (Z.ltb_spec (a / 256 ^ Z.of_nat w) (b / 256 ^ Z.of_nat w)) as [Hlt|Hge];
      [reflexivity|].
    assert (Heq : a / 256 ^ Z.of_nat w = b / 256 ^ Z.of_nat w).
    { apply Z.le_antisymm; [apply Z.div_le_mono; lia|exact Hge]. }
    rewrite Heq, Z.eqb_refl. cbn [orb andb].
    rewrite <- (be_bytes_mod w a), <- (be_bytes_mod w b).
    apply IH.
    + apply Z.mod_pos_bound; lia.
    + pose proof (Z.div_mod a (256 ^ Z.of_nat w)) as Ea.
      pose proof (Z.div_mod b (256 ^ Z.of_nat w)) as Eb.
      rewrite Heq in Ea. lia.
    + apply Z.mod_pos_bound; lia.
Qed.

End ByteLemmas.

Section NumericKeys.

Lemma do_byteswap_be (w : nat) (x : Z) :
  detail.do_byteswap w x = of_le_bytes (be_bytes w x).
Proof. unfold detail.do_byteswap. rewrite rev_le_bytes. reflexivity. Qed.

Lemma unsigned_bitcvt_be (w : nat) (x : Z) :
  cvt_unsigned.bitcvt w x = be_bytes w x.
Proof.
  unfold cvt_unsigned.bitcvt. rewrite do_byteswap_be.
  rewrite <- (length_be_bytes w x) at 1.
  apply le_bytes_of_le_bytes, be_bytes_is_byte.
Qed.

Lemma unsigned_uncvt_be (w : nat) (x : Z) :
  cvt_unsigned.uncvt w (be_bytes w x) = x mod 256 ^ Z.of_nat w.
Proof.
  unfold cvt_unsigned.uncvt, detail.do_byteswap.
  rewrite <- (length_be_bytes w x) at 1.
  rewrite le_bytes_of_le_bytes by apply be_bytes_is_byte.
  rewrite <- rev_le_bytes, rev_involutive.
  apply of_le_bytes_le_bytes.
Qed.

Lemma half_modulus (w : nat) :
  (0 < w)%nat -> cvt_signed.modulus w = 2 * (cvt_signed.modulus w / 2).
Proof.
  intros Hw. unfold cvt_signed.modulus.
  destruct w as [|w]; [lia|].
  rewrite pow256_succ.
  replace (256 * 256 ^ Z.of_nat w) with ((128 * 256 ^ Z.of_nat w) * 2) by ring.
  rewrite Z.div_mul by lia. ring.
Qed.

Lemma sign_bit_value (w : nat) :
  cvt_signed.modulus w / 2 = 2 ^ (8 * Z.of_nat w - 1).
Proof.
  unfold cvt_signed.modulus. destruct w as [|w]; [reflexivity|].
  replace (8 * Z.of_nat (S w) - 1) with (7 + 8 * Z.of_nat w) by lia.
  rewrite pow256_succ, Z.pow_add_r by lia.
  replace (256 ^ Z.of_nat w) with (2 ^ (8 * Z.of_nat w)).
  2:{ rewrite Z.pow_mul_r by lia. reflexivity. }
  replace (256 * 2 ^ (8 * Z.of_nat w)) with ((2 ^ 7 * 2 ^ (8 * Z.of_nat w)) * 2)
    by (change (2 ^ 7) with 128; ring).
  apply Z.div_mul; lia.
Qed.

Lemma make_sortable_bias (w : nat) (x : Z) :
  cvt_signed.numeric_min w <= x <= cvt_signed.numeric_max w ->
  cvt_signed.make_sortable w x = x + cvt_signed.modulus w / 2
  /\ 0 <= x + cvt_signed.modulus w / 2 < cvt_signed.modulus w.
Proof.
  unfold cvt_signed.numeric_min, cvt_signed.numeric_max. intros Hx.
  destruct w as [|w].
  { change (cvt_signed.modulus 0 / 2) with 0 in Hx. lia. }
  pose proof (half_modulus (S w) (Nat.lt_0_succ w)) as Hm.
  pose proof (pow256_pos (S w)) as Hp. fold (cvt_signed.modulus (S w)) in Hp.
  set (M := cvt_signed.modulus (S w)) in *.
  assert (Hr : 0 <= x + M / 2 < M) by lia.
  split; [|exact Hr].
  unfold cvt_signed.make_sortable, cvt_signed.to_unsign, cvt_signed.numeric_max.
  fold M.
  rewrite (Z.mod_small (M / 2 - 1)) by lia.
  replace (M / 2 - 1 + 1) with (M / 2) by lia.
  rewrite (Z.mod_small (M / 2)) by lia.
  rewrite Zplus_mod_idemp_r.
  rewrite Z.mod_small by lia. lia.
Qed.

Lemma to_T_of_unsign (w : nat) (x : Z) :
  cvt_signed.numeric_min w <= x <= cvt_signed.numeric_max w ->
  cvt_signed.to_T w (cvt_signed.to_unsign w x) = x.
Proof.
  unfold cvt_signed.numeric_min, cvt_signed.numeric_max. intros Hx.
  destruct w as [|w].
  { change (cvt_signed.modulus 0 / 2) with 0 in Hx. lia. }
  pose proof (half_modulus (S w) (Nat.lt_0_succ w)) as Hm.
  pose proof (pow256_pos (S w)) as Hp. fold (cvt_signed.modulus (S w)) in Hp.
  unfold cvt_signed.to_T, cvt_signed.to_unsign.
  set (M := cvt_signed.modulus (S w)) in *.
  rewrite Z.mod_mod by lia.
  destruct (Z.lt_ge_cases x 0) as [Hneg|Hpos].
  - replace (x mod M) with (x + M).
    2:{ symmetry. rewrite <- (Z.mod_add x 1 M) by lia.
        rewrite Z.mul_1_l. apply Z.mod_small; lia. }
    destruct (Z.ltb_spec (x + M) (M / 2)); lia.
  - rewrite (Z.mod_small x M) by lia.
    destruct (Z.ltb_spec x (M / 2)); lia.
Qed.

Lemma unmake_sortable_bias (w : nat) (x : Z) :
  cvt_signed.numeric_min w <= x <= cvt_signed.numeric_max w ->
  cvt_signed.unmake_sortable w (x + cvt_signed.modulus w / 2) = x.
Proof.
  intros Hx. pose proof (to_T_of_unsign w x Hx) as HT.
  unfold cvt_signed.numeric_min, cvt_signed.numeric_max in Hx.
  destruct w as [|w].
  { change (cvt_signed.modulus 0 / 2) with 0 in Hx. lia. }
  pose proof (half_modulus (S w) (Nat.lt_0_succ w)) as Hm.
  pose proof (pow256_pos (S w)) as Hp. fold (cvt_signed.modulus (S w)) in Hp.
  unfold cvt_signed.unmake_sortable, cvt_signed.numeric_max.
  unfold cvt_signed.to_unsign at 2 3.
  set (M := cvt_signed.modulus (S w)) in *.
  rewrite (Z.mod_small (M / 2 - 1)) by lia.
  replace (M / 2 - 1 + 1) with (M / 2) by lia.
  rewrite (Z.mod_small (M / 2)) by lia.
  replace (x + M / 2 - M / 2) with x by lia.
  exact HT.
Qed.

Lemma signed_bitcvt_be (w : nat) (x : Z) :
  cvt_signed.numeric_min w <= x <= cvt_signed.numeric_max w ->
  cvt_signed.bitcvt w x = be_bytes w (x + cvt_signed.modulus w / 2).
Proof.
  intros Hx. unfold cvt_signed.bitcvt.
  destruct (make_sortable_bias w x Hx) as [-> _].
  apply unsigned_bitcvt_be.
Qed.

Lemma signed_uncvt_be (w : nat) (x : Z) :
  cvt_signed.numeric_min w <= x <= cvt_signed.numeric_max w ->
  cvt_signed.uncvt w (be_bytes w (x + cvt_signed.modulus w / 2)) = x.
Proof.
  intros Hx. unfold cvt_signed.uncvt.
  pose proof (unsigned_uncvt_be w (x + cvt_signed.modulus w / 2)) as Hu.
  unfold cvt_unsigned.uncvt in Hu. rewrite Hu.
  destruct (make_sortable_bias w x Hx) as [_ Hr].
  unfold cvt_signed.modulus in Hr |- * at 1.
  rewrite Z.mod_small by exact Hr.
  rewrite unmake_sortable_bias by exact Hx.
  apply to_T_of_unsign, Hx.
Qed.

End NumericKeys.

(** C8: the numeric-key encoding is strictly order-preserving and
    invertible.  For an unsigned type of [w] bytes and native values
    [a < b], the encoding [bitcvt] is the big-endian byte representation,
    [bitcvt a] is byte-lexicographically below [bitcvt b], and [uncvt]
    gives the value back; for a signed type of [w] bytes and native values
    [sa < sb], the encoding is the big-endian representation of the value
    plus the sign-bit value [2 ^ (8 w - 1)], it is ordered the same way,
    and [uncvt] gives the value back. *)
Theorem C8_numeric_encoding_order_preserving (w : nat) (a b sa sb : Z) :
  0 <= a -> a < b -> b < 256 ^ Z.of_nat w ->
  cvt_signed.numeric_min w <= sa -> sa < sb -> sb <= cvt_signed.numeric_max w ->
  (cvt_unsigned.bitcvt w a = be_bytes w a
   /\ cvt_unsigned.bitcvt w b = be_bytes w b
   /\ bytes_lt (cvt_unsigned.bitcvt w a) (cvt_unsigned.bitcvt w b) = true
   /\ cvt_unsigned.uncvt w (cvt_unsigned.bitcvt w a) = a
   /\ cvt_unsigned.uncvt w (cvt_unsigned.bitcvt w b) = b)
  /\ (cvt_signed.bitcvt w sa = be_bytes w (sa + 2 ^ (8 * Z.of_nat w - 1))
      /\ cvt_signed.bitcvt w sb = be_bytes w (sb + 2 ^ (8 * Z.of_nat w - 1))
      /\ bytes_lt (cvt_signed.bitcvt w sa) (cvt_signed.bitcvt w sb) = true
      /\ cvt_signed.uncvt w (cvt_signed.bitcvt w sa) = sa
      /\ cvt_signed.uncvt w (cvt_signed.bitcvt w sb) = sb).
Proof.
  intros Ha Hab Hb Hsa Hsab Hsb.
  split.
  - rewrite !unsigned_bitcvt_be, !unsigned_uncvt_be.
    rewrite !Z.mod_small by lia.
    repeat split; try reflexivity.
    apply be_bytes_lt; assumption.
  - assert (Hra : cvt_signed.numeric_min w <= sa <= cvt_signed.numeric_max w) by lia.
    assert (Hrb : cvt_signed.numeric_min w <= sb <= cvt_signed.numeric_max w) by lia.
    rewrite <- sign_bit_value.
    rewrite !signed_bitcvt_be, !signed_uncvt_be by assumption.
    repeat split; try reflexivity.
    destruct (make_sortable_bias w sa Hra) as [_ Ha'].
    destruct (make_sortable_bias w sb Hrb) as [_ Hb'].
    apply be_bytes_lt; unfold cvt_signed.modulus in *; lia.
Qed.

(** The 32-bit instance of C8 at the unsigned pair [1 < 256] and the
    signed pair [-1 < 0]. *)
Lemma C8_witness :
  (cvt_unsigned.bitcvt 4 1 = be_bytes 4 1
   /\ cvt_unsigned.bitcvt 4 256 = be_bytes 4 256
   /\ bytes_lt (cvt_unsigned.bitcvt 4 1) (cvt_unsigned.bitcvt 4 256) = true
   /\ cvt_unsigned.uncvt 4 (cvt_unsigned.bitcvt 4 1) = 1
   /\ cvt_unsigned.uncvt 4 (cvt_unsigned.bitcvt 4 256) = 256)
  /\ (cvt_signed.bitcvt 4 (-1) = be_bytes 4 (-1 + 2 ^ (8 * Z.of_nat 4 - 1))
      /\ cvt_signed.bitcvt 4 0 = be_bytes 4 (0 + 2 ^ (8 * Z.of_nat 4 - 1))
      /\ bytes_lt (cvt_signed.bitcvt 4 (-1)) (cvt_signed.bitcvt 4 0) = true
      /\ cvt_signed.uncvt 4 (cvt_signed.bitcvt 4 (-1)) = -1
      /\ cvt_signed.uncvt 4 (cvt_signed.bitcvt 4 0) = 0).
Proof.
  apply (C8_numeric_encoding_order_preserving 4 1 256 (-1) 0);
    vm_compute; try reflexivity; discriminate.
Defined.
(* ===================================================================== *)
(** * Allocation failure *)
(* ===================================================================== *)

Section AllocationFailure.
Import insert_helper.

Lemma read_only_ret {A} (a : A) : read_only (mret a).
Proof. intros h. reflexivity. Qed.

Lemma read_only_crash {A} (f : fault) : read_only (@crash A f).
Proof. intros h. exact I. Qed.

Lemma read_only_bind {A B} (c : M A) (k : A -> M B) :
  read_only c -> (forall a, read_only (k a)) -> read_only (mbind c k).
Proof.
  intros Hc Hk h. unfold mbind. specialize (Hc h).
  destruct (c h) as [a h1| |]; [subst h1; apply Hk|exact Hc|exact I].
Qed.

Lemma read_only_load (p : Z) : read_only (load p).
Proof. intros h. unfold load. destruct (mem h !! p); [reflexivity|exact I]. Qed.

Lemma read_only_assert (b : bool) : read_only (assert b).
Proof. destruct b; [apply read_only_ret|apply read_only_crash]. Qed.

Ltac ro :=
  repeat first
    [ apply read_only_ret
    | apply read_only_crash
    | apply read_only_load
    | apply read_only_assert
    | assumption
    | apply read_only_bind; [|intros]
    | match goal with
      | |- read_only (if ?b then _ else _) => destruct b
      | |- read_only (match ?x with _ => _ end) => destruct x
      end ].

Lemma read_only_load_n (p : Z) (n : nat) : read_only (load_n p n).
Proof. revert p; induction n as [|n IH]; intros p; cbn [load_n]; ro. apply IH. Qed.

Lemma read_only_load_words (p n : Z) : read_only (load_words p n).
Proof. unfold load_words. ro; try apply read_only_load_n. Qed.

Lemma read_only_skip_bytes (p n : Z) : read_only (skip_bytes p n).
Proof. unfold skip_bytes. ro; try apply read_only_load_words. Qed.

Lemma read_only_do_find_pop (p c : Z) : read_only (do_find_pop p c).
Proof. unfold do_find_pop. ro; try apply read_only_load_n. Qed.

Lemma read_only_node_array_sz_scan (fuel : nat) (run flags : Z) :
  read_only (node_array_sz_scan fuel run flags).
Proof.
  revert run flags; induction fuel as [|fuel IH]; intros run flags;
    cbn [node_array_sz_scan]; cbv zeta; ro; try apply IH.
Qed.

Lemma read_only_node_array_sz (fuel : nat) (start flags : Z) :
  read_only (node_array_sz fuel start flags).
Proof.
  unfold node_array_sz. ro;
    try first [apply read_only_node_array_sz_scan | apply read_only_load_n].
Qed.



Lemma fill_below (p : Z) (n : nat) (m : gmap Z Z) (a : Z) :
  a < p -> node.fill p n m !! a = m !! a.
Proof.
  revert p; induction n as [|n IH]; intros p Ha; cbn [node.fill]; [reflexivity|].
  rewrite lookup_insert_ne by lia. apply IH. unfold idx. lia.
Qed.


(** ** Composition *)


Lemma frames_weaken {A} b (c : M A) (Q R : A -> Prop) :
  frames b c Q -> (forall a, Q a -> R a) -> frames b c R.
Proof.
  intros Hc HQR h Hb. specialize (Hc h Hb).
  destruct (c h); [|exact Hc|exact I]. intuition.
Qed.











(** ** Computations that do not allocate *)

Lemma never_ret {A} (a : A) : never_throws (mret a).
Proof. intros h. exact I. Qed.

Lemma never_crash {A} (f : fault) : never_throws (@crash A f).
Proof. intros h. exact I. Qed.

Lemma never_bind {A B} (c : M A) (k : A -> M B) :
  never_throws c -> (forall a, never_throws (k a)) -> never_throws (mbind c k).
Proof.
  intros Hc Hk h. unfold mbind. specialize (Hc h).
  destruct (c h) as [a h1| |]; [apply Hk|contradiction|exact I].
Qed.

Lemma never_of_read_only {A} (c : M A) : read_only c -> never_throws c.
Proof. intros Hc h. specialize (Hc h). destruct (c h); [exact I|contradiction|exact I]. Qed.

Lemma never_load p : never_throws (load p).
Proof. apply never_of_read_only, read_only_load. Qed.

Lemma never_store p v : never_throws (store p v).
Proof. intros h. unfold store. destruct (mem h !! p); exact I. Qed.

Lemma never_assert c : never_throws (assert c).
Proof. destruct c; [apply never_ret|apply never_crash]. Qed.

Lemma never_deallocate p n : never_throws (node.deallocate p n).
Proof. intros h. unfold node.deallocate. destruct (p =? 0); exact I. Qed.

Lemma never_store_n p vs : never_throws (store_n p vs).
Proof.
  revert p; induction vs as [|v vs IH]; intros p; cbn [store_n];
    [apply never_ret|apply never_bind; [apply never_store|intros; apply IH]].
Qed.

Ltac nt :=
  repeat first
    [ apply never_ret | apply never_crash | apply never_load | apply never_store
    | apply never_assert | apply never_deallocate | apply never_store_n
    | apply never_of_read_only;
      solve [ first [ apply read_only_load_n | apply read_only_load_words
                    | apply read_only_node_array_sz ] ]
    | assumption
    | apply never_bind; [|intros]
    | match goal with
      | |- never_throws (if ?c then _ else _) => destruct c
      | |- never_throws (match ?x with _ => _ end) => destruct x
      end ].















(** ** The structural operations *)









(** ** Writes into the fresh array *)
















(** ** The loops of the insert engine *)
















(** ** The remove engine *)

Lemma read_only_read_bytes p n : read_only (read_bytes p n).
Proof. unfold read_bytes. ro; try apply read_only_load_n. Qed.

Lemma read_only_do_find_skip p inp len : read_only (do_find_skip p inp len).
Proof.
  unfold do_find_skip.
  apply read_only_bind; [apply read_only_read_bytes|intros; apply read_only_ret].
Qed.

Lemma read_only_remove_run c : read_only (remove_helper.remove_run c).
Proof.
  unfold remove_helper.remove_run. cbv zeta.
  destruct (has_bit _ hop_bit).
  - ro.
  - apply read_only_bind; [apply read_only_load|intros sk].
    destruct (_ <? _); [apply read_only_ret|].
    apply read_only_bind; [apply read_only_do_find_skip|intros ok].
    destruct (negb ok); apply read_only_ret.
Qed.




Lemma never_null_ref r : never_throws (remove_helper.null_ref r).
Proof. unfold remove_helper.null_ref. cbv zeta. nt. Qed.



(** ** Flags with the [EOS] bit cleared *)







(** ** The remove loop and the lookup walk the same nodes *)
















End AllocationFailure.




(* ===================================================================== *)
(** * The repository's tests *)
(* ===================================================================== *)

(** The string test of [ktrie.cpp] passes on the embedding: all hundred
    words are inserted, found with their values, and erased again. *)
Example repository_test_string :
  observe (repository_tests.test_string empty_heap)
  = Returns (100, [], None, 100, true).
Proof. vm_compute. reflexivity. Qed.

(** So does its duplicate-insert test. *)
Example repository_test_duplicate :
  observe (repository_tests.test_duplicate empty_heap)
  = Returns (1, Some 1, Some 3).
Proof. vm_compute. reflexivity. Qed.

(** The integer-key tests: containment and order of negative and
    positive keys, the three bound queries, and reuse after [clear]. *)
Example repository_test_int_order :
  observe (repository_tests.test_int_order empty_heap)
  = Returns (true, [-100; -50; 0; 50; 100]).
Proof. vm_compute. reflexivity. Qed.

Example repository_test_bounds :
  observe (repository_tests.test_bounds empty_heap)
  = Returns (Some 20, Some 30, Some 20).
Proof. vm_compute. reflexivity. Qed.

Example repository_test_clear :
  observe (repository_tests.test_clear empty_heap)
  = Returns (true, 100, Some 100).
Proof. vm_compute. reflexivity. Qed.

(* ===================================================================== *)
(** * The engines on concrete tries *)
(* ===================================================================== *)

(** C1: erasing a present key returns 1, removes exactly that key and
    leaves every other key with its value.  The code does not: with [""]
    and ["b0"] .. ["b7"] stored, [erase("b0")] returns 1 and the size goes
    from 9 to 8, but afterwards the value of [""] reads 2049 instead of 1
    and ["b2"] is no longer found. *)
Theorem C1_erase_from_pop_damages_other_keys :
  observe (scenarios.erase_from_pop_of_eight empty_heap)
  = Returns (Some 1, Some 12, 9, 1, 8, Some 2049, None).
Proof. vm_compute. reflexivity. Qed.

(** C2: [upper_bound(k)] is the smallest stored key above [k].  The code
    misses it: after ["xab"], ["xac"], ["x"], ["y"] are inserted and
    ["xab"], ["xac"] erased, ["x"] and ["y"] are both found and the size
    is 2, yet [upper_bound("x")] is absent and the ascending traversal
    stops after ["x"]. *)
Theorem C2_upper_bound_stops_at_dangling_hop :
  observe (scenarios.bounds_after_erasing_a_subtree empty_heap)
  = Returns (1, 1, Some 3, Some 4, 2, None, [(key_of_string "x", 3)]).
Proof. vm_compute. reflexivity. Qed.

(** C3: repeated [prev] from [last] enumerates every key in descending
    order.  The code does not: with ["a"] and ["b"] stored the ascending
    traversal yields both, [last] is ["b"], but [prev("b")] is absent, so
    the descending traversal yields ["b"] alone. *)
Theorem C3_prev_skips_smaller_sibling :
  observe (scenarios.reverse_over_two_siblings empty_heap)
  = Returns ([(key_of_string "a", 1); (key_of_string "b", 2)],
             Some (key_of_string "b", 2), None,
             [(key_of_string "b", 2)]).
Proof. vm_compute. reflexivity. Qed.

(** C5: inserting a key that is already present reports
    [inserted = false] and changes neither the value nor the size.  The
    code does not: after ["xabcdefgh"], ["x"] and ["xabc"] have been
    inserted (size 3), ["xabc"] is not found, and inserting it again with
    value 9 reports [inserted = true], makes the size 4 and the value 9. *)
Theorem C5_repeated_insert_reports_inserted :
  observe (scenarios.insert_twice empty_heap)
  = Returns (true, true, true, 3, None, true, 4, Some 9).
Proof. vm_compute. reflexivity. Qed.

(** C6: a POP branch has at least eight children, and the erase that
    leaves seven turns the branch into a LIST.  The code leaves the branch
    flagged POP: with ["a"] and ["ab0"] .. ["ab7"] stored the flags in
    force at the branch are POP (16) before [erase("ab0")] and still POP
    after it, although the branch now is a LIST header with seven
    children; ["ab2"] is then not found. *)
Theorem C6_branch_stays_pop_with_seven_children :
  observe (scenarios.demote_pop_behind_two_hops empty_heap)
  = Returns (pop_bit, 1, pop_bit, 7, None, 8).
Proof. vm_compute. reflexivity. Qed.

(** C7: [size()] is the number of distinct keys inserted and not
    removed.  The code counts a key twice: after ["he"], [""] and [""]
    again the size is 3 for two distinct keys, and erasing [""] returns 0
    and leaves the size at 3. *)
Theorem C7_size_counts_empty_key_twice :
  observe (scenarios.count_two_keys empty_heap)
  = Returns (1, 2, 3, 0, 3, false).
Proof. vm_compute. reflexivity. Qed.

(** C9: the empty key can be inserted, found, erased, and comes first in
    the traversal.  The code loses it when the root array starts with a
    HOP: after ["he"], inserting [""] reports [inserted = true], but then
    neither [""] nor ["he"] is found, there is no first item, the
    traversal is empty and erasing [""] returns 0. *)
Theorem C9_empty_key_lost_in_front_of_hop :
  observe (scenarios.empty_key_after_hop empty_heap)
  = Returns (true, None, None, None, [], 0).
Proof. vm_compute. reflexivity. Qed.

(** C10: after [merge(other)] every key that was only in [other] is in
    this trie with its value and no longer in [other].  The code loses
    such a key: with [this = {"he"}] and [other = {""}], after the merge
    the sizes are 2 and 0, and [""] is found in neither trie (["he"] is
    not found either). *)
Theorem C10_merge_loses_moved_key :
  observe (scenarios.merge_disjoint empty_heap)
  = Returns (2, 0, None, None, None).
Proof. vm_compute. reflexivity. Qed.

(* ===================================================================== *)
(** * Further properties of the code *)
(* ===================================================================== *)

Lemma to_char_static_be (x : Z) : to_char_static x = be_bytes 8 x.
Proof.
  unfold to_char_static, byteswap_if_le. rewrite rev_le_bytes.
  rewrite <- (length_be_bytes 8 x) at 1.
  apply le_bytes_of_le_bytes, be_bytes_is_byte.
Qed.

Lemma length_to_char_static (x : Z) : List.length (to_char_static x) = 8%nat.
Proof. rewrite to_char_static_be. apply length_be_bytes. Qed.

Lemma le_bytes_is_byte (w : nat) (x : Z) : Forall is_byte (le_bytes w x).
Proof.
  revert x; induction w as [|w IH]; intros x; simpl; constructor; [|apply IH].
  unfold is_byte. apply Z.mod_pos_bound. lia.
Qed.

Lemma byteswap_if_le_rev (l : list Z) :
  List.length l = 8%nat -> Forall is_byte l ->
  byteswap_if_le (of_le_bytes l) = of_le_bytes (rev l).
Proof.
  intros Hl Hb. unfold byteswap_if_le. rewrite <- Hl.
  rewrite le_bytes_of_le_bytes by exact Hb. reflexivity.
Qed.

Lemma byteswap_if_le_involutive (x : Z) :
  byteswap_if_le (byteswap_if_le x) = x mod 2 ^ 64.
Proof.
  unfold byteswap_if_le at 2.
  rewrite byteswap_if_le_rev.
  - rewrite rev_involutive. apply (of_le_bytes_le_bytes 8).
  - rewrite length_rev. apply length_le_bytes.
  - apply Forall_rev, le_bytes_is_byte.
Qed.


Lemma firstn_8_of_8 (l : list Z) : List.length l = 8%nat -> firstn 8 l = l.
Proof. intros H. apply firstn_all2. lia. Qed.

Lemma from_char_static_rev (arr : list Z) :
  List.length arr = 8%nat -> Forall is_byte arr ->
  from_char_static arr = of_le_bytes (rev arr).
Proof.
  intros Hl Hb. unfold from_char_static. rewrite firstn_8_of_8 by exact Hl.
  apply byteswap_if_le_rev; assumption.
Qed.

Lemma to_char_static_of_rev (arr : list Z) :
  List.length arr = 8%nat -> Forall is_byte arr ->
  to_char_static (of_le_bytes (rev arr)) = arr.
Proof.
  intros Hl Hb. unfold to_char_static.
  rewrite byteswap_if_le_rev.
  - rewrite rev_involutive. rewrite <- Hl. apply le_bytes_of_le_bytes, Hb.
  - rewrite length_rev. exact Hl.
  - apply Forall_rev, Hb.
Qed.

Lemma to_char_static_is_byte (x : Z) : Forall is_byte (to_char_static x).
Proof. rewrite to_char_static_be. apply be_bytes_is_byte. Qed.

Lemma of_le_bytes_bound (l : list Z) :
  Forall is_byte l -> 0 <= of_le_bytes l < 256 ^ Z.of_nat (List.length l).
Proof.
  induction 1 as [|b l Hb _ IH]; [simpl; lia|].
  unfold is_byte in Hb. cbn [of_le_bytes List.length]. rewrite pow256_succ. lia.
Qed.

Lemma byteswap_if_le_bound (x : Z) : 0 <= byteswap_if_le x < 2 ^ 64.
Proof.
  unfold byteswap_if_le.
  pose proof (of_le_bytes_bound (rev (le_bytes 8 x))
                (Forall_rev (le_bytes_is_byte 8 x))) as H.
  rewrite length_rev, length_le_bytes in H. exact H.
Qed.

Lemma from_char_static_to_char_static (w : Z) :
  0 <= w < 2 ^ 64 -> from_char_static (to_char_static w) = w.
Proof.
  intros Hw. unfold from_char_static.
  rewrite firstn_8_of_8 by apply length_to_char_static.
  unfold to_char_static.
  rewrite (of_le_bytes_le_bytes 8).
  change (256 ^ Z.of_nat 8) with (2 ^ 64).
  rewrite Z.mod_small by apply byteswap_if_le_bound.
  rewrite byteswap_if_le_involutive. apply Z.mod_small, Hw.
Qed.

Lemma to_char_static_from_char_static (arr : list Z) :
  List.length arr = 8%nat -> Forall is_byte arr ->
  to_char_static (from_char_static arr) = arr.
Proof.
  intros Hl Hb. rewrite from_char_static_rev by assumption.
  apply to_char_static_of_rev; assumption.
Qed.

(** X1: [to_char_static] and [from_char_static] are inverse to each other
    on 64-bit words and 8-byte arrays. *)
Theorem char_static_round_trip :
  (forall w, 0 <= w < 2 ^ 64 -> from_char_static (to_char_static w) = w)
  /\ (forall arr, List.length arr = 8%nat -> Forall is_byte arr ->
                  to_char_static (from_char_static arr) = arr).
Proof.
  split.
  - exact from_char_static_to_char_static.
  - exact to_char_static_from_char_static.
Qed.

Lemma char_static_round_trip_witness :
  from_char_static (to_char_static 258) = 258
  /\ to_char_static (from_char_static [1; 2; 3; 4; 5; 6; 7; 8])
     = [1; 2; 3; 4; 5; 6; 7; 8].
Proof.
  split.
  - apply (proj1 char_static_round_trip). lia.
  - apply (proj2 char_static_round_trip); [reflexivity|].
    repeat constructor; unfold is_byte; lia.
Defined.

Lemma nth_be_bytes (w i : nat) (x : Z) :
  (i < w)%nat ->
  nth i (be_bytes w x) 0 = (x / 256 ^ Z.of_nat (w - 1 - i)) mod 256.
Proof.
  revert i; induction w as [|w IH]; intros i Hi; [lia|].
  cbn [be_bytes]. destruct i as [|i]; cbn [nth].
  - replace (S w - 1 - 0)%nat with w by lia. reflexivity.
  - rewrite IH by lia. replace (S w - 1 - S i)%nat with (w - 1 - i)%nat by lia.
    reflexivity.
Qed.

(** X2: [to_char_static] lists the bytes of a word most significant
    first: the character at position [pos] is the base-256 digit of
    weight [256 ^ (7 - pos)]. *)
Theorem get_char_at_is_big_endian_digit (data pos : Z) :
  0 <= pos < 8 ->
  t_hop.get_char_at data pos = (data / 256 ^ (7 - pos)) mod 256.
Proof.
  intros Hpos. unfold t_hop.get_char_at, arr_get.
  rewrite to_char_static_be, nth_be_bytes by lia.
  do 2 f_equal. f_equal. lia.
Qed.

Lemma get_char_at_is_big_endian_digit_witness :
  t_hop.get_char_at 72623859790382856 2 = (72623859790382856 / 256 ^ (7 - 2)) mod 256.
Proof. apply get_char_at_is_big_endian_digit. lia. Defined.

Lemma ptr_mask_ones : dirty_high_pointer.ptr_mask = Z.ones 59.
Proof. reflexivity. Qed.

Lemma len_mask_ones : t_skip.len_mask = Z.ones 59.
Proof. reflexivity. Qed.

Lemma testbit_wrap64 (x n : Z) :
  Z.testbit (wrap64 x) n = (n <? 64) && Z.testbit x n.
Proof. unfold wrap64. apply Z.testbit_mod_pow2. lia. Qed.

Lemma testbit_wrap8 (x n : Z) :
  Z.testbit (wrap8 x) n = (n <? 8) && Z.testbit x n.
Proof. unfold wrap8. change 256 with (2 ^ 8). apply Z.testbit_mod_pow2. lia. Qed.

Lemma testbit_mod32 (x n : Z) :
  Z.testbit (x mod 32) n = (n <? 5) && Z.testbit x n.
Proof. change 32 with (2 ^ 5). apply Z.testbit_mod_pow2. lia. Qed.

Lemma testbit_mod59 (x n : Z) :
  Z.testbit (x mod 2 ^ 59) n = (n <? 59) && Z.testbit x n.
Proof. apply Z.testbit_mod_pow2. lia. Qed.

Lemma testbit_small (x k n : Z) :
  0 <= x < 2 ^ k -> k <= n -> Z.testbit x n = false.
Proof.
  intros Hx Hn.
  destruct (Z.eq_dec x 0) as [->|Hz]; [apply Z.testbit_0_l|].
  apply Z.bits_above_log2; [lia|].
  assert (Z.log2 x < k); [|lia].
  apply Z.log2_lt_pow2; lia.
Qed.

Ltac bits :=
  apply Z.bits_inj'; intros n Hn;
  unfold dirty_high_pointer.make, dirty_high_pointer.get_byte,
         dirty_high_pointer.set_byte, dirty_high_pointer.get_ptr,
         dirty_high_pointer.set_ptr, dirty_high_pointer.flag_shift,
         t_skip.make, t_skip.get_new_flags, t_skip.get_skip_len,
         t_skip.flag_shift, num_bits;
  rewrite ?ptr_mask_ones, ?len_mask_ones;
  change (64 - 5) with 59;
  repeat first
    [ rewrite testbit_wrap64 | rewrite testbit_wrap8 | rewrite testbit_mod32
    | rewrite testbit_mod59
    | rewrite Z.lor_spec | rewrite Z.land_spec
    | rewrite Z.lnot_spec by lia
    | rewrite Z.shiftr_spec by lia
    | rewrite Z.shiftl_spec by lia
    | rewrite Z.testbit_ones_nonneg by lia ].

Ltac cases n :=
  repeat match goal with
  | |- context [?a <? ?b] => destruct (Z.ltb_spec a b)
  end;
  cbn [andb orb negb]; rewrite ?andb_false_r, ?orb_false_r, ?andb_true_r;
  try reflexivity; try lia;
  try (replace (n + 59 - 59) with n by lia; reflexivity).

Ltac neg_bit :=
  match goal with
  | |- context [Z.testbit ?a (?n - ?k)] => rewrite (Z.testbit_neg_r a (n - k)) by lia
  end;
  rewrite ?andb_false_r, ?orb_false_r, ?andb_true_r; reflexivity.

Lemma testbit_high64 (raw n : Z) :
  0 <= raw < 2 ^ 64 -> 64 <= n -> Z.testbit raw n = false.
Proof. intros H Hn. apply (testbit_small raw 64); assumption. Qed.


(** X4: a tagged pointer built from a pointer and a flag byte gives back
    the low 59 bits of the pointer and the low 5 bits of the flags. *)
Theorem dirty_high_pointer_make_fields (p x : Z) :
  dirty_high_pointer.get_both (dirty_high_pointer.make p x)
  = (p mod 2 ^ 59, x mod 32).
Proof.
  unfold dirty_high_pointer.get_both.
  change (Z.land ?r dirty_high_pointer.ptr_mask) with (dirty_high_pointer.get_ptr r).
  change (wrap8 (Z.shiftr ?r dirty_high_pointer.flag_shift))
    with (dirty_high_pointer.get_byte r).
  f_equal.
  - bits. cases n. neg_bit.
  - bits. cases n.
Qed.

(** X5: on a 64-bit word, [set_byte] replaces the flags and keeps the
    pointer, [set_ptr] replaces the pointer and keeps the flags. *)
Theorem dirty_high_pointer_setters_independent (raw p x : Z) :
  0 <= raw < 2 ^ 64 ->
  dirty_high_pointer.get_both (dirty_high_pointer.set_byte raw x)
  = (dirty_high_pointer.get_ptr raw, x mod 32)
  /\ dirty_high_pointer.get_both (dirty_high_pointer.set_ptr raw p)
     = (p mod 2 ^ 59, dirty_high_pointer.get_byte raw).
Proof.
  intros Hraw. unfold dirty_high_pointer.get_both.
  change (Z.land ?r dirty_high_pointer.ptr_mask) with (dirty_high_pointer.get_ptr r).
  change (wrap8 (Z.shiftr ?r dirty_high_pointer.flag_shift))
    with (dirty_high_pointer.get_byte r).
  split; f_equal.
  - bits. cases n. neg_bit.
  - bits. cases n.
  - bits. cases n.
  - bits. cases n.
    rewrite (testbit_high64 raw (n + 59)) by lia. reflexivity.
Qed.

Lemma dirty_high_pointer_setters_witness :
  dirty_high_pointer.get_both (dirty_high_pointer.set_byte (2 ^ 63 + 4096) 9)
  = (dirty_high_pointer.get_ptr (2 ^ 63 + 4096), 9 mod 32)
  /\ dirty_high_pointer.get_both (dirty_high_pointer.set_ptr (2 ^ 63 + 4096) 8192)
     = (8192 mod 2 ^ 59, dirty_high_pointer.get_byte (2 ^ 63 + 4096)).
Proof. apply dirty_high_pointer_setters_independent. lia. Defined.

Lemma t_skip_make_fields (len flags : Z) :
  t_skip.get_skip_len (t_skip.make len flags) = len mod 2 ^ 59
  /\ t_skip.get_new_flags (t_skip.make len flags) = flags mod 32.
Proof.
  split.
  - bits. cases n. neg_bit.
  - bits. cases n.
Qed.

(** X6: a SKIP header gives back its length (below [2 ^ 59]) and its
    flags, and [num_skip_nodes] is the least number of 8-byte nodes that
    hold the characters. *)
Theorem t_skip_header_fields (len flags : Z) :
  0 <= len < 2 ^ 59 -> 0 <= flags < 32 ->
  t_skip.get_skip_len (t_skip.make len flags) = len
  /\ t_skip.get_new_flags (t_skip.make len flags) = flags
  /\ len <= 8 * t_skip.num_skip_nodes len < len + 8.
Proof.
  intros Hl Hf. destruct (t_skip_make_fields len flags) as [E1 E2].
  rewrite E1, E2, !Z.mod_small by lia.
  split; [reflexivity|]. split; [reflexivity|].
  unfold t_skip.num_skip_nodes.
  pose proof (Z.div_mod (len + 7) 8 ltac:(lia)).
  pose proof (Z.mod_pos_bound (len + 7) 8 ltac:(lia)). lia.
Qed.

Lemma t_skip_header_fields_witness :
  t_skip.get_skip_len (t_skip.make 11 9) = 11
  /\ t_skip.get_new_flags (t_skip.make 11 9) = 9
  /\ 11 <= 8 * t_skip.num_skip_nodes 11 < 11 + 8.
Proof. apply t_skip_header_fields; lia. Defined.

Lemma land_lnot_ones (a k : Z) :
  0 <= k -> Z.land a (Z.lnot (Z.ones k)) = a - a mod 2 ^ k.
Proof.
  intros Hk.
  rewrite <- Z.ldiff_land.
  rewrite Z.ldiff_ones_r by exact Hk.
  rewrite Z.shiftl_mul_pow2, Z.shiftr_div_pow2 by exact Hk.
  pose proof (Z.div_mod a (2 ^ k)). 
  assert (0 < 2 ^ k) by (apply Z.pow_pos_nonneg; lia). lia.
Qed.

Lemma alloc_size_bounds (n : Z) :
  n <= alloc_size n < n + (if n <=? 24 then 4 else 16)
  /\ alloc_size n mod (if n <=? 24 then 4 else 16) = 0.
Proof.
  unfold alloc_size. destruct (n <=? 24).
  - change 3 with (Z.ones 2). rewrite land_lnot_ones by lia.
    change (2 ^ 2) with 4. change (Z.ones 2) with 3.
    pose proof (Z.mod_pos_bound (n + 3) 4 ltac:(lia)).
    pose proof (Z.div_mod (n + 3) 4 ltac:(lia)).
    split.
    + lia.
    + replace (n + 3 - (n + 3) mod 4) with ((n + 3) / 4 * 4) by lia.
      apply Z.mod_mul. lia.
  - change 15 with (Z.ones 4). rewrite land_lnot_ones by lia.
    change (2 ^ 4) with 16. change (Z.ones 4) with 15.
    pose proof (Z.mod_pos_bound (n + 15) 16 ltac:(lia)).
    pose proof (Z.div_mod (n + 15) 16 ltac:(lia)).
    split.
    + lia.
    + replace (n + 15 - (n + 15) mod 16) with ((n + 15) / 16 * 16) by lia.
      apply Z.mod_mul. lia.
Qed.

(** X3: as long as the sum does not overflow, [alloc_size] rounds a node
    count up to the next multiple of 4 (up to 24 nodes) or of 16 (above),
    never down. *)
Theorem alloc_size_rounds_up (n : Z) :
  0 <= n <= 2 ^ 64 - 16 ->
  n <= alloc_size n < n + (if n <=? 24 then 4 else 16)
  /\ alloc_size n mod (if n <=? 24 then 4 else 16) = 0
  /\ alloc_size n < 2 ^ 64.
Proof.
  intros Hn. pose proof (alloc_size_bounds n) as [Hb Hm].
  split; [exact Hb|]. split; [exact Hm|].
  destruct (n <=? 24); lia.
Qed.

Lemma alloc_size_rounds_up_witness :
  25 <= alloc_size 25 < 25 + (if 25 <=? 24 then 4 else 16)
  /\ alloc_size 25 mod (if 25 <=? 24 then 4 else 16) = 0
  /\ alloc_size 25 < 2 ^ 64.
Proof. apply alloc_size_rounds_up. lia. Defined.

(** ** HOP words *)

Lemma testbit_byte_cons (b R n : Z) :
  0 <= b < 256 -> 0 <= n ->
  Z.testbit (b + 256 * R) n
  = if n <? 8 then Z.testbit b n else Z.testbit R (n - 8).
Proof.
  intros Hb Hn. destruct (Z.ltb_spec n 8) as [Hlt|Hge].
  - rewrite <- (Z.mod_pow2_bits_low (b + 256 * R) 8 n) by lia.
    change (2 ^ 8) with 256.
    rewrite (Z.mul_comm 256), Z.mod_add, Z.mod_small by lia.
    reflexivity.
  - replace n with ((n - 8) + 8) at 1 by lia.
    rewrite <- Z.div_pow2_bits by lia.
    change (2 ^ 8) with 256.
    rewrite (Z.mul_comm 256), Z.div_add, Z.div_small by lia.
    reflexivity.
Qed.

Lemma testbit_byte_high (b n : Z) : 0 <= b < 256 -> 8 <= n -> Z.testbit b n = false.
Proof. intros Hb Hn. apply (testbit_small b 8); [exact Hb|exact Hn]. Qed.

Lemma of_le_bytes_nonneg (l : list Z) : Forall is_byte l -> 0 <= of_le_bytes l.
Proof. intros H. apply of_le_bytes_bound, H. Qed.

(** [(w & ~0xFF) | v] replaces the last byte of the array image of [w]. *)
Lemma set_low_byte (b v : Z) (r : list Z) :
  0 <= b < 256 -> 0 <= v < 256 ->
  Z.lor (Z.land (of_le_bytes (b :: r)) (Z.lnot 255)) v = of_le_bytes (v :: r).
Proof.
  intros Hb Hv. cbn [of_le_bytes].
  apply Z.bits_inj'; intros n Hn.
  rewrite Z.lor_spec, Z.land_spec, Z.lnot_spec by lia.
  change 255 with (Z.ones 8). rewrite Z.testbit_ones_nonneg by lia.
  rewrite !testbit_byte_cons by lia.
  destruct (Z.ltb_spec n 8); cbn [negb andb orb].
  - rewrite andb_false_r. reflexivity.
  - rewrite andb_true_r, (testbit_byte_high v) by lia. apply orb_false_r.
Qed.

Lemma testbit_0xFF00 (n : Z) :
  0 <= n -> Z.testbit 65280 n = (8 <=? n) && (n <? 16).
Proof.
  intros Hn. change 65280 with (Z.shiftl (Z.ones 8) 8).
  rewrite Z.shiftl_spec by lia.
  destruct (Z.leb_spec 8 n).
  - rewrite Z.testbit_ones_nonneg by lia.
    destruct (Z.ltb_spec (n - 8) 8), (Z.ltb_spec n 16); try lia; reflexivity.
  - rewrite Z.testbit_neg_r by lia. reflexivity.
Qed.

(** [(w & ~0xFF00) | (f << 8)] replaces the byte before the last. *)
Lemma set_second_byte (b0 b1 f : Z) (r : list Z) :
  0 <= b0 < 256 -> 0 <= b1 < 256 -> 0 <= f < 256 ->
  Z.lor (Z.land (of_le_bytes (b0 :: b1 :: r)) (Z.lnot 65280)) (Z.shiftl f 8)
  = of_le_bytes (b0 :: f :: r).
Proof.
  intros H0 H1 Hf. cbn [of_le_bytes].
  apply Z.bits_inj'; intros n Hn.
  rewrite Z.lor_spec, Z.land_spec, Z.lnot_spec, Z.shiftl_spec by lia.
  rewrite testbit_0xFF00 by lia.
  rewrite !(testbit_byte_cons b0) by lia.
  destruct (Z.ltb_spec n 8).
  - rewrite (Z.testbit_neg_r f) by lia.
    destruct (Z.leb_spec 8 n); try lia. cbn. rewrite andb_true_r. apply orb_false_r.
  - rewrite !testbit_byte_cons by lia.
    destruct (Z.leb_spec 8 n); try lia.
    destruct (Z.ltb_spec (n - 8) 8), (Z.ltb_spec n 16); try lia; cbn [negb andb orb].
    + rewrite andb_false_r. reflexivity.
    + rewrite andb_true_r, (testbit_byte_high f) by lia. apply orb_false_r.
Qed.

(** [w & ~0xFFFF] clears the last two bytes. *)
Lemma clear_low_bytes (b0 b1 : Z) (r : list Z) :
  0 <= b0 < 256 -> 0 <= b1 < 256 ->
  Z.land (of_le_bytes (b0 :: b1 :: r)) (Z.lnot 65535) = of_le_bytes (0 :: 0 :: r).
Proof.
  intros H0 H1. cbn [of_le_bytes].
  apply Z.bits_inj'; intros n Hn.
  rewrite Z.land_spec, Z.lnot_spec by lia.
  change 65535 with (Z.ones 16). rewrite Z.testbit_ones_nonneg by lia.
  rewrite !(testbit_byte_cons _ _ n) by lia.
  destruct (Z.ltb_spec n 8).
  - rewrite Z.testbit_0_l. destruct (Z.ltb_spec n 16); try lia;
      cbn [negb]; rewrite ?andb_false_r; reflexivity.
  - rewrite !testbit_byte_cons by lia.
    destruct (Z.ltb_spec (n - 8) 8), (Z.ltb_spec n 16); try lia; cbn [negb];
      rewrite ?Z.testbit_0_l, ?andb_false_r, ?andb_true_r; reflexivity.
Qed.

Lemma of_le_bytes_zeros (l : list Z) (k : nat) :
  of_le_bytes (l ++ repeat 0 k) = of_le_bytes l.
Proof.
  induction l as [|a l IH]; cbn [app of_le_bytes].
  - induction k as [|k IHk]; cbn [repeat of_le_bytes]; lia.
  - rewrite IH. reflexivity.
Qed.

Lemma rev_repeat (k : nat) : rev (repeat 0 k) = repeat 0 k.
Proof.
  induction k as [|k IH]; [reflexivity|].
  cbn [repeat rev]. rewrite IH.
  clear IH. induction k as [|k IH]; [reflexivity|].
  cbn [repeat app]. rewrite IH. reflexivity.
Qed.

Lemma Forall_repeat_zero (k : nat) : Forall is_byte (repeat 0 k).
Proof. induction k; constructor; [unfold is_byte; lia|assumption]. Qed.

(** [from_char_static(c, len)]: the characters in front, zeros behind. *)
Lemma from_char_static_n_layout (c : list Z) (len : Z) :
  Forall is_byte c -> 0 <= len <= 8 -> len <= zlen c ->
  from_char_static_n c len
  = of_le_bytes (repeat 0 (8 - Z.to_nat len) ++ rev (firstn (Z.to_nat len) c)).
Proof.
  intros Hc Hlen Hle. unfold from_char_static_n, zlen in *.
  set (pre := firstn (Z.to_nat len) c).
  assert (Hpl : List.length pre = Z.to_nat len).
  { unfold pre. rewrite length_firstn. lia. }
  assert (Hpb : Forall is_byte pre) by (apply Forall_take, Hc).
  rewrite <- (of_le_bytes_zeros pre (8 - Z.to_nat len)).
  rewrite byteswap_if_le_rev.
  - rewrite rev_app_distr, rev_repeat. reflexivity.
  - rewrite length_app, repeat_length, Hpl. lia.
  - apply Forall_app. split; [exact Hpb|apply Forall_repeat_zero].
Qed.

Lemma hop_image_length (c : list Z) (len flags : Z) :
  0 < len <= 6 -> len <= zlen c -> List.length (hop_image c len flags) = 8%nat.
Proof.
  intros Hlen Hle. unfold hop_image, zlen in *.
  rewrite !length_app, length_firstn, repeat_length. cbn [List.length]. lia.
Qed.

Lemma hop_image_is_byte (c : list Z) (len flags : Z) :
  Forall is_byte c -> 0 < len <= 6 -> 0 <= flags < 256 ->
  Forall is_byte (hop_image c len flags).
Proof.
  intros Hc Hlen Hf. unfold hop_image.
  repeat (apply Forall_app; split).
  - apply Forall_take, Hc.
  - apply Forall_repeat_zero.
  - repeat constructor; unfold is_byte; lia.
Qed.

Lemma rev_hop_image (c : list Z) (len flags : Z) :
  rev (hop_image c len flags)
  = len :: flags :: repeat 0 (6 - Z.to_nat len) ++ rev (firstn (Z.to_nat len) c).
Proof.
  unfold hop_image. rewrite !rev_app_distr, rev_repeat. reflexivity.
Qed.

Lemma hop_len_layout (c : list Z) (len : Z) :
  Forall is_byte c -> 0 < len <= 6 -> len <= zlen c ->
  wrap64 (Z.lor (Z.land (from_char_static_n c len) (Z.lnot 255)) len)
  = of_le_bytes (rev (hop_image c len 0)).
Proof.
  intros Hc Hlen Hle.
  rewrite from_char_static_n_layout by (try assumption; lia).
  replace (8 - Z.to_nat len)%nat with (S (S (6 - Z.to_nat len))) by lia.
  cbn [repeat app].
  rewrite set_low_byte by lia.
  assert (Hb : Forall is_byte (rev (hop_image c len 0))).
  { apply Forall_rev, hop_image_is_byte; (assumption || lia). }
  pose proof (of_le_bytes_bound _ Hb) as Hbound.
  rewrite length_rev, hop_image_length in Hbound by assumption.
  rewrite rev_hop_image in *.
  unfold wrap64. change (2 ^ 64) with (256 ^ Z.of_nat 8).
  apply Z.mod_small, Hbound.
Qed.

Lemma t_hop_make_layout (c : list Z) (len flags : Z) :
  Forall is_byte c -> 0 < len <= 6 -> len <= zlen c -> 0 <= flags < 256 ->
  t_hop.make c len flags = of_le_bytes (rev (hop_image c len flags)).
Proof.
  intros Hc Hlen Hle Hf. unfold t_hop.make.
  rewrite hop_len_layout, !rev_hop_image by assumption.
  apply set_second_byte; lia.
Qed.

Lemma to_char_static_make (c : list Z) (len flags : Z) :
  Forall is_byte c -> 0 < len <= 6 -> len <= zlen c -> 0 <= flags < 256 ->
  to_char_static (t_hop.make c len flags) = hop_image c len flags.
Proof.
  intros Hc Hlen Hle Hf. rewrite t_hop_make_layout by assumption.
  apply to_char_static_of_rev.
  - apply hop_image_length; assumption.
  - apply hop_image_is_byte; assumption.
Qed.

Lemma nth_hop_image_flags (c : list Z) (len flags : Z) :
  0 < len <= 6 -> len <= zlen c -> nth 6 (hop_image c len flags) 0 = flags.
Proof.
  intros Hlen Hle. unfold hop_image, zlen in *.
  rewrite app_assoc, app_nth2; rewrite length_app, length_firstn, repeat_length.
  - replace (6 - _)%nat with 0%nat by lia. reflexivity.
  - lia.
Qed.

Lemma nth_hop_image_sz (c : list Z) (len flags : Z) :
  0 < len <= 6 -> len <= zlen c -> nth 7 (hop_image c len flags) 0 = len.
Proof.
  intros Hlen Hle. unfold hop_image, zlen in *.
  rewrite app_assoc, app_nth2; rewrite length_app, length_firstn, repeat_length.
  - replace (7 - _)%nat with 1%nat by lia. reflexivity.
  - lia.
Qed.

Lemma firstn_hop_image (c : list Z) (len flags : Z) (k : nat) :
  0 < len <= 6 -> len <= zlen c -> (k <= Z.to_nat len)%nat ->
  firstn k (hop_image c len flags) = firstn k c.
Proof.
  intros Hlen Hle Hk. unfold hop_image, zlen in *.
  rewrite firstn_app, length_firstn.
  replace (k - _)%nat with 0%nat by lia.
  cbn [firstn]. rewrite app_nil_r, firstn_firstn.
  f_equal. lia.
Qed.

Lemma get_hop_sz_make (c : list Z) (len flags : Z) :
  Forall is_byte c -> 0 < len <= 6 -> len <= zlen c -> 0 <= flags < 256 ->
  t_hop.get_hop_sz (t_hop.make c len flags) = len.
Proof.
  intros. unfold t_hop.get_hop_sz, t_hop.get_char_at, arr_get.
  rewrite to_char_static_make by assumption.
  apply nth_hop_image_sz; assumption.
Qed.

Lemma to_string_make (c : list Z) (len flags : Z) :
  Forall is_byte c -> 0 < len <= 6 -> len <= zlen c -> 0 <= flags < 256 ->
  t_hop.to_string (t_hop.make c len flags) = firstn (Z.to_nat len) c.
Proof.
  intros. unfold t_hop.to_string. rewrite get_hop_sz_make by assumption.
  rewrite to_char_static_make by assumption.
  apply firstn_hop_image; (assumption || lia).
Qed.

Lemma get_new_flags_make (c : list Z) (len flags : Z) :
  Forall is_byte c -> 0 < len <= 6 -> len <= zlen c -> 0 <= flags < 256 ->
  t_hop.get_new_flags (t_hop.make c len flags) = flags.
Proof.
  intros. unfold t_hop.get_new_flags, t_hop.get_char_at, arr_get.
  rewrite to_char_static_make by assumption.
  apply nth_hop_image_flags; assumption.
Qed.

(** X7: a HOP built from [len] characters (1 to 6) and a flag byte gives
    back exactly those characters, that length and those flags. *)
Theorem t_hop_make_fields (c : list Z) (len flags : Z) :
  Forall is_byte c -> 0 < len <= 6 -> len <= zlen c -> 0 <= flags < 256 ->
  t_hop.to_string (t_hop.make c len flags) = firstn (Z.to_nat len) c
  /\ t_hop.get_hop_sz (t_hop.make c len flags) = len
  /\ t_hop.get_new_flags (t_hop.make c len flags) = flags.
Proof.
  intros Hc Hlen Hle Hf. split; [|split].
  - apply to_string_make; assumption.
  - apply get_hop_sz_make; assumption.
  - apply get_new_flags_make; assumption.
Qed.

Lemma t_hop_make_fields_witness :
  t_hop.to_string (t_hop.make [104; 101; 108; 108; 111] 3 9) = [104; 101; 108]
  /\ t_hop.get_hop_sz (t_hop.make [104; 101; 108; 108; 111] 3 9) = 3
  /\ t_hop.get_new_flags (t_hop.make [104; 101; 108; 108; 111] 3 9) = 9.
Proof.
  apply (t_hop_make_fields [104; 101; 108; 108; 111] 3 9).
  - repeat constructor; unfold is_byte; lia.
  - lia.
  - vm_compute. discriminate.
  - lia.
Defined.

Lemma of_le_bytes_inj (a b : list Z) :
  Forall is_byte a -> Forall is_byte b -> List.length a = List.length b ->
  of_le_bytes a = of_le_bytes b -> a = b.
Proof.
  intros Ha Hb Hl E.
  rewrite <- (le_bytes_of_le_bytes a Ha), <- (le_bytes_of_le_bytes b Hb), Hl, E.
  reflexivity.
Qed.

Lemma rev_inj (a b : list Z) : rev a = rev b -> a = b.
Proof. intros E. rewrite <- (rev_involutive a), <- (rev_involutive b), E. reflexivity. Qed.

Lemma matches_make_iff (c key : list Z) (len flags remaining : Z) :
  Forall is_byte c -> 0 < len <= 6 -> len <= zlen c -> 0 <= flags < 256 ->
  Forall is_byte key -> remaining <= zlen key ->
  t_hop.matches (t_hop.make c len flags) key remaining = true
  <-> len <= remaining
      /\ firstn (Z.to_nat len) key = firstn (Z.to_nat len) c.
Proof.
  intros Hc Hlen Hle Hf Hk Hrem. unfold t_hop.matches.
  rewrite get_hop_sz_make by assumption.
  destruct (Z.gtb_spec len remaining) as [Hgt|Hge].
  - split; [discriminate|]. intros [H _]. lia.
  - rewrite t_hop_make_layout, rev_hop_image by assumption.
    rewrite clear_low_bytes by lia.
    rewrite from_char_static_n_layout by (try assumption; lia).
    replace (8 - Z.to_nat len)%nat with (S (S (6 - Z.to_nat len))) by lia.
    cbn [repeat app]. rewrite clear_low_bytes by lia.
    rewrite Z.eqb_eq. split.
    + intros E. split; [lia|].
      apply of_le_bytes_inj in E.
      * injection E as E. apply app_inv_head in E. apply rev_inj in E.
        symmetry. exact E.
      * repeat constructor; try (unfold is_byte; lia).
        apply Forall_app; split;
          [apply Forall_repeat_zero|apply Forall_rev, Forall_take, Hc].
      * repeat constructor; try (unfold is_byte; lia).
        apply Forall_app; split;
          [apply Forall_repeat_zero|apply Forall_rev, Forall_take, Hk].
      * cbn [List.length]. unfold zlen in *.
        rewrite !length_app, !length_rev, !length_firstn. lia.
    + intros [_ E]. rewrite E. reflexivity.
Qed.

(** X8: a HOP matches a key exactly when the key is at least as long as
    the HOP and starts with the HOP's characters. *)
Theorem t_hop_matches_iff_prefix (c key : list Z) (len flags remaining : Z) :
  Forall is_byte c -> 0 < len <= 6 -> len <= zlen c -> 0 <= flags < 256 ->
  Forall is_byte key -> remaining <= zlen key ->
  t_hop.matches (t_hop.make c len flags) key remaining = true
  <-> len <= remaining
      /\ firstn (Z.to_nat len) key = firstn (Z.to_nat len) c.
Proof. apply matches_make_iff. Qed.

Lemma t_hop_matches_witness :
  t_hop.matches (t_hop.make [104; 101; 108] 3 9) [104; 101; 108; 108; 111] 5 = true
  <-> 3 <= 5
      /\ firstn (Z.to_nat 3) [104; 101; 108; 108; 111]
         = firstn (Z.to_nat 3) [104; 101; 108].
Proof.
  apply (t_hop_matches_iff_prefix [104; 101; 108] [104; 101; 108; 108; 111] 3 9 5).
  - repeat constructor; unfold is_byte; lia.
  - lia.
  - vm_compute. discriminate.
  - lia.
  - repeat constructor; unfold is_byte; lia.
  - vm_compute. discriminate.
Defined.

Lemma find_mismatch_from_spec (a b : list Z) (n : nat) (i : Z) :
  let r := t_hop.find_mismatch_from a b n i in
  i <= r <= i + Z.of_nat n
  /\ firstn (Z.to_nat (r - i)) a = firstn (Z.to_nat (r - i)) b
  /\ (r < i + Z.of_nat n ->
      (Z.to_nat (r - i) < List.length a)%nat ->
      (Z.to_nat (r - i) < List.length b)%nat ->
      nth (Z.to_nat (r - i)) a 0 <> nth (Z.to_nat (r - i)) b 0).
Proof.
  revert a b i; induction n as [|n IH]; intros a b i; cbn zeta.
  - destruct a; cbn [t_hop.find_mismatch_from]; rewrite Z.sub_diag; cbn;
      repeat split; lia.
  - destruct a as [|x a], b as [|y b]; cbn [t_hop.find_mismatch_from];
      try (rewrite Z.sub_diag; cbn; repeat split; (lia || reflexivity)).
    destruct (Z.eqb_spec x y) as [->|Hne].
    + specialize (IH a b (i + 1)). cbn zeta in IH.
      set (r := t_hop.find_mismatch_from a b n (i + 1)) in *.
      destruct IH as (Hr & Hfst & Hnth).
      replace (Z.to_nat (r - i)) with (S (Z.to_nat (r - (i + 1)))) by lia.
      cbn [firstn nth List.length]. rewrite Hfst.
      split; [lia|]. split; [reflexivity|].
      intros H1 H2 H3. apply Hnth; lia.
    + rewrite Z.sub_diag. cbn. repeat split; try lia. intros _ _ _. exact Hne.
Qed.

(** X9: [find_mismatch] is the length of the longest common prefix of the
    HOP's characters and the key, within the shorter of the two. *)
Theorem t_hop_find_mismatch_spec (c key : list Z) (len flags remaining : Z) :
  Forall is_byte c -> 0 < len <= 6 -> len <= zlen c -> 0 <= flags < 256 ->
  0 <= remaining <= zlen key ->
  let r := t_hop.find_mismatch (t_hop.make c len flags) key remaining in
  0 <= r <= Z.min len remaining
  /\ firstn (Z.to_nat r) key = firstn (Z.to_nat r) c
  /\ (r < Z.min len remaining -> nth (Z.to_nat r) key 0 <> nth (Z.to_nat r) c 0).
Proof.
  intros Hc Hlen Hle Hf Hrem. cbn zeta. unfold t_hop.find_mismatch.
  rewrite get_hop_sz_make, to_char_static_make by assumption.
  pose proof (find_mismatch_from_spec (hop_image c len flags) key
                (Z.to_nat (Z.min len remaining)) 0) as H.
  cbn zeta in H.
  set (r := t_hop.find_mismatch_from _ _ _ _) in *.
  rewrite Z.sub_0_r in H. destruct H as (Hr & Hfst & Hnth).
  rewrite firstn_hop_image in Hfst by (try assumption; lia).
  split; [lia|]. split; [symmetry; exact Hfst|].
  intros Hlt.
  assert (Hn : nth (Z.to_nat r) (hop_image c len flags) 0 = nth (Z.to_nat r) c 0).
  { unfold hop_image. rewrite app_nth1 by (rewrite length_firstn; unfold zlen in *; lia).
    rewrite <- (firstn_skipn (Z.to_nat len) c) at 2.
    rewrite app_nth1 by (rewrite length_firstn; unfold zlen in *; lia).
    reflexivity. }
  rewrite <- Hn. intros E. symmetry in E. revert E. apply Hnth.
  - lia.
  - rewrite hop_image_length by assumption. lia.
  - unfold zlen in *. lia.
Qed.

Lemma t_hop_find_mismatch_witness :
  let r := t_hop.find_mismatch (t_hop.make [104; 101; 108] 3 9) [104; 101; 121] 3 in
  0 <= r <= Z.min 3 3
  /\ firstn (Z.to_nat r) [104; 101; 121] = firstn (Z.to_nat r) [104; 101; 108]
  /\ (r < Z.min 3 3 ->
      nth (Z.to_nat r) [104; 101; 121] 0 <> nth (Z.to_nat r) [104; 101; 108] 0).
Proof.
  apply (t_hop_find_mismatch_spec [104; 101; 108] [104; 101; 121] 3 9 3).
  - repeat constructor; unfold is_byte; lia.
  - lia.
  - vm_compute. discriminate.
  - lia.
  - vm_compute. split; discriminate.
Defined.

Lemma length_arr_set (l : list Z) (i : nat) (v : Z) :
  List.length (arr_set l i v) = List.length l.
Proof.
  revert i; induction l as [|a l IH]; intros [|i]; cbn [arr_set List.length];
    try reflexivity.
  rewrite IH. reflexivity.
Qed.

Lemma nth_arr_set (l : list Z) (i j : nat) (v : Z) :
  (i < List.length l)%nat ->
  nth j (arr_set l i v) 0 = if Nat.eqb j i then v else nth j l 0.
Proof.
  revert i j; induction l as [|a l IH]; intros i j Hi; cbn [List.length] in Hi;
    [lia|].
  destruct i as [|i], j as [|j]; cbn [arr_set nth Nat.eqb]; try reflexivity.
  apply IH. lia.
Qed.

Lemma arr_set_is_byte (l : list Z) (i : nat) (v : Z) :
  Forall is_byte l -> is_byte v -> Forall is_byte (arr_set l i v).
Proof.
  intros Hl Hv. revert i; induction Hl as [|a l Ha Hl IH]; intros [|i];
    cbn [arr_set]; constructor; auto.
Qed.

Lemma wrap8_is_byte (x : Z) : is_byte (wrap8 x).
Proof. unfold is_byte, wrap8. apply Z.mod_pos_bound. lia. Qed.

Lemma to_char_static_with_new_flags (data f : Z) :
  to_char_static (t_hop.with_new_flags data f)
  = arr_set (to_char_static data) 6 (wrap8 f).
Proof.
  unfold t_hop.with_new_flags.
  apply to_char_static_from_char_static.
  - rewrite length_arr_set. apply length_to_char_static.
  - apply arr_set_is_byte; [apply to_char_static_is_byte|apply wrap8_is_byte].
Qed.

Lemma get_new_flags_with_new_flags (data f : Z) :
  t_hop.get_new_flags (t_hop.with_new_flags data f) = wrap8 f.
Proof.
  unfold t_hop.get_new_flags, t_hop.get_char_at, arr_get.
  rewrite to_char_static_with_new_flags.
  rewrite nth_arr_set by (rewrite length_to_char_static; lia). reflexivity.
Qed.

Lemma get_char_at_with_new_flags (data f pos : Z) :
  pos <> t_hop.new_flags_offset ->
  t_hop.get_char_at (t_hop.with_new_flags data f) pos = t_hop.get_char_at data pos.
Proof.
  intros Hpos. unfold t_hop.get_char_at, arr_get.
  rewrite to_char_static_with_new_flags.
  rewrite nth_arr_set by (rewrite length_to_char_static; lia).
  unfold t_hop.new_flags_offset, t_hop.max_hop in Hpos.
  destruct (Nat.eqb_spec (Z.to_nat pos) 6); [lia|reflexivity].
Qed.

(** X10: rewriting the flags byte of a HOP the way the engines do changes
    that byte only: the characters and the length stay. *)
Theorem t_hop_with_new_flags_fields (data f : Z) :
  t_hop.get_new_flags (t_hop.with_new_flags data f) = wrap8 f
  /\ forall pos, pos <> t_hop.new_flags_offset ->
                 t_hop.get_char_at (t_hop.with_new_flags data f) pos
                 = t_hop.get_char_at data pos.
Proof.
  split.
  - apply get_new_flags_with_new_flags.
  - intros pos. apply get_char_at_with_new_flags.
Qed.

Lemma t_hop_with_new_flags_witness :
  t_hop.get_char_at (t_hop.with_new_flags (t_hop.make [104; 101; 108] 3 9) 17) 7
  = t_hop.get_char_at (t_hop.make [104; 101; 108] 3 9) 7.
Proof.
  apply (proj2 (t_hop_with_new_flags_fields (t_hop.make [104; 101; 108] 3 9) 17)).
  vm_compute. discriminate.
Defined.

Lemma skipn_hop_image (c : list Z) (len flags : Z) (start : nat) :
  0 < len <= 6 -> len <= zlen c -> (start <= Z.to_nat len)%nat ->
  firstn (Z.to_nat len - start) (skipn start (hop_image c len flags))
  = skipn start (firstn (Z.to_nat len) c).
Proof.
  intros Hlen Hle Hs. unfold hop_image, zlen in *.
  rewrite skipn_app, length_firstn.
  replace (start - _)%nat with 0%nat by lia. cbn [skipn].
  rewrite firstn_app, length_skipn, length_firstn.
  replace (Z.to_nat len - start - _)%nat with 0%nat by lia.
  cbn [firstn]. rewrite app_nil_r.
  apply firstn_all2. rewrite length_skipn, length_firstn. lia.
Qed.

(** X11: the suffix of a HOP from position [start] holds the remaining
    characters, their number, and a zero flags byte. *)
Theorem t_hop_get_suffix_fields (c : list Z) (len flags start : Z) :
  Forall is_byte c -> 0 < len <= 6 -> len <= zlen c -> 0 <= flags < 256 ->
  0 <= start < len ->
  let suffix := t_hop.get_suffix (t_hop.make c len flags) start in
  t_hop.to_string suffix = skipn (Z.to_nat start) (firstn (Z.to_nat len) c)
  /\ t_hop.get_hop_sz suffix = len - start
  /\ t_hop.get_new_flags suffix = 0.
Proof.
  intros Hc Hlen Hle Hf Hs. cbn zeta. unfold t_hop.get_suffix.
  rewrite get_hop_sz_make, to_char_static_make by assumption.
  set (c' := skipn (Z.to_nat start) (hop_image c len flags)).
  assert (Hc' : Forall is_byte c').
  { apply Forall_drop, hop_image_is_byte; assumption. }
  assert (Hl' : len - start <= zlen c').
  { unfold c', zlen. rewrite length_skipn, hop_image_length by assumption. lia. }
  assert (E : wrap64 (Z.lor (Z.land (from_char_static_n c' (len - start)) (Z.lnot 255))
                            (len - start))
              = t_hop.make c' (len - start) 0).
  { rewrite t_hop_make_layout, hop_len_layout by (try assumption; lia).
    reflexivity. }
  rewrite E.
  split; [|split].
  2: apply get_hop_sz_make; (assumption || lia).
  2: apply get_new_flags_make; (assumption || lia).
  rewrite to_string_make by (assumption || lia). unfold c'.
  replace (Z.to_nat (len - start)) with (Z.to_nat len - Z.to_nat start)%nat by lia.
  apply skipn_hop_image; (assumption || lia).
Qed.

Lemma t_hop_get_suffix_witness :
  let suffix := t_hop.get_suffix (t_hop.make [104; 101; 108; 108; 111] 5 9) 2 in
  t_hop.to_string suffix
  = skipn (Z.to_nat 2) (firstn (Z.to_nat 5) [104; 101; 108; 108; 111])
  /\ t_hop.get_hop_sz suffix = 5 - 2
  /\ t_hop.get_new_flags suffix = 0.
Proof.
  apply (t_hop_get_suffix_fields [104; 101; 108; 108; 111] 5 9 2).
  - repeat constructor; unfold is_byte; lia.
  - lia.
  - vm_compute. discriminate.
  - lia.
  - lia.
Defined.

(** ** Flag carriers *)

Lemma load_mapped (p w : Z) (h : heap) : mem h !! p = Some w -> load p h = Ok w h.
Proof. intros E. unfold load. rewrite E. reflexivity. Qed.

Lemma store_mapped (p w v : Z) (h : heap) :
  mem h !! p = Some w ->
  store p v h = Ok tt (mk_heap (<[p := v]> (mem h)) (brk h) (budget h)).
Proof. intros E. unfold store. rewrite E. reflexivity. Qed.

Lemma get_mapped (fl : flags_location.t) (w : Z) (h : heap) :
  flags_location.node_ fl <> 0 ->
  mem h !! flags_location.node_ fl = Some w ->
  flags_location.get fl h = Ok (carried (flags_location.loc_ fl) w) h.
Proof.
  intros Hn Hm. unfold flags_location.get.
  destruct (Z.eqb_spec (flags_location.node_ fl) 0) as [E|_]; [contradiction|].
  unfold mbind. rewrite (load_mapped _ w) by exact Hm. reflexivity.
Qed.

Lemma set_mapped (fl : flags_location.t) (w f : Z) (h : heap) :
  flags_location.node_ fl <> 0 ->
  mem h !! flags_location.node_ fl = Some w ->
  flags_location.set fl f h
  = Ok tt (mk_heap (<[flags_location.node_ fl := rewritten (flags_location.loc_ fl) w f]>
                      (mem h)) (brk h) (budget h)).
Proof.
  intros Hn Hm. unfold flags_location.set.
  destruct (Z.eqb_spec (flags_location.node_ fl) 0) as [E|_]; [contradiction|].
  unfold mbind. rewrite (load_mapped _ w) by exact Hm.
  destruct (flags_location.loc_ fl); apply (store_mapped _ w); exact Hm.
Qed.

Lemma carried_rewritten (loc : flags_location.type) (w f : Z) :
  0 <= f < 32 -> carried loc (rewritten loc w f) = f.
Proof.
  intros Hf. destruct loc; cbn [carried rewritten].
  - transitivity (f mod 32); [|apply Z.mod_small; lia].
    bits. cases n.
  - rewrite get_new_flags_with_new_flags.
    apply Z.mod_small. lia.
  - transitivity (wrap8 f mod 32).
    + bits. cases n.
    + unfold wrap8. rewrite (Z.mod_small f 256) by lia. apply Z.mod_small. lia.
Qed.

Lemma same_payload_rewritten (loc : flags_location.type) (w f : Z) :
  same_payload loc w (rewritten loc w f).
Proof.
  destruct loc; cbn [same_payload rewritten].
  - bits. cases n. neg_bit.
  - intros pos. apply get_char_at_with_new_flags.
  - transitivity (t_skip.get_skip_len w mod 2 ^ 59).
    + bits. cases n. neg_bit.
    + bits. cases n.
Qed.

(** X12: writing a flag byte through a carrier and reading it back gives
    the byte; only the carrier word changes, and its pointer, characters
    or length stay what they were. *)
Theorem flags_location_set_then_get (fl : flags_location.t) (f w : Z) (h : heap) :
  flags_location.node_ fl <> 0 ->
  mem h !! flags_location.node_ fl = Some w ->
  0 <= f < 32 ->
  exists h' w',
    flags_location.set fl f h = Ok tt h'
    /\ flags_location.get fl h' = Ok f h'
    /\ mem h' !! flags_location.node_ fl = Some w'
    /\ same_payload (flags_location.loc_ fl) w w'
    /\ forall a, a <> flags_location.node_ fl -> mem h' !! a = mem h !! a.
Proof.
  intros Hn Hm Hf.
  eexists. exists (rewritten (flags_location.loc_ fl) w f).
  split; [apply set_mapped; eassumption|].
  cbn [mem]. split; [|split; [|split]].
  - erewrite get_mapped; [|exact Hn|cbn [mem]; apply lookup_insert_eq].
    rewrite carried_rewritten by exact Hf. reflexivity.
  - apply lookup_insert_eq.
  - apply same_payload_rewritten.
  - intros a Ha. apply lookup_insert_ne. congruence.
Qed.

Lemma flags_location_set_then_get_witness :
  exists h' w',
    flags_location.set (flags_location.mk flags_location.in_skip 4096) 9
      (mk_heap (<[4096 := 70]> ∅) 8192 None) = Ok tt h'
    /\ flags_location.get (flags_location.mk flags_location.in_skip 4096) h' = Ok 9 h'
    /\ mem h' !! 4096 = Some w'
    /\ same_payload flags_location.in_skip 70 w'
    /\ forall a, a <> 4096 ->
                 mem h' !! a = mem (mk_heap (<[4096 := 70]> ∅) 8192 None) !! a.
Proof.
  apply (flags_location_set_then_get
           (flags_location.mk flags_location.in_skip 4096) 9 70
           (mk_heap (<[4096 := 70]> ∅) 8192 None)).
  - cbn. lia.
  - reflexivity.
  - lia.
Defined.

Lemma mod_pow2_of_bits (x k : Z) :
  0 <= k -> (forall n, k <= n -> Z.testbit x n = false) -> x mod 2 ^ k = x.
Proof.
  intros Hk H. apply Z.bits_inj'; intros n Hn.
  rewrite Z.testbit_mod_pow2 by exact Hk.
  destruct (Z.ltb_spec n k); [reflexivity|].
  rewrite H by lia. reflexivity.
Qed.

Lemma bits_of_small (x k n : Z) : 0 <= x < 2 ^ k -> k <= n -> Z.testbit x n = false.
Proof. apply testbit_small. Qed.

Lemma lor_small (g f k : Z) :
  0 <= k -> 0 <= g < 2 ^ k -> 0 <= f < 2 ^ k -> 0 <= Z.lor g f < 2 ^ k.
Proof.
  intros Hk Hg Hf.
  rewrite <- (mod_pow2_of_bits (Z.lor g f) k Hk).
  - apply Z.mod_pos_bound. apply Z.pow_pos_nonneg; lia.
  - intros n Hn. rewrite Z.lor_spec, (bits_of_small g k), (bits_of_small f k) by lia.
    reflexivity.
Qed.

Lemma land_small (g m k : Z) :
  0 <= k -> 0 <= g < 2 ^ k -> 0 <= Z.land g m < 2 ^ k.
Proof.
  intros Hk Hg.
  rewrite <- (mod_pow2_of_bits (Z.land g m) k Hk).
  - apply Z.mod_pos_bound. apply Z.pow_pos_nonneg; lia.
  - intros n Hn. rewrite Z.land_spec, (bits_of_small g k) by lia.
    reflexivity.
Qed.

Lemma carried_bound (loc : flags_location.type) (w : Z) :
  0 <= w < 2 ^ 64 -> 0 <= carried loc w < 2 ^ flag_width loc.
Proof.
  intros Hw. destruct loc; cbn [carried flag_width].
  - rewrite <- (mod_pow2_of_bits (dirty_high_pointer.get_byte w) 5) by
      (try lia; intros n Hn; unfold dirty_high_pointer.get_byte,
         dirty_high_pointer.flag_shift, num_bits;
       rewrite testbit_wrap8, Z.shiftr_spec by lia;
       rewrite (testbit_high64 w) by lia; apply andb_false_r).
    apply Z.mod_pos_bound. lia.
  - unfold t_hop.get_new_flags, t_hop.get_char_at, arr_get.
    pose proof (to_char_static_is_byte w) as Hb.
    rewrite List.Forall_forall in Hb. apply Hb, nth_In.
    rewrite length_to_char_static.
    change (Z.to_nat t_hop.new_flags_offset) with 6%nat. lia.
  - rewrite <- (mod_pow2_of_bits (t_skip.get_new_flags w) 5) by
      (try lia; intros n Hn; unfold t_skip.get_new_flags,
         t_skip.flag_shift, num_bits;
       rewrite testbit_wrap8, Z.shiftr_spec by lia;
       rewrite (testbit_high64 w) by lia; apply andb_false_r).
    apply Z.mod_pos_bound. lia.
Qed.

Lemma carried_rewritten_wide (loc : flags_location.type) (w f : Z) :
  0 <= f < 2 ^ flag_width loc -> carried loc (rewritten loc w f) = f.
Proof.
  intros Hf. destruct loc; cbn [flag_width] in Hf.
  - apply carried_rewritten. lia.
  - cbn [carried rewritten]. rewrite get_new_flags_with_new_flags.
    apply Z.mod_small. lia.
  - apply carried_rewritten. lia.
Qed.

(** X13: [add_flags] sets the given bits of a carrier's flag byte and
    [remove_flags] clears them; the other bits stay. *)
Theorem flags_location_add_remove_flags (fl : flags_location.t) (f w : Z) (h : heap) :
  flags_location.node_ fl <> 0 ->
  mem h !! flags_location.node_ fl = Some w ->
  0 <= w < 2 ^ 64 ->
  0 <= f < 32 ->
  exists g ha hr,
    flags_location.get fl h = Ok g h
    /\ flags_location.add_flags fl f h = Ok tt ha
    /\ flags_location.get fl ha = Ok (Z.lor g f) ha
    /\ flags_location.remove_flags fl f h = Ok tt hr
    /\ flags_location.get fl hr = Ok (Z.land g (Z.lnot f)) hr.
Proof.
  intros Hn Hm Hw Hf.
  pose proof (carried_bound (flags_location.loc_ fl) w Hw) as Hg.
  set (g := carried (flags_location.loc_ fl) w) in *.
  assert (Hf' : 0 <= f < 2 ^ flag_width (flags_location.loc_ fl)).
  { destruct (flags_location.loc_ fl); cbn [flag_width]; lia. }
  assert (Hk : 0 <= flag_width (flags_location.loc_ fl)).
  { destruct (flags_location.loc_ fl); cbn [flag_width]; lia. }
  assert (H8 : 2 ^ flag_width (flags_location.loc_ fl) <= 256).
  { destruct (flags_location.loc_ fl); cbn [flag_width]; lia. }
  pose proof (lor_small g f _ Hk Hg Hf') as Hor.
  pose proof (land_small g (Z.lnot f) _ Hk Hg) as Hand.
  exists g. eexists. eexists.
  split; [apply get_mapped; assumption|].
  split; [|split; [|split]].
  - unfold flags_location.add_flags, mbind.
    rewrite (get_mapped fl w) by assumption. fold g.
    apply set_mapped; eassumption.
  - erewrite get_mapped; [|exact Hn|cbn [mem]; apply lookup_insert_eq].
    unfold wrap8. rewrite Z.mod_small by lia.
    rewrite carried_rewritten_wide by exact Hor. reflexivity.
  - unfold flags_location.remove_flags, mbind.
    rewrite (get_mapped fl w) by assumption. fold g.
    apply set_mapped; eassumption.
  - erewrite get_mapped; [|exact Hn|cbn [mem]; apply lookup_insert_eq].
    unfold clear_bits, wrap8. rewrite Z.mod_small by lia.
    rewrite carried_rewritten_wide by exact Hand. reflexivity.
Qed.

Lemma flags_location_add_remove_flags_witness :
  exists g ha hr,
    flags_location.get (flags_location.mk flags_location.in_ptr 4096)
      (mk_heap (<[4096 := 70]> ∅) 8192 None)
    = Ok g (mk_heap (<[4096 := 70]> ∅) 8192 None)
    /\ flags_location.add_flags (flags_location.mk flags_location.in_ptr 4096) 9
         (mk_heap (<[4096 := 70]> ∅) 8192 None) = Ok tt ha
    /\ flags_location.get (flags_location.mk flags_location.in_ptr 4096) ha
       = Ok (Z.lor g 9) ha
    /\ flags_location.remove_flags (flags_location.mk flags_location.in_ptr 4096) 9
         (mk_heap (<[4096 := 70]> ∅) 8192 None) = Ok tt hr
    /\ flags_location.get (flags_location.mk flags_location.in_ptr 4096) hr
       = Ok (Z.land g (Z.lnot 9)) hr.
Proof.
  apply (flags_location_add_remove_flags
           (flags_location.mk flags_location.in_ptr 4096) 9 70
           (mk_heap (<[4096 := 70]> ∅) 8192 None)).
  - cbn. lia.
  - reflexivity.
  - lia.
  - lia.
Defined.

(** ** Lookups and navigation do not write *)

Section ReadOnlyQueries.
Import nav_helper.

Ltac rd :=
  repeat first
    [ apply read_only_ret
    | apply read_only_crash
    | apply read_only_load
    | apply read_only_assert
    | apply read_only_load_n
    | apply read_only_load_words
    | apply read_only_skip_bytes
    | apply read_only_do_find_pop
    | apply read_only_do_find_skip
    | assumption
    | apply read_only_bind; [|intros ?]
    | match goal with
      | |- read_only (if ?b then _ else _) => destruct b
      | |- read_only (match ?x with _ => _ end) => destruct x
      | |- read_only (let '(_, _) := ?x in _) => destruct x
      end ].

Lemma read_only_get_pop_chars (p : Z) : read_only (get_pop_chars p).
Proof. unfold get_pop_chars. rd. Qed.

Lemma read_only_find_run (run flags : Z) (inp : list Z) :
  read_only (ktrie_base.find_run run flags inp).
Proof. unfold ktrie_base.find_run. rd. Qed.

Lemma read_only_find_child (run flags c : Z) :
  read_only (ktrie_base.find_child run flags c).
Proof. unfold ktrie_base.find_child. rd. Qed.

Lemma read_only_find_prefix_loop (fuel : nat) (run flags : Z) (inp : list Z) :
  read_only (ktrie_base.find_prefix_loop fuel run flags inp).
Proof.
  revert run flags inp; induction fuel as [|fuel IH]; intros run flags inp;
    cbn [ktrie_base.find_prefix_loop]; [apply read_only_crash|].
  destruct (has_bit flags prefix_bits); [|apply read_only_ret].
  destruct (has_bit flags eos_bit && (zlen inp =? 0)); [apply read_only_ret|].
  destruct (has_bit flags run_bits); [|apply read_only_ret].
  apply read_only_bind; [apply read_only_find_run|].
  intros [[[run' flags'] inp']|]; [apply IH|apply read_only_ret].
Qed.

Lemma read_only_find_fixed_prefix (run flags : Z) (inp : list Z) :
  read_only (ktrie_base.find_fixed_prefix run flags inp).
Proof.
  unfold ktrie_base.find_fixed_prefix.
  apply read_only_bind.
  - destruct (has_bit flags run_bits); [apply read_only_find_run|apply read_only_ret].
  - intros [[[run' flags'] inp']|]; rd.
Qed.

Lemma read_only_find_loop (fuel : nat) (fixed_len run flags : Z) (inp : list Z) :
  read_only (ktrie_base.find_loop fuel fixed_len run flags inp).
Proof.
  revert run flags inp; induction fuel as [|fuel IH]; intros run flags inp;
    cbn [ktrie_base.find_loop]; [apply read_only_crash|].
  apply read_only_bind.
  - destruct (fixed_len >? 0);
      [apply read_only_find_fixed_prefix|apply read_only_find_prefix_loop].
  - intros [[[run' flags'] inp']|p]; [|apply read_only_ret].
    destruct (negb (has_bit flags' branch_bits)); [apply read_only_ret|].
    destruct inp' as [|c inp']; [apply read_only_ret|].
    apply read_only_bind; [apply read_only_find_child|].
    intros [slot|]; [|apply read_only_ret].
    apply read_only_bind; [apply read_only_load|]. intros w.
    destruct (dirty_high_pointer.get_both w) as [r f].
    destruct (r =? 0); [apply read_only_ret|apply IH].
Qed.

Lemma read_only_find_internal (fuel : nat) (fixed_len this : Z) (key : list Z) :
  read_only (ktrie_base.find_internal fuel fixed_len this key).
Proof.
  unfold ktrie_base.find_internal.
  apply read_only_bind; [apply read_only_load|]. intros c.
  destruct (c =? 0); [apply read_only_ret|].
  apply read_only_bind; [apply read_only_load|]. intros w.
  destruct (dirty_high_pointer.get_both w) as [r f].
  apply read_only_find_loop.
Qed.

(** X14: the lookups [find], [contains], [count], [empty] and [size]
    neither write to memory nor allocate. *)
Theorem lookups_are_read_only (fuel : nat) (fixed_len this : Z) (key : list Z) :
  read_only (ktrie_base.find_internal fuel fixed_len this key)
  /\ read_only (ktrie_base.contains_internal fuel fixed_len this key)
  /\ read_only (ktrie_base.count_internal fuel fixed_len this key)
  /\ read_only (ktrie_base.empty this)
  /\ read_only (ktrie_base.size this).
Proof.
  repeat split.
  - apply read_only_find_internal.
  - unfold ktrie_base.contains_internal.
    apply read_only_bind; [apply read_only_find_internal|intros; apply read_only_ret].
  - unfold ktrie_base.count_internal.
    apply read_only_bind; [apply read_only_find_internal|intros; apply read_only_ret].
  - unfold ktrie_base.empty.
    apply read_only_bind; [apply read_only_load|intros; apply read_only_ret].
  - apply read_only_load.
Qed.

Lemma read_only_read_run (run flags : Z) : read_only (read_run run flags).
Proof. unfold read_run. rd. Qed.

Lemma read_only_branch_children (run flags : Z) :
  read_only (branch_children run flags).
Proof. unfold branch_children. rd. Qed.

Lemma read_only_first_child (run flags : Z) : read_only (first_child run flags).
Proof.
  unfold first_child. destruct (has_bit flags list_bit); [rd|].
  apply read_only_bind; [apply read_only_get_pop_chars|].
  intros [|c cs]; rd.
Qed.

Lemma read_only_get_min_loop (fuel : nat) (run flags : Z) (prefix : list Z) :
  read_only (get_min_loop fuel run flags prefix).
Proof.
  revert run flags prefix; induction fuel as [|fuel IH]; intros run flags prefix;
    cbn [get_min_loop]; [apply read_only_crash|].
  destruct (has_bit flags eos_bit); [apply read_only_ret|].
  destruct (has_bit flags run_bits).
  - apply read_only_bind; [apply read_only_read_run|].
    intros [[s f] r]. apply IH.
  - destruct (negb (has_bit flags branch_bits)); [apply read_only_ret|].
    apply read_only_bind; [apply read_only_first_child|].
    intros [fc cn]. apply read_only_bind; [apply read_only_load|]. intros w.
    destruct (dirty_high_pointer.get_both w) as [r f].
    destruct (r =? 0); [apply read_only_ret|apply IH].
Qed.

Lemma read_only_get_min_from (fuel : nat) (run flags : Z) (prefix : list Z) :
  read_only (get_min_from fuel run flags prefix).
Proof.
  unfold get_min_from. destruct (run =? 0);
    [apply read_only_ret|apply read_only_get_min_loop].
Qed.

Lemma read_only_max_prefix_loop (fuel : nat) (run flags : Z) (prefix : list Z)
      (eos : ktrie_result) :
  read_only (max_prefix_loop fuel run flags prefix eos).
Proof.
  revert run flags prefix eos; induction fuel as [|fuel IH];
    intros run flags prefix eos; cbn [max_prefix_loop]; [apply read_only_crash|].
  destruct (has_bit flags prefix_bits); [|apply read_only_ret].
  destruct (has_bit flags eos_bit);
    (destruct (has_bit flags run_bits); [|apply read_only_ret];
     apply read_only_bind; [apply read_only_read_run|];
     intros [[s f] r]; apply IH).
Qed.

Lemma read_only_get_max_recursive (fuel : nat) (start flags : Z) (prefix : list Z) :
  read_only (get_max_recursive fuel start flags prefix).
Proof.
  revert start flags prefix; induction fuel as [|fuel IH];
    intros start flags prefix; cbn [get_max_recursive]; [apply read_only_crash|].
  destruct (start =? 0); [apply read_only_ret|].
  apply read_only_bind; [apply read_only_max_prefix_loop|].
  intros [[[run f] p] eos].
  destruct (negb (has_bit f branch_bits)); [apply read_only_ret|].
  apply read_only_bind; [apply read_only_branch_children|].
  intros children. induction (rev children) as [|[c child_ptr] cs IHcs];
    [apply read_only_ret|].
  apply read_only_bind; [apply read_only_load|]. intros w.
  destruct (dirty_high_pointer.get_both w) as [cr cf].
  destruct (negb (cr =? 0)); [|exact IHcs].
  apply read_only_bind; [apply IH|].
  intros [r|]; [apply read_only_ret|exact IHcs].
Qed.

Lemma read_only_min_current_loop (fuel : nat) (run flags : Z) (prefix : list Z) :
  read_only (min_current_loop fuel run flags prefix).
Proof.
  revert run flags prefix; induction fuel as [|fuel IH]; intros run flags prefix;
    cbn [min_current_loop]; [apply read_only_crash|].
  destruct (has_bit flags eos_bit); [apply read_only_ret|].
  destruct (has_bit flags run_bits); [|apply read_only_ret].
  apply read_only_bind; [apply read_only_read_run|].
  intros [[s f] r]. apply IH.
Qed.

Lemma read_only_get_min_from_current (fuel : nat) (run flags : Z) (prefix : list Z) :
  read_only (get_min_from_current fuel run flags prefix).
Proof.
  unfold get_min_from_current.
  apply read_only_bind; [apply read_only_min_current_loop|].
  intros [[[r f] p]|res]; [|apply read_only_ret].
  destruct (has_bit f branch_bits); [|apply read_only_ret].
  apply read_only_bind; [apply read_only_first_child|].
  intros [fc cn]. apply read_only_bind; [apply read_only_load|]. intros w.
  destruct (dirty_high_pointer.get_both w) as [cr cf].
  destruct (negb (cr =? 0)); [apply read_only_get_min_from|apply read_only_ret].
Qed.

Lemma read_only_backtrack (fuel : nat) (stack : list nav_frame) :
  read_only (backtrack fuel stack).
Proof.
  induction stack as [|f stack IH]; cbn [backtrack]; [apply read_only_ret|].
  induction (skipn (Z.to_nat (f_child_index f + 1)) (f_children f))
    as [|[c child_ptr] cs IHcs]; [exact IH|].
  apply read_only_bind; [apply read_only_load|]. intros w.
  destruct (dirty_high_pointer.get_both w) as [cr cf].
  destruct (negb (cr =? 0)); [apply read_only_get_min_from|exact IHcs].
Qed.

Lemma read_only_backtrack_prev (fuel : nat) (stack : list nav_frame)
      (last_less : ktrie_result) :
  read_only (backtrack_prev fuel stack last_less).
Proof.
  induction stack as [|f stack IH]; cbn [backtrack_prev]; [apply read_only_ret|].
  induction (rev (firstn (Z.to_nat (f_child_index f)) (f_children f)))
    as [|[c child_ptr] cs IHcs].
  - destruct (has_bit (f_flags f) eos_bit); [apply read_only_ret|exact IH].
  - apply read_only_bind; [apply read_only_load|]. intros w.
    destruct (dirty_high_pointer.get_both w) as [cr cf].
    destruct (negb (cr =? 0)); [apply read_only_get_max_recursive|exact IHcs].
Qed.

Lemma read_only_next_prefix_loop (fuel : nat) (or_equal : bool) (s : search) :
  read_only (next_prefix_loop fuel or_equal s).
Proof.
  revert s; induction fuel as [|fuel IH]; intros [key prefix run flags];
    cbn [next_prefix_loop]; [apply read_only_crash|].
  destruct (has_bit flags prefix_bits); [|apply read_only_ret].
  destruct (has_bit flags eos_bit && (zlen key =? 0)).
  - destruct or_equal; [apply read_only_ret|].
    destruct (has_bit (clear_bits flags eos_bit) run_bits).
    + apply read_only_bind; [apply read_only_read_run|].
      intros [[str f] r].
      apply read_only_bind; [apply read_only_get_min_from_current|].
      intros; apply read_only_ret.
    + destruct (has_bit (clear_bits flags eos_bit) branch_bits);
        [|apply read_only_ret].
      apply read_only_bind; [apply read_only_get_min_from_current|].
      intros; apply read_only_ret.
  - destruct (has_bit flags run_bits); [|apply read_only_ret].
    apply read_only_bind; [apply read_only_read_run|].
    intros [[str f] r].
    destruct (cmp_run key str); try apply IH; try apply read_only_ret;
      (apply read_only_bind; [apply read_only_get_min_from_current|];
       intros; apply read_only_ret).
Qed.

Lemma read_only_find_next_loop (fuel : nat) (or_equal : bool) (s : search)
      (stack : list nav_frame) :
  read_only (find_next_loop fuel or_equal s stack).
Proof.
  revert s stack; induction fuel as [|fuel IH]; intros s stack;
    cbn [find_next_loop]; [apply read_only_crash|].
  apply read_only_bind; [apply read_only_next_prefix_loop|].
  intros [r| |[key prefix run flags]];
    [apply read_only_ret|apply read_only_backtrack|].
  destruct key as [|c key'].
  - destruct (has_bit flags branch_bits);
      [apply read_only_get_min_from_current|apply read_only_backtrack].
  - destruct (negb (has_bit flags branch_bits)); [apply read_only_backtrack|].
    apply read_only_bind; [apply read_only_branch_children|]. intros children.
    destruct (scan_next children (wrap8 c) 0) as [found_idx next_greater_idx].
    destruct (found_idx >=? 0).
    + apply read_only_bind; [apply read_only_load|]. intros w.
      destruct (dirty_high_pointer.get_both w) as [cr cf].
      destruct (cr =? 0); [apply read_only_backtrack|apply IH].
    + destruct (next_greater_idx >=? 0); [|apply read_only_backtrack].
      apply read_only_bind; [apply read_only_load|]. intros w.
      destruct (dirty_high_pointer.get_both w) as [cr cf].
      destruct (negb (cr =? 0));
        [apply read_only_get_min_from|apply read_only_backtrack].
Qed.

Lemma read_only_prev_prefix_loop (fuel : nat) (or_equal : bool) (s : search)
      (last_less : ktrie_result) :
  read_only (prev_prefix_loop fuel or_equal s last_less).
Proof.
  revert s last_less; induction fuel as [|fuel IH];
    intros [key prefix run flags] last_less;
    cbn [prev_prefix_loop]; [apply read_only_crash|].
  destruct (has_bit flags prefix_bits); [|apply read_only_ret].
  destruct (has_bit flags eos_bit && (zlen key =? 0)).
  - destruct or_equal; apply read_only_ret.
  - destruct (has_bit flags eos_bit);
      (destruct (has_bit flags run_bits); [|apply read_only_ret];
       apply read_only_bind; [apply read_only_read_run|];
       intros [[str f] r];
       destruct (cmp_run key str); try apply IH; try apply read_only_ret;
       apply read_only_bind; [apply read_only_get_max_recursive|];
       intros; apply read_only_ret).
Qed.

Lemma read_only_find_prev_loop (fuel : nat) (or_equal : bool) (s : search)
      (stack : list nav_frame) (last_less : ktrie_result) :
  read_only (find_prev_loop fuel or_equal s stack last_less).
Proof.
  revert s stack last_less; induction fuel as [|fuel IH]; intros s stack last_less;
    cbn [find_prev_loop]; [apply read_only_crash|].
  apply read_only_bind; [apply read_only_prev_prefix_loop|].
  intros [[r| |[key prefix run flags]] ll];
    [apply read_only_ret|apply read_only_backtrack_prev|].
  destruct key as [|c key']; [apply read_only_ret|].
  destruct (negb (has_bit flags branch_bits)); [apply read_only_ret|].
  apply read_only_bind; [apply read_only_branch_children|]. intros children.
  destruct (scan_prev children (wrap8 c) 0 (-1)) as [found_idx last_less_idx].
  destruct (found_idx >=? 0).
  - apply read_only_bind; [apply read_only_load|]. intros w.
    destruct (dirty_high_pointer.get_both w) as [cr cf].
    destruct (cr =? 0); [apply read_only_backtrack_prev|apply IH].
  - destruct (last_less_idx >=? 0); [|apply read_only_ret].
    apply read_only_bind; [apply read_only_load|]. intros w.
    destruct (dirty_high_pointer.get_both w) as [cr cf].
    destruct (negb (cr =? 0));
      [apply read_only_get_max_recursive|apply read_only_ret].
Qed.

Lemma read_only_with_root (this : Z) (k : Z -> Z -> M ktrie_result) :
  (forall run flags, read_only (k run flags)) ->
  read_only (ktrie_base.with_root this k).
Proof.
  intros Hk. unfold ktrie_base.with_root.
  apply read_only_bind; [apply read_only_load|]. intros c.
  destruct (c =? 0); [apply read_only_ret|].
  apply read_only_bind; [apply read_only_load|]. intros w.
  destruct (dirty_high_pointer.get_both w) as [r f].
  destruct (r =? 0); [apply read_only_ret|apply Hk].
Qed.

Lemma read_only_returns {A} (c : M A) (h h' : heap) (a : A) :
  read_only c -> c h = Ok a h' -> h' = h.
Proof. intros Hc E. specialize (Hc h). rewrite E in Hc. exact Hc. Qed.

(** X15: the ordered navigation leaves the trie as it is: when [first],
    [last], [next], [prev], [lower_bound] or [upper_bound] returns, the
    root, the count and every node are what they were before the call.
    (The strings and vectors the source builds on the way are values of
    the embedding, not part of this memory.) *)
Theorem navigation_leaves_the_trie_unchanged
        (fuel : nat) (this : Z) (key : list Z) (h h' : heap)
        (r : nav_helper.ktrie_result) :
  (ktrie_base.first_internal fuel this h = Ok r h' -> h' = h)
  /\ (ktrie_base.last_internal fuel this h = Ok r h' -> h' = h)
  /\ (ktrie_base.next_item_internal fuel this key h = Ok r h' -> h' = h)
  /\ (ktrie_base.prev_item_internal fuel this key h = Ok r h' -> h' = h)
  /\ (ktrie_base.lower_bound_internal fuel this key h = Ok r h' -> h' = h)
  /\ (ktrie_base.upper_bound_internal fuel this key h = Ok r h' -> h' = h).
Proof.
  repeat split; apply read_only_returns; apply read_only_with_root;
    intros run flags;
    first [apply read_only_find_next_loop|apply read_only_find_prev_loop].
Qed.

Lemma navigation_leaves_the_trie_unchanged_witness :
  heap_after (ktrie_base.lower_bound_internal 8 4096 (key_of_string "aa")
                                              scenarios.one_key) empty_heap
  = scenarios.one_key
  /\ heap_after (ktrie_base.prev_item_internal 8 4096 (key_of_string "b")
                                               scenarios.one_key) empty_heap
     = scenarios.one_key.
Proof.
  split.
  - apply (proj1 (proj2 (proj2 (proj2 (proj2
             (navigation_leaves_the_trie_unchanged 8 4096 (key_of_string "aa")
                scenarios.one_key
                (heap_after (ktrie_base.lower_bound_internal 8 4096
                               (key_of_string "aa") scenarios.one_key) empty_heap)
                (Some (key_of_string "ab", 4128)))))))).
    vm_compute. reflexivity.
  - apply (proj1 (proj2 (proj2 (proj2
             (navigation_leaves_the_trie_unchanged 8 4096 (key_of_string "b")
                scenarios.one_key
                (heap_after (ktrie_base.prev_item_internal 8 4096
                               (key_of_string "b") scenarios.one_key) empty_heap)
                (Some (key_of_string "ab", 4128))))))).
    vm_compute. reflexivity.
Defined.

End ReadOnlyQueries.

(** ** An erase that removes nothing writes nothing *)

Section EraseOfMissingKey.
Import remove_helper.

Lemma returns_true_ret : returns_true (mret true).
Proof. intros h. reflexivity. Qed.

Lemma returns_true_crash (f : fault) : returns_true (crash f).
Proof. intros h. exact I. Qed.

Lemma returns_true_bind {A} (c : M A) (k : A -> M bool) :
  (forall a, returns_true (k a)) -> returns_true (mbind c k).
Proof.
  intros Hk h. unfold mbind. destruct (c h) as [a h1| |]; [apply Hk|exact I|exact I].
Qed.

Ltac rt :=
  repeat first
    [ apply returns_true_ret
    | apply returns_true_crash
    | assumption
    | apply returns_true_bind; intros ?
    | match goal with
      | |- returns_true (if ?b then _ else _) => destruct b
      | |- returns_true (match ?x with _ => _ end) => destruct x
      | |- returns_true (let '(_, _) := ?x in _) => destruct x
      end ].

Lemma returns_true_remove_last_branch fuel parent more cascade branch_pos :
  returns_true cascade ->
  returns_true (remove_last_branch fuel parent more cascade branch_pos).
Proof. intros Hc. unfold remove_last_branch. rt. Qed.

Lemma returns_true_remove_from_list fuel parent more cascade child_index :
  returns_true cascade ->
  returns_true (remove_from_list fuel parent more cascade child_index).
Proof.
  intros Hc. unfold remove_from_list.
  apply returns_true_bind; intros list.
  destruct (t_small_list.get_list_sz list =? 1);
    [apply returns_true_remove_last_branch, Hc|rt].
Qed.

Lemma returns_true_pop_to_list_on_remove fuel parent child_index chars :
  returns_true (pop_to_list_on_remove fuel parent child_index chars).
Proof. unfold pop_to_list_on_remove. rt. Qed.

Lemma returns_true_remove_from_pop fuel parent more cascade child_index :
  returns_true cascade ->
  returns_true (remove_from_pop fuel parent more cascade child_index).
Proof.
  intros Hc. unfold remove_from_pop.
  apply returns_true_bind; intros pop.
  destruct (zlen (get_pop_chars_of pop) =? 1);
    [apply returns_true_remove_last_branch, Hc|].
  destruct (zlen (get_pop_chars_of pop) - 1 <=? t_small_list.max_list);
    [apply returns_true_pop_to_list_on_remove|rt].
Qed.

Lemma returns_true_remove_child_from_branch fuel path :
  returns_true (remove_child_from_branch fuel path).
Proof.
  induction path as [|parent rest IH]; cbn [remove_child_from_branch];
    [apply returns_true_crash|].
  apply returns_true_bind; intros branch_flags.
  destruct (has_bit branch_flags list_bit);
    [apply returns_true_remove_from_list, IH
    |apply returns_true_remove_from_pop, IH].
Qed.

Lemma returns_true_after_free fuel counter path :
  returns_true (after_free fuel counter path).
Proof.
  unfold after_free. apply returns_true_bind; intros _.
  destruct path as [|parent rest]; [apply returns_true_ret|].
  destruct (negb (e_branch_node parent =? 0));
    [apply returns_true_remove_child_from_branch|apply returns_true_ret].
Qed.

Lemma returns_true_rebuild_without_eos fuel ref node_start initial_flags
      eos_position counter path :
  returns_true (rebuild_without_eos fuel ref node_start initial_flags
                                    eos_position counter path).
Proof.
  unfold rebuild_without_eos.
  apply returns_true_bind; intros orig_len.
  destruct (orig_len =? 1).
  { do 2 (apply returns_true_bind; intros _). apply returns_true_after_free. }
  apply returns_true_bind; intros found.
  match goal with |- returns_true (if ?b then _ else _) => destruct b end.
  { do 2 (apply returns_true_bind; intros _). apply returns_true_after_free. }
  apply returns_true_bind; intros nn.
  do 3 (apply returns_true_bind; intros _). apply returns_true_ret.
Qed.

Lemma quiet_read {A B} (changed : B -> Prop) (c : M A) (k : A -> M B) :
  read_only c -> (forall a, quiet_unless changed (k a)) ->
  quiet_unless changed (mbind c k).
Proof.
  intros Hc Hk h. unfold mbind. specialize (Hc h).
  destruct (c h) as [a h1| |]; [subst h1; apply Hk|exact I|exact I].
Qed.

Lemma quiet_ret {A} (changed : A -> Prop) (a : A) : quiet_unless changed (mret a).
Proof. intros h. right. reflexivity. Qed.

Lemma quiet_crash {A} (changed : A -> Prop) (f : fault) :
  quiet_unless changed (crash f).
Proof. intros h. exact I. Qed.

Lemma quiet_rebuilt (c : M bool) :
  returns_true c -> quiet_unless removed (b <- c ;; mret (Done b)).
Proof.
  intros Hc h. unfold mbind. specialize (Hc h).
  destruct (c h) as [b h1| |]; [|exact I|exact I].
  subst b. left. reflexivity.
Qed.

Lemma quiet_remove_prefix_loop fuel c counter path :
  quiet_unless removed (remove_prefix_loop fuel c counter path).
Proof.
  revert c; induction fuel as [|fuel IH]; intros c; cbn [remove_prefix_loop];
    [apply quiet_crash|].
  destruct (has_bit (c_flags_now c) prefix_bits); [|apply quiet_ret].
  destruct (has_bit (c_flags_now c) eos_bit && at_end c).
  { apply quiet_rebuilt, returns_true_rebuild_without_eos. }
  match goal with |- quiet_unless _ (if has_bit (c_flags_now ?c') _ then _ else _) =>
    destruct (has_bit (c_flags_now c') run_bits); [|apply quiet_ret];
    apply quiet_read; [apply read_only_remove_run|]
  end.
  intros [c'|]; [apply IH|apply quiet_ret].
Qed.

Lemma quiet_remove_var_prefix fuel c counter path :
  quiet_unless removed (remove_var_prefix fuel c counter path).
Proof.
  unfold remove_var_prefix. intros h. unfold mbind.
  pose proof (quiet_remove_prefix_loop fuel c counter path h) as H.
  destruct (remove_prefix_loop fuel c counter path h) as [[c'|b] h1| |];
    [|exact H|exact I|exact I].
  destruct H as [H|H]; [discriminate H|]. subst h1.
  destruct (has_bit (c_flags_now c') eos_bit); [|right; reflexivity].
  destruct (at_end c'); [|right; reflexivity].
  apply (quiet_rebuilt _ (returns_true_rebuild_without_eos _ _ _ _ _ _ _)).
Qed.

Lemma quiet_remove_fixed_prefix fuel c counter path :
  quiet_unless removed (remove_fixed_prefix fuel c counter path).
Proof.
  unfold remove_fixed_prefix.
  apply quiet_read.
  - destruct (has_bit (c_flags_now c) run_bits);
      [apply read_only_remove_run|apply read_only_ret].
  - intros [c'|]; [|apply quiet_ret].
    destruct (has_bit (c_flags_now c') eos_bit); [|apply quiet_ret].
    destruct (at_end c'); [|apply quiet_ret].
    apply quiet_rebuilt, returns_true_rebuild_without_eos.
Qed.

Lemma quiet_remove_descend fuel fixed_len c counter path :
  quiet_unless (fun b => b = true) (remove_descend fuel fixed_len c counter path).
Proof.
  revert c path; induction fuel as [|fuel IH]; intros c path;
    cbn [remove_descend]; [apply quiet_crash|].
  intros h. unfold mbind at 1.
  assert (Hstep : quiet_unless removed
                    (if fixed_len >? 0 then remove_fixed_prefix fuel c counter path
                     else remove_var_prefix fuel c counter path)).
  { destruct (fixed_len >? 0);
      [apply quiet_remove_fixed_prefix|apply quiet_remove_var_prefix]. }
  specialize (Hstep h).
  destruct ((if fixed_len >? 0 then remove_fixed_prefix fuel c counter path
             else remove_var_prefix fuel c counter path) h)
    as [[c'|b] h1| |]; [| |exact I|exact I].
  - destruct Hstep as [H|H]; [discriminate H|]. subst h1.
    revert h.
    change (quiet_unless (fun b => b = true)
      (if negb (has_bit (c_flags_now c') branch_bits) then mret false
       else match c_key c' with
            | [] => mret false
            | ch :: key' =>
                o <- (if has_bit (c_flags_now c') list_bit then
                        list <- load (c_run c') ;;
                        let off := t_small_list.offset list ch in
                        if off =? 0 then mret None
                        else mret (Some (off - 1, idx (c_run c') off))
                      else
                        o <- do_find_pop (c_run c') ch ;;
                        match o with
                        | None => mret None
                        | Some off => mret (Some (off - 4, idx (c_run c') off))
                        end) ;;
                match o with
                | None => mret false
                | Some (child_index, slot) =>
                    let path :=
                      mk_entry (c_ref c') (c_node_start c') (c_initial_flags c')
                               child_index (c_run c') :: path in
                    w <- load slot ;;
                    let '(run, flags_now) := dirty_high_pointer.get_both w in
                    if run =? 0 then mret false
                    else
                      remove_descend fuel fixed_len
                        (mk_cursor slot run flags_now run flags_now key')
                        counter path
                end
            end)).
    destruct (negb (has_bit (c_flags_now c') branch_bits)); [apply quiet_ret|].
    destruct (c_key c') as [|ch key']; [apply quiet_ret|].
    apply quiet_read.
    + destruct (has_bit (c_flags_now c') list_bit).
      * apply read_only_bind; [apply read_only_load|]. intros list. cbv zeta.
        destruct (t_small_list.offset list ch =? 0); apply read_only_ret.
      * apply read_only_bind; [apply read_only_do_find_pop|].
        intros [off|]; apply read_only_ret.
    + intros [[child_index slot]|]; [|apply quiet_ret]. cbv zeta.
      apply quiet_read; [apply read_only_load|]. intros w.
      destruct (dirty_high_pointer.get_both w) as [r f].
      destruct (r =? 0); [apply quiet_ret|apply IH].
  - unfold mret. destruct Hstep as [H|H].
    + injection H as H. subst b. left. reflexivity.
    + right. exact H.
Qed.

(** X16: [erase] returns 0 or 1, and an erase that returns 0 (the key was
    not found) has written nothing. *)
Theorem erase_of_missing_key_writes_nothing
        (fuel : nat) (fixed_len this : Z) (key : list Z) (h h' : heap) (n : Z) :
  ktrie_base.erase_internal fuel fixed_len this key h = Ok n h' ->
  n = 1 \/ (n = 0 /\ h' = h).
Proof.
  unfold ktrie_base.erase_internal, mbind at 1, load.
  destruct (mem h !! ktrie_base.cnt_ this) as [c|]; [|discriminate].
  destruct (c =? 0).
  { unfold mret. intros E. injection E as E1 E2; subst n h'. right. split; reflexivity. }
  unfold mbind at 1, remove_loop, mbind at 1, load.
  destruct (mem h !! ktrie_base.head_ this) as [w|]; [|discriminate].
  destruct (dirty_high_pointer.get_both w) as [ptr flags].
  destruct (ptr =? 0).
  { unfold mret. intros E. injection E as E1 E2; subst n h'. right. split; reflexivity. }
  pose proof (quiet_remove_descend fuel fixed_len
                (mk_cursor (ktrie_base.head_ this) ptr flags ptr flags key)
                (ktrie_base.cnt_ this) [] h) as H.
  destruct (remove_descend _ _ _ _ _ h) as [b h1| |]; [|discriminate|discriminate].
  unfold mret. intros E. injection E as E1 E2; subst n h'.
  destruct H as [-> | ->]; [left; reflexivity|].
  destruct b; [left; reflexivity|right; split; reflexivity].
Qed.

Lemma erase_of_missing_key_witness :
  0 = 1 \/ (0 = 0 /\ scenarios.one_key = scenarios.one_key).
Proof.
  apply (erase_of_missing_key_writes_nothing
           64 0 4096 (key_of_string "ac") scenarios.one_key scenarios.one_key 0).
  vm_compute. reflexivity.
Defined.

End EraseOfMissingKey.

(** ** An insert that finds the key present *)

Section InsertOfPresentKey.

Import insert_helper.

Lemma counts_one_ret t : cnt t = 1 -> counts_one (mret t).
Proof. intros H h. exact H. Qed.

Lemma counts_one_crash f : counts_one (crash f).
Proof. intros h. exact I. Qed.

Lemma counts_one_bind {A} (c : M A) (k : A -> M insert_update_ret) :
  (forall a, counts_one (k a)) -> counts_one (mbind c k).
Proof.
  intros Hk h. unfold mbind. destruct (c h) as [a h1| |]; [apply Hk|exact I|exact I].
Qed.

Ltac co :=
  cbv zeta;
  repeat first
    [ apply counts_one_crash
    | apply counts_one_ret; first [reflexivity | assumption]
    | apply counts_one_bind; intros ?
    | match goal with
      | |- counts_one (if ?b then _ else _) => destruct b
      | |- counts_one (match ?x with _ => _ end) => destruct x
      | |- counts_one (let '(_, _) := ?x in _) => destruct x
      end ].

Lemma counts_one_break_hop_at fuel m t cur break_pos :
  cnt t = 1 -> counts_one (break_hop_at fuel m t cur break_pos).
Proof. intros H. unfold break_hop_at. co. Qed.

Lemma counts_one_break_skip_at fuel m t break_at skip_len cur_char sd skip_hdr :
  cnt t = 1 ->
  counts_one (break_skip_at fuel m t break_at skip_len cur_char sd skip_hdr).
Proof. intros H. unfold break_skip_at. co. Qed.

Lemma counts_one_list2pop fuel m t : cnt t = 1 -> counts_one (list2pop fuel m t).
Proof. intros H. unfold list2pop. co. Qed.

Lemma counts_one_add_list fuel m t lsz :
  cnt t = 1 -> counts_one (add_list fuel m t lsz).
Proof. intros H. unfold add_list. co. Qed.

Lemma counts_one_add_pop fuel m t : cnt t = 1 -> counts_one (add_pop fuel m t).
Proof. intros H. unfold add_pop. co. Qed.

Lemma counts_one_add_eos_at fuel m t : counts_one (add_eos_at fuel m t).
Proof. unfold add_eos_at. co. Qed.

Lemma counts_one_add_branch_at_end fuel m t :
  counts_one (add_branch_at_end fuel m t).
Proof. unfold add_branch_at_end. co. Qed.

Lemma counts_one_make_tail t : cnt t = 1 -> counts_one (make_tail t).
Proof. intros H. unfold make_tail. co. Qed.

Lemma insert_step_read {A} do_update value (c : M A) k :
  read_only c -> (forall a, insert_step do_update value (k a)) ->
  insert_step do_update value (mbind c k).
Proof.
  intros Hc Hk h. unfold mbind. specialize (Hc h).
  destruct (c h) as [a h1| |]; [subst h1; apply Hk|exact I|exact I].
Qed.

Lemma insert_step_new do_update value (c : M insert_update_ret) :
  counts_one c -> insert_step do_update value (t' <- c ;; mret (Done t')).
Proof.
  intros Hc h. unfold mbind. specialize (Hc h).
  destruct (c h) as [t' h1| |]; [|exact I|exact I].
  left. exact Hc.
Qed.

Lemma insert_step_next do_update value m t :
  cnt t = 1 -> add_ptr t = value -> insert_step do_update value (mret (Next (m, t))).
Proof. intros H1 H2 h. cbn. auto. Qed.

Lemma insert_step_crash do_update value f : insert_step do_update value (crash f).
Proof. intros h. exact I. Qed.

Lemma insert_step_found do_update value m t :
  add_ptr t = value ->
  insert_step do_update value (t' <- found_at m t do_update ;; mret (Done t')).
Proof.
  intros Hv h. unfold found_at, mbind, mret, node.update_data, store.
  destruct do_update.
  - destruct (mem h !! run m); [|exact I].
    right. split; [reflexivity|]. cbn [ret cnt touched node.get_data_ptr].
    rewrite Hv. reflexivity.
  - right. split; reflexivity.
Qed.

Lemma insert_step_run_step do_update value fuel m t :
  cnt t = 1 -> add_ptr t = value ->
  insert_step do_update value (run_step fuel m t).
Proof.
  intros H1 H2. unfold run_step.
  destruct (has_bit (flags m) hop_bit).
  - apply insert_step_read; [apply read_only_load|]. intros hop. cbv zeta.
    destruct (_ <? _).
    + apply insert_step_new, counts_one_break_hop_at, H1.
    + apply insert_step_next; assumption.
  - apply insert_step_read; [apply read_only_load|]. intros sk. cbv zeta.
    apply insert_step_read; [apply read_only_skip_bytes|]. intros sd.
    destruct (_ <? _).
    + apply insert_step_new, counts_one_break_skip_at, H1.
    + apply insert_step_next; assumption.
Qed.

Lemma insert_step_bind do_update value c k :
  insert_step do_update value c ->
  (forall m t, cnt t = 1 -> add_ptr t = value ->
               insert_step do_update value (k (Next (m, t)))) ->
  (forall t, k (Done t) = mret (Done t)) ->
  insert_step do_update value (mbind c k).
Proof.
  intros Hc Hn Hd h. unfold mbind. specialize (Hc h).
  destruct (c h) as [[[m t]|t] h1| |]; [| |exact I|exact I].
  - destruct Hc as (-> & H1 & H2). apply Hn; assumption.
  - rewrite Hd. exact Hc.
Qed.

Lemma insert_step_prefix_loop do_update value fuel m t :
  cnt t = 1 -> add_ptr t = value ->
  insert_step do_update value (prefix_loop fuel m t do_update).
Proof.
  revert m t; induction fuel as [|fuel IH]; intros m t H1 H2;
    cbn [prefix_loop]; [apply insert_step_crash|].
  destruct (has_bit (flags m) prefix_bits); [|apply insert_step_next; assumption].
  destruct (has_bit (flags m) eos_bit && exhausted t);
    [apply insert_step_found, H2|].
  cbv zeta.
  match goal with |- insert_step _ _ (if has_bit (flags ?m') _ then _ else _) =>
    destruct (has_bit (flags m') run_bits); [|apply insert_step_next; assumption];
    apply insert_step_bind; [apply insert_step_run_step; assumption| |reflexivity]
  end.
  intros m' t' H1' H2'. apply IH; assumption.
Qed.

Lemma insert_step_fixed_prefix do_update value fuel m t :
  cnt t = 1 -> add_ptr t = value ->
  insert_step do_update value (fixed_prefix fuel m t do_update).
Proof.
  intros H1 H2. unfold fixed_prefix.
  apply insert_step_bind; [| |reflexivity].
  - destruct (has_bit (flags m) run_bits);
      [apply insert_step_run_step; assumption|apply insert_step_next; assumption].
  - intros m' t' H1' H2'.
    destruct (has_bit (flags m') eos_bit); [|apply insert_step_next; assumption].
    destruct (exhausted t');
      [apply insert_step_found, H2'|apply insert_step_next; assumption].
Qed.

Lemma insert_step_branch_step do_update value fuel m t :
  cnt t = 1 -> add_ptr t = value ->
  insert_step do_update value (branch_step fuel m t do_update).
Proof.
  intros H1 H2. unfold branch_step. cbv zeta.
  intros h. unfold mbind at 1.
  match goal with |- match match ?c h with _ => _ end with _ => _ end =>
    assert (Hslot : forall h, match c h with
                              | Ok (Next _) h1 => h1 = h
                              | Ok (Done t') _ => cnt t' = 1
                              | _ => True
                              end);
      [|specialize (Hslot h); destruct (c h) as [[slot|t'] h1| |]]
  end.
  { clear h. intros h. destruct (has_bit (flags m) pop_bit).
    - unfold mbind at 1.
      pose proof (read_only_do_find_pop (run m) (arr_get (add_val t) 0) h) as Hr.
      destruct (do_find_pop (run m) (arr_get (add_val t) 0) h) as [[off|] h1| |];
        try exact I; subst h1; [reflexivity|].
      pose proof (counts_one_add_pop fuel m t H1 h) as Hc. unfold mbind.
      destruct (add_pop fuel m t h); [exact Hc|exact I|exact I].
    - unfold mbind at 1, load.
      destruct (mem h !! run m) as [list|]; [|exact I].
      destruct (t_small_list.offset list (arr_get (add_val t) 0) =? 0);
        [|reflexivity].
      destruct (t_small_list.get_list_sz list >=? t_small_list.max_list).
      + pose proof (counts_one_list2pop fuel m t H1 h) as Hc. unfold mbind.
        destruct (list2pop fuel m t h); [exact Hc|exact I|exact I].
      + pose proof (counts_one_add_list fuel m t
                      (t_small_list.get_list_sz list) H1 h) as Hc. unfold mbind.
        destruct (add_list fuel m t (t_small_list.get_list_sz list) h);
          [exact Hc|exact I|exact I]. }
  - subst h1. revert h.
    change (insert_step do_update value
      (w <- load slot ;;
       let '(child, cflags) := dirty_high_pointer.get_both w in
       let m := mk_md slot child child cflags cflags
                      (flags_location.mk flags_location.in_ptr slot) in
       if exhausted (with_add_val t (skipn 1 (add_val t))) then
         if has_bit (flags m) eos_bit then
           t' <- found_at m (with_add_val t (skipn 1 (add_val t))) do_update ;;
           mret (Done t')
         else
           t' <- add_eos_at fuel m (with_add_val t (skipn 1 (add_val t))) ;;
           mret (Done t')
       else mret (Next (m, with_add_val t (skipn 1 (add_val t)))))).
    apply insert_step_read; [apply read_only_load|]. intros w.
    destruct (dirty_high_pointer.get_both w) as [child cflags]. cbv zeta.
    destruct (exhausted _).
    + destruct (has_bit _ eos_bit).
      * apply insert_step_found. exact H2.
      * apply insert_step_new, counts_one_add_eos_at.
    + apply insert_step_next; assumption.
  - left. exact Hslot.
  - exact I.
  - exact I.
Qed.

Lemma present_or_new_insert_update_loop do_update value fuel fixed_len m t h :
  cnt t = 1 -> add_ptr t = value ->
  match insert_update_loop fuel fixed_len m t do_update h with
  | Ok t' h1 => present_or_new do_update value t' h h1
  | _ => True
  end.
Proof.
  revert m t h; induction fuel as [|fuel IH]; intros m t h H1 H2;
    cbn [insert_update_loop]; [exact I|].
  unfold mbind at 1.
  assert (Hstep : insert_step do_update value
                    (if fixed_len >? 0 then fixed_prefix fuel m t do_update
                     else prefix_loop fuel m t do_update)).
  { destruct (fixed_len >? 0);
      [apply insert_step_fixed_prefix|apply insert_step_prefix_loop]; assumption. }
  specialize (Hstep h).
  destruct ((if fixed_len >? 0 then fixed_prefix fuel m t do_update
             else prefix_loop fuel m t do_update) h)
    as [[[m' t']|t'] h1| |]; [| |exact I|exact I].
  - destruct Hstep as (-> & H1' & H2').
    destruct (exhausted t').
    { pose proof (counts_one_add_eos_at fuel m' t' h) as Hc.
      destruct (add_eos_at fuel m' t' h); [left; exact Hc|exact I|exact I]. }
    destruct (has_bit (flags m') branch_bits).
    + unfold mbind.
      pose proof (insert_step_branch_step do_update value fuel m' t' H1' H2' h) as Hb.
      destruct (branch_step fuel m' t' do_update h)
        as [[[m'' t'']|t''] h1| |]; [| |exact I|exact I].
      * destruct Hb as (-> & H1'' & H2''). apply IH; assumption.
      * exact Hb.
    + pose proof (counts_one_add_branch_at_end fuel m' t' h) as Hc.
      destruct (add_branch_at_end fuel m' t' h); [left; exact Hc|exact I|exact I].
  - exact Hstep.
Qed.

Lemma insert_with_reports_false fuel fixed_len do_update this key value h h' p :
  ktrie_base.insert_with fuel fixed_len do_update this key value h = Ok (p, false) h' ->
  h' = touched do_update p value h.
Proof.
  unfold ktrie_base.insert_with. unfold mbind at 1, load.
  destruct (mem h !! ktrie_base.cnt_ this) as [c|]; [|discriminate].
  unfold mbind at 1.
  destruct (negb (c =? 0)).
  - unfold mbind at 1, load.
    destruct (mem h !! ktrie_base.head_ this) as [w|]; [|discriminate].
    destruct (dirty_high_pointer.get_both w) as [ptr fl].
    unfold mbind at 1.
    pose proof (present_or_new_insert_update_loop do_update value fuel fixed_len
                  (init_md (ktrie_base.head_ this) ptr ptr fl)
                  (init_ret key value (ktrie_base.head_ this)) h
                  eq_refl eq_refl) as H.
    destruct (insert_update_loop _ _ _ _ _ h) as [t h1| |];
      [|discriminate|discriminate].
    destruct (Z.eqb_spec (cnt t) 0) as [E0|E0].
    + unfold mret. intros E. injection E as E1 E2. subst p h'.
      destruct H as [H|[_ H]]; [congruence|exact H].
    + destruct (tail_ptr t =? 0).
      * unfold mbind, load, store.
        destruct (mem h1 !! ktrie_base.cnt_ this); [|discriminate].
        destruct (mem h1 !! ktrie_base.cnt_ this); discriminate.
      * unfold mbind, mret.
        destruct (make_tail t h1) as [t2 h2| |]; [|discriminate|discriminate].
        unfold load, store.
        destruct (mem h2 !! ktrie_base.cnt_ this); [|discriminate].
        destruct (mem h2 !! ktrie_base.cnt_ this); discriminate.
  - unfold mbind, mret.
    destruct (make_tail _ h) as [t2 h2| |]; [|discriminate|discriminate].
    unfold load, store.
    destruct (mem h2 !! ktrie_base.cnt_ this); [|discriminate].
    destruct (mem h2 !! ktrie_base.cnt_ this); discriminate.
Qed.

(** X17: an [insert] that reports [inserted = false] has written nothing:
    the memory is exactly what it was before the call. *)
Theorem insert_of_present_key_writes_nothing
        (fuel : nat) (fixed_len this : Z) (key : list Z) (value p : Z) (h h' : heap) :
  ktrie_base.insert_internal fuel fixed_len this key value h = Ok (p, false) h' ->
  h' = h.
Proof.
  intros E. apply insert_with_reports_false in E. exact E.
Qed.

Lemma insert_of_present_key_witness :
  heap_after (ktrie_base.insert_internal 64 0 4096 (key_of_string "ab") 9
                                         scenarios.one_key) empty_heap
  = scenarios.one_key.
Proof.
  apply (insert_of_present_key_writes_nothing
           64 0 4096 (key_of_string "ab") 9 4128 scenarios.one_key).
  vm_compute. reflexivity.
Defined.

End InsertOfPresentKey.

(** ** [clear] *)

Lemma find_internal_of_empty fuel fixed_len this key h :
  mem h !! ktrie_base.cnt_ this = Some 0 ->
  ktrie_base.find_internal fuel fixed_len this key h = Ok 0 h.
Proof.
  intros E. unfold ktrie_base.find_internal, mbind, load. rewrite E. reflexivity.
Qed.

Lemma with_root_of_empty this k h :
  mem h !! ktrie_base.cnt_ this = Some 0 ->
  ktrie_base.with_root this k h = Ok None h.
Proof.
  intros E. unfold ktrie_base.with_root, mbind, load. rewrite E. reflexivity.
Qed.

Lemma clear_zeroes_count fuel fixed_len this h h' :
  ktrie_base.clear fuel fixed_len this h = Ok tt h' ->
  mem h' !! ktrie_base.cnt_ this = Some 0.
Proof.
  unfold ktrie_base.clear, mbind at 1, load.
  destruct (mem h !! ktrie_base.cnt_ this) as [c|] eqn:Ec; [|discriminate].
  destruct (Z.eqb_spec c 0) as [->|Hc].
  { unfold mret. intros E. injection E as E. subst h'. exact Ec. }
  unfold mbind at 1.
  destruct (mem h !! ktrie_base.head_ this) as [w|]; [|discriminate].
  destruct (dirty_high_pointer.get_both w) as [ptr flags].
  unfold mbind at 1.
  destruct (ktrie_base.destroy_node_array fuel fixed_len ptr flags h)
    as [[] h1| |]; [|discriminate|discriminate].
  unfold mbind, store.
  destruct (mem h1 !! ktrie_base.head_ this); [|discriminate].
  cbn [mem].
  destruct (<[ktrie_base.head_ this:=0]> (mem h1) !! ktrie_base.cnt_ this);
    [|discriminate].
  intros E. injection E as E. subst h'. cbn [mem]. apply lookup_insert_eq.
Qed.

(** X18: after [clear] the trie is empty: its size is 0, every lookup
    returns null and there is no first or last element. *)
Theorem clear_leaves_an_empty_trie
        (fuel : nat) (fixed_len this : Z) (h h' : heap) :
  ktrie_base.clear fuel fixed_len this h = Ok tt h' ->
  ktrie_base.size this h' = Ok 0 h'
  /\ ktrie_base.empty this h' = Ok true h'
  /\ (forall fuel' key, ktrie_base.find_internal fuel' fixed_len this key h' = Ok 0 h')
  /\ (forall fuel', ktrie_base.first_internal fuel' this h' = Ok None h')
  /\ (forall fuel', ktrie_base.last_internal fuel' this h' = Ok None h').
Proof.
  intros E. apply clear_zeroes_count in E.
  repeat split.
  - apply load_mapped, E.
  - unfold ktrie_base.empty, mbind. rewrite (load_mapped _ 0) by exact E. reflexivity.
  - intros fuel' key. apply find_internal_of_empty, E.
  - intros fuel'. apply with_root_of_empty, E.
  - intros fuel'. apply with_root_of_empty, E.
Qed.

Lemma clear_leaves_an_empty_trie_witness :
  let h' := heap_after (ktrie_base.clear 64 0 4096 scenarios.one_key)
                       scenarios.one_key in
  ktrie_base.size 4096 h' = Ok 0 h'
  /\ ktrie_base.empty 4096 h' = Ok true h'
  /\ (forall fuel' key, ktrie_base.find_internal fuel' 0 4096 key h' = Ok 0 h')
  /\ (forall fuel', ktrie_base.first_internal fuel' 4096 h' = Ok None h')
  /\ (forall fuel', ktrie_base.last_internal fuel' 4096 h' = Ok None h').
Proof.
  apply (clear_leaves_an_empty_trie 64 0 4096 scenarios.one_key).
  vm_compute. reflexivity.
Defined.

(** ** POP bitmaps *)

Section PopBitmaps.

Lemma bits_from_app (x lo : Z) (m n : nat) :
  bits_from x lo (m + n) = bits_from x lo m ++ bits_from x (lo + Z.of_nat m) n.
Proof.
  revert lo; induction m as [|m IH]; intros lo.
  - cbn [Nat.add bits_from app]. rewrite Z.add_0_r. reflexivity.
  - cbn [Nat.add bits_from]. rewrite IH.
    replace (lo + 1 + Z.of_nat m) with (lo + Z.of_nat (S m)) by lia.
    destruct (Z.testbit x lo); reflexivity.
Qed.

Lemma bits_from_clear (x lo : Z) (n : nat) :
  (forall i, lo <= i < lo + Z.of_nat n -> Z.testbit x i = false) ->
  bits_from x lo n = [].
Proof.
  revert lo; induction n as [|n IH]; intros lo H; [reflexivity|].
  cbn [bits_from]. rewrite (H lo) by lia. apply IH. intros i Hi. apply H. lia.
Qed.

Lemma bits_from_ext (x y lo : Z) (n : nat) :
  (forall i, lo <= i < lo + Z.of_nat n -> Z.testbit x i = Z.testbit y i) ->
  bits_from x lo n = bits_from y lo n.
Proof.
  revert lo; induction n as [|n IH]; intros lo H; [reflexivity|].
  cbn [bits_from]. rewrite (H lo) by lia.
  rewrite (IH (lo + 1)) by (intros i Hi; apply H; lia). reflexivity.
Qed.

Lemma bits_from_In (x lo : Z) (n : nat) (i : Z) :
  In i (bits_from x lo n) <-> lo <= i < lo + Z.of_nat n /\ Z.testbit x i = true.
Proof.
  revert lo; induction n as [|n IH]; intros lo; cbn [bits_from].
  - split; [intros []|intros [H _]; lia].
  - destruct (Z.testbit x lo) eqn:E; cbn [In]; rewrite IH; split.
    + intros [<-|[H1 H2]]; [split; [lia|exact E]|split; [lia|exact H2]].
    + intros [H1 H2]. destruct (Z.eq_dec lo i) as [->|Hne]; [left; reflexivity|].
      right. split; [lia|exact H2].
    + intros [H1 H2]. split; [lia|exact H2].
    + intros [H1 H2]. split; [|exact H2].
      destruct (Z.eq_dec lo i) as [->|Hne]; [congruence|lia].
Qed.

Lemma bits_from_length (x lo : Z) (n : nat) :
  (List.length (bits_from x lo n) <= n)%nat.
Proof.
  revert lo; induction n as [|n IH]; intros lo; cbn [bits_from]; [cbn; lia|].
  specialize (IH (lo + 1)). destruct (Z.testbit x lo); cbn [List.length]; lia.
Qed.

Lemma bits_from_sorted (x lo : Z) (n : nat) :
  StronglySorted Z.lt (bits_from x lo n).
Proof.
  revert lo; induction n as [|n IH]; intros lo; cbn [bits_from]; [constructor|].
  destruct (Z.testbit x lo); [|apply IH].
  constructor; [apply IH|].
  rewrite List.Forall_forall. intros i Hi. apply bits_from_In in Hi. lia.
Qed.

(** The lowest set bit. *)
Lemma countr_zero_pos_spec (p : positive) :
  0 <= countr_zero_pos p
  /\ Z.testbit (Zpos p) (countr_zero_pos p) = true
  /\ forall n, 0 <= n < countr_zero_pos p -> Z.testbit (Zpos p) n = false.
Proof.
  induction p as [q IH|q IH|]; cbn [countr_zero_pos].
  - split; [lia|]. split; [reflexivity|]. intros n Hn. lia.
  - destruct IH as (H0 & H1 & H2). split; [lia|].
    rewrite Pos2Z.inj_xO. split.
    + replace (1 + countr_zero_pos q) with (Z.succ (countr_zero_pos q)) by lia.
      rewrite Z.testbit_even_succ by exact H0. exact H1.
    + intros n Hn. destruct (Z.eq_dec n 0) as [->|Hne].
      * apply Z.testbit_even_0.
      * replace n with (Z.succ (n - 1)) by lia.
        rewrite Z.testbit_even_succ by lia. apply H2. lia.
  - split; [lia|]. split; [reflexivity|]. intros n Hn. lia.
Qed.

(** [bits & (bits - 1)] clears the lowest set bit and nothing else. *)
Lemma clear_lowest_bit (p : positive) (n : Z) :
  0 <= n ->
  Z.testbit (Z.land (Zpos p) (Zpos p - 1)) n
  = Z.testbit (Zpos p) n && negb (n =? countr_zero_pos p).
Proof.
  revert n; induction p as [q IH|q IH|]; intros n Hn; cbn [countr_zero_pos].
  - rewrite Z.land_spec.
    replace (Z.pos q~1 - 1) with (2 * Z.pos q) by lia.
    rewrite Pos2Z.inj_xI.
    destruct (Z.eq_dec n 0) as [->|Hne].
    + rewrite Z.testbit_even_0. apply andb_false_r.
    + replace n with (Z.succ (n - 1)) by lia.
      rewrite Z.testbit_odd_succ, Z.testbit_even_succ by lia.
      destruct (Z.eqb_spec (Z.succ (n - 1)) 0); [lia|].
      cbn [negb]. rewrite andb_true_r. apply andb_diag.
  - rewrite Z.land_spec.
    replace (Z.pos q~0 - 1) with (2 * (Z.pos q - 1) + 1) by lia.
    rewrite Pos2Z.inj_xO.
    destruct (countr_zero_pos_spec q) as (H0 & _ & _).
    destruct (Z.eq_dec n 0) as [->|Hne].
    + rewrite Z.testbit_even_0. reflexivity.
    + replace n with (Z.succ (n - 1)) by lia.
      rewrite Z.testbit_odd_succ, Z.testbit_even_succ by lia.
      rewrite <- Z.land_spec, IH by lia.
      f_equal. f_equal.
      destruct (Z.eqb_spec (n - 1) (countr_zero_pos q)),
               (Z.eqb_spec (Z.succ (n - 1)) (1 + countr_zero_pos q));
        (reflexivity || lia).
  - change (Z.land 1 (1 - 1)) with 0. rewrite Z.testbit_0_l.
    destruct (Z.eqb_spec n 0) as [->|Hne]; [reflexivity|].
    cbn [negb]. rewrite andb_true_r.
    replace n with (Z.succ (n - 1)) by lia.
    change 1 with (2 * 0 + 1). rewrite Z.testbit_odd_succ by lia.
    rewrite Z.testbit_0_l. reflexivity.
Qed.

Lemma countr_zero_pos_lt (p : positive) (k : Z) :
  Zpos p < 2 ^ k -> countr_zero_pos p < k.
Proof.
  intros Hp. destruct (countr_zero_pos_spec p) as (H0 & H1 & _).
  destruct (Z_lt_ge_dec (countr_zero_pos p) k) as [H|H]; [exact H|].
  rewrite (testbit_small (Zpos p) k) in H1 by lia. discriminate.
Qed.

Lemma pop_word_chars_spec (fuel : nat) (word x : Z) :
  0 <= x < 2 ^ 64 ->
  (List.length (bits_from x 0 64) <= fuel)%nat ->
  pop_word_chars fuel word x = List.map (pop_char word) (bits_from x 0 64).
Proof.
  revert x; induction fuel as [|fuel IH]; intros x Hx Hlen.
  - destruct (bits_from x 0 64); [reflexivity|cbn in Hlen; lia].
  - cbn [pop_word_chars].
    destruct (Z.eqb_spec x 0) as [->|Hne].
    { rewrite bits_from_clear; [reflexivity|]. intros. apply Z.testbit_0_l. }
    destruct x as [|p|p]; [lia| |lia]. cbn [countr_zero].
    destruct (countr_zero_pos_spec p) as (H0 & H1 & H2).
    pose proof (countr_zero_pos_lt p 64 (proj2 Hx)) as Hk.
    set (k := countr_zero_pos p) in *.
    assert (Esplit : (64 = Z.to_nat k + S (63 - Z.to_nat k))%nat) by lia.
    assert (Ex : bits_from (Zpos p) 0 64
                 = k :: bits_from (Zpos p) (k + 1) (63 - Z.to_nat k)).
    { rewrite Esplit at 1. rewrite bits_from_app.
      rewrite bits_from_clear by (intros i Hi; apply H2; lia).
      cbn [app bits_from]. rewrite Z2Nat.id, Z.add_0_l by lia.
      rewrite H1. reflexivity. }
    assert (Ex' : bits_from (Z.land (Zpos p) (Zpos p - 1)) 0 64
                  = bits_from (Zpos p) (k + 1) (63 - Z.to_nat k)).
    { replace 64%nat with (S (Z.to_nat k) + (63 - Z.to_nat k))%nat at 1 by lia.
      rewrite bits_from_app.
      rewrite bits_from_clear.
      - cbn [app]. replace (0 + Z.of_nat (S (Z.to_nat k))) with (k + 1) by lia.
        apply bits_from_ext. intros i Hi.
        rewrite clear_lowest_bit by lia. fold k.
        destruct (Z.eqb_spec i k); [lia|]. apply andb_true_r.
      - intros i Hi. rewrite clear_lowest_bit by lia. fold k.
        destruct (Z.eqb_spec i k) as [->|Hik]; [apply andb_false_r|].
        rewrite H2 by lia. reflexivity. }
    rewrite Ex. cbn [List.map]. f_equal.
    rewrite IH.
    + rewrite Ex'. reflexivity.
    + apply land_small; lia.
    + rewrite Ex'. rewrite Ex in Hlen. cbn [List.length] in Hlen. lia.
Qed.

Lemma popcount_double (a r : Z) :
  0 <= a -> r = 0 \/ r = 1 -> popcount (2 * a + r) = popcount a + r.
Proof.
  intros Ha [-> | ->]; destruct a as [|p|p]; try lia; cbn [popcount];
    try reflexivity.
  - rewrite Z.add_0_r. change (2 * Z.pos p) with (Z.pos p~0). cbn. lia.
  - change (2 * Z.pos p + 1) with (Z.pos p~1). cbn. lia.
Qed.

Lemma popcount_add_pow2 (b : nat) (y : Z) :
  0 <= y < 2 ^ Z.of_nat b -> popcount (y + 2 ^ Z.of_nat b) = popcount y + 1.
Proof.
  revert y; induction b as [|b IH]; intros y Hy.
  - change (2 ^ Z.of_nat 0) with 1 in *. replace y with 0 by lia. reflexivity.
  - rewrite Nat2Z.inj_succ, Z.pow_succ_r in * by lia.
    pose proof (Z.div_mod y 2 ltac:(lia)) as Ey.
    pose proof (Z.mod_pos_bound y 2 ltac:(lia)) as Hr.
    replace (y + 2 * 2 ^ Z.of_nat b)
      with (2 * (y / 2 + 2 ^ Z.of_nat b) + y mod 2) by lia.
    assert (Hq : 0 <= y / 2 < 2 ^ Z.of_nat b).
    { split; [apply Z.div_pos; lia|apply Z.div_lt_upper_bound; lia]. }
    rewrite popcount_double by lia.
    rewrite IH by exact Hq.
    rewrite Ey at 3. rewrite popcount_double by lia. lia.
Qed.

Lemma mod_pow2_succ (x : Z) (b : nat) :
  x mod 2 ^ Z.of_nat (S b)
  = x mod 2 ^ Z.of_nat b + (if Z.testbit x (Z.of_nat b) then 2 ^ Z.of_nat b else 0).
Proof.
  rewrite Nat2Z.inj_succ, Z.pow_succ_r by lia.
  assert (Hp : 0 < 2 ^ Z.of_nat b) by (apply Z.pow_pos_nonneg; lia).
  rewrite (Z.mul_comm 2), Z.rem_mul_r by lia.
  rewrite Z.testbit_eqb by lia.
  pose proof (Z.mod_pos_bound (x / 2 ^ Z.of_nat b) 2 ltac:(lia)).
  destruct (Z.eqb_spec ((x / 2 ^ Z.of_nat b) mod 2) 1); lia.
Qed.

(** [popcount(w & (mask - 1))] counts the set bits below the mask. *)
Lemma popcount_below (x : Z) (b : nat) :
  popcount (x mod 2 ^ Z.of_nat b) = Z.of_nat (List.length (bits_from x 0 b)).
Proof.
  induction b as [|b IH].
  - rewrite Z.mod_1_r. reflexivity.
  - rewrite mod_pow2_succ.
    replace (S b) with (b + 1)%nat by lia.
    rewrite bits_from_app, length_app, Z.add_0_l. cbn [bits_from].
    assert (Hm : 0 <= x mod 2 ^ Z.of_nat b < 2 ^ Z.of_nat b).
    { apply Z.mod_pos_bound. apply Z.pow_pos_nonneg; lia. }
    destruct (Z.testbit x (Z.of_nat b)).
    + rewrite popcount_add_pow2 by exact Hm. rewrite IH. cbn [List.length]. lia.
    + rewrite Z.add_0_r, IH. cbn [List.length]. lia.
Qed.

Lemma popcount_word (x : Z) :
  0 <= x < 2 ^ 64 -> popcount x = Z.of_nat (List.length (bits_from x 0 64)).
Proof.
  intros Hx. rewrite <- popcount_below.
  change (Z.of_nat 64) with 64. rewrite Z.mod_small by exact Hx. reflexivity.
Qed.

Lemma land_bit (x b : Z) :
  0 <= b -> Z.land x (Z.shiftl 1 b) = if Z.testbit x b then 2 ^ b else 0.
Proof.
  intros Hb. apply Z.bits_inj'; intros n Hn.
  rewrite Z.land_spec, Z.shiftl_spec by lia.
  destruct (Z.eq_dec n b) as [->|Hne].
  - rewrite Z.sub_diag. change (Z.testbit 1 0) with true. rewrite andb_true_r.
    destruct (Z.testbit x b) eqn:E; [|rewrite Z.testbit_0_l; reflexivity].
    rewrite Z.pow2_bits_true by lia. reflexivity.
  - assert (E1 : Z.testbit 1 (n - b) = false).
    { destruct (Z_lt_ge_dec n b); [apply Z.testbit_neg_r; lia|].
      apply (testbit_small 1 1); lia. }
    rewrite E1, andb_false_r.
    destruct (Z.testbit x b); [|rewrite Z.testbit_0_l; reflexivity].
    rewrite Z.pow2_bits_false by lia. reflexivity.
Qed.

(** The position of a set bit in the list of set bits is its rank. *)
Lemma nth_error_bits_from (x : Z) (b : nat) :
  (b < 64)%nat -> Z.testbit x (Z.of_nat b) = true ->
  nth_error (bits_from x 0 64) (List.length (bits_from x 0 b)) = Some (Z.of_nat b).
Proof.
  intros Hb Hx.
  replace 64%nat with (b + S (63 - b))%nat at 1 by lia.
  rewrite bits_from_app, Z.add_0_l. cbn [bits_from]. rewrite Hx.
  rewrite nth_error_app2 by lia. rewrite Nat.sub_diag. reflexivity.
Qed.

Lemma pop_char_small (word b : Z) :
  0 <= word <= 3 -> 0 <= b < 64 -> pop_char word b = word * 64 + b.
Proof. intros Hw Hb. unfold pop_char, wrap8. apply Z.mod_small. lia. Qed.

Lemma In_pop_chars (word x v : Z) :
  0 <= word <= 3 ->
  In v (List.map (pop_char word) (bits_from x 0 64)) ->
  v / 64 = word /\ Z.testbit x (v mod 64) = true.
Proof.
  intros Hw Hin. apply in_map_iff in Hin. destruct Hin as (b & <- & Hb).
  apply bits_from_In in Hb. destruct Hb as [Hb Ht].
  rewrite pop_char_small by lia.
  rewrite Z.div_add_l, Z.div_small, (Z.add_comm (word * 64)), Z.mod_add,
    Z.mod_small by lia.
  split; [lia|exact Ht].
Qed.

Lemma nth_error_pop_chars (word x : Z) (b : nat) :
  0 <= word <= 3 -> (b < 64)%nat -> Z.testbit x (Z.of_nat b) = true ->
  nth_error (List.map (pop_char word) (bits_from x 0 64))
            (List.length (bits_from x 0 b))
  = Some (word * 64 + Z.of_nat b).
Proof.
  intros Hw Hb Hx. rewrite nth_error_map, nth_error_bits_from by assumption.
  cbn [option_map]. rewrite pop_char_small by lia. reflexivity.
Qed.

Lemma get_pop_chars_of_spec (w0 w1 w2 w3 : Z) :
  0 <= w0 < 2 ^ 64 -> 0 <= w1 < 2 ^ 64 -> 0 <= w2 < 2 ^ 64 -> 0 <= w3 < 2 ^ 64 ->
  get_pop_chars_of [w0; w1; w2; w3]
  = List.map (pop_char 0) (bits_from w0 0 64)
    ++ List.map (pop_char 1) (bits_from w1 0 64)
    ++ List.map (pop_char 2) (bits_from w2 0 64)
    ++ List.map (pop_char 3) (bits_from w3 0 64).
Proof.
  intros H0 H1 H2 H3. unfold get_pop_chars_of. cbn [nth].
  rewrite !pop_word_chars_spec by (try assumption; apply bits_from_length).
  reflexivity.
Qed.

Lemma wrap8_split (c : Z) :
  let v := wrap8 c in
  0 <= Z.shiftr v 6 <= 3 /\ 0 <= Z.land v 63 < 64
  /\ v = Z.shiftr v 6 * 64 + Z.land v 63
  /\ Z.shiftr v 6 = v / 64 /\ Z.land v 63 = v mod 64.
Proof.
  cbn zeta. pose proof (wrap8_is_byte c) as Hv. unfold is_byte in Hv.
  set (v := wrap8 c) in *.
  change 63 with (Z.ones 6). rewrite Z.land_ones, Z.shiftr_div_pow2 by lia.
  change (2 ^ 6) with 64.
  pose proof (Z.div_mod v 64 ltac:(lia)).
  pose proof (Z.mod_pos_bound v 64 ltac:(lia)).
  assert (0 <= v / 64 <= 3).
  { split; [apply Z.div_pos; lia|].
    assert (v / 64 < 4) by (apply Z.div_lt_upper_bound; lia). lia. }
  repeat split; lia.
Qed.

Lemma popcount_below_mask (sw bit : Z) :
  0 <= bit ->
  popcount (Z.land sw (Z.shiftl 1 bit - 1))
  = Z.of_nat (List.length (bits_from sw 0 (Z.to_nat bit))).
Proof.
  intros Hb. rewrite Z.sub_1_r. fold (Z.ones bit). rewrite Z.land_ones by lia.
  rewrite <- popcount_below, Z2Nat.id by lia. reflexivity.
Qed.

Lemma rank_lt_length (x bit : Z) :
  0 <= bit < 64 -> Z.testbit x bit = true ->
  (List.length (bits_from x 0 (Z.to_nat bit)) < List.length (bits_from x 0 64))%nat.
Proof.
  intros Hb Ht.
  replace 64%nat with (Z.to_nat bit + S (63 - Z.to_nat bit))%nat by lia.
  rewrite bits_from_app, length_app. cbn [bits_from].
  rewrite Z.add_0_l, Z2Nat.id, Ht by lia. cbn [List.length]. lia.
Qed.

Lemma nth_error_rank (word x bit : Z) (rest : list Z) :
  0 <= word <= 3 -> 0 <= bit < 64 -> Z.testbit x bit = true ->
  nth_error (List.map (pop_char word) (bits_from x 0 64) ++ rest)
            (List.length (bits_from x 0 (Z.to_nat bit)))
  = Some (word * 64 + bit).
Proof.
  intros Hw Hb Ht.
  rewrite nth_error_app1 by (rewrite length_map; apply rank_lt_length; assumption).
  rewrite nth_error_pop_chars by (rewrite ?Z2Nat.id by lia; (assumption || lia)).
  rewrite Z2Nat.id by lia. reflexivity.
Qed.

Lemma nth_error_skip (l rest : list Z) (n : nat) :
  nth_error (l ++ rest) (List.length l + n) = nth_error rest n.
Proof.
  rewrite nth_error_app2 by lia. f_equal. lia.
Qed.

(** X19: [do_find_pop] finds a character exactly when [get_pop_chars]
    lists it, and the offset it reports is 4 plus the position of the
    character in that list. *)
Theorem do_find_pop_is_position_in_get_pop_chars (w0 w1 w2 w3 c : Z) :
  0 <= w0 < 2 ^ 64 -> 0 <= w1 < 2 ^ 64 -> 0 <= w2 < 2 ^ 64 -> 0 <= w3 < 2 ^ 64 ->
  match do_find_pop_of [w0; w1; w2; w3] c with
  | None => ~ In (wrap8 c) (get_pop_chars_of [w0; w1; w2; w3])
  | Some off =>
      4 <= off
      /\ nth_error (get_pop_chars_of [w0; w1; w2; w3]) (Z.to_nat (off - 4))
         = Some (wrap8 c)
  end.
Proof.
  intros H0 H1 H2 H3.
  rewrite get_pop_chars_of_spec by assumption.
  unfold do_find_pop_of. cbv zeta.
  destruct (wrap8_split c) as (Hw & Hb & Ev & Ew & Eb). cbv zeta in *.
  set (v := wrap8 c) in *.
  set (word := Z.shiftr v 6) in *. set (bit := Z.land v 63) in *.
  assert (Hp : 0 < 2 ^ bit) by (apply Z.pow_pos_nonneg; lia).
  set (m0 := List.map (pop_char 0) (bits_from w0 0 64)).
  set (m1 := List.map (pop_char 1) (bits_from w1 0 64)).
  set (m2 := List.map (pop_char 2) (bits_from w2 0 64)).
  set (m3 := List.map (pop_char 3) (bits_from w3 0 64)).
  assert (E0 : List.length m0 = List.length (bits_from w0 0 64)) by apply length_map.
  assert (E1 : List.length m1 = List.length (bits_from w1 0 64)) by apply length_map.
  assert (E2 : List.length m2 = List.length (bits_from w2 0 64)) by apply length_map.
  assert (Hnone : forall x, Z.testbit x bit = false ->
                            ~ In v (List.map (pop_char word) (bits_from x 0 64))).
  { intros x Ht Hin. apply In_pop_chars in Hin; [|lia].
    destruct Hin as [_ Hin]. rewrite <- Eb in Hin. congruence. }
  assert (Hother : forall k x, 0 <= k <= 3 -> k <> word ->
                               ~ In v (List.map (pop_char k) (bits_from x 0 64))).
  { intros k x Hk Hne Hin. apply In_pop_chars in Hin; [|lia].
    destruct Hin as [Hin _]. lia. }
  assert (Hword : word = 0 \/ word = 1 \/ word = 2 \/ word = 3) by lia.
  destruct Hword as [E|[E|[E|E]]]; rewrite E in *;
    [change (Z.to_nat 0) with 0%nat|change (Z.to_nat 1) with 1%nat
    |change (Z.to_nat 2) with 2%nat|change (Z.to_nat 3) with 3%nat];
    cbn [nth]; rewrite land_bit, popcount_below_mask, ?popcount_word by (assumption || lia).
  - destruct (Z.testbit w0 bit) eqn:Et.
    + destruct (Z.eqb_spec (2 ^ bit) 0); [lia|]. cbv iota. split; [lia|].
      replace (Z.to_nat _) with (List.length (bits_from w0 0 (Z.to_nat bit))) by lia.
      unfold m0. rewrite nth_error_rank by (assumption || lia). f_equal. lia.
    + rewrite Z.eqb_refl. cbv iota. rewrite !in_app_iff.
      intros [Hin|[Hin|[Hin|Hin]]]; revert Hin;
        first [apply Hnone; exact Et | apply Hother; lia].
  - destruct (Z.testbit w1 bit) eqn:Et.
    + destruct (Z.eqb_spec (2 ^ bit) 0); [lia|]. cbv iota. split; [lia|].
      replace (Z.to_nat _)
        with (List.length m0 + List.length (bits_from w1 0 (Z.to_nat bit)))%nat by lia.
      rewrite nth_error_skip.
      unfold m1. rewrite nth_error_rank by (assumption || lia). f_equal. lia.
    + rewrite Z.eqb_refl. cbv iota. rewrite !in_app_iff.
      intros [Hin|[Hin|[Hin|Hin]]]; revert Hin;
        first [apply Hnone; exact Et | apply Hother; lia].
  - destruct (Z.testbit w2 bit) eqn:Et.
    + destruct (Z.eqb_spec (2 ^ bit) 0); [lia|]. cbv iota. split; [lia|].
      replace (Z.to_nat _)
        with (List.length m0
              + (List.length m1 + List.length (bits_from w2 0 (Z.to_nat bit))))%nat
        by lia.
      rewrite !nth_error_skip.
      unfold m2. rewrite nth_error_rank by (assumption || lia). f_equal. lia.
    + rewrite Z.eqb_refl. cbv iota. rewrite !in_app_iff.
      intros [Hin|[Hin|[Hin|Hin]]]; revert Hin;
        first [apply Hnone; exact Et | apply Hother; lia].
  - destruct (Z.testbit w3 bit) eqn:Et.
    + destruct (Z.eqb_spec (2 ^ bit) 0); [lia|]. cbv iota. split; [lia|].
      replace (Z.to_nat _)
        with (List.length m0
              + (List.length m1
                 + (List.length m2 + List.length (bits_from w3 0 (Z.to_nat bit)))))%nat
        by lia.
      rewrite !nth_error_skip.
      unfold m3. rewrite <- (app_nil_r (List.map _ _)).
      rewrite nth_error_rank by (assumption || lia). f_equal. lia.
    + rewrite Z.eqb_refl. cbv iota. rewrite !in_app_iff.
      intros [Hin|[Hin|[Hin|Hin]]]; revert Hin;
        first [apply Hnone; exact Et | apply Hother; lia].
Qed.

Lemma do_find_pop_is_position_witness :
  match do_find_pop_of [2 ^ 48 + 2; 1; 0; 2 ^ 63] 64 with
  | None => ~ In (wrap8 64) (get_pop_chars_of [2 ^ 48 + 2; 1; 0; 2 ^ 63])
  | Some off =>
      4 <= off
      /\ nth_error (get_pop_chars_of [2 ^ 48 + 2; 1; 0; 2 ^ 63]) (Z.to_nat (off - 4))
         = Some (wrap8 64)
  end.
Proof. apply do_find_pop_is_position_in_get_pop_chars; lia. Defined.

Lemma StronglySorted_app_lt (l1 l2 : list Z) :
  StronglySorted Z.lt l1 -> StronglySorted Z.lt l2 ->
  (forall a b, In a l1 -> In b l2 -> a < b) ->
  StronglySorted Z.lt (l1 ++ l2).
Proof.
  intros H1 H2 H. induction H1 as [|a l1 Hs IH Ha]; [exact H2|].
  cbn [app]. constructor.
  - apply IH. intros x y Hx Hy. apply H; [right; exact Hx|exact Hy].
  - rewrite List.Forall_forall in *. intros x Hx. apply in_app_iff in Hx.
    destruct Hx as [Hx|Hx]; [apply Ha, Hx|apply H; [left; reflexivity|exact Hx]].
Qed.

Lemma pop_chars_word_sorted (word x : Z) :
  0 <= word <= 3 ->
  StronglySorted Z.lt (List.map (pop_char word) (bits_from x 0 64))
  /\ forall v, In v (List.map (pop_char word) (bits_from x 0 64)) ->
               word * 64 <= v < word * 64 + 64.
Proof.
  intros Hw. split.
  - pose proof (bits_from_sorted x 0 64) as Hs.
    assert (Hr : forall b, In b (bits_from x 0 64) -> 0 <= b < 64).
    { intros b Hb. apply bits_from_In in Hb. lia. }
    induction Hs as [|b l Hs IH Hb]; [constructor|].
    cbn [List.map]. constructor.
    + apply IH. intros b' Hb'. apply Hr. right. exact Hb'.
    + rewrite List.Forall_forall in *. intros v Hv.
      apply in_map_iff in Hv. destruct Hv as (b' & <- & Hb').
      rewrite !pop_char_small; try lia.
      * specialize (Hb b' Hb'). lia.
      * apply Hr. right. exact Hb'.
      * apply Hr. left. reflexivity.
  - intros v Hv. apply in_map_iff in Hv. destruct Hv as (b & <- & Hb).
    apply bits_from_In in Hb. rewrite pop_char_small by lia. lia.
Qed.

(** X20: [get_pop_chars] lists the characters of a POP bitmap in strictly
    ascending order, as many as [popcount] counts in the four words. *)
Theorem get_pop_chars_ascending (w0 w1 w2 w3 : Z) :
  0 <= w0 < 2 ^ 64 -> 0 <= w1 < 2 ^ 64 -> 0 <= w2 < 2 ^ 64 -> 0 <= w3 < 2 ^ 64 ->
  StronglySorted Z.lt (get_pop_chars_of [w0; w1; w2; w3])
  /\ zlen (get_pop_chars_of [w0; w1; w2; w3])
     = insert_helper.pop_total [w0; w1; w2; w3]
  /\ Forall is_byte (get_pop_chars_of [w0; w1; w2; w3]).
Proof.
  intros H0 H1 H2 H3.
  rewrite get_pop_chars_of_spec by assumption.
  destruct (pop_chars_word_sorted 0 w0) as [S0 R0]; [lia|].
  destruct (pop_chars_word_sorted 1 w1) as [S1 R1]; [lia|].
  destruct (pop_chars_word_sorted 2 w2) as [S2 R2]; [lia|].
  destruct (pop_chars_word_sorted 3 w3) as [S3 R3]; [lia|].
  split; [|split].
  - repeat apply StronglySorted_app_lt; try assumption;
      intros a b Ha Hb; rewrite ?in_app_iff in Hb;
      repeat match goal with
             | H : _ \/ _ |- _ => destruct H
             end;
      repeat match goal with
             | R : forall v, In v ?l -> _, H : In _ ?l |- _ => apply R in H
             end; lia.
  - unfold zlen, insert_helper.pop_total. cbn [nth].
    rewrite !length_app, !length_map, !popcount_word by assumption. lia.
  - rewrite List.Forall_forall. intros v Hv. rewrite !in_app_iff in Hv.
    unfold is_byte.
    repeat match goal with
           | H : _ \/ _ |- _ => destruct H
           end;
      repeat match goal with
             | R : forall v, In v ?l -> _, H : In _ ?l |- _ => apply R in H
             end; lia.
Qed.

Lemma get_pop_chars_ascending_witness :
  StronglySorted Z.lt (get_pop_chars_of [2 ^ 48 + 2; 1; 0; 2 ^ 63])
  /\ zlen (get_pop_chars_of [2 ^ 48 + 2; 1; 0; 2 ^ 63])
     = insert_helper.pop_total [2 ^ 48 + 2; 1; 0; 2 ^ 63]
  /\ Forall is_byte (get_pop_chars_of [2 ^ 48 + 2; 1; 0; 2 ^ 63]).
Proof. apply get_pop_chars_ascending; lia. Defined.

Lemma In_pop_chars_iff (word x v : Z) :
  0 <= word <= 3 ->
  In v (List.map (pop_char word) (bits_from x 0 64))
  <-> v / 64 = word /\ 0 <= v /\ Z.testbit x (v mod 64) = true.
Proof.
  intros Hw. split.
  - intros Hin. destruct (pop_chars_word_sorted word x Hw) as [_ Hr].
    pose proof (Hr v Hin). apply In_pop_chars in Hin; [|exact Hw].
    destruct Hin as [H1 H2]. repeat split; (assumption || lia).
  - intros (Hd & Hv & Ht). apply in_map_iff. exists (v mod 64).
    pose proof (Z.div_mod v 64 ltac:(lia)).
    pose proof (Z.mod_pos_bound v 64 ltac:(lia)).
    split.
    + rewrite pop_char_small by lia. lia.
    + apply bits_from_In. split; [lia|exact Ht].
Qed.

Lemma In_get_pop_chars_iff (w0 w1 w2 w3 v : Z) :
  0 <= w0 < 2 ^ 64 -> 0 <= w1 < 2 ^ 64 -> 0 <= w2 < 2 ^ 64 -> 0 <= w3 < 2 ^ 64 ->
  In v (get_pop_chars_of [w0; w1; w2; w3])
  <-> 0 <= v < 256
      /\ Z.testbit (nth (Z.to_nat (v / 64)) [w0; w1; w2; w3] 0) (v mod 64) = true.
Proof.
  intros H0 H1 H2 H3. rewrite get_pop_chars_of_spec by assumption.
  rewrite !in_app_iff, !In_pop_chars_iff by lia.
  split.
  - intros [H|[H|[H|H]]]; destruct H as (Hd & Hv & Ht); rewrite Hd;
      (split; [|exact Ht]);
      pose proof (Z.div_mod v 64 ltac:(lia));
      pose proof (Z.mod_pos_bound v 64 ltac:(lia)); lia.
  - intros [Hv Ht].
    assert (Hd : 0 <= v / 64 < 4).
    { split; [apply Z.div_pos; lia|apply Z.div_lt_upper_bound; lia]. }
    assert (Hc : v / 64 = 0 \/ v / 64 = 1 \/ v / 64 = 2 \/ v / 64 = 3) by lia.
    destruct Hc as [E|[E|[E|E]]]; rewrite E in Ht; cbn in Ht;
      [left|right; left|right; right; left|right; right; right];
      (split; [exact E|split; [lia|exact Ht]]).
Qed.

Ltac norm_words :=
  change (Z.to_nat 0) with 0%nat in *; change (Z.to_nat 1) with 1%nat in *;
  change (Z.to_nat 2) with 2%nat in *; change (Z.to_nat 3) with 3%nat in *;
  cbn [nth] in *.

Lemma testbit_set_bit (x b n : Z) :
  0 <= b -> 0 <= n ->
  Z.testbit (Z.lor x (Z.shiftl 1 b)) n = Z.testbit x n || (n =? b).
Proof.
  intros Hb Hn. rewrite Z.lor_spec, Z.shiftl_spec by lia. f_equal.
  destruct (Z.eqb_spec n b) as [->|Hne].
  - rewrite Z.sub_diag. reflexivity.
  - destruct (Z_lt_ge_dec n b); [apply Z.testbit_neg_r; lia|].
    apply (testbit_small 1 1); lia.
Qed.

Lemma set_bit_small (x b : Z) :
  0 <= x < 2 ^ 64 -> 0 <= b < 64 -> 0 <= Z.lor x (Z.shiftl 1 b) < 2 ^ 64.
Proof.
  intros Hx Hb. apply lor_small; [lia|exact Hx|].
  rewrite Z.shiftl_1_l. split; [apply Z.pow_nonneg; lia|].
  apply Z.pow_lt_mono_r; lia.
Qed.

(** X21: [set_pop_for] adds the character to the set a POP bitmap holds
    and changes nothing else: afterwards [get_pop_chars] lists the
    character and exactly the characters listed before. *)
Theorem set_pop_for_adds_the_character (w0 w1 w2 w3 c v : Z) :
  0 <= w0 < 2 ^ 64 -> 0 <= w1 < 2 ^ 64 -> 0 <= w2 < 2 ^ 64 -> 0 <= w3 < 2 ^ 64 ->
  In v (get_pop_chars_of (insert_helper.set_pop_for c [w0; w1; w2; w3]))
  <-> v = wrap8 c \/ In v (get_pop_chars_of [w0; w1; w2; w3]).
Proof.
  intros H0 H1 H2 H3.
  destruct (wrap8_split c) as (Hw & Hb & Ev & Ew & Eb). cbv zeta in *.
  pose proof (wrap8_is_byte c) as Hc. unfold is_byte in Hc.
  unfold insert_helper.set_pop_for. cbv zeta.
  set (u := wrap8 c) in *.
  set (word := Z.shiftr u 6) in *. set (bit := Z.land u 63) in *.
  rewrite (In_get_pop_chars_iff w0 w1 w2 w3 v) by assumption.
  assert (Hword : word = 0 \/ word = 1 \/ word = 2 \/ word = 3) by lia.
  assert (Hsplit : forall a, 0 <= a < 256 ->
                             (a = u <-> a / 64 = word /\ a mod 64 = bit)).
  { intros a Ha. pose proof (Z.div_mod a 64 ltac:(lia)).
    pose proof (Z.mod_pos_bound a 64 ltac:(lia)). split; [intros ->; lia|lia]. }
  destruct Hword as [E|[E|[E|E]]]; rewrite E in *;
    [change (Z.to_nat 0) with 0%nat|change (Z.to_nat 1) with 1%nat
    |change (Z.to_nat 2) with 2%nat|change (Z.to_nat 3) with 3%nat];
    cbn [nth arr_set];
    rewrite In_get_pop_chars_iff by (try assumption; apply set_bit_small; assumption);
    (split;
     [intros [Hv Ht];
      assert (Hd : 0 <= v / 64 < 4)
        by (split; [apply Z.div_pos; lia|apply Z.div_lt_upper_bound; lia]);
      pose proof (Z.mod_pos_bound v 64 ltac:(lia)) as Hm;
      assert (Hk : v / 64 = 0 \/ v / 64 = 1 \/ v / 64 = 2 \/ v / 64 = 3) by lia;
      destruct Hk as [K|[K|[K|K]]]; rewrite K in *; norm_words;
      try (right; split; [exact Hv|exact Ht]);
      rewrite testbit_set_bit in Ht by lia;
      apply orb_true_iff in Ht; destruct Ht as [Ht|Ht];
      [right; split; [exact Hv|exact Ht]
      |left; apply Hsplit; [exact Hv|]; split; [exact K|apply Z.eqb_eq, Ht]]
     |intros [->|[Hv Ht]];
      [split; [exact Hc|]; rewrite <- Ew; norm_words;
       rewrite testbit_set_bit by lia; rewrite <- Eb, Z.eqb_refl; apply orb_true_r
      |split; [exact Hv|];
       assert (Hd : 0 <= v / 64 < 4)
         by (split; [apply Z.div_pos; lia|apply Z.div_lt_upper_bound; lia]);
       pose proof (Z.mod_pos_bound v 64 ltac:(lia)) as Hm;
       assert (Hk : v / 64 = 0 \/ v / 64 = 1 \/ v / 64 = 2 \/ v / 64 = 3) by lia;
       destruct Hk as [K|[K|[K|K]]]; rewrite K in *;
       norm_words; try exact Ht;
       rewrite testbit_set_bit by lia; rewrite Ht; reflexivity]]).
Qed.

Lemma set_pop_for_adds_witness :
  In 65 (get_pop_chars_of (insert_helper.set_pop_for 65 [2 ^ 48 + 2; 1; 0; 2 ^ 63]))
  <-> 65 = wrap8 65 \/ In 65 (get_pop_chars_of [2 ^ 48 + 2; 1; 0; 2 ^ 63]).
Proof. apply set_pop_for_adds_the_character; lia. Defined.

End PopBitmaps.

(** ** The first key of a trie *)

Section FirstKey.
Import insert_helper.

Lemma write_words_app (p : Z) (l1 l2 : list Z) (m : gmap Z Z) :
  write_words p (l1 ++ l2) m
  = write_words (idx p (zlen l1)) l2 (write_words p l1 m).
Proof.
  revert p m; induction l1 as [|a l1 IH]; intros p m; cbn [app write_words].
  - unfold idx, zlen. cbn. rewrite Z.add_0_r. reflexivity.
  - rewrite IH. f_equal. unfold idx, zlen. cbn [List.length]. lia.
Qed.

Lemma write_words_outside (p : Z) (vs : list Z) (m : gmap Z Z) (a : Z) :
  (forall i, (i < List.length vs)%nat -> a <> idx p (Z.of_nat i)) ->
  write_words p vs m !! a = m !! a.
Proof.
  revert p m; induction vs as [|v vs IH]; intros p m H; cbn [write_words];
    [reflexivity|].
  rewrite IH.
  - apply lookup_insert_ne. specialize (H 0%nat). unfold idx in H. cbn in H. lia.
  - intros i Hi. specialize (H (S i)). unfold idx in *. cbn [List.length] in H. lia.
Qed.

Lemma write_words_inside (p : Z) (vs : list Z) (m : gmap Z Z) (i : nat) :
  (i < List.length vs)%nat ->
  write_words p vs m !! idx p (Z.of_nat i) = Some (nth i vs 0).
Proof.
  revert p m i; induction vs as [|v vs IH]; intros p m i Hi; cbn [List.length] in Hi;
    [lia|].
  cbn [write_words]. destruct i as [|i].
  - rewrite write_words_outside.
    + unfold idx. rewrite Z.mul_0_r, Z.add_0_r. apply lookup_insert_eq.
    + intros j Hj. unfold idx. lia.
  - replace (idx p (Z.of_nat (S i))) with (idx (idx p 1) (Z.of_nat i))
      by (unfold idx; lia).
    apply IH. lia.
Qed.

Lemma store_n_writes (p : Z) (vs : list Z) (h : heap) :
  (forall i, (i < List.length vs)%nat -> is_Some (mem h !! idx p (Z.of_nat i))) ->
  store_n p vs h = Ok tt (mk_heap (write_words p vs (mem h)) (brk h) (budget h)).
Proof.
  revert p h; induction vs as [|v vs IH]; intros p h H; cbn [store_n write_words].
  - destruct h; reflexivity.
  - unfold mbind, store.
    destruct (H 0%nat) as [w Hw]; [cbn; lia|].
    unfold idx in Hw. rewrite Z.mul_0_r, Z.add_0_r in Hw. rewrite Hw.
    rewrite IH; [reflexivity|].
    intros i Hi. cbn [mem].
    destruct (H (S i)) as [w' Hw']; [cbn [List.length]; lia|].
    replace (idx (idx p 1) (Z.of_nat i)) with (idx p (Z.of_nat (S i)))
      by (unfold idx; lia).
    destruct (Z.eq_dec (idx p (Z.of_nat (S i))) p) as [E|E].
    + rewrite E, lookup_insert_eq. eauto.
    + rewrite lookup_insert_ne by congruence. eauto.
Qed.

Lemma load_n_reads (p : Z) (ws : list Z) (h : heap) :
  (forall i, (i < List.length ws)%nat ->
             mem h !! idx p (Z.of_nat i) = Some (nth i ws 0)) ->
  load_n p (List.length ws) h = Ok ws h.
Proof.
  revert p; induction ws as [|w ws IH]; intros p H; cbn [List.length load_n];
    [reflexivity|].
  unfold mbind, load.
  pose proof (H 0%nat ltac:(cbn; lia)) as H0.
  unfold idx in H0. rewrite Z.mul_0_r, Z.add_0_r in H0. rewrite H0. cbn [nth].
  rewrite IH; [reflexivity|].
  intros i Hi. specialize (H (S i) ltac:(cbn [List.length]; lia)).
  replace (idx (idx p 1) (Z.of_nat i)) with (idx p (Z.of_nat (S i)))
    by (unfold idx; lia).
  exact H.
Qed.

Lemma fill_inside (p : Z) (n : nat) (m : gmap Z Z) (i : nat) :
  (i < n)%nat -> node.fill p n m !! idx p (Z.of_nat i) = Some 0.
Proof.
  revert p i; induction n as [|n IH]; intros p i Hi; [lia|].
  cbn [node.fill]. destruct i as [|i].
  - unfold idx. rewrite Z.mul_0_r, Z.add_0_r. apply lookup_insert_eq.
  - rewrite lookup_insert_ne by (unfold idx; lia).
    replace (idx p (Z.of_nat (S i))) with (idx (idx p 1) (Z.of_nat i))
      by (unfold idx; lia).
    apply IH. lia.
Qed.

(** The SKIP body: eight characters per word. *)
Lemma le_bytes_padded (l : list Z) :
  Forall is_byte l -> (List.length l <= 8)%nat ->
  le_bytes 8 (of_le_bytes l) = l ++ repeat 0 (8 - List.length l).
Proof.
  intros Hb Hl. rewrite <- (of_le_bytes_zeros l (8 - List.length l)).
  replace 8%nat with (List.length (l ++ repeat 0 (8 - List.length l))) at 1
    by (rewrite length_app, repeat_length; lia).
  apply le_bytes_of_le_bytes. apply Forall_app. split; [exact Hb|].
  apply Forall_repeat_zero.
Qed.

Lemma chunks8_decode (fuel : nat) (l : list Z) :
  (List.length l <= fuel)%nat -> Forall is_byte l ->
  firstn (List.length l) (concat (List.map (le_bytes 8) (chunks8 fuel l))) = l.
Proof.
  revert l; induction fuel as [|fuel IH]; intros l Hl Hb.
  - destruct l; [reflexivity|cbn in Hl; lia].
  - destruct l as [|a l]; [reflexivity|].
    cbn [chunks8]. set (l0 := a :: l) in *. cbn [List.map concat].
    rewrite le_bytes_padded by (try apply Forall_take, Hb; rewrite length_firstn; lia).
    rewrite <- (firstn_skipn 8 l0) at 1.
    rewrite length_app, <- app_assoc, firstn_app_2.
    rewrite <- (firstn_skipn 8 l0) at 5. f_equal.
    destruct (Nat.le_gt_cases 8 (List.length l0)) as [Hge|Hlt].
    + rewrite length_firstn. replace (8 - Nat.min 8 (List.length l0))%nat with 0%nat by lia.
      cbn [repeat app]. apply IH.
      * rewrite length_skipn. unfold l0 in *. cbn [List.length] in *. lia.
      * apply Forall_drop, Hb.
    + rewrite skipn_all2 by lia. reflexivity.
Qed.

Lemma chunks8_length (fuel : nat) (l : list Z) :
  (List.length l <= fuel)%nat ->
  zlen (chunks8 fuel l) = t_skip.num_skip_nodes (zlen l).
Proof.
  unfold zlen, t_skip.num_skip_nodes.
  revert l; induction fuel as [|fuel IH]; intros l Hl.
  - destruct l; [reflexivity|cbn in Hl; lia].
  - destruct l as [|a l]; [reflexivity|].
    cbn [chunks8]. set (l0 := a :: l) in *. cbn [List.length].
    rewrite Nat2Z.inj_succ, IH
      by (rewrite length_skipn; unfold l0 in *; cbn [List.length] in *; lia).
    rewrite length_skipn.
    assert (0 < List.length l0)%nat by (unfold l0; cbn; lia).
    destruct (Nat.le_gt_cases 8 (List.length l0)) as [Hge|Hlt].
    + replace (Z.of_nat (List.length l0) + 7)
        with (Z.of_nat (List.length l0 - 8) + 7 + 1 * 8) by lia.
      rewrite Z.div_add by lia. lia.
    + replace (List.length l0 - 8)%nat with 0%nat by lia.
      change ((Z.of_nat 0 + 7) / 8) with 0.
      assert (E : (Z.of_nat (List.length l0) + 7) / 8 = 1); [|lia].
      symmetry. apply Z.div_unique with (r := Z.of_nat (List.length l0) - 1); lia.
Qed.

(** X23: the characters [node::skip_copy] packs into nodes are the
    characters a SKIP body is read back as, by the navigation
    ([skip_bytes]) and by the comparison of [do_find_skip]; no word
    outside the body is written. *)
Theorem skip_copy_then_read (ptr : Z) (key : list Z) (h : heap) :
  Forall is_byte key ->
  (forall i, 0 <= i < t_skip.num_skip_nodes (zlen key) ->
             is_Some (mem h !! idx ptr i)) ->
  exists h',
    node.skip_copy ptr key (zlen key) h = Ok tt h'
    /\ skip_bytes ptr (zlen key) h' = Ok key h'
    /\ (forall inp,
           do_find_skip ptr inp (zlen key) h'
           = Ok (bytes_eqb key (firstn (List.length key) inp)) h')
    /\ (forall a, (forall i, 0 <= i < t_skip.num_skip_nodes (zlen key) ->
                             a <> idx ptr i) ->
                  mem h' !! a = mem h !! a).
Proof.
  intros Hk Hmap.
  set (chunks := chunks8 (List.length key) key).
  assert (Hcl : zlen chunks = t_skip.num_skip_nodes (zlen key))
    by (apply chunks8_length; lia).
  assert (Hnum : Z.to_nat (t_skip.num_skip_nodes (zlen key)) = List.length chunks)
    by (unfold zlen in *; lia).
  exists (mk_heap (write_words ptr chunks (mem h)) (brk h) (budget h)).
  assert (Hread : forall i, (i < List.length chunks)%nat ->
            write_words ptr chunks (mem h) !! idx ptr (Z.of_nat i)
            = Some (nth i chunks 0))
    by (intros i Hi; apply write_words_inside, Hi).
  assert (Hdec : firstn (Z.to_nat (zlen key))
                        (concat (List.map (le_bytes 8) chunks)) = key).
  { replace (Z.to_nat (zlen key)) with (List.length key) by (unfold zlen; lia).
    apply chunks8_decode; [lia|exact Hk]. }
  split; [|split; [|split]].
  - unfold node.skip_copy.
    replace (firstn (Z.to_nat (zlen key)) key) with key
      by (symmetry; apply firstn_all2; unfold zlen; lia).
    apply store_n_writes. intros i Hi. apply Hmap. unfold zlen in *. lia.
  - unfold skip_bytes, mbind at 1, load_words.
    destruct (Z.leb_spec (t_skip.num_skip_nodes (zlen key)) 0) as [Hz|Hpos].
    + unfold mret. rewrite <- Hdec at 2.
      assert (chunks = []) as ->
        by (destruct chunks; [reflexivity|unfold zlen in *; cbn [List.length] in *; lia]).
      reflexivity.
    + unfold mbind at 1.
      rewrite (load_mapped _ (nth (List.length chunks - 1) chunks 0)).
      2:{ cbn [mem].
          replace (t_skip.num_skip_nodes (zlen key) - 1)
            with (Z.of_nat (List.length chunks - 1)) by (unfold zlen in *; lia).
          apply Hread. unfold zlen in *. lia. }
      rewrite Hnum, load_n_reads by exact Hread.
      unfold mret. rewrite Hdec. reflexivity.
  - intros inp. unfold do_find_skip, mbind at 1, read_bytes.
    destruct (Z.ltb_spec (zlen key) 0) as [Hneg|_]; [unfold zlen in Hneg; lia|].
    unfold mbind at 1.
    change ((zlen key + 7) / 8) with (t_skip.num_skip_nodes (zlen key)).
    rewrite Hnum, load_n_reads by exact Hread.
    unfold mret. rewrite Hdec.
    replace (Z.to_nat (zlen key)) with (List.length key) by (unfold zlen; lia).
    reflexivity.
  - intros a Ha. cbn [mem]. apply write_words_outside.
    intros i Hi. apply Ha. unfold zlen in *. lia.
Qed.

Lemma skip_copy_then_read_witness :
  exists h',
    node.skip_copy 4096 (key_of_string "compressed") (zlen (key_of_string "compressed"))
      (mk_heap (<[4096 := 0]> (<[4104 := 0]> ∅)) 8192 None) = Ok tt h'
    /\ skip_bytes 4096 (zlen (key_of_string "compressed")) h'
       = Ok (key_of_string "compressed") h'
    /\ (forall inp,
           do_find_skip 4096 inp (zlen (key_of_string "compressed")) h'
           = Ok (bytes_eqb (key_of_string "compressed")
                           (firstn (List.length (key_of_string "compressed")) inp)) h')
    /\ (forall a, (forall i, 0 <= i < t_skip.num_skip_nodes
                                      (zlen (key_of_string "compressed")) ->
                             a <> idx 4096 i) ->
                  mem h' !! a
                  = mem (mk_heap (<[4096 := 0]> (<[4104 := 0]> ∅)) 8192 None) !! a).
Proof.
  apply (skip_copy_then_read 4096 (key_of_string "compressed")
           (mk_heap (<[4096 := 0]> (<[4104 := 0]> ∅)) 8192 None)).
  - repeat constructor; unfold is_byte; lia.
  - intros i Hi.
    change (t_skip.num_skip_nodes (zlen (key_of_string "compressed"))) with 2 in Hi.
    assert (E : i = 0 \/ i = 1) by lia.
    destruct E as [-> | ->]; vm_compute; eauto.
Defined.

Lemma tail_array_length (key : list Z) (value : Z) :
  zlen (tail_array key value)
  = if zlen key =? 0 then 1
    else if zlen key <=? t_hop.max_hop then 2
    else 2 + t_skip.num_skip_nodes (zlen key).
Proof.
  unfold tail_array. cbv zeta.
  destruct (zlen key =? 0); [reflexivity|].
  destruct (zlen key <=? t_hop.max_hop); [reflexivity|].
  unfold zlen at 1. cbn [List.length]. rewrite length_app. cbn [List.length].
  rewrite Nat.add_1_r, !Nat2Z.inj_succ.
  pose proof (chunks8_length (List.length key) key (Nat.le_refl _)) as E.
  unfold zlen in E at 1. rewrite E. lia.
Qed.

Lemma alloc_size_ge (n : Z) : n <= alloc_size n.
Proof. apply alloc_size_bounds. Qed.

Lemma store_at (p v : Z) (h : heap) :
  is_Some (mem h !! p) ->
  store p v h = Ok tt (mk_heap (<[p := v]> (mem h)) (brk h) (budget h)).
Proof. intros [w Hw]. apply (store_mapped p w). exact Hw. Qed.

Lemma make_new_runs (ref flags len w : Z) (h : heap) :
  mem h !! ref = Some w -> ref < brk h -> budget h <> Some 0%nat ->
  make_new ref flags len h
  = Ok (brk h)
       (mk_heap (<[ref := dirty_high_pointer.set_byte
                            (dirty_high_pointer.set_ptr w (brk h)) flags]>
                   (node.fill (brk h) (Z.to_nat (alloc_size len)) (mem h)))
                (idx (brk h) (alloc_size len + 1))
                (match budget h with Some (S k) => Some k | b => b end)).
Proof.
  intros Href Hlt Hb. unfold make_new, mbind at 1, node.allocate.
  destruct (budget h) as [[|k]|] eqn:Eb; [congruence| |];
    unfold mbind at 1, load; cbn [mem];
    rewrite fill_below by exact Hlt; rewrite Href;
    unfold mbind, store; cbn [mem brk budget];
    rewrite fill_below by exact Hlt; rewrite Href; reflexivity.
Qed.

Lemma tail_writes (key : list Z) (value nn : Z) (M : gmap Z Z) (b : Z)
      (g : option nat) :
  (forall i, (i < List.length (tail_array key value))%nat ->
             is_Some (M !! idx nn (Z.of_nat i))) ->
  (if zlen key =? 0 then
     node.set_data nn value
   else if zlen key <=? t_hop.max_hop then
     set_hop nn key (zlen key) eos_bit ;;;
     node.set_data (idx nn 1) value
   else
     store nn (t_skip.make (zlen key) eos_bit) ;;;
     node.skip_copy (idx nn 1) key (zlen key) ;;;
     node.set_data (idx nn (1 + t_skip.num_skip_nodes (zlen key))) value)
    (mk_heap M b g)
  = Ok tt (mk_heap (write_words nn (tail_array key value) M) b g).
Proof.
  unfold tail_array. cbv zeta. intros Hmap.
  assert (Hlen : 0 <= zlen key) by (unfold zlen; lia).
  destruct (Z.eqb_spec (zlen key) 0) as [Hz|Hz].
  - unfold node.set_data. rewrite store_at; [reflexivity|].
    specialize (Hmap 0%nat ltac:(cbn; lia)).
    unfold idx in Hmap. rewrite Z.mul_0_r, Z.add_0_r in Hmap. exact Hmap.
  - destruct (Z.leb_spec (zlen key) t_hop.max_hop) as [Hle|Hgt].
    + unfold t_hop.max_hop in Hle.
      unfold set_hop, mbind, assert, t_hop.make_ok, from_char_len_ok, t_hop.max_hop.
      destruct (Z.ltb_spec 0 (zlen key)); [|lia].
      destruct (Z.leb_spec (zlen key) 6); [|lia].
      destruct (Z.ltb_spec (zlen key) 8); [|lia].
      cbn [andb]. unfold mret at 1 2. cbv beta iota.
      rewrite store_at.
      * unfold node.set_data. rewrite store_at; [reflexivity|].
        cbn [mem]. specialize (Hmap 1%nat ltac:(cbn; lia)).
        destruct (Z.eq_dec (idx nn 1) nn) as [E|E];
          [rewrite E, lookup_insert_eq; eauto
          |rewrite lookup_insert_ne by congruence; exact Hmap].
      * cbn [mem]. specialize (Hmap 0%nat ltac:(cbn; lia)).
        unfold idx in Hmap. rewrite Z.mul_0_r, Z.add_0_r in Hmap. exact Hmap.
    + unfold mbind at 1. rewrite store_at.
      2:{ cbn [mem]. specialize (Hmap 0%nat ltac:(cbn; lia)).
          unfold idx in Hmap. rewrite Z.mul_0_r, Z.add_0_r in Hmap. exact Hmap. }
      unfold mbind at 1, node.skip_copy.
      replace (firstn (Z.to_nat (zlen key)) key) with key
        by (symmetry; apply firstn_all2; unfold zlen; lia).
      set (chunks := chunks8 (List.length key) key).
      assert (Hcl : zlen chunks = t_skip.num_skip_nodes (zlen key))
        by (apply chunks8_length; lia).
      fold chunks in Hmap.
      assert (Hl : List.length (t_skip.make (zlen key) eos_bit
                                :: chunks ++ [wrap64 value])
                   = S (S (List.length chunks))).
      { cbn [List.length]. rewrite length_app. cbn [List.length]. lia. }
      rewrite Hl in Hmap.
      rewrite store_n_writes.
      2:{ intros i Hi. cbn [mem].
          specialize (Hmap (S i) ltac:(lia)).
          replace (idx (idx nn 1) (Z.of_nat i)) with (idx nn (Z.of_nat (S i)))
            by (unfold idx; lia).
          rewrite lookup_insert_ne by (unfold idx; lia). exact Hmap. }
      unfold node.set_data. cbn [mem brk budget].
      rewrite store_at.
      2:{ cbn [mem]. rewrite write_words_outside by (intros i Hi; unfold idx, zlen in *; lia).
          rewrite lookup_insert_ne by (unfold idx, t_skip.num_skip_nodes, zlen in *; lia).
          specialize (Hmap (S (List.length chunks)) ltac:(lia)).
          replace (idx nn (1 + t_skip.num_skip_nodes (zlen key)))
            with (idx nn (Z.of_nat (S (List.length chunks))))
            by (unfold idx, zlen in *; lia).
          exact Hmap. }
      cbn [mem brk budget write_words].
      rewrite write_words_app. cbn [write_words].
      do 2 f_equal. f_equal. unfold idx, zlen in *. lia.
Qed.

Lemma insert_into_empty fuel fixed_len do_update this key value w h :
  mem h !! ktrie_base.cnt_ this = Some 0 ->
  mem h !! ktrie_base.head_ this = Some w ->
  budget h <> Some 0%nat ->
  this + 8 < brk h ->
  ktrie_base.insert_with fuel fixed_len do_update this key value h
  = Ok (idx (brk h) (zlen (tail_array key value) - 1), true)
       (first_key_heap this key value w h).
Proof.
  intros Hcnt Hhead Hbudget Hthis.
  unfold ktrie_base.insert_with. unfold mbind at 1, load. rewrite Hcnt.
  change (negb (0 =? 0)) with false. cbv iota. unfold mbind at 1, mret at 1.
  cbv beta iota.
  unfold first_key_heap. cbv zeta.
  pose proof (tail_array_length key value) as Hlen.
  unfold make_tail, get_size, init_ret.
  cbn [add_val add_ptr tail_ptr cnt ret]. 
  set (nn := brk h).
  assert (Hne : ktrie_base.head_ this < nn)
    by (unfold ktrie_base.head_, nn; lia).
  assert (Hce : ktrie_base.cnt_ this < nn)
    by (unfold ktrie_base.cnt_, idx, nn; lia).
  assert (Hflags :
    (if zlen key =? 0 then (eos_bit, 1)
     else if zlen key <=? t_hop.max_hop then (hop_bit, 2)
     else (skip_bit, 2 + t_skip.num_skip_nodes (zlen key)))
    = (tail_flags key, zlen (tail_array key value))).
  { rewrite Hlen. unfold tail_flags. cbv zeta.
    destruct (zlen key =? 0); [reflexivity|].
    destruct (zlen key <=? t_hop.max_hop); reflexivity. }
  cbv zeta. rewrite Hflags.
  unfold mbind at 1 2.
  rewrite (make_new_runs _ _ _ w) by assumption. fold nn.
  unfold mbind at 1.
  rewrite tail_writes.
  2:{ intros i Hi.
      rewrite lookup_insert_ne by (unfold idx; lia).
      rewrite fill_inside; [eauto|].
      pose proof (alloc_size_ge (zlen (tail_array key value))).
      unfold zlen in *. lia. }
  unfold mret at 1. cbv beta iota.
  unfold mbind at 1. cbn [mem].
  rewrite write_words_outside by (intros i Hi; unfold idx; lia).
  rewrite lookup_insert_ne by (unfold ktrie_base.cnt_, ktrie_base.head_, idx; lia).
  rewrite fill_below by exact Hce. rewrite Hcnt.
  unfold mbind, store. cbn [mem brk budget cnt ret].
  rewrite write_words_outside by (intros i Hi; unfold idx; lia).
  rewrite lookup_insert_ne by (unfold ktrie_base.cnt_, ktrie_base.head_, idx; lia).
  rewrite fill_below by exact Hce. rewrite Hcnt.
  reflexivity.
Qed.

Lemma get_both_of_new_root (w nn flags : Z) :
  0 <= nn < 2 ^ 59 -> 0 <= flags < 32 ->
  dirty_high_pointer.get_both
    (dirty_high_pointer.set_byte (dirty_high_pointer.set_ptr w nn) flags)
  = (nn, flags).
Proof.
  intros Hptr Hfl. unfold dirty_high_pointer.get_both.
  change (Z.land ?r dirty_high_pointer.ptr_mask) with (dirty_high_pointer.get_ptr r).
  change (wrap8 (Z.shiftr ?r dirty_high_pointer.flag_shift))
    with (dirty_high_pointer.get_byte r).
  f_equal.
  - rewrite <- (Z.mod_small nn (2 ^ 59)) at 2 by lia. bits. cases n. neg_bit.
  - rewrite <- (Z.mod_small flags 32) at 2 by lia. bits. cases n.
Qed.

Lemma bytes_eqb_eq (a b : list Z) : bytes_eqb a b = true <-> a = b.
Proof.
  revert b; induction a as [|x a IH]; intros [|y b]; cbn [bytes_eqb];
    try (split; (reflexivity || discriminate)).
  rewrite andb_true_iff, Z.eqb_eq, IH. split.
  - intros [-> ->]. reflexivity.
  - intros E. injection E as -> ->. split; reflexivity.
Qed.

Lemma bytes_eqb_refl (a : list Z) : bytes_eqb a a = true.
Proof. apply bytes_eqb_eq. reflexivity. Qed.

Lemma bytes_eqb_neq (a b : list Z) : a <> b -> bytes_eqb a b = false.
Proof.
  intros H. destruct (bytes_eqb a b) eqn:E; [|reflexivity].
  apply bytes_eqb_eq in E. contradiction.
Qed.

Ltac hb :=
  repeat match goal with
         | |- context [has_bit ?a ?b] =>
             let v := eval vm_compute in (has_bit a b) in
             match v with
             | true => change (has_bit a b) with true
             | false => change (has_bit a b) with false
             end
         end;
  cbn [andb orb negb].

(** Lookup at the [EOS] that ends the array: the value is found when the
    key is exhausted, nothing otherwise. *)
Lemma find_loop_at_eos (fuel : nat) (run : Z) (rest : list Z) (h : heap) :
  ktrie_base.find_prefix_loop (S fuel) run eos_bit rest h
  = Ok (if zlen rest =? 0 then Done run else Next (idx run 1, eos_bit, rest)) h.
Proof.
  cbn [ktrie_base.find_prefix_loop]. hb.
  destruct (zlen rest =? 0); reflexivity.
Qed.

Lemma zlen_nil_iff (l : list Z) : zlen l = 0 <-> l = [].
Proof.
  unfold zlen. destruct l; cbn [List.length]; split; try reflexivity;
    try discriminate; lia.
Qed.

Lemma find_loop_done (fuel : nat) (run flags p : Z) (inp : list Z) (h h1 : heap) :
  ktrie_base.find_prefix_loop fuel run flags inp h = Ok (Done p) h1 ->
  ktrie_base.find_loop (S fuel) 0 run flags inp h = Ok p h1.
Proof.
  intros E. cbn [ktrie_base.find_loop]. change (0 >? 0) with false. cbv iota.
  unfold mbind. rewrite E. reflexivity.
Qed.

Lemma find_loop_no_branch (fuel : nat) (run flags run' flags' : Z)
      (inp inp' : list Z) (h h1 : heap) :
  ktrie_base.find_prefix_loop fuel run flags inp h = Ok (Next (run', flags', inp')) h1 ->
  has_bit flags' branch_bits = false ->
  ktrie_base.find_loop (S fuel) 0 run flags inp h = Ok 0 h1.
Proof.
  intros E Hb. cbn [ktrie_base.find_loop]. change (0 >? 0) with false. cbv iota.
  unfold mbind. rewrite E, Hb. reflexivity.
Qed.

Lemma find_prefix_loop_run (fuel : nat) (run flags : Z) (inp : list Z) (h : heap) :
  has_bit flags prefix_bits = true -> has_bit flags eos_bit = false ->
  has_bit flags run_bits = true ->
  ktrie_base.find_prefix_loop (S fuel) run flags inp h
  = (r <- ktrie_base.find_run run flags inp ;;
     match r with
     | None => mret (Done 0)
     | Some (run, flags, inp) => ktrie_base.find_prefix_loop fuel run flags inp
     end) h.
Proof.
  intros H1 H2 H3. cbn [ktrie_base.find_prefix_loop].
  rewrite H1, H2, H3. reflexivity.
Qed.

Lemma find_prefix_loop_first_key (fuel : nat) (nn value : Z) (key key' : list Z)
      (h' : heap) :
  Forall is_byte key -> Forall is_byte key' -> zlen key < 2 ^ 59 ->
  (forall i, (i < List.length (tail_array key value))%nat ->
             mem h' !! idx nn (Z.of_nat i) = Some (nth i (tail_array key value) 0)) ->
  exists r,
    ktrie_base.find_prefix_loop (S (S fuel)) nn (tail_flags key) key' h' = Ok r h'
    /\ first_key_outcome key key' (idx nn (zlen (tail_array key value) - 1)) r.
Proof.
  intros Hk Hk' Hsz Harr.
  pose proof (tail_array_length key value) as Hlen.
  assert (H0 : mem h' !! nn = Some (nth 0 (tail_array key value) 0)).
  { specialize (Harr 0%nat). unfold idx in Harr.
    rewrite Z.mul_0_r, Z.add_0_r in Harr. apply Harr.
    unfold tail_array. cbv zeta.
    destruct (zlen key =? 0); [cbn; lia|].
    destruct (zlen key <=? t_hop.max_hop); cbn [List.length]; lia. }
  assert (Hzl : 0 <= zlen key) by (unfold zlen; lia).
  rewrite Hlen. clear Hlen.
  unfold tail_flags, tail_array in *. cbv zeta in *.
  destruct (Z.eqb_spec (zlen key) 0) as [Hz|Hz].
  - (* the empty key: an EOS alone *)
    apply zlen_nil_iff in Hz. subst key.
    rewrite find_loop_at_eos. eexists. split; [reflexivity|].
    replace (idx nn (1 - 1)) with nn by (unfold idx; lia).
    destruct key' as [|c key'].
    + apply FoundIt. reflexivity.
    + unfold zlen. cbn [List.length].
      destruct (Z.eqb_spec (Z.of_nat (S (List.length key'))) 0); [lia|].
      apply Overrun. discriminate.
  - destruct (Z.leb_spec (zlen key) t_hop.max_hop) as [Hle|Hgt].
    + (* up to six characters: a HOP *)
      unfold t_hop.max_hop in Hle. cbn [nth] in H0.
      rewrite find_prefix_loop_run by reflexivity.
      unfold mbind at 1, ktrie_base.find_run. hb.
      unfold mbind at 1. rewrite (load_mapped _ _ _ H0).
      unfold mbind at 1, assert, t_hop.matches_ok.
      rewrite get_hop_sz_make by (try assumption; unfold eos_bit; lia).
      unfold from_char_len_ok.
      destruct (Z.ltb_spec 0 (zlen key)); [|lia].
      destruct (Z.ltb_spec (zlen key) 8); [|lia].
      cbn [andb]. rewrite orb_true_r. unfold mret at 1. cbv beta iota.
      pose proof (matches_make_iff key key' (zlen key) eos_bit (zlen key')
                    Hk ltac:(lia) ltac:(lia) ltac:(unfold eos_bit; lia)
                    Hk' ltac:(lia)) as Hm.
      rewrite (firstn_all2 key) in Hm by (unfold zlen; lia).
      destruct (t_hop.matches _ key' (zlen key')) eqn:Em; cbn [negb].
      * destruct (proj1 Hm eq_refl) as [Hl Hpre].
        unfold mret at 1. cbv beta iota.
        rewrite get_new_flags_make by (try assumption; unfold eos_bit; lia).
        rewrite find_loop_at_eos. eexists. split; [reflexivity|].
        replace (idx nn (2 - 1)) with (idx nn 1) by reflexivity.
        destruct (Z.eqb_spec (zlen (skipn (Z.to_nat (zlen key)) key')) 0) as [E|E].
        -- apply zlen_nil_iff in E. apply FoundIt.
           rewrite <- (firstn_skipn (Z.to_nat (zlen key)) key'), E, Hpre.
           apply app_nil_r.
        -- apply Overrun. intros ->. apply E.
           unfold zlen. rewrite length_skipn. lia.
      * unfold mret. eexists. split; [reflexivity|]. apply Mismatch.
        intros ->. assert (false = true); [|discriminate].
        apply Hm. split; [lia|]. apply firstn_all2. unfold zlen. lia.
    + (* more than six characters: a SKIP *)
      unfold t_hop.max_hop in Hgt. cbn [nth] in H0.
      set (chunks := chunks8 (List.length key) key) in *.
      assert (Hcl : zlen chunks = t_skip.num_skip_nodes (zlen key))
        by (apply chunks8_length; lia).
      destruct (t_skip_make_fields (zlen key) eos_bit) as [Esl Esf].
      rewrite Z.mod_small in Esl by lia.
      change (eos_bit mod 32) with eos_bit in Esf.
      rewrite find_prefix_loop_run by reflexivity.
      unfold mbind at 1, ktrie_base.find_run. hb.
      unfold mbind at 1. rewrite (load_mapped _ _ _ H0). cbv zeta.
      rewrite Esl, Esf.
      destruct (Z.ltb_spec (zlen key') (zlen key)) as [Hshort|Hlong].
      { unfold mret. eexists. split; [reflexivity|]. apply Mismatch.
        intros ->. lia. }
      unfold mbind at 1, do_find_skip, mbind at 1, read_bytes.
      destruct (Z.ltb_spec (zlen key) 0); [lia|].
      unfold mbind at 1.
      replace (Z.to_nat ((zlen key + 7) / 8)) with (List.length chunks)
        by (unfold t_skip.num_skip_nodes, zlen in *; lia).
      rewrite load_n_reads.
      2:{ intros i Hi.
          replace (idx (idx nn 1) (Z.of_nat i)) with (idx nn (Z.of_nat (S i)))
            by (unfold idx; lia).
          rewrite Harr by (cbn [List.length]; rewrite length_app; cbn [List.length]; lia).
          cbn [nth]. rewrite app_nth1 by exact Hi. reflexivity. }
      unfold mret at 1 2. cbv beta iota.
      replace (Z.to_nat (zlen key)) with (List.length key) by (unfold zlen; lia).
      unfold chunks. rewrite chunks8_decode by (try exact Hk; lia).
      destruct (bytes_eqb key (firstn (List.length key) key')) eqn:Eq; cbn [negb].
      * apply bytes_eqb_eq in Eq. unfold mret at 1. cbv beta iota.
        rewrite find_loop_at_eos. eexists. split; [reflexivity|].
        replace (idx nn (2 + t_skip.num_skip_nodes (zlen key) - 1))
          with (idx (idx nn 1) (t_skip.num_skip_nodes (zlen key)))
          by (unfold idx; lia).
        destruct (Z.eqb_spec (zlen (skipn (List.length key) key')) 0) as [E|E].
        -- apply zlen_nil_iff in E. apply FoundIt.
           rewrite <- (firstn_skipn (List.length key) key'), E, <- Eq.
           apply app_nil_r.
        -- apply Overrun. intros ->. apply E.
           unfold zlen. rewrite length_skipn. lia.
      * unfold mret. eexists. split; [reflexivity|]. apply Mismatch.
        intros ->. rewrite firstn_all, bytes_eqb_refl in Eq. discriminate.
Qed.

Lemma find_first_key (fuel : nat) (this nn hw value : Z) (key key' : list Z)
      (h' : heap) :
  (3 <= fuel)%nat ->
  Forall is_byte key -> Forall is_byte key' -> zlen key < 2 ^ 59 ->
  mem h' !! ktrie_base.cnt_ this = Some 1 ->
  mem h' !! ktrie_base.head_ this = Some hw ->
  dirty_high_pointer.get_both hw = (nn, tail_flags key) ->
  (forall i, (i < List.length (tail_array key value))%nat ->
             mem h' !! idx nn (Z.of_nat i) = Some (nth i (tail_array key value) 0)) ->
  ktrie_base.find_internal fuel 0 this key' h'
  = Ok (if bytes_eqb key' key then idx nn (zlen (tail_array key value) - 1) else 0) h'.
Proof.
  intros Hfuel Hk Hk' Hsz Hcnt Hhead Hboth Harr.
  destruct fuel as [|[|[|fuel]]]; try lia.
  unfold ktrie_base.find_internal, mbind at 1.
  rewrite (load_mapped _ 1) by exact Hcnt.
  change (1 =? 0) with false. cbv iota.
  unfold mbind at 1. rewrite (load_mapped _ hw) by exact Hhead.
  rewrite Hboth.
  destruct (find_prefix_loop_first_key fuel nn value key key' h' Hk Hk' Hsz Harr)
    as (r & Er & Hr).
  destruct Hr as [E|E|run rest E].
  - subst key'. rewrite bytes_eqb_refl. apply find_loop_done. exact Er.
  - rewrite bytes_eqb_neq by exact E. apply find_loop_done. exact Er.
  - rewrite bytes_eqb_neq by exact E.
    apply (find_loop_no_branch _ _ _ _ _ _ _ _ _ Er). reflexivity.
Qed.

Lemma tail_array_last (key : list Z) (value : Z) :
  nth (List.length (tail_array key value) - 1) (tail_array key value) 0
  = wrap64 value.
Proof.
  unfold tail_array. cbv zeta.
  destruct (zlen key =? 0); [reflexivity|].
  destruct (zlen key <=? t_hop.max_hop); [reflexivity|].
  cbn [List.length]. rewrite Nat.sub_succ, Nat.sub_0_r.
  rewrite length_app. cbn [List.length]. rewrite Nat.add_1_r. cbn [nth].
  rewrite app_nth2 by lia. rewrite Nat.sub_diag. reflexivity.
Qed.

Lemma tail_flags_small (key : list Z) : 0 <= tail_flags key < 32.
Proof.
  unfold tail_flags. cbv zeta.
  destruct (zlen key =? 0); [unfold eos_bit; lia|].
  destruct (zlen key <=? t_hop.max_hop); [unfold hop_bit|unfold skip_bit]; lia.
Qed.

Lemma tail_array_nonempty (key : list Z) (value : Z) :
  (0 < List.length (tail_array key value))%nat.
Proof.
  unfold tail_array. cbv zeta.
  destruct (zlen key =? 0); [cbn; lia|].
  destruct (zlen key <=? t_hop.max_hop); cbn [List.length]; lia.
Qed.

Lemma first_key_heap_array this key value w h i :
  this + 8 < brk h -> (i < List.length (tail_array key value))%nat ->
  mem (first_key_heap this key value w h) !! idx (brk h) (Z.of_nat i)
  = Some (nth i (tail_array key value) 0).
Proof.
  intros Hthis Hi. unfold first_key_heap. cbv zeta. cbn [mem].
  rewrite lookup_insert_ne by (unfold ktrie_base.cnt_, idx; lia).
  apply write_words_inside, Hi.
Qed.

Lemma first_key_heap_head this key value w h :
  this + 8 < brk h ->
  mem (first_key_heap this key value w h) !! ktrie_base.head_ this
  = Some (dirty_high_pointer.set_byte (dirty_high_pointer.set_ptr w (brk h))
                                      (tail_flags key)).
Proof.
  intros Hthis. unfold first_key_heap. cbv zeta. cbn [mem].
  rewrite lookup_insert_ne by (unfold ktrie_base.cnt_, ktrie_base.head_, idx; lia).
  rewrite write_words_outside
    by (intros i Hi; unfold ktrie_base.head_, idx; lia).
  apply lookup_insert_eq.
Qed.

Lemma first_key_heap_cnt this key value w h :
  mem (first_key_heap this key value w h) !! ktrie_base.cnt_ this = Some 1.
Proof. unfold first_key_heap. cbv zeta. cbn [mem]. apply lookup_insert_eq. Qed.

(** X22: the first key inserted into an empty trie is found again with
    its value, the size becomes 1, and no other key is found. *)
Theorem first_insert_then_find
        (fuel : nat) (this value w : Z) (key : list Z) (h : heap) :
  (3 <= fuel)%nat ->
  Forall is_byte key -> zlen key < 2 ^ 59 ->
  mem h !! ktrie_base.cnt_ this = Some 0 ->
  mem h !! ktrie_base.head_ this = Some w ->
  budget h <> Some 0%nat ->
  this + 8 < brk h -> 0 < brk h < 2 ^ 59 ->
  exists p h',
    ktrie_base.insert_internal fuel 0 this key value h = Ok (p, true) h'
    /\ p <> 0
    /\ load p h' = Ok (wrap64 value) h'
    /\ ktrie_base.size this h' = Ok 1 h'
    /\ forall key', Forall is_byte key' ->
                    ktrie_base.find_internal fuel 0 this key' h'
                    = Ok (if bytes_eqb key' key then p else 0) h'.
Proof.
  intros Hfuel Hk Hsz Hcnt Hhead Hbudget Hthis Hbrk.
  exists (idx (brk h) (zlen (tail_array key value) - 1)).
  exists (first_key_heap this key value w h).
  pose proof (tail_array_nonempty key value) as Hne.
  split; [apply insert_into_empty; assumption|].
  split; [unfold idx, zlen; lia|].
  split; [|split].
  - apply load_mapped.
    replace (zlen (tail_array key value) - 1)
      with (Z.of_nat (List.length (tail_array key value) - 1))
      by (unfold zlen; lia).
    rewrite first_key_heap_array by (assumption || lia).
    f_equal. apply tail_array_last.
  - apply load_mapped, first_key_heap_cnt.
  - intros key' Hk'.
    apply (find_first_key fuel this (brk h)
             (dirty_high_pointer.set_byte
                (dirty_high_pointer.set_ptr w (brk h)) (tail_flags key))
             value key key'); try assumption.
    + apply first_key_heap_cnt.
    + apply first_key_heap_head, Hthis.
    + apply get_both_of_new_root; [lia|apply tail_flags_small].
    + intros i Hi. apply first_key_heap_array; assumption.
Qed.

Lemma first_insert_then_find_witness :
  exists p h',
    ktrie_base.insert_internal 8 0 4096 (key_of_string "first key") 7
      (heap_after (ktrie_base.construct empty_heap) empty_heap) = Ok (p, true) h'
    /\ p <> 0
    /\ load p h' = Ok (wrap64 7) h'
    /\ ktrie_base.size 4096 h' = Ok 1 h'
    /\ forall key', Forall is_byte key' ->
                    ktrie_base.find_internal 8 0 4096 key' h'
                    = Ok (if bytes_eqb key' (key_of_string "first key") then p else 0) h'.
Proof.
  apply (first_insert_then_find 8 4096 7 0 (key_of_string "first key")
           (heap_after (ktrie_base.construct empty_heap) empty_heap)).
  - lia.
  - repeat constructor; unfold is_byte; lia.
  - vm_compute. reflexivity.
  - reflexivity.
  - reflexivity.
  - discriminate.
  - vm_compute. reflexivity.
  - vm_compute. split; reflexivity.
Defined.

End FirstKey.

(** ** Erasing the only key *)

Section OnlyKey.
Import insert_helper remove_helper.

Ltac hb' :=
  repeat match goal with
         | |- context [has_bit ?a ?b] =>
             let v := eval vm_compute in (has_bit a b) in
             match v with
             | true => change (has_bit a b) with true
             | false => change (has_bit a b) with false
             end
         end;
  cbn [andb orb negb].

Lemma unmap_below (p : Z) (n : nat) (m : gmap Z Z) (a : Z) :
  a < p -> node.unmap p n m !! a = m !! a.
Proof.
  revert p; induction n as [|n IH]; intros p Ha; cbn [node.unmap]; [reflexivity|].
  rewrite lookup_delete_ne by lia. apply IH. unfold idx. lia.
Qed.

Lemma unmap_inside (p : Z) (n : nat) (m : gmap Z Z) (i : nat) :
  (i < n)%nat -> node.unmap p n m !! idx p (Z.of_nat i) = None.
Proof.
  revert p i; induction n as [|n IH]; intros p i Hi; [lia|].
  cbn [node.unmap]. destruct i as [|i].
  - unfold idx. rewrite Z.mul_0_r, Z.add_0_r. apply lookup_delete_eq.
  - rewrite lookup_delete_ne by (unfold idx; lia).
    replace (idx p (Z.of_nat (S i))) with (idx (idx p 1) (Z.of_nat i))
      by (unfold idx; lia).
    apply IH. lia.
Qed.

Lemma ptr_diff_idx (p n : Z) : ptr_diff (idx p n) p = n.
Proof.
  unfold ptr_diff, idx. replace (p + 8 * n - p) with (n * 8) by lia.
  apply Z.div_mul. lia.
Qed.

Section Array.
Variables (nn value : Z) (key : list Z) (h' : heap).
Hypothesis Hk : Forall is_byte key.
Hypothesis Hsz : zlen key < 2 ^ 59.
Hypothesis Harr :
  forall i, (i < List.length (tail_array key value))%nat ->
            mem h' !! idx nn (Z.of_nat i) = Some (nth i (tail_array key value) 0).

Lemma load_first_word :
  load (idx nn 0) h' = Ok (nth 0 (tail_array key value) 0) h'.
Proof.
  apply load_mapped. apply (Harr 0%nat). apply tail_array_nonempty.
Qed.

Lemma node_array_sz_first_key (fuel : nat) :
  node_array_sz (S (S fuel)) nn (tail_flags key) h'
  = Ok (zlen (tail_array key value)) h'.
Proof.
  pose proof load_first_word as H0.
  rewrite tail_array_length.
  assert (Hzl : 0 <= zlen key) by (unfold zlen; lia).
  unfold node_array_sz, mbind at 1.
  unfold tail_flags, tail_array in *. cbv zeta in *.
  destruct (Z.eqb_spec (zlen key) 0) as [Hz|Hz].
  - cbn [node_array_sz_scan]. hb'. unfold mret at 1. cbv beta iota. hb'.
    unfold mret. f_equal. cbn [b2z].
    apply ptr_diff_idx.
  - destruct (Z.leb_spec (zlen key) t_hop.max_hop) as [Hle|Hgt].
    + unfold t_hop.max_hop in Hle. cbn [nth] in H0.
      cbn [node_array_sz_scan]. hb'. cbn [b2z].
      unfold mbind at 1. rewrite H0.
      rewrite get_new_flags_make by (try assumption; unfold eos_bit; lia).
      hb'. unfold mret at 1. cbv beta iota. hb'. cbn [b2z].
      unfold mret. f_equal. unfold ptr_diff, idx.
      replace (nn + 8 * 0 + 8 * 1 + 8 * 1 - nn) with (2 * 8) by lia.
      apply Z.div_mul. lia.
    + unfold t_hop.max_hop in Hgt. cbn [nth] in H0.
      destruct (t_skip_make_fields (zlen key) eos_bit) as [Esl Esf].
      rewrite Z.mod_small in Esl by lia.
      change (eos_bit mod 32) with eos_bit in Esf.
      cbn [node_array_sz_scan]. hb'. cbn [b2z].
      unfold mbind at 1. rewrite H0. cbv zeta. rewrite Esl, Esf.
      hb'. unfold mret at 1. cbv beta iota. hb'. cbn [b2z].
      unfold mret. f_equal. unfold ptr_diff, idx.
      replace (nn + 8 * 0 + 8 * (1 + t_skip.num_skip_nodes (zlen key)) + 8 * 1 - nn)
        with ((2 + t_skip.num_skip_nodes (zlen key)) * 8) by lia.
      apply Z.div_mul. lia.
Qed.

Lemma truncate_scan_first_key (fuel : nat) :
  zlen key <> 0 ->
  truncate_scan (S (S fuel)) nn (zlen (tail_array key value) - 1) 0
                (tail_flags key) None h'
  = Ok (Some 0) h'.
Proof.
  intros Hz.
  pose proof load_first_word as H0.
  rewrite tail_array_length.
  assert (Hzl : 0 <= zlen key) by (unfold zlen; lia).
  unfold tail_flags, tail_array in *. cbv zeta in *.
  destruct (Z.eqb_spec (zlen key) 0) as [Hz'|_]; [contradiction|].
  destruct (Z.leb_spec (zlen key) t_hop.max_hop) as [Hle|Hgt].
  - unfold t_hop.max_hop in Hle. cbn [nth] in H0.
    cbn [truncate_scan]. change (0 <? 2 - 1) with true. cbv iota. hb'.
    cbv beta iota zeta. hb'.
    unfold mbind at 1. rewrite H0. cbv beta iota zeta.
    rewrite get_new_flags_make by (try assumption; unfold eos_bit; lia).
    change (0 + 1 <? 2 - 1) with false. cbv iota.
    change (0 + 1 =? 2 - 1) with true. hb'. reflexivity.
  - unfold t_hop.max_hop in Hgt. cbn [nth] in H0.
    destruct (t_skip_make_fields (zlen key) eos_bit) as [Esl Esf].
    rewrite Z.mod_small in Esl by lia.
    change (eos_bit mod 32) with eos_bit in Esf.
    assert (Hn : 0 <= t_skip.num_skip_nodes (zlen key)).
    { unfold t_skip.num_skip_nodes. apply Z.div_pos; lia. }
    cbn [truncate_scan].
    destruct (Z.ltb_spec 0 (2 + t_skip.num_skip_nodes (zlen key) - 1)); [|lia].
    hb'. cbv beta iota zeta. hb'.
    unfold mbind at 1. rewrite H0. cbv beta iota zeta. rewrite Esl, Esf.
    destruct (Z.ltb_spec (0 + (1 + t_skip.num_skip_nodes (zlen key)))
                         (2 + t_skip.num_skip_nodes (zlen key) - 1)); [lia|].
    destruct (Z.eqb_spec (0 + (1 + t_skip.num_skip_nodes (zlen key)))
                         (2 + t_skip.num_skip_nodes (zlen key) - 1)); [|lia].
    hb'. reflexivity.
Qed.

(** Following the key down the array ends at its [EOS], with the key
    used up. *)
Lemma remove_prefix_loop_reaches_eos (fuel : nat) (ref counter : Z)
      (path : list remove_path_entry) :
  remove_prefix_loop (S (S fuel))
    (mk_cursor ref nn (tail_flags key) nn (tail_flags key) key) counter path h'
  = (b <- rebuild_without_eos (if zlen key =? 0 then S fuel else fuel)
            ref nn (tail_flags key)
            (zlen (tail_array key value) - 1) counter path ;;
     mret (Done b)) h'.
Proof.
  pose proof load_first_word as H0.
  rewrite tail_array_length.
  assert (Hzl : 0 <= zlen key) by (unfold zlen; lia).
  unfold tail_flags, tail_array in *. cbv zeta in *.
  destruct (Z.eqb_spec (zlen key) 0) as [Hz|Hz].
  - apply zlen_nil_iff in Hz. subst key.
    cbn [remove_prefix_loop c_flags_now]. hb'.
    unfold at_end. cbn [c_key c_ref c_node_start c_initial_flags].
    unfold eos_position. cbn [c_run c_node_start].
    replace (ptr_diff nn nn) with (1 - 1); [reflexivity|].
    unfold ptr_diff. replace (nn - nn) with 0 by lia. reflexivity.
  - destruct (Z.leb_spec (zlen key) t_hop.max_hop) as [Hle|Hgt].
    + unfold t_hop.max_hop in Hle. cbn [nth] in H0.
      cbn [remove_prefix_loop c_flags_now]. hb'.
      unfold mbind at 1. unfold remove_run at 1. cbn [c_flags_now c_run c_key]. hb'.
      unfold mbind at 1.
      unfold idx in H0. rewrite Z.mul_0_r, Z.add_0_r in H0. rewrite H0.
      rewrite get_hop_sz_make by (try assumption; unfold eos_bit; lia).
      destruct (Z.ltb_spec (zlen key) (zlen key)); [lia|].
      unfold mbind at 1, assert, t_hop.matches_ok.
      rewrite get_hop_sz_make by (try assumption; unfold eos_bit; lia).
      unfold from_char_len_ok.
      destruct (Z.ltb_spec 0 (zlen key)); [|lia].
      destruct (Z.ltb_spec (zlen key) 8); [|lia].
      cbn [andb]. rewrite orb_true_r. unfold mret at 1. cbv beta iota.
      assert (Em : t_hop.matches (t_hop.make key (zlen key) eos_bit) key (zlen key) = true).
      { apply matches_make_iff; try assumption; try (unfold eos_bit; lia).
        split; [lia|reflexivity]. }
      rewrite Em. cbn [negb]. unfold mret at 1. cbv beta iota.
      rewrite get_new_flags_make by (try assumption; unfold eos_bit; lia).
      unfold move. cbn [c_ref c_node_start c_initial_flags c_flags_now].
      hb'. unfold at_end. cbn [c_key c_ref c_node_start c_initial_flags].
      rewrite skipn_all2 by (unfold zlen; lia).
      unfold eos_position. cbn [c_run c_node_start].
      rewrite ptr_diff_idx. reflexivity.
    + unfold t_hop.max_hop in Hgt. cbn [nth] in H0.
      destruct (t_skip_make_fields (zlen key) eos_bit) as [Esl Esf].
      rewrite Z.mod_small in Esl by lia.
      change (eos_bit mod 32) with eos_bit in Esf.
      cbn [remove_prefix_loop c_flags_now]. hb'.
      unfold mbind at 1. unfold remove_run at 1. cbn [c_flags_now c_run c_key]. hb'.
      unfold mbind at 1.
      unfold idx in H0. rewrite Z.mul_0_r, Z.add_0_r in H0. rewrite H0.
      cbv zeta. rewrite Esl, Esf.
      destruct (Z.ltb_spec (zlen key) (zlen key)); [lia|].
      unfold mbind at 1, do_find_skip, mbind at 1, read_bytes.
      destruct (Z.ltb_spec (zlen key) 0); [lia|].
      unfold mbind at 1.
      set (chunks := chunks8 (List.length key) key) in *.
      assert (Hcl : zlen chunks = t_skip.num_skip_nodes (zlen key))
        by (apply chunks8_length; lia).
      replace (Z.to_nat ((zlen key + 7) / 8)) with (List.length chunks)
        by (unfold t_skip.num_skip_nodes, zlen in *; lia).
      rewrite load_n_reads.
      2:{ intros i Hi.
          replace (idx (idx nn 1) (Z.of_nat i)) with (idx nn (Z.of_nat (S i)))
            by (unfold idx; lia).
          rewrite Harr by (cbn [List.length]; rewrite length_app; cbn [List.length]; lia).
          cbn [nth]. rewrite app_nth1 by exact Hi. reflexivity. }
      unfold mret at 1 2. cbv beta iota.
      replace (Z.to_nat (zlen key)) with (List.length key) by (unfold zlen; lia).
      unfold chunks. rewrite chunks8_decode by (try exact Hk; lia).
      rewrite firstn_all, bytes_eqb_refl. cbn [negb].
      unfold mret at 1. cbv beta iota.
      unfold move. cbn [c_ref c_node_start c_initial_flags c_flags_now].
      hb'. unfold at_end. cbn [c_key c_ref c_node_start c_initial_flags].
      rewrite skipn_all.
      unfold eos_position. cbn [c_run c_node_start].
      replace (ptr_diff (idx (idx nn 1) (t_skip.num_skip_nodes (zlen key))) nn)
        with (2 + t_skip.num_skip_nodes (zlen key) - 1); [reflexivity|].
      unfold ptr_diff, idx.
      replace (nn + 8 * 1 + 8 * t_skip.num_skip_nodes (zlen key) - nn)
        with ((2 + t_skip.num_skip_nodes (zlen key) - 1) * 8) by lia.
      symmetry. apply Z.div_mul. lia.
Qed.

End Array.

Lemma free_and_reset (fuel : nat) (this nn n hw : Z) (h' : heap) :
  nn <> 0 -> this + 8 < nn ->
  mem h' !! ktrie_base.head_ this = Some hw ->
  mem h' !! ktrie_base.cnt_ this = Some 1 ->
  (node.deallocate nn n ;;;
   null_ref (ktrie_base.head_ this) ;;;
   after_free fuel (ktrie_base.cnt_ this) []) h'
  = Ok true (erased_heap this nn n hw h').
Proof.
  intros Hnn Hthis Hhead Hcnt.
  unfold mbind at 1, node.deallocate.
  destruct (Z.eqb_spec nn 0) as [E|_]; [contradiction|].
  unfold mbind at 1, null_ref, mbind at 1, load. cbn [mem].
  rewrite unmap_below by (unfold ktrie_base.head_; lia). rewrite Hhead.
  unfold store. cbn [mem brk budget].
  rewrite unmap_below by (unfold ktrie_base.head_; lia). rewrite Hhead.
  unfold after_free, mbind at 1, decrement, mbind at 1, load. cbn [mem].
  rewrite lookup_insert_ne by (unfold ktrie_base.head_, ktrie_base.cnt_, idx; lia).
  rewrite unmap_below by (unfold ktrie_base.cnt_, idx; lia). rewrite Hcnt.
  unfold store. cbn [mem brk budget].
  rewrite lookup_insert_ne by (unfold ktrie_base.head_, ktrie_base.cnt_, idx; lia).
  rewrite unmap_below by (unfold ktrie_base.cnt_, idx; lia). rewrite Hcnt.
  reflexivity.
Qed.

Lemma rebuild_only_key (fuel : nat) (this nn value hw : Z) (key : list Z) (h' : heap) :
  Forall is_byte key -> zlen key < 2 ^ 59 ->
  (forall i, (i < List.length (tail_array key value))%nat ->
             mem h' !! idx nn (Z.of_nat i) = Some (nth i (tail_array key value) 0)) ->
  nn <> 0 -> this + 8 < nn ->
  mem h' !! ktrie_base.head_ this = Some hw ->
  mem h' !! ktrie_base.cnt_ this = Some 1 ->
  rebuild_without_eos (S (S fuel)) (ktrie_base.head_ this) nn (tail_flags key)
                      (zlen (tail_array key value) - 1) (ktrie_base.cnt_ this) [] h'
  = Ok true (erased_heap this nn (alloc_size (zlen (tail_array key value))) hw h').
Proof.
  intros Hk Hsz Harr Hnn Hthis Hhead Hcnt.
  unfold rebuild_without_eos, mbind at 1.
  rewrite (node_array_sz_first_key nn value key h' Hk Hsz Harr).
  pose proof (tail_array_length key value) as Hlen.
  set (len := zlen (tail_array key value)) in *.
  destruct (Z.eqb_spec len 1) as [E1|E1].
  { apply free_and_reset; assumption. }
  assert (Hz : zlen key <> 0).
  { intros E. rewrite E in Hlen. cbn in Hlen. contradiction. }
  assert (Hn : 0 <= t_skip.num_skip_nodes (zlen key)).
  { unfold t_skip.num_skip_nodes. apply Z.div_pos; unfold zlen; lia. }
  assert (Hl2 : 2 <= len).
  { rewrite Hlen. destruct (zlen key =? 0); [lia|].
    destruct (zlen key <=? t_hop.max_hop); lia. }
  cbv zeta.
  replace (len - (len - 1) - 1) with 0 by lia.
  change (0 =? 0) with true.
  destruct (Z.gtb_spec (len - 1) 0) as [_|Hle]; [|lia].
  cbn [andb]. unfold mbind at 1.
  unfold len.
  rewrite (truncate_scan_first_key nn value key h' Hk Hsz Harr) by exact Hz.
  change (0 + 0 =? 0) with true. cbv iota.
  apply free_and_reset; assumption.
Qed.

Lemma erase_only_key (fuel : nat) (this nn value hw : Z) (key : list Z) (h' : heap) :
  (5 <= fuel)%nat ->
  Forall is_byte key -> zlen key < 2 ^ 59 ->
  (forall i, (i < List.length (tail_array key value))%nat ->
             mem h' !! idx nn (Z.of_nat i) = Some (nth i (tail_array key value) 0)) ->
  nn <> 0 -> this + 8 < nn ->
  mem h' !! ktrie_base.head_ this = Some hw ->
  dirty_high_pointer.get_both hw = (nn, tail_flags key) ->
  mem h' !! ktrie_base.cnt_ this = Some 1 ->
  ktrie_base.erase_internal fuel 0 this key h'
  = Ok 1 (erased_heap this nn (alloc_size (zlen (tail_array key value))) hw h').
Proof.
  intros Hfuel Hk Hsz Harr Hnn Hthis Hhead Hboth Hcnt.
  destruct fuel as [|[|[|[|[|fuel]]]]]; try lia.
  unfold ktrie_base.erase_internal, mbind at 1.
  rewrite (load_mapped _ 1) by exact Hcnt.
  change (1 =? 0) with false. cbv iota.
  unfold mbind at 1, remove_loop, mbind at 1.
  rewrite (load_mapped _ hw) by exact Hhead. rewrite Hboth.
  destruct (Z.eqb_spec nn 0) as [E|_]; [contradiction|].
  cbn [remove_descend]. change (0 >? 0) with false. cbv iota.
  unfold mbind at 1, remove_var_prefix, mbind at 1.
  rewrite (remove_prefix_loop_reaches_eos nn value key h' Hk Hsz Harr).
  unfold mbind at 1.
  destruct (zlen key =? 0);
    rewrite (rebuild_only_key _ this nn value hw key h') by assumption;
    reflexivity.
Qed.

Lemma first_key_heap_other this key value w h a :
  a < brk h -> a <> ktrie_base.head_ this -> a <> ktrie_base.cnt_ this ->
  mem (first_key_heap this key value w h) !! a = mem h !! a.
Proof.
  intros Ha H1 H2. unfold first_key_heap. cbv zeta. cbn [mem].
  rewrite lookup_insert_ne by congruence.
  rewrite write_words_outside by (intros i Hi; unfold idx; lia).
  rewrite lookup_insert_ne by congruence.
  apply fill_below, Ha.
Qed.

(** X24: inserting a key into an empty trie and erasing it again leaves
    an empty trie: the erase returns 1, the size is 0, no key is found,
    every node that was allocated has been freed, and no other word of
    memory has changed. *)
Theorem insert_then_erase_restores_the_empty_trie
        (fuel : nat) (this value w : Z) (key : list Z) (h : heap) :
  (5 <= fuel)%nat ->
  Forall is_byte key -> zlen key < 2 ^ 59 ->
  mem h !! ktrie_base.cnt_ this = Some 0 ->
  mem h !! ktrie_base.head_ this = Some w ->
  budget h <> Some 0%nat ->
  this + 8 < brk h -> 0 < brk h < 2 ^ 59 ->
  exists p h1 h2 root,
    ktrie_base.insert_internal fuel 0 this key value h = Ok (p, true) h1
    /\ ktrie_base.erase_internal fuel 0 this key h1 = Ok 1 h2
    /\ ktrie_base.size this h2 = Ok 0 h2
    /\ (forall key', ktrie_base.find_internal fuel 0 this key' h2 = Ok 0 h2)
    /\ mem h2 !! ktrie_base.head_ this = Some root
    /\ dirty_high_pointer.get_both root = (0, 0)
    /\ (forall i, 0 <= i -> idx (brk h) i + 8 < brk h1 ->
                  mem h2 !! idx (brk h) i = None)
    /\ (forall a, a < brk h -> a <> ktrie_base.head_ this ->
                  a <> ktrie_base.cnt_ this -> mem h2 !! a = mem h !! a).
Proof.
  intros Hfuel Hk Hsz Hcnt Hhead Hbudget Hthis Hbrk.
  set (arr := tail_array key value).
  set (hw := dirty_high_pointer.set_byte
               (dirty_high_pointer.set_ptr w (brk h)) (tail_flags key)).
  set (h1 := first_key_heap this key value w h).
  exists (idx (brk h) (zlen arr - 1)), h1.
  exists (erased_heap this (brk h) (alloc_size (zlen arr)) hw h1).
  exists (dirty_high_pointer.set_byte (dirty_high_pointer.set_ptr hw 0) 0).
  assert (Ecnt : mem (erased_heap this (brk h) (alloc_size (zlen arr)) hw h1)
                 !! ktrie_base.cnt_ this = Some 0)
    by (unfold erased_heap; cbn [mem]; apply lookup_insert_eq).
  split; [apply insert_into_empty; assumption|].
  split.
  { apply (erase_only_key fuel this (brk h) value hw key h1); try assumption;
      try lia.
    - intros i Hi. apply first_key_heap_array; assumption.
    - apply first_key_heap_head, Hthis.
    - apply get_both_of_new_root; [lia|apply tail_flags_small].
    - apply first_key_heap_cnt. }
  split; [apply load_mapped, Ecnt|].
  split; [intros key'; apply find_internal_of_empty, Ecnt|].
  split.
  { unfold erased_heap. cbn [mem].
    rewrite lookup_insert_ne by (unfold ktrie_base.cnt_, ktrie_base.head_, idx; lia).
    apply lookup_insert_eq. }
  split; [apply get_both_of_new_root; lia|].
  split.
  - intros i Hi Hlt. unfold erased_heap. cbn [mem].
    rewrite !lookup_insert_ne
      by (unfold ktrie_base.cnt_, ktrie_base.head_, idx; lia).
    unfold h1, first_key_heap in Hlt. cbv zeta in Hlt. cbn [brk] in Hlt.
    rewrite <- (Z2Nat.id i) by exact Hi.
    apply unmap_inside. fold arr in Hlt. unfold idx in Hlt. lia.
  - intros a Ha H1 H2. unfold erased_heap. cbn [mem].
    rewrite !lookup_insert_ne by congruence.
    rewrite unmap_below by exact Ha.
    apply first_key_heap_other; assumption.
Qed.

Lemma insert_then_erase_witness :
  exists p h1 h2 root,
    ktrie_base.insert_internal 8 0 4096 (key_of_string "only") 7
      (heap_after (ktrie_base.construct empty_heap) empty_heap) = Ok (p, true) h1
    /\ ktrie_base.erase_internal 8 0 4096 (key_of_string "only") h1 = Ok 1 h2
    /\ ktrie_base.size 4096 h2 = Ok 0 h2
    /\ (forall key', ktrie_base.find_internal 8 0 4096 key' h2 = Ok 0 h2)
    /\ mem h2 !! ktrie_base.head_ 4096 = Some root
    /\ dirty_high_pointer.get_both root = (0, 0)
    /\ (forall i, 0 <= i ->
                  idx (brk (heap_after (ktrie_base.construct empty_heap) empty_heap)) i + 8
                  < brk h1 ->
                  mem h2 !! idx (brk (heap_after (ktrie_base.construct empty_heap)
                                                 empty_heap)) i = None)
    /\ (forall a, a < brk (heap_after (ktrie_base.construct empty_heap) empty_heap) ->
                  a <> ktrie_base.head_ 4096 -> a <> ktrie_base.cnt_ 4096 ->
                  mem h2 !! a
                  = mem (heap_after (ktrie_base.construct empty_heap) empty_heap) !! a).
Proof.
  apply (insert_then_erase_restores_the_empty_trie 8 4096 7 0 (key_of_string "only")
           (heap_after (ktrie_base.construct empty_heap) empty_heap)).
  - lia.
  - repeat constructor; unfold is_byte; lia.
  - vm_compute. reflexivity.
  - reflexivity.
  - reflexivity.
  - discriminate.
  - vm_compute. reflexivity.
  - vm_compute. split; reflexivity.
Defined.

End OnlyKey.

(** ** Navigation over a single key *)

Section SingleKeyNavigation.
Import nav_helper.

Ltac hb2 :=
  repeat match goal with
         | |- context [has_bit ?a ?b] =>
             let v := eval vm_compute in (has_bit a b) in
             match v with
             | true => change (has_bit a b) with true
             | false => change (has_bit a b) with false
             end
         end;
  cbn [andb orb negb].

Lemma bytes_lt_asym (a b : list Z) : bytes_lt a b = true -> bytes_lt b a = false.
Proof.
  revert b; induction a as [|x a IH]; intros [|y b]; cbn [bytes_lt]; try discriminate;
    try reflexivity.
  intros H. apply orb_true_iff in H. apply orb_false_iff.
  destruct H as [H|H].
  - apply Z.ltb_lt in H. split; [apply Z.ltb_ge; lia|].
    destruct (Z.eqb_spec y x); [lia|reflexivity].
  - apply andb_true_iff in H. destruct H as [E H]. apply Z.eqb_eq in E. subst y.
    split; [apply Z.ltb_irrefl|]. rewrite Z.eqb_refl. apply IH, H.
Qed.

Lemma bytes_lt_irrefl (a : list Z) : bytes_lt a a = false.
Proof.
  induction a as [|x a IH]; [reflexivity|].
  cbn [bytes_lt]. rewrite Z.ltb_irrefl, Z.eqb_refl. exact IH.
Qed.

Lemma bytes_lt_extend (a rest : list Z) : rest <> [] -> bytes_lt a (a ++ rest) = true.
Proof.
  intros H. induction a as [|x a IH]; cbn [app bytes_lt].
  - destruct rest; [contradiction|reflexivity].
  - rewrite Z.ltb_irrefl, Z.eqb_refl. exact IH.
Qed.

Lemma cmp_run_spec (key' str : list Z) :
  match cmp_run key' str with
  | KeyShort | KeyLess => bytes_lt key' str = true
  | KeyGreater => bytes_lt str key' = true
  | KeyMatches => key' = str ++ skipn (List.length str) key'
  end.
Proof.
  revert key'; induction str as [|hc str IH]; intros key'.
  - destruct key'; reflexivity.
  - destruct key' as [|kc key']; [reflexivity|]. cbn [cmp_run].
    destruct (Z.ltb_spec kc hc) as [Hlt|Hge].
    + cbn [bytes_lt]. apply orb_true_iff. left. apply Z.ltb_lt, Hlt.
    + destruct (Z.gtb_spec kc hc) as [Hgt|Hle].
      * cbn [bytes_lt]. apply orb_true_iff. left. apply Z.ltb_lt. lia.
      * assert (kc = hc) by lia. subst kc. specialize (IH key').
        destruct (cmp_run key' str); cbn [bytes_lt List.length skipn app];
          rewrite ?Z.ltb_irrefl, ?Z.eqb_refl; cbn [orb andb]; try exact IH.
        f_equal. exact IH.
Qed.

(** Where a key stands relative to the only key of the trie. *)
Lemma cmp_run_order (key' key : list Z) :
  match cmp_run key' key with
  | KeyShort | KeyLess => bytes_lt key' key = true /\ bytes_lt key key' = false
  | KeyGreater => bytes_lt key' key = false /\ bytes_lt key key' = true
  | KeyMatches =>
      key' = key ++ skipn (List.length key) key'
      /\ bytes_lt key' key = false
      /\ bytes_lt key key'
         = match skipn (List.length key) key' with [] => false | _ => true end
  end.
Proof.
  pose proof (cmp_run_spec key' key) as H.
  destruct (cmp_run key' key).
  - split; [exact H|apply bytes_lt_asym, H].
  - split; [exact H|apply bytes_lt_asym, H].
  - split; [apply bytes_lt_asym, H|exact H].
  - split; [exact H|].
    destruct (skipn (List.length key) key') as [|c rest] eqn:E.
    + rewrite app_nil_r in H. subst key'. rewrite bytes_lt_irrefl. split; reflexivity.
    + assert (Hlt : bytes_lt key key' = true)
        by (rewrite H; apply bytes_lt_extend; discriminate).
      split; [apply bytes_lt_asym, Hlt|exact Hlt].
Qed.

Section Array.
Variables (nn value : Z) (key : list Z) (h' : heap).
Hypothesis Hk : Forall is_byte key.
Hypothesis Hsz : zlen key < 2 ^ 59.
Hypothesis Hnn : 0 < nn.
Hypothesis Harr :
  forall i, (i < List.length (tail_array key value))%nat ->
            mem h' !! idx nn (Z.of_nat i) = Some (nth i (tail_array key value) 0).

Local Abbreviation p := (idx nn (zlen (tail_array key value) - 1)).

Lemma read_run_first_key :
  zlen key <> 0 ->
  read_run nn (tail_flags key) h' = Ok (key, eos_bit, p) h'.
Proof.
  intros Hz.
  pose proof (load_first_word nn value key h' Harr) as H0.
  unfold idx in H0. rewrite Z.mul_0_r, Z.add_0_r in H0.
  rewrite tail_array_length.
  assert (Hzl : 0 <= zlen key) by (unfold zlen; lia).
  unfold tail_flags, tail_array in *. cbv zeta in *.
  destruct (Z.eqb_spec (zlen key) 0) as [Hz'|_]; [contradiction|].
  destruct (Z.leb_spec (zlen key) t_hop.max_hop) as [Hle|Hgt].
  - unfold t_hop.max_hop in Hle. cbn [nth] in H0.
    unfold read_run. hb2. unfold mbind. rewrite H0.
    rewrite to_string_make, get_new_flags_make
      by (try assumption; unfold eos_bit; lia).
    rewrite firstn_all2 by (unfold zlen; lia). reflexivity.
  - unfold t_hop.max_hop in Hgt. cbn [nth] in H0.
    destruct (t_skip_make_fields (zlen key) eos_bit) as [Esl Esf].
    rewrite Z.mod_small in Esl by lia.
    change (eos_bit mod 32) with eos_bit in Esf.
    unfold read_run. hb2. unfold mbind at 1. rewrite H0. cbv zeta.
    rewrite Esl, Esf.
    set (chunks := chunks8 (List.length key) key) in *.
    assert (Hcl : zlen chunks = t_skip.num_skip_nodes (zlen key))
      by (apply chunks8_length; lia).
    assert (Hread : forall i, (i < List.length chunks)%nat ->
              mem h' !! idx (idx nn 1) (Z.of_nat i) = Some (nth i chunks 0)).
    { intros i Hi.
      replace (idx (idx nn 1) (Z.of_nat i)) with (idx nn (Z.of_nat (S i)))
        by (unfold idx; lia).
      rewrite Harr by (cbn [List.length]; rewrite length_app; cbn [List.length]; lia).
      cbn [nth]. rewrite app_nth1 by exact Hi. reflexivity. }
    assert (Hpos : 0 < t_skip.num_skip_nodes (zlen key)).
    { unfold t_skip.num_skip_nodes.
      apply Z.div_str_pos. lia. }
    unfold mbind at 1, skip_bytes, mbind at 1, load_words.
    destruct (Z.leb_spec (t_skip.num_skip_nodes (zlen key)) 0); [lia|].
    unfold mbind at 1.
    rewrite (load_mapped _ (nth (List.length chunks - 1) chunks 0)).
    2:{ replace (t_skip.num_skip_nodes (zlen key) - 1)
          with (Z.of_nat (List.length chunks - 1)) by (unfold zlen in *; lia).
        apply Hread. unfold zlen in *. lia. }
    replace (Z.to_nat (t_skip.num_skip_nodes (zlen key))) with (List.length chunks)
      by (unfold zlen in *; lia).
    rewrite load_n_reads by exact Hread.
    unfold mret. 
    replace (Z.to_nat (zlen key)) with (List.length key) by (unfold zlen; lia).
    unfold chunks. rewrite chunks8_decode by (try exact Hk; lia).
    do 2 f_equal. f_equal. lia.
Qed.


(** The array read as a run: for the empty key nothing is read. *)
Lemma p_of_empty_key : zlen key = 0 -> p = nn.
Proof.
  intros Hz. rewrite tail_array_length.
  rewrite Hz. change (0 =? 0) with true. cbv iota. unfold idx. lia.
Qed.

Lemma tail_flags_cases :
  (zlen key = 0 /\ tail_flags key = eos_bit)
  \/ (zlen key <> 0 /\ (tail_flags key = hop_bit \/ tail_flags key = skip_bit)).
Proof.
  unfold tail_flags. cbv zeta.
  destruct (Z.eqb_spec (zlen key) 0); [left; split; [assumption|reflexivity]|].
  right. split; [assumption|].
  destruct (zlen key <=? t_hop.max_hop); [left|right]; reflexivity.
Qed.

Lemma key_nil_iff : zlen key = 0 <-> key = [].
Proof. apply zlen_nil_iff. Qed.

Lemma next_prefix_at_eos (fuel : nat) (or_equal : bool) (rest prefix : list Z)
      (run : Z) (h : heap) :
  next_prefix_loop (S fuel) or_equal (mk_search rest prefix run eos_bit) h
  = Ok (match rest with
        | [] => if or_equal then Return (Some (prefix, run)) else Backtrack
        | _ => AtBranch (mk_search rest prefix (idx run 1) eos_bit)
        end) h.
Proof.
  cbn [next_prefix_loop]. hb2.
  destruct rest as [|c rest].
  - change (zlen [] =? 0) with true. cbv iota.
    destruct or_equal; [reflexivity|].
    change (clear_bits eos_bit eos_bit) with 0. hb2. reflexivity.
  - replace (zlen (c :: rest) =? 0) with false
      by (symmetry; apply Z.eqb_neq; unfold zlen; cbn [List.length]; lia).
    cbv iota. reflexivity.
Qed.

Lemma min_current_at_eos (fuel : nat) (prefix : list Z) (run : Z) (h : heap) :
  get_min_from_current (S fuel) run eos_bit prefix h = Ok (Some (prefix, run)) h.
Proof.
  unfold get_min_from_current. cbn [min_current_loop]. hb2. reflexivity.
Qed.

Lemma next_prefix_first_key (fuel : nat) (or_equal : bool) (key' : list Z) :
  next_prefix_loop (S (S fuel)) or_equal (mk_search key' [] nn (tail_flags key)) h'
  = Ok (match cmp_run key' key with
        | KeyShort | KeyLess => Return (Some (key, p))
        | KeyGreater => Backtrack
        | KeyMatches =>
            match skipn (List.length key) key' with
            | [] => if or_equal then Return (Some (key, p)) else Backtrack
            | rest => AtBranch (mk_search rest key (idx p 1) eos_bit)
            end
        end) h'.
Proof.
  destruct tail_flags_cases as [[Hz Hf]|[Hz Hf]].
  - rewrite Hf, next_prefix_at_eos. rewrite (p_of_empty_key Hz).
    apply key_nil_iff in Hz. rewrite Hz.
    replace (cmp_run key' []) with KeyMatches by (destruct key'; reflexivity).
    cbn [List.length skipn]. destruct key'; reflexivity.
  - pose proof (read_run_first_key Hz) as Hr.
    pose proof (cmp_run_order key' key) as Hc.
    assert (Hstep :
      next_prefix_loop (S (S fuel)) or_equal (mk_search key' [] nn (tail_flags key)) h'
      = (r <- read_run nn (tail_flags key) ;;
         let '(str, new_flags, run) := r in
         match cmp_run key' str with
         | KeyShort | KeyLess =>
             res <- get_min_from_current (S fuel) run new_flags ([] ++ str) ;;
             mret (Return res)
         | KeyGreater => mret Backtrack
         | KeyMatches =>
             next_prefix_loop (S fuel) or_equal
               (mk_search (skipn (List.length str) key') ([] ++ str) run new_flags)
         end) h').
    { destruct Hf as [Hf|Hf]; rewrite Hf; cbn [next_prefix_loop]; hb2; reflexivity. }
    rewrite Hstep. unfold mbind at 1. rewrite Hr. cbv beta iota. cbn [app].
    destruct (cmp_run key' key).
    + unfold mbind. rewrite min_current_at_eos. reflexivity.
    + unfold mbind. rewrite min_current_at_eos. reflexivity.
    + reflexivity.
    + rewrite next_prefix_at_eos.
      destruct (skipn (List.length key) key'); reflexivity.
Qed.

Lemma find_next_first_key (fuel : nat) (or_equal : bool) (key' : list Z) :
  (3 <= fuel)%nat ->
  find_next_impl_static fuel key' or_equal nn (tail_flags key) h'
  = Ok (if (if or_equal then bytes_le key' key else bytes_lt key' key)
        then Some (key, p) else None) h'.
Proof.
  intros Hfuel.
  destruct fuel as [|[|[|fuel]]]; try lia.
  unfold find_next_impl_static.
  change (find_next_loop (S (S (S fuel))) or_equal
            (mk_search key' [] nn (tail_flags key)) [] h')
    with ((v <- next_prefix_loop (S (S fuel)) or_equal
                  (mk_search key' [] nn (tail_flags key)) ;;
           match v with
           | Return r => mret r
           | Backtrack => backtrack (S (S fuel)) []
           | AtBranch (mk_search key0 prefix run flags) =>
               match key0 with
               | [] =>
                   if has_bit flags branch_bits
                   then get_min_from_current (S (S fuel)) run flags prefix
                   else backtrack (S (S fuel)) []
               | c :: key1 =>
                   if negb (has_bit flags branch_bits) then backtrack (S (S fuel)) []
                   else
                     let uc := wrap8 c in
                     children <- branch_children run flags ;;
                     let '(found_idx, next_greater_idx) := scan_next children uc 0 in
                     if found_idx >=? 0 then
                       let frame := mk_frame nn (tail_flags key) prefix
                                             found_idx children in
                       let stack := [frame] in
                       w <- load (snd (child_at children found_idx)) ;;
                       let '(child_run, child_flags) := dirty_high_pointer.get_both w in
                       if child_run =? 0 then backtrack (S (S fuel)) stack
                       else
                         find_next_loop (S (S fuel)) or_equal
                           (mk_search key1 (prefix ++ [c]) child_run child_flags) stack
                     else if next_greater_idx >=? 0 then
                       let gc := fst (child_at children next_greater_idx) in
                       w <- load (snd (child_at children next_greater_idx)) ;;
                       let '(child_run, child_flags) := dirty_high_pointer.get_both w in
                       if negb (child_run =? 0)
                       then get_min_from (S (S fuel)) child_run child_flags (prefix ++ [gc])
                       else backtrack (S (S fuel)) []
                     else backtrack (S (S fuel)) []
               end
           end) h').
  unfold mbind at 1. rewrite next_prefix_first_key.
  pose proof (cmp_run_order key' key) as Hc. unfold bytes_le.
  destruct (cmp_run key' key).
  - destruct Hc as [H1 H2]. rewrite H1, H2. destruct or_equal; reflexivity.
  - destruct Hc as [H1 H2]. rewrite H1, H2. destruct or_equal; reflexivity.
  - destruct Hc as [H1 H2]. rewrite H1, H2. destruct or_equal; reflexivity.
  - destruct Hc as (_ & H1 & H2). rewrite H1, H2.
    destruct (skipn (List.length key) key') as [|c rest].
    + destruct or_equal; reflexivity.
    + hb2. destruct or_equal; reflexivity.
Qed.


Lemma prev_prefix_at_eos (fuel : nat) (or_equal : bool) (rest prefix : list Z)
      (run : Z) (h : heap) :
  prev_prefix_loop (S fuel) or_equal (mk_search rest prefix run eos_bit) None h
  = Ok (match rest with
        | [] => (Return (if or_equal then Some (prefix, run) else None), None)
        | _ => (AtBranch (mk_search rest prefix (idx run 1) eos_bit),
                Some (prefix, run))
        end) h.
Proof.
  cbn [prev_prefix_loop]. hb2.
  destruct rest as [|c rest].
  - change (zlen [] =? 0) with true. cbv iota.
    destruct or_equal; reflexivity.
  - replace (zlen (c :: rest) =? 0) with false
      by (symmetry; apply Z.eqb_neq; unfold zlen; cbn [List.length]; lia).
    cbv iota. reflexivity.
Qed.

Lemma get_max_at_eos (fuel : nat) (prefix : list Z) (run : Z) (h : heap) :
  run <> 0 ->
  get_max_recursive (S (S fuel)) run eos_bit prefix h = Ok (Some (prefix, run)) h.
Proof.
  intros Hrun. cbn [get_max_recursive max_prefix_loop].
  destruct (Z.eqb_spec run 0) as [|_]; [contradiction|].
  hb2. reflexivity.
Qed.

Lemma p_nonzero : p <> 0.
Proof.
  rewrite tail_array_length.
  assert (0 < t_skip.num_skip_nodes (zlen key) \/ zlen key <= t_hop.max_hop).
  { destruct (Z.leb_spec (zlen key) t_hop.max_hop); [right; assumption|left].
    unfold t_skip.num_skip_nodes. apply Z.div_str_pos.
    unfold t_hop.max_hop in *. lia. }
  unfold idx.
  destruct (zlen key =? 0); [lia|].
  destruct (Z.leb_spec (zlen key) t_hop.max_hop); lia.
Qed.

Lemma prev_prefix_first_key (fuel : nat) (or_equal : bool) (key' : list Z) :
  prev_prefix_loop (S (S (S fuel))) or_equal
                   (mk_search key' [] nn (tail_flags key)) None h'
  = Ok (match cmp_run key' key with
        | KeyShort | KeyLess => (Return None, None)
        | KeyGreater => (Return (Some (key, p)), None)
        | KeyMatches =>
            match skipn (List.length key) key' with
            | [] => (Return (if or_equal then Some (key, p) else None), None)
            | rest => (AtBranch (mk_search rest key (idx p 1) eos_bit), Some (key, p))
            end
        end) h'.
Proof.
  destruct tail_flags_cases as [[Hz Hf]|[Hz Hf]].
  - rewrite Hf, prev_prefix_at_eos. rewrite (p_of_empty_key Hz).
    apply key_nil_iff in Hz. rewrite Hz.
    replace (cmp_run key' []) with KeyMatches by (destruct key'; reflexivity).
    cbn [List.length skipn]. destruct key'; reflexivity.
  - pose proof (read_run_first_key Hz) as Hr.
    assert (Hstep :
      prev_prefix_loop (S (S (S fuel))) or_equal
                       (mk_search key' [] nn (tail_flags key)) None h'
      = (r <- read_run nn (tail_flags key) ;;
         let '(str, new_flags, run) := r in
         match cmp_run key' str with
         | KeyShort | KeyLess => mret (Return None, None)
         | KeyGreater =>
             res <- get_max_recursive (S (S fuel)) run new_flags ([] ++ str) ;;
             mret (Return res, None)
         | KeyMatches =>
             prev_prefix_loop (S (S fuel)) or_equal
               (mk_search (skipn (List.length str) key') ([] ++ str) run new_flags)
               None
         end) h').
    { destruct Hf as [Hf|Hf]; rewrite Hf; cbn [prev_prefix_loop]; hb2; reflexivity. }
    rewrite Hstep. unfold mbind at 1. rewrite Hr. cbv beta iota. cbn [app].
    destruct (cmp_run key' key).
    + reflexivity.
    + reflexivity.
    + unfold mbind. rewrite get_max_at_eos by apply p_nonzero. reflexivity.
    + rewrite prev_prefix_at_eos.
      destruct (skipn (List.length key) key'); reflexivity.
Qed.

Lemma find_prev_first_key (fuel : nat) (or_equal : bool) (key' : list Z) :
  (4 <= fuel)%nat ->
  find_prev_impl_static fuel key' or_equal nn (tail_flags key) h'
  = Ok (if (if or_equal then bytes_le key key' else bytes_lt key key')
        then Some (key, p) else None) h'.
Proof.
  intros Hfuel.
  destruct fuel as [|[|[|[|fuel]]]]; try lia.
  unfold find_prev_impl_static.
  change (find_prev_loop (S (S (S (S fuel)))) or_equal
            (mk_search key' [] nn (tail_flags key)) [] None h')
    with ((vl <- prev_prefix_loop (S (S (S fuel))) or_equal
                   (mk_search key' [] nn (tail_flags key)) None ;;
           let '(v, last_less) := vl in
           match v with
           | Return r => mret r
           | Backtrack => backtrack_prev (S (S (S fuel))) [] last_less
           | AtBranch (mk_search key0 prefix run flags) =>
               match key0 with
               | [] => mret last_less
               | c :: key1 =>
                   if negb (has_bit flags branch_bits) then mret last_less
                   else
                     let uc := wrap8 c in
                     children <- branch_children run flags ;;
                     let '(found_idx, last_less_idx) := scan_prev children uc 0 (-1) in
                     if found_idx >=? 0 then
                       let frame := mk_frame nn (tail_flags key) prefix
                                             found_idx children in
                       let stack := [frame] in
                       w <- load (snd (child_at children found_idx)) ;;
                       let '(child_run, child_flags) := dirty_high_pointer.get_both w in
                       if child_run =? 0
                       then backtrack_prev (S (S (S fuel))) stack last_less
                       else
                         find_prev_loop (S (S (S fuel))) or_equal
                           (mk_search key1 (prefix ++ [c]) child_run child_flags)
                           stack last_less
                     else if last_less_idx >=? 0 then
                       let lc := fst (child_at children last_less_idx) in
                       w <- load (snd (child_at children last_less_idx)) ;;
                       let '(child_run, child_flags) := dirty_high_pointer.get_both w in
                       if negb (child_run =? 0)
                       then get_max_recursive (S (S (S fuel))) child_run child_flags
                                              (prefix ++ [lc])
                       else mret last_less
                     else mret last_less
               end
           end) h').
  unfold mbind at 1. rewrite prev_prefix_first_key.
  pose proof (cmp_run_order key' key) as Hc. unfold bytes_le.
  destruct (cmp_run key' key).
  - destruct Hc as [H1 H2]. rewrite H1, H2. destruct or_equal; reflexivity.
  - destruct Hc as [H1 H2]. rewrite H1, H2. destruct or_equal; reflexivity.
  - destruct Hc as [H1 H2]. rewrite H1, H2. destruct or_equal; reflexivity.
  - destruct Hc as (_ & H1 & H2). rewrite H1, H2.
    destruct (skipn (List.length key) key') as [|c rest].
    + destruct or_equal; reflexivity.
    + hb2. destruct or_equal; reflexivity.
Qed.

End Array.

Lemma with_root_of_one (this hw nn flags : Z) (k : Z -> Z -> M ktrie_result)
      (h : heap) :
  mem h !! ktrie_base.cnt_ this = Some 1 ->
  mem h !! ktrie_base.head_ this = Some hw ->
  dirty_high_pointer.get_both hw = (nn, flags) ->
  nn <> 0 ->
  ktrie_base.with_root this k h = k nn flags h.
Proof.
  intros Hc Hh Hb Hn. unfold ktrie_base.with_root, mbind, load.
  rewrite Hc. cbv beta iota. change (1 =? 0) with false. cbv beta iota.
  rewrite Hh. cbv beta iota. rewrite Hb.
  destruct (Z.eqb_spec nn 0); [contradiction|reflexivity].
Qed.

Lemma with_root_first_key (this value w : Z) (key : list Z) (h : heap)
      (k : Z -> Z -> M ktrie_result) :
  this + 8 < brk h -> 0 < brk h < 2 ^ 59 ->
  ktrie_base.with_root this k (first_key_heap this key value w h)
  = k (brk h) (tail_flags key) (first_key_heap this key value w h).
Proof.
  intros Hthis Hbrk.
  apply (with_root_of_one this
           (dirty_high_pointer.set_byte
              (dirty_high_pointer.set_ptr w (brk h)) (tail_flags key))).
  - apply first_key_heap_cnt.
  - apply first_key_heap_head, Hthis.
  - apply get_both_of_new_root; [lia|apply tail_flags_small].
  - lia.
Qed.

Lemma bytes_lt_nil_r (a : list Z) : bytes_lt a [] = false.
Proof. destruct a; reflexivity. Qed.

(** X25: in a trie holding one key, [first] returns that key;
    [lower_bound] of a key returns it exactly when the key is not above
    it, and [upper_bound] and [next_item] exactly when the key is below
    it; otherwise they report no element. *)
Theorem forward_navigation_over_a_single_key
        (fuel : nat) (this value w : Z) (key : list Z) (h : heap) :
  (3 <= fuel)%nat ->
  Forall is_byte key -> zlen key < 2 ^ 59 ->
  mem h !! ktrie_base.cnt_ this = Some 0 ->
  mem h !! ktrie_base.head_ this = Some w ->
  budget h <> Some 0%nat ->
  this + 8 < brk h -> 0 < brk h < 2 ^ 59 ->
  exists p h',
    ktrie_base.insert_internal fuel 0 this key value h = Ok (p, true) h'
    /\ ktrie_base.first_internal fuel this h' = Ok (Some (key, p)) h'
    /\ forall key',
         ktrie_base.lower_bound_internal fuel this key' h'
         = Ok (if bytes_le key' key then Some (key, p) else None) h'
         /\ ktrie_base.upper_bound_internal fuel this key' h'
            = Ok (if bytes_lt key' key then Some (key, p) else None) h'
         /\ ktrie_base.next_item_internal fuel this key' h'
            = Ok (if bytes_lt key' key then Some (key, p) else None) h'.
Proof.
  intros Hfuel Hk Hsz Hcnt Hhead Hbudget Hthis Hbrk.
  exists (idx (brk h) (zlen (tail_array key value) - 1)).
  exists (first_key_heap this key value w h).
  assert (Harr : forall i, (i < List.length (tail_array key value))%nat ->
            mem (first_key_heap this key value w h) !! idx (brk h) (Z.of_nat i)
            = Some (nth i (tail_array key value) 0))
    by (intros i Hi; apply first_key_heap_array; assumption).
  assert (Hnext : forall or_equal key',
            ktrie_base.with_root this (find_next_impl_static fuel key' or_equal)
                                 (first_key_heap this key value w h)
            = Ok (if (if or_equal then bytes_le key' key else bytes_lt key' key)
                  then Some (key, idx (brk h) (zlen (tail_array key value) - 1))
                  else None) (first_key_heap this key value w h)).
  { intros or_equal key'. rewrite with_root_first_key by assumption.
    apply find_next_first_key; try assumption. }
  split; [apply insert_into_empty; assumption|].
  split.
  - unfold ktrie_base.first_internal. rewrite (Hnext true []).
    unfold bytes_le. rewrite bytes_lt_nil_r. reflexivity.
  - intros key'. split; [|split].
    + apply (Hnext true key').
    + apply (Hnext false key').
    + apply (Hnext false key').
Qed.

Lemma forward_navigation_witness :
  exists p h',
    ktrie_base.insert_internal 8 0 4096 (key_of_string "only key") 7
      (heap_after (ktrie_base.construct empty_heap) empty_heap) = Ok (p, true) h'
    /\ ktrie_base.first_internal 8 4096 h' = Ok (Some (key_of_string "only key", p)) h'
    /\ forall key',
         ktrie_base.lower_bound_internal 8 4096 key' h'
         = Ok (if bytes_le key' (key_of_string "only key")
               then Some (key_of_string "only key", p) else None) h'
         /\ ktrie_base.upper_bound_internal 8 4096 key' h'
            = Ok (if bytes_lt key' (key_of_string "only key")
                  then Some (key_of_string "only key", p) else None) h'
         /\ ktrie_base.next_item_internal 8 4096 key' h'
            = Ok (if bytes_lt key' (key_of_string "only key")
                  then Some (key_of_string "only key", p) else None) h'.
Proof.
  apply (forward_navigation_over_a_single_key 8 4096 7 0 (key_of_string "only key")
           (heap_after (ktrie_base.construct empty_heap) empty_heap)).
  - lia.
  - repeat constructor; unfold is_byte; lia.
  - vm_compute. reflexivity.
  - reflexivity.
  - reflexivity.
  - discriminate.
  - vm_compute. reflexivity.
  - vm_compute. split; reflexivity.
Defined.

(** X26: in a trie holding one key, [prev_item] of a key returns the
    stored key exactly when it is below the given key, and [last], which
    searches downwards from 256 bytes 0xFF, returns the stored key exactly
    when it is not above that bound. *)
Theorem backward_navigation_over_a_single_key
        (fuel : nat) (this value w : Z) (key : list Z) (h : heap) :
  (4 <= fuel)%nat ->
  Forall is_byte key -> zlen key < 2 ^ 59 ->
  mem h !! ktrie_base.cnt_ this = Some 0 ->
  mem h !! ktrie_base.head_ this = Some w ->
  budget h <> Some 0%nat ->
  this + 8 < brk h -> 0 < brk h < 2 ^ 59 ->
  exists p h',
    ktrie_base.insert_internal fuel 0 this key value h = Ok (p, true) h'
    /\ ktrie_base.last_internal fuel this h'
       = Ok (if bytes_le key ktrie_base.max_key then Some (key, p) else None) h'
    /\ forall key',
         ktrie_base.prev_item_internal fuel this key' h'
         = Ok (if bytes_lt key key' then Some (key, p) else None) h'.
Proof.
  intros Hfuel Hk Hsz Hcnt Hhead Hbudget Hthis Hbrk.
  exists (idx (brk h) (zlen (tail_array key value) - 1)).
  exists (first_key_heap this key value w h).
  assert (Harr : forall i, (i < List.length (tail_array key value))%nat ->
            mem (first_key_heap this key value w h) !! idx (brk h) (Z.of_nat i)
            = Some (nth i (tail_array key value) 0))
    by (intros i Hi; apply first_key_heap_array; assumption).
  assert (Hprev : forall or_equal key',
            ktrie_base.with_root this (find_prev_impl_static fuel key' or_equal)
                                 (first_key_heap this key value w h)
            = Ok (if (if or_equal then bytes_le key key' else bytes_lt key key')
                  then Some (key, idx (brk h) (zlen (tail_array key value) - 1))
                  else None) (first_key_heap this key value w h)).
  { intros or_equal key'. rewrite with_root_first_key by assumption.
    apply find_prev_first_key; try assumption; lia. }
  split; [apply insert_into_empty; assumption|].
  split.
  - apply (Hprev true ktrie_base.max_key).
  - intros key'. apply (Hprev false key').
Qed.

Lemma backward_navigation_witness :
  exists p h',
    ktrie_base.insert_internal 8 0 4096 (key_of_string "only key") 7
      (heap_after (ktrie_base.construct empty_heap) empty_heap) = Ok (p, true) h'
    /\ ktrie_base.last_internal 8 4096 h'
       = Ok (if bytes_le (key_of_string "only key") ktrie_base.max_key
             then Some (key_of_string "only key", p) else None) h'
    /\ forall key',
         ktrie_base.prev_item_internal 8 4096 key' h'
         = Ok (if bytes_lt (key_of_string "only key") key'
               then Some (key_of_string "only key", p) else None) h'.
Proof.
  apply (backward_navigation_over_a_single_key 8 4096 7 0 (key_of_string "only key")
           (heap_after (ktrie_base.construct empty_heap) empty_heap)).
  - lia.
  - repeat constructor; unfold is_byte; lia.
  - vm_compute. reflexivity.
  - reflexivity.
  - reflexivity.
  - discriminate.
  - vm_compute. reflexivity.
  - vm_compute. split; reflexivity.
Defined.

End SingleKeyNavigation.

(** ** Updating a reference through a flag carrier *)

Lemma get_ptr_set_ptr (raw p : Z) :
  dirty_high_pointer.get_ptr (dirty_high_pointer.set_ptr raw p) = p mod 2 ^ 59.
Proof. bits. cases n. Qed.

Lemma get_byte_set_ptr (raw p : Z) :
  0 <= raw < 2 ^ 64 ->
  dirty_high_pointer.get_byte (dirty_high_pointer.set_ptr raw p)
  = dirty_high_pointer.get_byte raw.
Proof.
  intros Hraw. bits. cases n.
  symmetry. apply testbit_high64; [assumption|lia].
Qed.

Lemma get_ptr_set_byte (raw x : Z) :
  dirty_high_pointer.get_ptr (dirty_high_pointer.set_byte raw x)
  = dirty_high_pointer.get_ptr raw.
Proof. bits. cases n. neg_bit. Qed.

Lemma get_byte_set_byte (raw x : Z) :
  dirty_high_pointer.get_byte (dirty_high_pointer.set_byte raw x) = x mod 32.
Proof. bits. cases n. Qed.

(** X27: [set_flags_and_ptr] leaves the new pointer in the reference node
    and the new flags in the carrier; the reference node keeps its own
    flags unless the carrier is a pointer, in which case it takes the new
    flags too, even when the carrier is another node.  [set_child_ptr]
    replaces the pointer of the reference node and keeps its flags.
    Nothing but the two nodes is written. *)
Theorem set_flags_and_ptr_updates_carrier_and_reference
        (fl : flags_location.t) (ref f child w wn : Z) (h : heap) :
  flags_location.node_ fl <> 0 ->
  mem h !! flags_location.node_ fl = Some wn ->
  mem h !! ref = Some w -> 0 <= w < 2 ^ 64 ->
  flags_location.loc_ fl = flags_location.in_ptr \/ flags_location.node_ fl <> ref ->
  0 <= f < 32 ->
  (exists h' w',
     flags_location.set_flags_and_ptr fl ref f child h = Ok tt h'
     /\ mem h' !! ref = Some w'
     /\ dirty_high_pointer.get_ptr w' = child mod 2 ^ 59
     /\ dirty_high_pointer.get_byte w'
        = (if flags_location.type_eqb (flags_location.loc_ fl) flags_location.in_ptr
           then f else dirty_high_pointer.get_byte w)
     /\ flags_location.get fl h' = Ok f h'
     /\ forall a, a <> ref -> a <> flags_location.node_ fl -> mem h' !! a = mem h !! a)
  /\ (exists h' w',
        flags_location.set_child_ptr fl ref child h = Ok tt h'
        /\ mem h' !! ref = Some w'
        /\ dirty_high_pointer.get_ptr w' = child mod 2 ^ 59
        /\ dirty_high_pointer.get_byte w' = dirty_high_pointer.get_byte w
        /\ forall a, a <> ref -> mem h' !! a = mem h !! a).
Proof.
  intros Hn Hm Hr Hw Hloc Hf. split.
  - unfold flags_location.set_flags_and_ptr.
    unfold mbind at 1. rewrite (set_mapped fl wn) by assumption.
    set (w1 := rewritten (flags_location.loc_ fl) wn f).
    destruct (Z.eq_dec (flags_location.node_ fl) ref) as [E|E].
    + destruct Hloc as [Hloc|Hloc]; [|contradiction].
      assert (wn = w) by congruence. subst wn.
      unfold mbind, load. cbn [mem]. rewrite E, lookup_insert_eq. cbv beta iota.
      unfold store. cbn [mem]. rewrite lookup_insert_eq. cbv beta iota.
      rewrite Hloc. cbn [flags_location.type_eqb].
      eexists. eexists. split; [reflexivity|]. cbn [mem].
      split; [apply lookup_insert_eq|].
      split; [rewrite get_ptr_set_byte; apply get_ptr_set_ptr|].
      split; [rewrite get_byte_set_byte; apply Z.mod_small; lia|].
      split.
      * rewrite (get_mapped fl (dirty_high_pointer.set_byte
                                  (dirty_high_pointer.set_ptr w1 child) f));
          [|assumption|cbn [mem]; rewrite E; apply lookup_insert_eq].
        rewrite Hloc. cbn [carried]. rewrite get_byte_set_byte.
        f_equal. apply Z.mod_small. lia.
      * intros a Ha _. rewrite !lookup_insert_ne by congruence. reflexivity.
    + unfold mbind, load. cbn [mem]. rewrite lookup_insert_ne by exact E.
      rewrite Hr. cbv beta iota.
      unfold store. cbn [mem]. rewrite lookup_insert_ne by exact E.
      rewrite Hr. cbv beta iota.
      eexists. eexists. split; [reflexivity|]. cbn [mem].
      split; [apply lookup_insert_eq|].
      split.
      { destruct (flags_location.type_eqb (flags_location.loc_ fl) flags_location.in_ptr);
          [rewrite get_ptr_set_byte|]; apply get_ptr_set_ptr. }
      split.
      { destruct (flags_location.type_eqb (flags_location.loc_ fl) flags_location.in_ptr).
        - rewrite get_byte_set_byte. apply Z.mod_small. lia.
        - apply get_byte_set_ptr, Hw. }
      split.
      * rewrite (get_mapped fl w1);
          [|assumption
           |cbn [mem]; rewrite lookup_insert_ne by congruence; apply lookup_insert_eq].
        unfold w1. rewrite carried_rewritten by assumption. reflexivity.
      * intros a Ha Ha'. rewrite !lookup_insert_ne by congruence. reflexivity.
  - unfold flags_location.set_child_ptr, mbind, load. rewrite Hr. cbv beta iota.
    unfold store. rewrite Hr.
    eexists. eexists. split; [reflexivity|]. cbn [mem].
    split; [apply lookup_insert_eq|].
    split; [apply get_ptr_set_ptr|].
    split; [apply get_byte_set_ptr, Hw|].
    intros a Ha. rewrite lookup_insert_ne by congruence. reflexivity.
Qed.

Lemma set_flags_and_ptr_witness :
  (exists h' w',
     flags_location.set_flags_and_ptr (flags_location.mk flags_location.in_hop 4120)
                                      4096 1 4160 scenarios.one_key = Ok tt h'
     /\ mem h' !! 4096 = Some w'
     /\ dirty_high_pointer.get_ptr w' = 4160 mod 2 ^ 59
     /\ dirty_high_pointer.get_byte w'
        = dirty_high_pointer.get_byte 2305843009213698072
     /\ flags_location.get (flags_location.mk flags_location.in_hop 4120) h' = Ok 1 h'
     /\ forall a, a <> 4096 -> a <> 4120 -> mem h' !! a = mem scenarios.one_key !! a)
  /\ (exists h' w',
        flags_location.set_child_ptr (flags_location.mk flags_location.in_hop 4120)
                                     4096 4160 scenarios.one_key = Ok tt h'
        /\ mem h' !! 4096 = Some w'
        /\ dirty_high_pointer.get_ptr w' = 4160 mod 2 ^ 59
        /\ dirty_high_pointer.get_byte w'
           = dirty_high_pointer.get_byte 2305843009213698072
        /\ forall a, a <> 4096 -> mem h' !! a = mem scenarios.one_key !! a).
Proof.
  apply (set_flags_and_ptr_updates_carrier_and_reference
           (flags_location.mk flags_location.in_hop 4120) 4096 1 4160
           2305843009213698072 7017171169396654338 scenarios.one_key).
  - cbn. lia.
  - vm_compute. reflexivity.
  - vm_compute. reflexivity.
  - lia.
  - right. cbn. lia.
  - lia.
Defined.

(** ** The first key of a fixed-length trie *)

Section FirstFixedKey.
Import insert_helper.

Ltac hb3 :=
  repeat match goal with
         | |- context [has_bit ?a ?b] =>
             let v := eval vm_compute in (has_bit a b) in
             match v with
             | true => change (has_bit a b) with true
             | false => change (has_bit a b) with false
             end
         end;
  cbn [andb orb negb].

(** Matching a key against the run of the only key's array. *)
Lemma find_run_first_key (nn value : Z) (key key' : list Z) (h' : heap) :
  Forall is_byte key -> Forall is_byte key' -> zlen key < 2 ^ 59 ->
  zlen key <> 0 ->
  (forall i, (i < List.length (tail_array key value))%nat ->
             mem h' !! idx nn (Z.of_nat i) = Some (nth i (tail_array key value) 0)) ->
  ktrie_base.find_run nn (tail_flags key) key' h'
  = Ok (if bytes_eqb key (firstn (List.length key) key')
        then Some (idx nn (zlen (tail_array key value) - 1), eos_bit,
                   skipn (List.length key) key')
        else None) h'.
Proof.
  intros Hk Hk' Hsz Hz Harr.
  pose proof (tail_array_length key value) as Hlen.
  assert (H0 : mem h' !! nn = Some (nth 0 (tail_array key value) 0)).
  { specialize (Harr 0%nat). unfold idx in Harr.
    rewrite Z.mul_0_r, Z.add_0_r in Harr. apply Harr.
    apply tail_array_nonempty. }
  assert (Hzl : 0 <= zlen key) by (unfold zlen; lia).
  rewrite Hlen. clear Hlen.
  unfold tail_flags, tail_array in *. cbv zeta in *.
  destruct (Z.eqb_spec (zlen key) 0) as [|_]; [contradiction|].
  destruct (Z.leb_spec (zlen key) t_hop.max_hop) as [Hle|Hgt].
  - unfold t_hop.max_hop in Hle. cbn [nth] in H0.
    unfold ktrie_base.find_run. hb3.
    unfold mbind at 1. rewrite (load_mapped _ _ _ H0).
    unfold mbind at 1, assert, t_hop.matches_ok.
    rewrite get_hop_sz_make by (try assumption; unfold eos_bit; lia).
    unfold from_char_len_ok.
    destruct (Z.ltb_spec 0 (zlen key)); [|lia].
    destruct (Z.ltb_spec (zlen key) 8); [|lia].
    cbn [andb]. rewrite orb_true_r. unfold mret at 1. cbv beta iota.
    pose proof (matches_make_iff key key' (zlen key) eos_bit (zlen key')
                  Hk ltac:(lia) ltac:(lia) ltac:(unfold eos_bit; lia)
                  Hk' ltac:(lia)) as Hm.
    rewrite (firstn_all2 key) in Hm by (unfold zlen; lia).
    replace (Z.to_nat (zlen key)) with (List.length key) in * by (unfold zlen; lia).
    destruct (t_hop.matches _ key' (zlen key')) eqn:Em; cbn [negb].
    + destruct (proj1 Hm eq_refl) as [Hl Hpre].
      rewrite Hpre, bytes_eqb_refl.
      rewrite get_new_flags_make by (try assumption; unfold eos_bit; lia).
      reflexivity.
    + rewrite bytes_eqb_neq; [reflexivity|].
      intros Heq. assert (false = true); [|discriminate].
      apply Hm. split; [|symmetry; exact Heq].
      rewrite Heq. unfold zlen. rewrite length_firstn. lia.
  - unfold t_hop.max_hop in Hgt. cbn [nth] in H0.
    set (chunks := chunks8 (List.length key) key) in *.
    assert (Hcl : zlen chunks = t_skip.num_skip_nodes (zlen key))
      by (apply chunks8_length; lia).
    destruct (t_skip_make_fields (zlen key) eos_bit) as [Esl Esf].
    rewrite Z.mod_small in Esl by lia.
    change (eos_bit mod 32) with eos_bit in Esf.
    unfold ktrie_base.find_run. hb3.
    unfold mbind at 1. rewrite (load_mapped _ _ _ H0). cbv zeta.
    rewrite Esl, Esf.
    destruct (Z.ltb_spec (zlen key') (zlen key)) as [Hshort|Hlong].
    { rewrite bytes_eqb_neq; [reflexivity|].
      intros Heq. assert (Hl : List.length key = List.length (firstn (List.length key) key'))
        by (rewrite <- Heq; reflexivity).
      rewrite length_firstn in Hl. unfold zlen in *. lia. }
    unfold mbind at 1, do_find_skip, mbind at 1, read_bytes.
    destruct (Z.ltb_spec (zlen key) 0); [lia|].
    unfold mbind at 1.
    replace (Z.to_nat ((zlen key + 7) / 8)) with (List.length chunks)
      by (unfold t_skip.num_skip_nodes, zlen in *; lia).
    rewrite load_n_reads.
    2:{ intros i Hi.
        replace (idx (idx nn 1) (Z.of_nat i)) with (idx nn (Z.of_nat (S i)))
          by (unfold idx; lia).
        rewrite Harr by (cbn [List.length]; rewrite length_app; cbn [List.length]; lia).
        cbn [nth]. rewrite app_nth1 by exact Hi. reflexivity. }
    unfold mret at 1 2. cbv beta iota.
    replace (Z.to_nat (zlen key)) with (List.length key) by (unfold zlen; lia).
    unfold chunks. rewrite chunks8_decode by (try exact Hk; lia).
    destruct (bytes_eqb key (firstn (List.length key) key')); cbn [negb];
      [|reflexivity].
    unfold mret. do 4 f_equal. unfold idx. lia.
Qed.

Lemma find_fixed_first_key (fuel : nat) (fixed_len this nn hw value : Z)
      (key key' : list Z) (h' : heap) :
  (1 <= fuel)%nat -> 0 < fixed_len -> zlen key = fixed_len ->
  Forall is_byte key -> Forall is_byte key' -> zlen key < 2 ^ 59 ->
  mem h' !! ktrie_base.cnt_ this = Some 1 ->
  mem h' !! ktrie_base.head_ this = Some hw ->
  dirty_high_pointer.get_both hw = (nn, tail_flags key) ->
  (forall i, (i < List.length (tail_array key value))%nat ->
             mem h' !! idx nn (Z.of_nat i) = Some (nth i (tail_array key value) 0)) ->
  ktrie_base.find_internal fuel fixed_len this key' h'
  = Ok (if bytes_eqb key' key then idx nn (zlen (tail_array key value) - 1) else 0) h'.
Proof.
  intros Hfuel Hfl Hlen Hk Hk' Hsz Hcnt Hhead Hboth Harr.
  destruct fuel as [|fuel]; [lia|].
  unfold ktrie_base.find_internal, mbind at 1, load. rewrite Hcnt.
  change (1 =? 0) with false. cbv beta iota.
  unfold mbind at 1, load. rewrite Hhead. cbv beta iota. rewrite Hboth.
  cbn [ktrie_base.find_loop].
  destruct (Z.gtb_spec fixed_len 0) as [_|]; [|lia].
  unfold ktrie_base.find_fixed_prefix.
  assert (Hrun : has_bit (tail_flags key) run_bits = true).
  { unfold tail_flags. cbv zeta.
    destruct (Z.eqb_spec (zlen key) 0); [lia|].
    destruct (zlen key <=? t_hop.max_hop); reflexivity. }
  rewrite Hrun. unfold mbind at 1 2.
  rewrite (find_run_first_key nn value key key') by (assumption || lia).
  destruct (bytes_eqb key (firstn (List.length key) key')) eqn:Eq.
  - apply bytes_eqb_eq in Eq. hb3.
    destruct (Z.eqb_spec (zlen (skipn (List.length key) key')) 0) as [E|E].
    + apply zlen_nil_iff in E.
      assert (key' = key)
        by (rewrite <- (firstn_skipn (List.length key) key'), E, <- Eq; apply app_nil_r).
      subst key'. rewrite bytes_eqb_refl. reflexivity.
    + rewrite bytes_eqb_neq; [reflexivity|].
      intros ->. apply E. unfold zlen. rewrite length_skipn. lia.
  - rewrite bytes_eqb_neq; [reflexivity|].
    intros ->. rewrite firstn_all, bytes_eqb_refl in Eq. discriminate.
Qed.

(** X28: in a trie of fixed-length keys, the first key inserted is found
    again with its value and no other key is found. *)
Theorem first_insert_then_find_fixed_length
        (fuel : nat) (fixed_len this value w : Z) (key : list Z) (h : heap) :
  (1 <= fuel)%nat ->
  0 < fixed_len < 2 ^ 59 -> zlen key = fixed_len -> Forall is_byte key ->
  mem h !! ktrie_base.cnt_ this = Some 0 ->
  mem h !! ktrie_base.head_ this = Some w ->
  budget h <> Some 0%nat ->
  this + 8 < brk h -> 0 < brk h < 2 ^ 59 ->
  exists p h',
    ktrie_base.insert_internal fuel fixed_len this key value h = Ok (p, true) h'
    /\ p <> 0
    /\ load p h' = Ok (wrap64 value) h'
    /\ ktrie_base.size this h' = Ok 1 h'
    /\ forall key', Forall is_byte key' ->
                    ktrie_base.find_internal fuel fixed_len this key' h'
                    = Ok (if bytes_eqb key' key then p else 0) h'.
Proof.
  intros Hfuel Hfl Hlen Hk Hcnt Hhead Hbudget Hthis Hbrk.
  exists (idx (brk h) (zlen (tail_array key value) - 1)).
  exists (first_key_heap this key value w h).
  pose proof (tail_array_nonempty key value) as Hne.
  split; [apply insert_into_empty; assumption|].
  split; [unfold idx, zlen; lia|].
  split; [|split].
  - apply load_mapped.
    replace (zlen (tail_array key value) - 1)
      with (Z.of_nat (List.length (tail_array key value) - 1))
      by (unfold zlen; lia).
    rewrite first_key_heap_array by (assumption || lia).
    f_equal. apply tail_array_last.
  - apply load_mapped, first_key_heap_cnt.
  - intros key' Hk'.
    apply (find_fixed_first_key fuel fixed_len this (brk h)
             (dirty_high_pointer.set_byte
                (dirty_high_pointer.set_ptr w (brk h)) (tail_flags key))
             value key key'); try assumption; try lia.
    + apply first_key_heap_cnt.
    + apply first_key_heap_head, Hthis.
    + apply get_both_of_new_root; [lia|apply tail_flags_small].
    + intros i Hi. apply first_key_heap_array; assumption.
Qed.

Lemma first_insert_then_find_fixed_length_witness :
  exists p h',
    ktrie_base.insert_internal 8 4 4096 (cvt_signed.bitcvt 4 (-5)) 7
      (heap_after (ktrie_base.construct empty_heap) empty_heap) = Ok (p, true) h'
    /\ p <> 0
    /\ load p h' = Ok (wrap64 7) h'
    /\ ktrie_base.size 4096 h' = Ok 1 h'
    /\ forall key', Forall is_byte key' ->
                    ktrie_base.find_internal 8 4 4096 key' h'
                    = Ok (if bytes_eqb key' (cvt_signed.bitcvt 4 (-5)) then p else 0) h'.
Proof.
  apply (first_insert_then_find_fixed_length 8 4 4096 7 0 (cvt_signed.bitcvt 4 (-5))
           (heap_after (ktrie_base.construct empty_heap) empty_heap)).
  - lia.
  - lia.
  - reflexivity.
  - vm_compute. repeat constructor; discriminate.
  - reflexivity.
  - reflexivity.
  - discriminate.
  - vm_compute. reflexivity.
  - vm_compute. split; reflexivity.
Defined.

End FirstFixedKey.

(** ** Inserting the only key again *)

Section DuplicateKey.
Import insert_helper.

Ltac hb4 :=
  repeat match goal with
         | |- context [has_bit ?a ?b] =>
             let v := eval vm_compute in (has_bit a b) in
             match v with
             | true => change (has_bit a b) with true
             | false => change (has_bit a b) with false
             end
         end;
  cbn [andb orb negb].

Lemma find_mismatch_from_self (a rest : list Z) (i : Z) :
  t_hop.find_mismatch_from (a ++ rest) a (List.length a) i = i + Z.of_nat (List.length a).
Proof.
  revert i; induction a as [|x a IH]; intros i.
  - destruct rest; cbn [app List.length t_hop.find_mismatch_from]; lia.
  - cbn [app List.length t_hop.find_mismatch_from]. rewrite Z.eqb_refl, IH. lia.
Qed.

Lemma common_prefix_self (a : list Z) (i : Z) :
  common_prefix a a (List.length a) i = i + Z.of_nat (List.length a).
Proof.
  revert i; induction a as [|x a IH]; intros i.
  - cbn [List.length common_prefix]. lia.
  - cbn [List.length common_prefix]. rewrite Z.eqb_refl, IH. lia.
Qed.

Lemma prefix_loop_at_eos (fuel : nat) (m : modify_data) (t : insert_update_ret)
      (do_update : bool) (h : heap) :
  flags m = eos_bit -> add_val t = [] ->
  prefix_loop (S fuel) m t do_update h
  = (t' <- found_at m t do_update ;; mret (Done t')) h.
Proof.
  intros Hf Ht. cbn [prefix_loop]. rewrite Hf. hb4.
  unfold exhausted. rewrite Ht. reflexivity.
Qed.

Lemma prefix_loop_run (fuel : nat) (m : modify_data) (t : insert_update_ret)
      (do_update : bool) (h : heap) :
  has_bit (flags m) prefix_bits = true -> has_bit (flags m) eos_bit = false ->
  has_bit (flags m) run_bits = true ->
  prefix_loop (S fuel) m t do_update h
  = (r <- run_step fuel m t ;;
     match r with
     | Done t' => mret (Done t')
     | Next (m', t') => prefix_loop fuel m' t' do_update
     end) h.
Proof.
  intros H1 H2 H3. cbn [prefix_loop]. rewrite H1, H2. cbn [andb]. cbv iota.
  rewrite H3. reflexivity.
Qed.

Section Array.
Variables (nn value : Z) (key : list Z) (h' : heap).
Hypothesis Hk : Forall is_byte key.
Hypothesis Hsz : zlen key < 2 ^ 59.
Hypothesis Harr :
  forall i, (i < List.length (tail_array key value))%nat ->
            mem h' !! idx nn (Z.of_nat i) = Some (nth i (tail_array key value) 0).

Local Abbreviation p := (idx nn (zlen (tail_array key value) - 1)).

(** The heap after the value of the only key has been overwritten. *)
Local Abbreviation updated v :=
  (mk_heap (<[p := wrap64 v]> (mem h')) (brk h') (budget h')).

Lemma value_slot_mapped : mem h' !! p = Some (wrap64 value).
Proof.
  pose proof (tail_array_nonempty key value) as Hne.
  replace (zlen (tail_array key value) - 1)
    with (Z.of_nat (List.length (tail_array key value) - 1))
    by (unfold zlen; lia).
  rewrite Harr by lia. f_equal. apply tail_array_last.
Qed.

Lemma found_at_value_slot (m : modify_data) (t : insert_update_ret)
      (do_update : bool) :
  run m = p ->
  found_at m t do_update h'
  = Ok (mk_ret (add_val t) (add_ptr t) (tail_ptr t) p 0)
       (if do_update then updated (add_ptr t) else h').
Proof.
  intros Hrun. unfold found_at, node.get_data_ptr. rewrite Hrun.
  destruct do_update.
  - unfold mbind, node.update_data, store. rewrite value_slot_mapped. reflexivity.
  - reflexivity.
Qed.

Lemma run_step_first_key (fuel : nat) (m : modify_data) (t : insert_update_ret) :
  zlen key <> 0 ->
  flags m = tail_flags key -> run m = nn -> add_val t = key ->
  exists m',
    run_step fuel m t h' = Ok (Next (m', with_add_val t [])) h'
    /\ flags m' = eos_bit /\ run m' = p.
Proof.
  intros Hz Hf Hrun Hadd.
  pose proof (load_first_word nn value key h' Harr) as H0.
  unfold idx in H0. rewrite Z.mul_0_r, Z.add_0_r in H0.
  rewrite tail_array_length.
  assert (Hzl : 0 <= zlen key) by (unfold zlen; lia).
  unfold run_step. rewrite Hf, Hrun, Hadd.
  unfold tail_flags, tail_array in *. cbv zeta in *.
  destruct (Z.eqb_spec (zlen key) 0) as [|_]; [contradiction|].
  destruct (Z.leb_spec (zlen key) t_hop.max_hop) as [Hle|Hgt].
  - unfold t_hop.max_hop in Hle. cbn [nth] in H0. hb4.
    unfold mbind at 1. rewrite H0. cbv zeta.
    unfold t_hop.find_mismatch.
    rewrite get_hop_sz_make, to_char_static_make, get_new_flags_make
      by (try assumption; unfold eos_bit; lia).
    rewrite Z.min_id.
    unfold hop_image. replace (Z.to_nat (zlen key)) with (List.length key)
      by (unfold zlen; lia).
    rewrite firstn_all, find_mismatch_from_self.
    destruct (Z.ltb_spec (0 + Z.of_nat (List.length key)) (zlen key)) as [Hlt|_];
      [unfold zlen in Hlt; lia|].
    rewrite skipn_all.
    eexists. split; [reflexivity|]. cbn [flags run after_run].
    split; [reflexivity|]. f_equal.
  - unfold t_hop.max_hop in Hgt. cbn [nth] in H0. hb4.
    destruct (t_skip_make_fields (zlen key) eos_bit) as [Esl Esf].
    rewrite Z.mod_small in Esl by lia.
    change (eos_bit mod 32) with eos_bit in Esf.
    unfold mbind at 1. rewrite H0. cbv zeta.
    rewrite Esl, Esf. cbn [run with_run].
    set (chunks := chunks8 (List.length key) key) in *.
    assert (Hcl : zlen chunks = t_skip.num_skip_nodes (zlen key))
      by (apply chunks8_length; lia).
    assert (Hread : forall i, (i < List.length chunks)%nat ->
              mem h' !! idx (idx nn 1) (Z.of_nat i) = Some (nth i chunks 0)).
    { intros i Hi.
      replace (idx (idx nn 1) (Z.of_nat i)) with (idx nn (Z.of_nat (S i)))
        by (unfold idx; lia).
      rewrite Harr by (cbn [List.length]; rewrite length_app; cbn [List.length]; lia).
      cbn [nth]. rewrite app_nth1 by exact Hi. reflexivity. }
    assert (Hpos : 0 < t_skip.num_skip_nodes (zlen key)).
    { unfold t_skip.num_skip_nodes. apply Z.div_str_pos. lia. }
    assert (Hsk : skip_bytes (idx nn 1) (zlen key) h' = Ok key h').
    { unfold skip_bytes, mbind at 1, load_words.
      destruct (Z.leb_spec (t_skip.num_skip_nodes (zlen key)) 0); [lia|].
      unfold mbind at 1.
      rewrite (load_mapped _ (nth (List.length chunks - 1) chunks 0)).
      2:{ replace (t_skip.num_skip_nodes (zlen key) - 1)
            with (Z.of_nat (List.length chunks - 1)) by (unfold zlen in *; lia).
          apply Hread. unfold zlen in *. lia. }
      replace (Z.to_nat (t_skip.num_skip_nodes (zlen key))) with (List.length chunks)
        by (unfold zlen in *; lia).
      rewrite load_n_reads by exact Hread.
      unfold mret.
      replace (Z.to_nat (zlen key)) with (List.length key) by (unfold zlen; lia).
      unfold chunks. rewrite chunks8_decode by (try exact Hk; lia). reflexivity. }
    unfold mbind at 1. rewrite Hsk. cbv beta iota.
    rewrite Z.min_id.
    replace (Z.to_nat (zlen key)) with (List.length key) by (unfold zlen; lia).
    rewrite common_prefix_self.
    destruct (Z.ltb_spec (0 + Z.of_nat (List.length key)) (zlen key)) as [Hlt|_];
      [unfold zlen in Hlt; lia|].
    rewrite skipn_all.
    eexists. split; [reflexivity|]. cbn [flags run after_run with_run].
    split; [reflexivity|]. unfold idx. lia.
Qed.

Lemma insert_update_loop_only_key (fuel : nat) (fixed_len : Z) (m : modify_data)
      (t : insert_update_ret) (do_update : bool) :
  fixed_len = 0 \/ (0 < fixed_len /\ zlen key = fixed_len) ->
  flags m = tail_flags key -> run m = nn -> add_val t = key ->
  insert_update_loop (S (S (S fuel))) fixed_len m t do_update h'
  = Ok (mk_ret [] (add_ptr t) (tail_ptr t) p 0)
       (if do_update then updated (add_ptr t) else h').
Proof.
  intros Hfl Hf Hrun Hadd.
  cbn [insert_update_loop].
  destruct Hfl as [->|[Hpos Hlen]].
  - change (0 >? 0) with false. cbv iota.
    destruct (Z.eq_dec (zlen key) 0) as [Hz|Hz].
    + assert (Hp : p = nn).
      { rewrite tail_array_length, Hz. change (0 =? 0) with true. cbv iota.
        unfold idx. lia. }
      assert (Hfe : flags m = eos_bit).
      { rewrite Hf. unfold tail_flags. cbv zeta. rewrite Hz. reflexivity. }
      apply zlen_nil_iff in Hz.
      unfold mbind at 1.
      rewrite prefix_loop_at_eos by (try assumption; congruence).
      unfold mbind at 1.
      rewrite found_at_value_slot by congruence.
      rewrite Hadd, Hz. reflexivity.
    + destruct (run_step_first_key (S fuel) m t Hz Hf Hrun Hadd)
        as (m' & Hstep & Hf' & Hrun').
      assert (Hbits : has_bit (flags m) prefix_bits = true
                      /\ has_bit (flags m) eos_bit = false
                      /\ has_bit (flags m) run_bits = true).
      { rewrite Hf. unfold tail_flags. cbv zeta.
        destruct (Z.eqb_spec (zlen key) 0); [contradiction|].
        destruct (zlen key <=? t_hop.max_hop); repeat split; reflexivity. }
      destruct Hbits as (B1 & B2 & B3).
      unfold mbind at 1.
      rewrite prefix_loop_run by assumption.
      unfold mbind at 1. rewrite Hstep. cbv beta iota.
      rewrite prefix_loop_at_eos by (try assumption; reflexivity).
      unfold mbind at 1.
      rewrite found_at_value_slot by assumption.
      reflexivity.
  - destruct (Z.gtb_spec fixed_len 0) as [_|]; [|lia].
    assert (Hz : zlen key <> 0) by lia.
    destruct (run_step_first_key (S (S fuel)) m t Hz Hf Hrun Hadd)
      as (m' & Hstep & Hf' & Hrun').
    assert (B3 : has_bit (flags m) run_bits = true).
    { rewrite Hf. unfold tail_flags. cbv zeta.
      destruct (Z.eqb_spec (zlen key) 0); [contradiction|].
      destruct (zlen key <=? t_hop.max_hop); reflexivity. }
    unfold mbind at 1, fixed_prefix. rewrite B3.
    unfold mbind at 1. rewrite Hstep. cbv beta iota.
    rewrite Hf'. hb4. cbn [exhausted with_add_val add_val].
    unfold mbind at 1. rewrite found_at_value_slot by assumption.
    reflexivity.
Qed.

Lemma insert_again_only_key (fuel : nat) (fixed_len : Z) (do_update : bool)
      (this hw v : Z) :
  (3 <= fuel)%nat ->
  fixed_len = 0 \/ (0 < fixed_len /\ zlen key = fixed_len) ->
  mem h' !! ktrie_base.cnt_ this = Some 1 ->
  mem h' !! ktrie_base.head_ this = Some hw ->
  dirty_high_pointer.get_both hw = (nn, tail_flags key) ->
  ktrie_base.insert_with fuel fixed_len do_update this key v h'
  = Ok (p, false) (if do_update then updated v else h').
Proof.
  intros Hfuel Hfl Hcnt Hhead Hboth.
  destruct fuel as [|[|[|fuel]]]; try lia.
  unfold ktrie_base.insert_with. unfold mbind at 1, load. rewrite Hcnt.
  change (negb (1 =? 0)) with true. cbv beta iota.
  unfold mbind at 1 2, load. rewrite Hhead. cbv beta iota. rewrite Hboth.
  unfold mbind at 1.
  rewrite (insert_update_loop_only_key fuel fixed_len) by (reflexivity || assumption).
  cbn [cnt ret]. change (0 =? 0) with true. cbv beta iota.
  reflexivity.
Qed.

End Array.

(** X29: inserting the only key of a trie again reports
    [inserted = false] with the address of its value and writes nothing:
    the value first stored stays and the size stays 1. *)
Theorem insert_of_the_only_key_again
        (fuel : nat) (fixed_len this v1 v2 w : Z) (key : list Z) (h : heap) :
  (3 <= fuel)%nat ->
  fixed_len = 0 \/ (0 < fixed_len /\ zlen key = fixed_len) ->
  Forall is_byte key -> zlen key < 2 ^ 59 ->
  mem h !! ktrie_base.cnt_ this = Some 0 ->
  mem h !! ktrie_base.head_ this = Some w ->
  budget h <> Some 0%nat ->
  this + 8 < brk h -> 0 < brk h < 2 ^ 59 ->
  exists p h1,
    ktrie_base.insert_internal fuel fixed_len this key v1 h = Ok (p, true) h1
    /\ ktrie_base.insert_internal fuel fixed_len this key v2 h1 = Ok (p, false) h1
    /\ load p h1 = Ok (wrap64 v1) h1
    /\ ktrie_base.size this h1 = Ok 1 h1.
Proof.
  intros Hfuel Hfl Hk Hsz Hcnt Hhead Hbudget Hthis Hbrk.
  set (h1 := first_key_heap this key v1 w h).
  set (p := idx (brk h) (zlen (tail_array key v1) - 1)).
  exists p, h1.
  assert (Harr : forall i, (i < List.length (tail_array key v1))%nat ->
            mem h1 !! idx (brk h) (Z.of_nat i) = Some (nth i (tail_array key v1) 0))
    by (intros i Hi; apply first_key_heap_array; assumption).
  split; [apply insert_into_empty; assumption|].
  split.
  - apply (insert_again_only_key (brk h) v1 key h1 Hk Hsz Harr fuel fixed_len
             false this
             (dirty_high_pointer.set_byte
                (dirty_high_pointer.set_ptr w (brk h)) (tail_flags key)) v2);
      try assumption.
    + apply first_key_heap_cnt.
    + apply first_key_heap_head, Hthis.
    + apply get_both_of_new_root; [lia|apply tail_flags_small].
  - split; [apply load_mapped, value_slot_mapped; assumption|].
    apply load_mapped, first_key_heap_cnt.
Qed.

Lemma insert_of_the_only_key_again_witness :
  exists p h1,
    ktrie_base.insert_internal 8 0 4096 (key_of_string "again") 1
      (heap_after (ktrie_base.construct empty_heap) empty_heap) = Ok (p, true) h1
    /\ ktrie_base.insert_internal 8 0 4096 (key_of_string "again") 2 h1
       = Ok (p, false) h1
    /\ load p h1 = Ok (wrap64 1) h1
    /\ ktrie_base.size 4096 h1 = Ok 1 h1.
Proof.
  apply (insert_of_the_only_key_again 8 0 4096 1 2 0 (key_of_string "again")
           (heap_after (ktrie_base.construct empty_heap) empty_heap)).
  - lia.
  - left. reflexivity.
  - repeat constructor; unfold is_byte; lia.
  - vm_compute. reflexivity.
  - reflexivity.
  - reflexivity.
  - discriminate.
  - vm_compute. reflexivity.
  - vm_compute. split; reflexivity.
Defined.

End DuplicateKey.
